(* ===== verification/_CoqProject ===== *)
-Q . S2P
Prelude.v
CoreTypes.v
Interfaces.v
Text.v
Json.v
Effects.v
Channels.v
StateMachine.v
Topology.v
RoleEngine.v
Reporter.v
FileSys.v
Objects.v
Diff.v
Store.v
Pack.v
Protocol.v
BlobStore.v
StoreContract.v
ObjectTransport.v
RaftStorage.v
Swarm.v
RaftNet.v
RaftNode.v
RaftHistory.v
RuntimeLoop.v
CasFetch.v
Project.v
Sandbox.v
SandboxRun.v
Ipc.v
IpcServer.v
Config.v
Agent.v
AgentRun.v
AgentSecret.v
AgentNode.v
Node.v
Plugins.v
NodeLoops.v
RaftWire.v
EndToEnd.v
AgentEndToEnd.v
Cluster.v
ClusterSafety.v
SubmitProject.v
Timing.v
Bootstrap.v
Demos.v
Discovery.v
Process.v
ConformanceStorage.v
ConformanceNode.v
ConformanceClient.v
ConformanceAgent.v
