(* ===== verification/Prelude.v ===== *)
(** * Edge-Cloud Orchestrator: verification library, root file

    A shallow embedding of the Rust workspace under src/crates/: a cluster of nodes
    that find each other over libp2p, agree on membership and roles through raft,
    keep content-addressed objects, and send project snapshots to a node that can
    build and run them.

    ** The program and the files that model it

    - [CoreTypes]: crates/core (types.rs, error.rs, traits.rs): identifiers,
      descriptors, roles, project tasks and results, the error enum.
    - [StateMachine]: node/src/raft/state_machine.rs and proposal.rs: the replicated
      cluster state ([ClusterState], [apply]) and its abstract specification, a
      registry and a set of role assignments.
    - [Topology], [RoleEngine], [Reporter], [RuntimeLoop]: node/src/orchestration/:
      the diff between desired and current roles, failover, the cluster summary, the
      registration loop and the choice of an executor.
    - [FileSys]: the part of std::fs the stores use, as a map from paths to nodes and
      a list of faults injected into the next operations (torn writes included).
    - [Objects], [Diff], [Store], [Pack]: crates/storage: object hashing, tree diff,
      the local object store (store.rs) and pack files (index.rs); [ObjectTransport]:
      the stub of its transport (transport.rs).
    - [Json], [Interfaces]: JSON values, and the interfaces of code outside src/.
    - [Protocol]: p2p/src/protocol.rs: framing and codecs over a byte stream.
    - [BlobStore]: what the raft storage, the fetcher and the snapshots need of a
      blob store, as a class with laws; the local object store is an instance.
    - [StoreContract]: core/src/traits.rs: [ObjectStore], the map from hashes to objects
      it specifies, and the local store as a refinement of that map.
    - [Plugins]: the other traits (core/src/traits.rs, p2p/src/lib.rs) as classes, with
      the implementations on Linux and the stubs elsewhere.
    - [RaftStorage]: node/src/raft/storage.rs: the raft log kept as blobs, a hash
      table and an LRU cache, refined to a map from indices to entries; [RaftHistory]:
      its snapshots, entries that replace others, and a node that starts again.
    - [Channels], [Swarm]: p2p/src/swarm.rs: the event loop as a fold over the
      select! arms taken and the ends (or panics) of the jobs spawned beside it.
    - [RaftNet], [RaftNode]: node/src/raft/network.rs and node.rs: the transport, the
      peer registry, the processing of a ready, the node's loop.
    - [CasFetch]: node/src/cas_fetch.rs: fetches of missing blobs, cut at their
      awaits and interleaved with each other and with the swarm loop's deliveries.
    - [Project]: node/src/project_snapshot.rs, project_executor.rs and
      project_client.rs: packing, extraction, execution, submission, task status.
    - [Sandbox], [SandboxRun]: sandbox/src/pool.rs and qlean.rs: the pool policy, the
      settings, the worker that runs jobs on virtual machines (the qlean crate is a
      class), and the caller that sends it a job and awaits the reply.
    - [Ipc], [IpcServer]: node/src/ipc: the JSON-RPC methods over the project client, a
      connection, the socket and the accept loop.
    - [Config]: node/src/config.rs: loading, validation, descriptor, sandbox policy.
    - [Node], [NodeLoops]: node/src/bootstrap.rs: what the parts of a running node share,
      with the fetcher and the client as views of it, the event monitor and all that
      happens on a node; the bounded channels between the monitor and the swarm loop.
    - [Bootstrap]: bootstrap.rs, main.rs and cli.rs, and the construction of the swarm:
      the startup sequence, its preflight and its failures.
    - [Effects], [Agent]: crates/agent/src/main.rs: the command-line agent, as a tree of
      calls on its environment, each with a continuation for every answer.
    - [AgentRun], [AgentSecret], [AgentNode]: what every run of the agent does; what it
      does with the API key; the agent on the socket of a node's IPC server.
    - [SubmitProject]: node/examples/submit_project.rs, another client, on the same
      calls and against the same node.
    - [Process]: main.rs after the start, and signals.rs: the main task, signals, and
      the task of the IPC server beside it.
    - [Timing]: p2p/src/behaviour.rs: the exchanges and their request timeouts, and how
      long the sandbox takes to answer.
    - [EndToEnd]: a project from the node it is submitted on to the one that runs it;
      [AgentEndToEnd]: from the agent to the guest and back; [Discovery]: how an
      executor that starts is found; [RaftWire]: a raft message between participants.
    - [Cluster]: any number of nodes with their loops, the tasks, results and blobs on
      the way between them, and everything that can happen to them, as a step relation;
      [ClusterSafety]: what every run of it keeps.
    - [Demos]: print_peerid, and the demonstrations under scripts/ that compile.
    - [Text]: the methods of str the settings and requests are parsed with.
    - [ConformanceStorage], [ConformanceNode], [ConformanceClient],
      [ConformanceAgent]: the unit tests beside the code, as programs on the
      definitions above, which they pass: a check that the model behaves as the code
      was seen to behave.

    The parts call each other as the crates do: [RaftNode] applies committed
    proposals with [StateMachine.apply], persists through [RaftStorage] (over any
    [BlobStore]) and sends through [RaftNet], whose messages are [Swarm] commands;
    [CasFetch] lists its peers with [RaftNet] and sends [Swarm] commands; [Project]
    stores through [BlobStore] and resolves peers in the cluster state and registry;
    [Ipc] calls it, and [Config] configures the worker of [Sandbox].  [Node] puts one
    store, one command channel, one registry and one map of peers under the fetcher,
    the client and the monitor; [Bootstrap] makes such a node; [EndToEnd] joins two of
    them by the messages of their loops, [AgentNode] an agent to one, [AgentEndToEnd]
    that agent to the sandbox of an executor, [Discovery] a node that starts to one
    that runs, and [RaftWire] two raft tasks through their nodes.

    ** Modelling choices

    A fallible stateful operation is a function from a state to an [outcome] and a
    new state ([M] below): [Ok], [Err] or a panic, each with the effects made before
    it.  A [HashMap] is a [gmap] iterated in an order that depends on its contents
    and on a seed; a theorem holds for every such order.  A [BTreeMap] is iterated
    by key.  Texts are byte strings.  u64 additions of release builds wrap
    ([u64_add]).  Reserved memory is unlimited.  Locks are never poisoned, since
    each critical section of the source ends without a panic.  Time, random uuids
    and the results of jobs are arguments.  Log lines have no counterpart.  A loop
    over [select!] is a fold over the list of its wake-ups, so no fuel is needed;
    recursion is structural everywhere: the agent's walk is bounded by its own depth
    limit, its polls by the list of the 600 turns of its loop, its attempts by their
    number.  The two bounded channels of a node, and a cluster, are step relations, whose
    runs are their reflexive transitive closures; elsewhere a channel is the list of what was sent
    on it and the outcomes of the next sends.  serde_json, zlib, SHA-256, hex, uuid texts,
    the LRU crate, raft-rs, prost and tar are classes: operations, and laws of their
    documented behaviour where a theorem needs them (a round trip, a length, the
    absence of a collision among the byte strings a theorem names); each class has a
    concrete instance, used by the closed lemmas named [.._witness].  Paths are strings
    taken apart into components as std::path does.  A call under a timeout ends when
    it is over; in [Timing], a call without one takes at most a time named [slack].

    ** What the theorems show

    The theorems whose comments begin with C and a number are the properties of the
    program; the others are lemmas, and some theorems that exhibit a defect.
    - Consensus: the state machine refines its specification; replicas that receive
      the same committed entries agree; the storage implements the log; limits and
      compaction of the log; a snapshot is the whole log; what happens when nothing
      can be persisted, when an entry replaces another, and when a node starts again.
    - Orchestration: the topology diff is empty exactly at the goal and converges to
      it; failover reassigns what was lost; registration converges and stops; the
      choices do not depend on map orders.
    - Storage: the local store answers as a map from hashes to objects does; integrity
      and immutability under any faults, round trips of blobs,
      trees and packs, what object hashes identify, diffs as patches; and where the
      store fails: poisoned hashes, panics on short hashes, tags that shadow blobs.
    - Network: framing and codecs deliver what was sent, within their limits; every
      project request gets exactly one response, unless its job panics or its task
      id is reused while it runs.
    - Nodes: a node fails to start for a reason it names, and is what it says it is once
      started; it runs until a signal or the end of its events and then returns without
      an error, and the next process gets its socket whatever this one left; a light
      client routes by what its peers last said; an executor that starts is found and
      used; raft's messages arrive as they were sent; the two loops block each other
      exactly when both channels are full, which a large enough batch of discoveries
      makes inevitable.
    - Agent: its runs are bounded; it submits only plans with a run command; exit
      status 0 comes only from an exit code 0 the node reported; the API key reaches
      nothing but curl; a success it reports happened in a machine, with the workspace
      it submitted; when no result comes it gives up before the node does.
    - End to end: a project submitted on one node is built on another from exactly the
      directory that was packed, and its result comes back; and in a cluster, whatever
      happens, no node records a result that is not the answer to a submission, and none
      with exit code 0 that does not come from running what was submitted; and if only
      nodes of the cluster answer, a fetch brings what was submitted.
    - Projects: snapshots carry a directory; fetches terminate, leak nothing, wake
      everyone and, with honest peers, deliver what was asked for; the executor
      never builds anything but the snapshot; a submitted task is fetchable and is
      never pending forever; machines isolate tasks as configured, exit code 0 is
      never invented, the sandbox answers in a bounded time (within the window of the
      project protocol unless a pool is booted first), and a client of the JSON-RPC interface sees all of this.

    ** Not modelled

    The construction of libp2p's own objects (transport.rs, and of behaviour.rs all but
    the exchanges), a signal taken in the middle of a turn of the monitor, the parsing
    of command lines by clap, the start of the sandbox's thread beyond its outcome, the
    integration tests (real sockets and multicast), the demonstration qlean-demo, which
    does not compile, and the trait [Runtime], which nothing implements or calls.  In
    [Cluster] only the messages of the project and blob exchanges travel; what else
    libp2p reports is arbitrary (the requests of peers outside of the cluster for blobs,
    and their answers, too), and a job's unpacking and build are one step.  Of the unit tests, the one of packfiles writes a hundred objects
    here instead of a thousand, and those of configurations and topologies assume what
    serde_yaml reads of their texts.  IPC connections are served one after the other, and the raft participant keeps its own view of the store. *)

From stdpp Require Export base gmap strings pretty list fin_maps sorting.
From Stdlib Require Export NArith ZArith Lia Strings.Byte.
From Stdlib Require Export (notations) Strings.Ascii.

(** ** Results, panics and the state monad

    A Rust [Result] is [result]; a call that may also panic returns an
    [outcome].  A stateful operation is a function from the world it reads and
    writes to an outcome and the new world; a panic or an error keeps the
    effects made before it. *)

Inductive result (E A : Type) : Type :=
| Ok (a : A)
| Err (e : E).
Arguments Ok {E A} a.
Arguments Err {E A} e.

Inductive outcome (E A : Type) : Type :=
| Done (r : result E A)
| Panic (why : string).
Arguments Done {E A} r.
Arguments Panic {E A} why.

Definition M (W E A : Type) : Type := W → outcome E A * W.

Definition ret {W E A} (a : A) : M W E A := λ w, (Done (Ok a), w).
Definition raise {W E A} (e : E) : M W E A := λ w, (Done (Err e), w).
Definition panic {W E A} (why : string) : M W E A := λ w, (Panic why, w).

(** The [?] operator. *)
Definition bind {W E A B} (m : M W E A) (k : A → M W E B) : M W E B :=
  λ w, match m w with
       | (Done (Ok a), w') => k a w'
       | (Done (Err e), w') => (Done (Err e), w')
       | (Panic s, w') => (Panic s, w')
       end.

(** A fallible call whose error the caller inspects instead of propagating
    (a [match], [.ok()], [if let Err(e) = ..]). *)
Definition attempt {W E E' A} (m : M W E A) : M W E' (result E A) :=
  λ w, match m w with
       | (Done r, w') => (Done (Ok r), w')
       | (Panic s, w') => (Panic s, w')
       end.

(** [let _ = m] and [if let Err(e) = m { warn!(..) }]: the error is dropped. *)
Definition ignore_err {W E E' A} (m : M W E A) : M W E' unit :=
  λ w, match m w with
       | (Done _, w') => (Done (Ok tt), w')
       | (Panic s, w') => (Panic s, w')
       end.

(** [.map_err(f)]. *)
Definition map_err {W E E' A} (f : E → E') (m : M W E A) : M W E' A :=
  λ w, match m w with
       | (Done (Ok a), w') => (Done (Ok a), w')
       | (Done (Err e), w') => (Done (Err (f e)), w')
       | (Panic s, w') => (Panic s, w')
       end.

Definition lift_result {W E A} (r : result E A) : M W E A := λ w, (Done r, w).

Definition result_map_err {E E' A} (f : E → E') (r : result E A) : result E' A :=
  match r with Ok a => Ok a | Err e => Err (f e) end.

Definition result_ok {E A} (r : result E A) : option A :=
  match r with Ok a => Some a | Err _ => None end.

Definition is_ok {E A} (r : result E A) : bool :=
  match r with Ok _ => true | Err _ => false end.

Definition ok_or {E A} (e : E) (o : option A) : result E A :=
  match o with Some a => Ok a | None => Err e end.

Definition rbind {E A B} (r : result E A) (k : A → result E B) : result E B :=
  match r with Ok a => k a | Err e => Err e end.

(** Sequencing a list of effects, for the source's [for] loops with [?]. *)
Fixpoint mfor {W E A} (f : A → M W E unit) (l : list A) : M W E unit :=
  match l with
  | [] => ret tt
  | x :: l => bind (f x) (λ _, mfor f l)
  end.

Declare Scope eo_scope.
Delimit Scope eo_scope with eo.
Notation "'let!' x ':=' m 'in' k" := (bind m (λ x, k))
  (at level 10, x pattern, m at level 100, k at level 200) : eo_scope.
Notation "'let?' x ':=' m 'in' k" := (rbind m (λ x, k))
  (at level 10, x pattern, m at level 100, k at level 200) : eo_scope.
Open Scope eo_scope.

Definition no_panic {W E A} (m : M W E A) : Prop := ∀ w s, (m w).1 ≠ Panic s.

Lemma ignore_err_total {W E E' A} (m : M W E A) w :
  no_panic m → (ignore_err m w : outcome E' unit * W) = (Done (Ok tt), (m w).2).
Proof.
  intros Hp. specialize (Hp w). unfold ignore_err. destruct (m w) as [[r|s] w']; [done|].
  by destruct (Hp s).
Qed.

(** A loop that ignores failures always completes, threading the state. *)
Lemma mfor_ignore_err {W E E' A B} (f : A → M W E B) l w :
  (∀ x, no_panic (f x)) →
  mfor (λ x, ignore_err (f x)) l w =
  (Done (Ok tt) : outcome E' unit, foldl (λ w x, (f x w).2) w l).
Proof.
  intros Hp. revert w. induction l as [|x l IH]; intros w; [done|].
  simpl. unfold bind. rewrite ignore_err_total by done. apply IH.
Qed.

Lemma bind_ok {W E A B} (m : M W E A) (k : A → M W E B) w a w' :
  m w = (Done (Ok a), w') → bind m k w = k a w'.
Proof. unfold bind. by intros ->. Qed.

Lemma bind_err {W E A B} (m : M W E A) (k : A → M W E B) w e w' :
  m w = (Done (Err e), w') → bind m k w = (Done (Err e), w').
Proof. unfold bind. by intros ->. Qed.

Lemma bind_ok_inv {W E A B} (m : M W E A) (k : A → M W E B) w b w'' :
  bind m k w = (Done (Ok b), w'') →
  ∃ a w', m w = (Done (Ok a), w') ∧ k a w' = (Done (Ok b), w'').
Proof.
  unfold bind. destruct (m w) as [[[a|e]|s] w'] eqn:Hm; intros; simplify_eq. eauto.
Qed.

Lemma map_err_ok_inv {W E E' A} (f : E → E') (m : M W E A) w a w' :
  map_err f m w = (Done (Ok a), w') → m w = (Done (Ok a), w').
Proof.
  unfold map_err. destruct (m w) as [[[?|?]|?] ?]; intros; simplify_eq. done.
Qed.

Lemma map_err_ok {W E E' A} (f : E → E') (m : M W E A) w a w' :
  m w = (Done (Ok a), w') → map_err f m w = (Done (Ok a), w').
Proof. unfold map_err. by intros ->. Qed.

(** *** Absence of panics *)

Lemma ret_no_panic {W E A} (a : A) : no_panic (ret a : M W E A).
Proof. done. Qed.

Lemma lift_result_no_panic {W E A} (r : result E A) : no_panic (lift_result r : M W E A).
Proof. done. Qed.

Lemma bind_no_panic {W E A B} (m : M W E A) (k : A → M W E B) :
  no_panic m → (∀ a, no_panic (k a)) → no_panic (bind m k).
Proof.
  intros Hm Hk w s. unfold bind. specialize (Hm w). destruct (m w) as [[[a|e]|why] w'].
  - apply Hk.
  - done.
  - by destruct (Hm why).
Qed.

Lemma map_err_no_panic {W E E' A} (f : E → E') (m : M W E A) : no_panic m → no_panic (map_err f m).
Proof.
  intros Hm w s. unfold map_err. specialize (Hm w). destruct (m w) as [[[a|e]|why] w']; [done..|].
  by destruct (Hm why).
Qed.

Lemma ignore_err_no_panic {W E E' A} (m : M W E A) :
  no_panic m → no_panic (ignore_err m : M W E' unit).
Proof.
  intros Hm w s. unfold ignore_err. specialize (Hm w). destruct (m w) as [[r|why] w']; [done|].
  by destruct (Hm why).
Qed.

Lemma mfor_no_panic {W E A} (f : A → M W E unit) l : (∀ x, no_panic (f x)) → no_panic (mfor f l).
Proof.
  intros Hf. induction l as [|x l IH]; [apply ret_no_panic|]. by apply bind_no_panic.
Qed.

(** ** Automation

    [mstep] takes one successful step out of a hypothesis about a monadic
    computation, [mstart] all of them. *)

Create HintDb eo discriminated.
Create Rewrite HintDb eo.
#[export] Hint Resolve bind_ok bind_err map_err_ok : eo.
#[export] Hint Resolve ret_no_panic lift_result_no_panic bind_no_panic map_err_no_panic
  ignore_err_no_panic mfor_no_panic : eo.

Ltac mstep :=
  match goal with
  | H : bind _ _ _ = (Done (Ok _), _) |- _ =>
      apply bind_ok_inv in H; destruct H as (? & ? & ? & H)
  | H : map_err _ _ _ = (Done (Ok _), _) |- _ => apply map_err_ok_inv in H
  | H : ret _ _ = _ |- _ => unfold ret in H; simplify_eq
  | H : raise _ _ = _ |- _ => unfold raise in H; simplify_eq
  | H : panic _ _ = _ |- _ => unfold panic in H; simplify_eq
  | H : lift_result _ _ = _ |- _ => unfold lift_result in H; simplify_eq
  end.
Ltac mstart := repeat (mstep; simplify_eq/=).

(** Case analysis on every [match] and [if] of the goal or of a hypothesis. *)
Ltac cases_goal := repeat (case_match; simplify_eq/=; try done).
Ltac cases_in H :=
  repeat (match type of H with
          | context [match ?x with _ => _ end] => destruct x eqn:?; simplify_eq/=
          end; try done).

(** ** Bytes and strings *)

#[export] Instance byte_eq_decision : EqDecision byte := byte_eq_dec.
#[export] Program Instance byte_countable : Countable byte :=
  {| encode b := encode (Byte.to_N b); decode p := decode p ≫= Byte.of_N |}.
Next Obligation. by intros []. Qed.

Abbreviation bytes := (list byte).

(** [String::into_bytes] / [as_bytes]: the UTF-8 bytes of a string, which is a
    byte string in this development. *)
Definition as_bytes (s : string) : bytes := String.list_byte_of_string s.

Lemma as_bytes_inj s t : as_bytes s = as_bytes t → s = t.
Proof.
  unfold as_bytes. intros H.
  by rewrite <- (String.string_of_list_byte_of_string s), H, String.string_of_list_byte_of_string.
Qed.

Lemma as_bytes_app s t : as_bytes (s +:+ t) = as_bytes s ++ as_bytes t.
Proof.
  unfold as_bytes, String.list_byte_of_string. induction s as [|c s IH]; [done|].
  simpl in *. by rewrite IH.
Qed.

Lemma length_as_bytes s : length (as_bytes s) = String.length s.
Proof.
  unfold as_bytes, String.list_byte_of_string. induction s as [|c s IH]; [done|].
  simpl. by rewrite IH.
Qed.

(** Concatenation of formatted fragments ([format!]). *)
Definition fmt (l : list string) : string := foldr String.append "" l.

(** Decimal rendering of an unsigned integer ([{}] on a [usize] or [u64]). *)
Definition dec (n : N) : string := pretty n.

(** [u64] addition in a release build. *)
Definition u64_add (a b : N) : N := ((a + b) mod 2 ^ 64)%N.

Lemma u64_add_small a b : (a + b < 2 ^ 64)%N → u64_add a b = (a + b)%N.
Proof. intros. by apply N.mod_small. Qed.

(** ** Total preorders and the stable sort

    [slice::sort_by] and [sort_by_key] are stable; sorting by insertion from the
    right is the reference stable sort. *)

Class TotalLeb (K : Type) := {
  leb : K → K → bool;
  leb_total x y : leb x y = true ∨ leb y x = true;
  leb_trans x y z : leb x y = true → leb y z = true → leb x z = true;
  leb_antisym x y : leb x y = true → leb y x = true → x = y;
}.

#[export] Program Instance N_leb : TotalLeb N := {| leb := N.leb |}.
Next Obligation. intros x y. rewrite !N.leb_le. lia. Qed.
Next Obligation. intros x y z. rewrite !N.leb_le. lia. Qed.
Next Obligation. intros x y. rewrite !N.leb_le. lia. Qed.

Lemma ascii_compare_lt a b c :
  Ascii.compare a b = Lt → Ascii.compare b c = Lt → Ascii.compare a c = Lt.
Proof. unfold Ascii.compare. rewrite !N.compare_lt_iff. lia. Qed.

Lemma ascii_compare_refl a : Ascii.compare a a = Eq.
Proof. apply N.compare_refl. Qed.

Lemma string_compare_lt s t u :
  String.compare s t = Lt → String.compare t u = Lt → String.compare s u = Lt.
Proof.
  revert t u. induction s as [|a s IH]; intros [|b t] [|c u]; simpl; try done.
  destruct (Ascii.compare a b) eqn:Hab, (Ascii.compare b c) eqn:Hbc; intros; try done.
  - apply Ascii.compare_eq_iff in Hab, Hbc. subst. rewrite ascii_compare_refl. eauto.
  - apply Ascii.compare_eq_iff in Hab. subst. by rewrite Hbc.
  - apply Ascii.compare_eq_iff in Hbc. subst. by rewrite Hab.
  - by rewrite (ascii_compare_lt a b c).
Qed.

Lemma string_leb_iff s t : String.leb s t = true ↔ s = t ∨ String.compare s t = Lt.
Proof.
  unfold String.leb. split.
  - destruct (String.compare s t) eqn:H; [|auto|done].
    apply String.compare_eq_iff in H. auto.
  - intros [->| ->]; [|done]. destruct (String.leb_total t t) as [H|H]; exact H.
Qed.

#[export] Program Instance string_leb : TotalLeb string := {| leb := String.leb |}.
Next Obligation. apply String.leb_total. Qed.
Next Obligation.
  intros x y z. rewrite !string_leb_iff. intros [-> |?] [-> |?]; eauto using string_compare_lt.
Qed.
Next Obligation. intros x y. apply String.leb_antisym. Qed.

(** [Option<K>]: [None] is the least value, as in [Option]'s [Ord]. *)
#[export] Program Instance option_leb {K} `{TotalLeb K} : TotalLeb (option K) := {|
  leb x y := match x, y with
             | None, _ => true
             | Some _, None => false
             | Some a, Some b => leb a b
             end
|}.
Next Obligation. intros K ? [x|] [y|]; simpl; auto using leb_total. Qed.
Next Obligation. intros K ? [x|] [y|] [z|]; simpl; try done. apply leb_trans. Qed.
Next Obligation.
  intros K ? [x|] [y|]; simpl; try done. intros. f_equal. by apply leb_antisym.
Qed.

Section stable_sort.
Context {A K : Type} `{TotalLeb K} (key : A → K).

Definition key_le (x y : A) : Prop := leb (key x) (key y) = true.

Fixpoint insert_by (x : A) (l : list A) : list A :=
  match l with
  | [] => [x]
  | y :: l' => if leb (key x) (key y) then x :: y :: l' else y :: insert_by x l'
  end.

Definition sort_by (l : list A) : list A := foldr insert_by [] l.

Lemma insert_by_perm x l : insert_by x l ≡ₚ x :: l.
Proof.
  induction l as [|y l IH]; simpl; [done|]. destruct (leb _ _); [done|].
  rewrite IH. apply Permutation_swap.
Qed.

Lemma sort_by_perm l : sort_by l ≡ₚ l.
Proof. induction l as [|x l IH]; simpl; [done|]. by rewrite insert_by_perm, IH. Qed.

Lemma insert_by_sorted x l :
  StronglySorted key_le l → StronglySorted key_le (insert_by x l).
Proof.
  induction 1 as [|y l Hl IH Hy]; simpl; [by repeat constructor|].
  destruct (leb (key x) (key y)) eqn:Hxy.
  - constructor; [by constructor|]. constructor; [done|].
    eapply Forall_impl; [exact Hy|]. intros z. unfold key_le. eauto using leb_trans.
  - constructor; [done|]. rewrite insert_by_perm. constructor; [|done].
    unfold key_le. destruct (leb_total (key x) (key y)); congruence.
Qed.

Lemma sort_by_sorted l : StronglySorted key_le (sort_by l).
Proof. induction l; simpl; [constructor|]. by apply insert_by_sorted. Qed.

Lemma elem_of_sort_by x l : x ∈ sort_by l ↔ x ∈ l.
Proof. by rewrite sort_by_perm. Qed.

Lemma fmap_key_NoDup_inj l x y :
  NoDup (key <$> l) → x ∈ l → y ∈ l → key x = key y → x = y.
Proof.
  induction l as [|z l IH]; simpl; [by intros ? ?%not_elem_of_nil|].
  rewrite NoDup_cons, list_elem_of_fmap. intros [Hz Hl] Hx Hy Heq.
  apply elem_of_cons in Hx as [->|Hx], Hy as [->|Hy]; [done| | |by apply IH].
  - destruct Hz. eauto.
  - destruct Hz. eauto.
Qed.

(** With distinct keys the sorted order does not depend on the input order. *)
Lemma sort_by_perm_eq l1 l2 :
  NoDup (key <$> l1) → l1 ≡ₚ l2 → sort_by l1 = sort_by l2.
Proof.
  intros Hnd Hp. apply (StronglySorted_unique_strong key_le); auto using sort_by_sorted.
  - intros x1 x2. rewrite !elem_of_sort_by, <- Hp. intros ??.
    unfold key_le. intros ??. eapply fmap_key_NoDup_inj; eauto. by apply leb_antisym.
  - by rewrite !sort_by_perm.
Qed.

(** The head of the sorted list is a least element. *)
Lemma sort_by_head_least l x l' :
  sort_by l = x :: l' → x ∈ l ∧ ∀ y, y ∈ l → key_le x y.
Proof.
  intros Hs. pose proof (sort_by_sorted l) as Hss. rewrite Hs in Hss.
  split.
  - rewrite <- elem_of_sort_by, Hs. left.
  - intros y. rewrite <- elem_of_sort_by, Hs. inversion Hss as [|? ? ? Hall]; subst.
    intros [->|Hy]%elem_of_cons.
    + unfold key_le. by destruct (leb_total (key x) (key x)).
    + rewrite Forall_forall in Hall. auto.
Qed.

Lemma sort_by_nil l : sort_by l = [] ↔ l = [].
Proof.
  split; [|by intros ->]. intros Hs. apply Permutation_nil. by rewrite <- Hs, sort_by_perm.
Qed.
End stable_sort.

#[export] Hint Resolve sort_by_perm sort_by_sorted : eo.

(** ** Ordered maps

    A [BTreeMap] is a [gmap] iterated in the order of its keys; collecting pairs
    into it keeps the last value of a key. *)

Definition btree_iter {K V} `{Countable K, TotalLeb K} (m : gmap K V) : list (K * V) :=
  sort_by fst (map_to_list m).

Definition collect_by {K V} `{Countable K} (key : V → K) (l : list V) : gmap K V :=
  foldl (λ m x, <[key x := x]> m) ∅ l.

Lemma elem_of_btree_iter {K V} `{Countable K, TotalLeb K} (m : gmap K V) k v :
  (k, v) ∈ btree_iter m ↔ m !! k = Some v.
Proof. unfold btree_iter. by rewrite elem_of_sort_by, elem_of_map_to_list. Qed.

Lemma NoDup_btree_iter_keys {K V} `{Countable K, TotalLeb K} (m : gmap K V) :
  NoDup (btree_iter m).*1.
Proof. unfold btree_iter. rewrite sort_by_perm. apply NoDup_fst_map_to_list. Qed.

Lemma collect_by_nil {K V} `{Countable K} (key : V → K) : collect_by key [] = ∅.
Proof. done. Qed.

Lemma collect_by_snoc {K V} `{Countable K} (key : V → K) l x :
  collect_by key (l ++ [x]) = <[key x := x]> (collect_by key l).
Proof. unfold collect_by. by rewrite foldl_app. Qed.

Lemma collect_by_key {K V} `{Countable K} (key : V → K) l k x :
  collect_by key l !! k = Some x → key x = k ∧ x ∈ l.
Proof.
  induction l as [|y l IH] using rev_ind; [by rewrite collect_by_nil, lookup_empty|].
  rewrite collect_by_snoc, lookup_insert. case_decide; intros; simplify_eq; [set_solver|].
  destruct IH as [-> ?]; [done|]. set_solver.
Qed.

Lemma collect_by_is_Some {K V} `{Countable K} (key : V → K) l k :
  is_Some (collect_by key l !! k) ↔ k ∈ key <$> l.
Proof.
  induction l as [|y l IH] using rev_ind.
  - rewrite collect_by_nil, lookup_empty. split; [by intros [? ?]|by intros ?%not_elem_of_nil].
  - rewrite collect_by_snoc, lookup_insert_is_Some', IH, fmap_app. csimpl. set_solver.
Qed.

(** With distinct keys every collected value is found under its key. *)
Lemma collect_by_NoDup {K V} `{Countable K} (key : V → K) l x :
  NoDup (key <$> l) → x ∈ l → collect_by key l !! key x = Some x.
Proof.
  intros Hnd Hx. destruct (proj2 (collect_by_is_Some key l (key x))) as [y Hy].
  { by apply list_elem_of_fmap_2. }
  rewrite Hy. f_equal. apply collect_by_key in Hy as [Hk Hy].
  by eapply fmap_key_NoDup_inj.
Qed.

(** ** Lists *)

Lemma omap_id_fmap {A B} (f : A → option B) (l : list A) : omap (λ x, x) (f <$> l) = omap f l.
Proof. induction l as [|x l IH]; csimpl; [done|]. destruct (f x); by rewrite IH. Qed.

Lemma Forall2_self_fmap {A B} (R : A → B → Prop) (f : A → B) l :
  (∀ x, x ∈ l → R x (f x)) → Forall2 R l (f <$> l).
Proof.
  induction l as [|x l IH]; intros Hl; csimpl; constructor.
  - apply Hl. left.
  - apply IH. intros y Hy. apply Hl. by right.
Qed.

Lemma prefix_snoc_inv {A} (q l : list A) x :
  q `prefix_of` l ++ [x] → q = l ++ [x] ∨ q `prefix_of` l.
Proof.
  intros [k Hk]. destruct k as [|y k _] using rev_ind.
  - left. by rewrite app_nil_r in Hk.
  - right. rewrite app_assoc in Hk. apply app_inj_tail in Hk as [-> _]. by exists k.
Qed.
