(* ===== verification/CoreTypes.v ===== *)
(** * Shared data types and errors (crates/core)

    The data of [crates/core/src/types.rs], [traits.rs] and [error.rs].  Unsigned
    machine integers are [N] (their width is written out where arithmetic is done
    on them), [i32] is [Z].  Uuids, libp2p peer ids and instants are opaque
    identifiers of external crates: the code only compares them, so they are [N]
    here; multiaddrs and hashes are strings. *)

From S2P Require Import Prelude.

Definition Uuid : Type := N.
Definition NodeId : Type := Uuid.
Definition TaskId : Type := Uuid.
Definition PeerId : Type := N.
Definition Multiaddr : Type := string.
Definition DateTime : Type := Z.
Definition Hash : Type := string.

#[export] Instance Uuid_eq_dec : EqDecision Uuid := _ : EqDecision N.
#[export] Instance Uuid_countable : Countable Uuid := _ : Countable N.
#[export] Instance NodeId_eq_dec : EqDecision NodeId := _ : EqDecision N.
#[export] Instance NodeId_countable : Countable NodeId := _ : Countable N.
#[export] Instance TaskId_eq_dec : EqDecision TaskId := _ : EqDecision N.
#[export] Instance TaskId_countable : Countable TaskId := _ : Countable N.
#[export] Instance PeerId_eq_dec : EqDecision PeerId := _ : EqDecision N.
#[export] Instance PeerId_countable : Countable PeerId := _ : Countable N.
#[export] Instance Hash_eq_dec : EqDecision Hash := _ : EqDecision string.
#[export] Instance Hash_countable : Countable Hash := _ : Countable string.

(** [Uuid::nil()]. *)
Definition uuid_nil : Uuid := 0%N.

(** ** types.rs *)

Inductive NodeType := Heavy | Light.
#[export] Instance NodeType_eq_dec : EqDecision NodeType.
Proof. solve_decision. Defined.

Inductive OsType := MacOS | Linux | Windows | Ios | Android | UnknownOs.
#[export] Instance OsType_eq_dec : EqDecision OsType.
Proof. solve_decision. Defined.

Record Capabilities := mkCapabilities {
  storage : bool;
  gpu_acceleration : bool;
  runtimes : list string;
  max_memory_mb : N;
  cpu_cores : N;
  project_sandbox : bool;
}.
#[export] Instance Capabilities_eq_dec : EqDecision Capabilities.
Proof. solve_decision. Defined.

Definition Capabilities_default : Capabilities :=
  {| storage := true; gpu_acceleration := false; runtimes := ["qlean"];
     max_memory_mb := 1024; cpu_cores := 2; project_sandbox := false |}.

Inductive Role := Storage | Execution | Inference | Coordinator | Bootstrap.
#[export] Instance Role_eq_dec : EqDecision Role.
Proof. solve_decision. Defined.

(** The [Display] instance of [Role]. *)
Definition Role_to_string (r : Role) : string :=
  match r with
  | Storage => "Storage"
  | Execution => "Execution"
  | Inference => "Inference"
  | Coordinator => "Coordinator"
  | Bootstrap => "Bootstrap"
  end.

(** The inverse table, written out twice in the source ([config.rs] and
    [bootstrap.rs]): unknown names are dropped. *)
Definition Role_of_string (s : string) : option Role :=
  if decide (s = "Storage") then Some Storage
  else if decide (s = "Execution") then Some Execution
  else if decide (s = "Inference") then Some Inference
  else if decide (s = "Coordinator") then Some Coordinator
  else if decide (s = "Bootstrap") then Some Bootstrap
  else None.

#[export] Program Instance Role_countable : Countable Role :=
  {| encode r := encode (Role_to_string r); decode p := decode p ≫= Role_of_string |}.
Next Obligation. by intros []. Qed.

Record NodeDescriptor := mkNodeDescriptor {
  node_id : NodeId;
  node_type : NodeType;
  os : OsType;
  capabilities : Capabilities;
  advertised_addresses : list Multiaddr;
  current_assigned_roles : list Role;
  started_at : DateTime;
  raft_id : option N;
}.
#[export] Instance NodeDescriptor_eq_dec : EqDecision NodeDescriptor.
Proof. solve_decision. Defined.

Record ResourceLimits := mkResourceLimits {
  rl_max_memory_mb : N;
  rl_max_cpu_time_ms : N;
  rl_max_disk_mb : N;
  rl_allow_network : bool;
  rl_max_fds : N;
}.
#[export] Instance ResourceLimits_eq_dec : EqDecision ResourceLimits.
Proof. solve_decision. Defined.

Definition ResourceLimits_default : ResourceLimits :=
  {| rl_max_memory_mb := 256; rl_max_cpu_time_ms := 30000; rl_max_disk_mb := 100;
     rl_allow_network := false; rl_max_fds := 64 |}.

Record ProjectSpec := mkProjectSpec {
  ps_snapshot_hash : Hash;
  ps_local_project_dir : option string;
  ps_work_dir : string;
  ps_build_cmd : list string;
  ps_run_cmd : list string;
  ps_timeout_ms : N;
  ps_resource_limits : ResourceLimits;
}.

Record ProjectSnapshot := mkProjectSnapshot {
  snapshot_hash : Hash;
  tar_bytes : bytes;
}.
#[export] Instance ProjectSnapshot_eq_dec : EqDecision ProjectSnapshot.
Proof. solve_decision. Defined.

Definition from_hash (h : Hash) : ProjectSnapshot :=
  {| snapshot_hash := h; tar_bytes := [] |}.

Definition inline_len (s : ProjectSnapshot) : nat := length (tar_bytes s).

Record ProjectTask := mkProjectTask {
  pt_task_id : TaskId;
  pt_snapshot : ProjectSnapshot;
  pt_work_dir : string;
  pt_build_cmd : list string;
  pt_run_cmd : list string;
  pt_timeout_ms : N;
  pt_resource_limits : ResourceLimits;
  pt_pinned_node : option NodeId;
}.
#[export] Instance ProjectTask_eq_dec : EqDecision ProjectTask.
Proof. solve_decision. Defined.

Record ProjectResult := mkProjectResult {
  pr_task_id : TaskId;
  pr_exit_code : Z;
  pr_stdout : bytes;
  pr_stderr : bytes;
  pr_execution_time_ms : N;
  pr_executed_on : NodeId;
}.
#[export] Instance ProjectResult_eq_dec : EqDecision ProjectResult.
Proof. solve_decision. Defined.

Record ExecutionResult := mkExecutionResult {
  er_exit_code : Z;
  er_stdout : bytes;
  er_stderr : bytes;
  er_execution_time_ms : N;
  er_peak_memory_bytes : N;
  er_result_hash : option Hash;
}.
#[export] Instance ExecutionResult_eq_dec : EqDecision ExecutionResult.
Proof. solve_decision. Defined.

(** Encodings, for concrete serialisers and maps. *)
#[export] Instance NodeType_countable : Countable NodeType :=
  inj_countable' (λ t, bool_decide (t = Heavy)) (λ b, if b : bool then Heavy else Light)
    ltac:(by intros []).
#[export] Instance OsType_countable : Countable OsType :=
  inj_countable' (λ o, match o with MacOS => 0 | Linux => 1 | Windows => 2 | Ios => 3
                       | Android => 4 | UnknownOs => 5 end)
    (λ n, match n with 0 => MacOS | 1 => Linux | 2 => Windows | 3 => Ios | 4 => Android
          | _ => UnknownOs end) ltac:(by intros []).
#[export] Instance Capabilities_countable : Countable Capabilities :=
  inj_countable' (λ c, (storage c, gpu_acceleration c, runtimes c, max_memory_mb c, cpu_cores c,
      project_sandbox c))
    (λ x, mkCapabilities x.1.1.1.1.1 x.1.1.1.1.2 x.1.1.1.2 x.1.1.2 x.1.2 x.2) ltac:(by intros []).
#[export] Instance NodeDescriptor_countable : Countable NodeDescriptor :=
  inj_countable' (λ d, (node_id d, node_type d, os d, capabilities d, advertised_addresses d,
      current_assigned_roles d, started_at d : Z, raft_id d))
    (λ x, mkNodeDescriptor x.1.1.1.1.1.1.1 x.1.1.1.1.1.1.2 x.1.1.1.1.1.2 x.1.1.1.1.2 x.1.1.1.2
            x.1.1.2 x.1.2 x.2) ltac:(by intros []).
#[export] Instance ResourceLimits_countable : Countable ResourceLimits :=
  inj_countable' (λ l, (rl_max_memory_mb l, rl_max_cpu_time_ms l, rl_max_disk_mb l,
      rl_allow_network l, rl_max_fds l))
    (λ x, mkResourceLimits x.1.1.1.1 x.1.1.1.2 x.1.1.2 x.1.2 x.2) ltac:(by intros []).
#[export] Instance ProjectSnapshot_countable : Countable ProjectSnapshot :=
  inj_countable' (λ s, (snapshot_hash s, tar_bytes s)) (λ x, mkProjectSnapshot x.1 x.2)
    ltac:(by intros []).
#[export] Instance ProjectTask_countable : Countable ProjectTask :=
  inj_countable' (λ t, (pt_task_id t, pt_snapshot t, pt_work_dir t, pt_build_cmd t, pt_run_cmd t,
      pt_timeout_ms t, pt_resource_limits t, pt_pinned_node t))
    (λ x, mkProjectTask x.1.1.1.1.1.1.1 x.1.1.1.1.1.1.2 x.1.1.1.1.1.2 x.1.1.1.1.2 x.1.1.1.2
            x.1.1.2 x.1.2 x.2) ltac:(by intros []).
#[export] Instance ProjectResult_countable : Countable ProjectResult :=
  inj_countable' (λ r, (pr_task_id r, pr_exit_code r, pr_stdout r, pr_stderr r,
      pr_execution_time_ms r, pr_executed_on r))
    (λ x, mkProjectResult x.1.1.1.1.1 x.1.1.1.1.2 x.1.1.1.2 x.1.1.2 x.1.2 x.2) ltac:(by intros []).

(** ** traits.rs *)

Inductive ObjectMode := ModeBlob | ModeTree | ModeExecutable.
#[export] Instance ObjectMode_eq_dec : EqDecision ObjectMode.
Proof. solve_decision. Defined.

Record TreeEntry := mkTreeEntry {
  te_name : string;
  te_hash : Hash;
  te_mode : ObjectMode;
}.
#[export] Instance TreeEntry_eq_dec : EqDecision TreeEntry.
Proof. solve_decision. Defined.

(** ** error.rs *)

Inductive CoreError :=
| Network (m : string)
| PeerNotFound (m : string)
| PeerTimeout (m : string)
| Swarm (m : string)
| ObjectNotFound (m : string)
| HashMismatch (expected computed : string)
| StorageIo (m : string)
| StorageCorruption (m : string)
| Raft (m : string)
| ProposalRejected (m : string)
| NotLeader (leader : option N)
| SandboxExecution (m : string)
| ResourceLimitExceeded (m : string)
| UnsupportedRuntime (m : string)
| UnsupportedPlatform (m : string)
| Configuration (m : string)
| InvalidState (m : string)
| Serialization (m : string)
| Internal (m : string).
#[export] Instance CoreError_eq_dec : EqDecision CoreError.
Proof. solve_decision. Defined.

(** [Option<u64>] under [{:?}]. *)
Definition debug_option_u64 (o : option N) : string :=
  match o with None => "None" | Some n => fmt ["Some("; dec n; ")"] end.

(** The [Display] instance [thiserror] derives. *)
Definition CoreError_to_string (e : CoreError) : string :=
  match e with
  | Network m => "network error: " +:+ m
  | PeerNotFound m => "peer not found: " +:+ m
  | PeerTimeout m => "peer timeout: " +:+ m
  | Swarm m => "swarm error: " +:+ m
  | ObjectNotFound m => "object not found: " +:+ m
  | HashMismatch x c => fmt ["hash mismatch: expected "; x; ", computed "; c]
  | StorageIo m => "storage I/O error: " +:+ m
  | StorageCorruption m => "storage corruption: " +:+ m
  | Raft m => "raft error: " +:+ m
  | ProposalRejected m => "proposal rejected: " +:+ m
  | NotLeader l => fmt ["not leader — leader is "; debug_option_u64 l]
  | SandboxExecution m => "sandbox execution error: " +:+ m
  | ResourceLimitExceeded m => "resource limit exceeded: " +:+ m
  | UnsupportedRuntime m => "unsupported runtime: " +:+ m
  | UnsupportedPlatform m => "unsupported platform for sandbox: " +:+ m
  | Configuration m => "configuration error: " +:+ m
  | InvalidState m => "invalid state: " +:+ m
  | Serialization m => "serialization error: " +:+ m
  | Internal m => "internal error: " +:+ m
  end.

(** The [From] conversions: the foreign error enters as its [Display] text. *)
Definition CoreError_from_io (e : string) : CoreError := StorageIo e.
Definition CoreError_from_json (e : string) : CoreError := Serialization e.
Definition CoreError_from_uuid (e : string) : CoreError :=
  InvalidState ("invalid UUID: " +:+ e).

(** ** Lemmas *)

Lemma Role_of_to_string r : Role_of_string (Role_to_string r) = Some r.
Proof. by destruct r. Qed.

Lemma Role_of_string_Some s r : Role_of_string s = Some r → s = Role_to_string r.
Proof. unfold Role_of_string. intros. repeat case_decide; simplify_eq; done. Qed.

#[export] Hint Resolve Role_of_to_string : eo.
