(* ===== verification/Interfaces.v ===== *)
(** * Interfaces to code outside the repository

    The program calls serde_json, sha2, hex, flate2 and the iteration order of
    [HashMap].  Each is a class of operations with its documented laws in a class
    of its own; the theorems that need a law take it as a hypothesis, and every
    class has an executable instance that satisfies the laws, used by the
    witnesses. *)

From S2P Require Import Prelude CoreTypes.

(** ** serde_json *)

(** [serde_json::to_vec]/[to_string] and [from_slice]/[from_str] at a type. *)
Class SerdeJson (T : Type) := {
  to_vec : T → result string bytes;
  from_slice : bytes → result string T;
}.

(** Derived [Serialize]/[Deserialize] instances round-trip, serialising a struct
    or enum without non-string map keys does not fail, and a text cut short is not
    a JSON value. *)
Class SerdeJsonLaws (T : Type) `{SerdeJson T} := {
  to_vec_total x : ∃ b, to_vec x = Ok b;
  from_to_vec x b : to_vec x = Ok b → from_slice b = Ok x;
  from_slice_cut x b n : to_vec x = Ok b → n < length b → ∃ e, from_slice (take n b) = Err e;
}.

(** The empty input is not the text of a type with two values. *)
Lemma from_slice_nil {T} `{SerdeJsonLaws T} (x y : T) :
  x ≠ y → ∃ e, from_slice (T := T) [] = Err e.
Proof.
  intros Hxy. destruct (to_vec_total x) as [s Hs], (to_vec_total y) as [t Ht].
  destruct s as [|b s].
  - destruct t as [|c t].
    + apply from_to_vec in Hs, Ht. congruence.
    + apply (from_slice_cut y (c :: t) 0 Ht). simpl. lia.
  - apply (from_slice_cut x (b :: s) 0 Hs). simpl. lia.
Qed.

Fixpoint positive_to_bytes (p : positive) : bytes :=
  match p with
  | xH => [x01]
  | xO p => x30 :: positive_to_bytes p
  | xI p => x31 :: positive_to_bytes p
  end.

Fixpoint positive_of_bytes (b : bytes) : option positive :=
  match b with
  | [x01] => Some xH
  | x30 :: b => xO <$> positive_of_bytes b
  | x31 :: b => xI <$> positive_of_bytes b
  | _ => None
  end.

Lemma positive_of_to_bytes p : positive_of_bytes (positive_to_bytes p) = Some p.
Proof. induction p as [p IH|p IH|]; simpl; rewrite ?IH; done. Qed.

(** A serialiser for any countable type. *)
Definition countable_json (T : Type) `{Countable T} : SerdeJson T := {|
  to_vec x := Ok (positive_to_bytes (encode x));
  from_slice b := match positive_of_bytes b ≫= decode with
                  | Some x => Ok x
                  | None => Err "invalid value"
                  end
|}.

Lemma positive_of_cut p n :
  n < length (positive_to_bytes p) → positive_of_bytes (take n (positive_to_bytes p)) = None.
Proof.
  revert n. induction p as [p IH|p IH|]; intros [|n] Hn; simpl in *; try done; try lia.
  - by rewrite IH by lia.
  - by rewrite IH by lia.
Qed.

Lemma countable_json_laws (T : Type) `{Countable T} : @SerdeJsonLaws T (countable_json T).
Proof.
  split; simpl; [eauto|..].
  - intros x b [= <-]. rewrite positive_of_to_bytes. simpl. by rewrite decode_encode.
  - intros x b n [= <-] Hn. rewrite positive_of_cut by done. eauto.
Qed.

(** ** sha2 and hex *)

Class Digest := {
  sha256 : bytes → bytes;
  hex_encode : bytes → string;
}.

Definition is_hex_digit (a : Ascii.ascii) : bool :=
  let n := Ascii.N_of_ascii a in
  ((48 <=? n)%N && (n <=? 57)%N) || ((97 <=? n)%N && (n <=? 102)%N).

(** [String] as a list of characters. *)
Fixpoint chars (s : string) : list Ascii.ascii :=
  match s with EmptyString => [] | String a s => a :: chars s end.

(** SHA-256 yields 32 bytes; [hex::encode] is injective and writes two lowercase
    hexadecimal digits per byte. *)
Class DigestLaws `{Digest} := {
  sha256_length b : length (sha256 b) = 32;
  hex_length b : String.length (hex_encode b) = 2 * length b;
  hex_digits b : forallb is_hex_digit (chars (hex_encode b)) = true;
  hex_encode_inj b c : hex_encode b = hex_encode c → b = c;
}.

(** ** flate2 *)

Class Zlib := {
  deflate : bytes → bytes;
  inflate : bytes → result string bytes;
}.

(** Compression round-trips; a stream cut short yields an error or a prefix of the
    data, and no data at all when it is empty. *)
Class ZlibLaws `{Zlib} := {
  inflate_deflate b : inflate (deflate b) = Ok b;
  inflate_nil : inflate [] = Ok [] ∨ ∃ e, inflate [] = Err e;
  inflate_cut b n : (∃ e, inflate (take n (deflate b)) = Err e) ∨
                    ∃ k, inflate (take n (deflate b)) = Ok (take k b);
}.

(** ** chrono and derived Debug *)

(** [timestamp.format("%s %z")], and the derived [Debug] text of a type. *)
Class TimeText := { format_epoch_zone : DateTime → string }.
Class DebugText (T : Type) := { debug_text : T → string }.

(** ** uuid *)

(** [Uuid]'s [Display] and [Uuid::parse_str]. *)
Class UuidText := {
  uuid_to_string : Uuid → string;
  uuid_parse : string → result string Uuid;
}.

Class UuidTextLaws `{UuidText} := {
  uuid_parse_to_string u : uuid_parse (uuid_to_string u) = Ok u;
}.

(** ** base64 *)

(** The standard engine. *)
Class Base64 := { base64_encode : bytes → string; base64_decode : bytes → result string bytes }.
Class Base64Laws `{Base64} := {
  base64_decode_encode b : base64_decode (as_bytes (base64_encode b)) = Ok b;
}.

(** ** HashMap iteration

    A [HashMap] is a [gmap]; the order in which it is iterated depends on its
    contents and on a random seed, and is some order of its entries. *)

Class HashOrder := {
  hash_iter : ∀ {K V : Type} `{Countable K}, N → gmap K V → list (K * V);
}.

Class HashOrderLaws `{HashOrder} := {
  hash_iter_perm {K V : Type} `{Countable K} (seed : N) (m : gmap K V) :
    hash_iter seed m ≡ₚ map_to_list m;
}.

Section hash_iter.
Context `{HashOrderLaws} {K V : Type} `{Countable K}.
Implicit Types m : gmap K V.

Lemma elem_of_hash_iter seed m k v : (k, v) ∈ hash_iter seed m ↔ m !! k = Some v.
Proof. by rewrite hash_iter_perm, elem_of_map_to_list. Qed.

Lemma NoDup_hash_iter_keys seed m : NoDup (hash_iter seed m).*1.
Proof. rewrite hash_iter_perm. apply NoDup_fst_map_to_list. Qed.

Lemma NoDup_hash_iter seed m : NoDup (hash_iter seed m).
Proof. rewrite hash_iter_perm. apply NoDup_map_to_list. Qed.

Lemma length_hash_iter seed m : length (hash_iter seed m) = size m.
Proof. by rewrite hash_iter_perm, length_map_to_list. Qed.
End hash_iter.

#[export] Hint Resolve NoDup_hash_iter_keys NoDup_hash_iter : eo.

(** ** Executable instances for concrete runs *)

Module Toy.
(** The length of the input in the first byte, then the input, cut or padded to
    32 bytes. *)
Definition sha256 (b : bytes) : bytes :=
  let l := default x00 (Byte.of_N (N.of_nat (length b) mod 256)) :: rev b in
  take 32 (l ++ replicate 32 x00).

Definition hex_digit (n : N) : Ascii.ascii :=
  Ascii.ascii_of_N (if (n <? 10)%N then 48 + n else 87 + n)%N.

Definition hex_byte (b : byte) (s : string) : string :=
  let n := Byte.to_N b in String (hex_digit (n / 16)) (String (hex_digit (n mod 16)) s).

Definition hex_encode (b : bytes) : string := foldr hex_byte "" b.

Definition digest : Digest := {| Interfaces.sha256 := sha256; Interfaces.hex_encode := hex_encode |}.

Definition zlib : Zlib := {| deflate b := x78 :: b;
  inflate b := match b with x78 :: b => Ok b | _ => Err "corrupt deflate stream" end |}.

Definition uuid_text : UuidText := {|
  uuid_to_string u := String.string_of_list_byte (positive_to_bytes (N.succ_pos u));
  uuid_parse s := match positive_of_bytes (as_bytes s) with
                  | Some p => Ok (Pos.pred_N p)
                  | None => Err "invalid character"
                  end |}.

Definition hash_order : HashOrder := {| hash_iter K V _ _ _ m := map_to_list m |}.

Lemma hex_digit_inj m n : (m < 16)%N → (n < 16)%N → hex_digit m = hex_digit n → m = n.
Proof.
  unfold hex_digit. intros Hm Hn Heq. apply (f_equal Ascii.N_of_ascii) in Heq.
  rewrite !Ascii.N_ascii_embedding in Heq
    by (destruct (N.ltb_spec m 10), (N.ltb_spec n 10); lia).
  destruct (N.ltb_spec m 10), (N.ltb_spec n 10); lia.
Qed.

Lemma byte_to_N_inj b c : Byte.to_N b = Byte.to_N c → b = c.
Proof. intros H. apply (f_equal Byte.of_N) in H. rewrite !Byte.of_to_N in H. congruence. Qed.

Lemma hex_byte_inj b c s t : hex_byte b s = hex_byte c t → b = c ∧ s = t.
Proof.
  unfold hex_byte. intros Heq.
  assert (hex_digit (Byte.to_N b / 16) = hex_digit (Byte.to_N c / 16)) as H1 by congruence.
  assert (hex_digit (Byte.to_N b mod 16) = hex_digit (Byte.to_N c mod 16)) as H2 by congruence.
  split; [|congruence].
  pose proof (Byte.to_N_bounded b). pose proof (Byte.to_N_bounded c).
  apply hex_digit_inj in H1; [|apply N.Div0.div_lt_upper_bound; lia..].
  apply hex_digit_inj in H2; [|apply N.mod_lt; lia..].
  apply byte_to_N_inj. rewrite (N.div_mod' (Byte.to_N b) 16), (N.div_mod' (Byte.to_N c) 16).
  by rewrite H1, H2.
Qed.

Lemma digest_laws : @DigestLaws digest.
Proof.
  split; simpl.
  - intros b. unfold sha256. rewrite length_take, length_app. cbn [length]. lia.
  - intros b. induction b as [|x b IH]; [done|]. simpl. rewrite IH. lia.
  - intros b. induction b as [|x b IH]; [done|]. simpl. rewrite IH. by destruct x.
  - intros b. induction b as [|x b IH]; intros [|y c]; simpl; try done.
    intros [-> ->%IH]%hex_byte_inj. done.
Qed.

Lemma zlib_laws : @ZlibLaws zlib.
Proof.
  split; [done|right; by eexists|]. intros b [|n]; [left; by eexists|right; by exists n].
Qed.

Lemma uuid_text_laws : @UuidTextLaws uuid_text.
Proof.
  split. intros u.
  change (match positive_of_bytes (as_bytes (String.string_of_list_byte
      (positive_to_bytes (N.succ_pos u)))) with
    | Some p => Ok (Pos.pred_N p) | None => Err "invalid character"%string end = Ok u).
  unfold as_bytes.
  by rewrite String.list_byte_of_string_of_list_byte, positive_of_to_bytes, N.pos_pred_succ.
Qed.

Lemma hash_order_laws : @HashOrderLaws hash_order.
Proof. by split. Qed.
End Toy.
