(* ===== verification/Text.v ===== *)
(** * Methods of [str]

    The methods of std's [str] that the program parses its inputs with. *)

From S2P Require Import Prelude.

(** [str::trim]: the White_Space characters of Unicode, as UTF-8. *)
Fixpoint trim_start (s : bytes) : bytes :=
  match s with
  | (x09 | x0a | x0b | x0c | x0d | x20) :: s => trim_start s
  | xc2 :: (x85 | xa0) :: s => trim_start s
  | xe1 :: x9a :: x80 :: s => trim_start s
  | xe2 :: x80 :: (x80 | x81 | x82 | x83 | x84 | x85 | x86 | x87 | x88 | x89 | x8a | xa8 | xa9 | xaf) :: s =>
      trim_start s
  | xe2 :: x81 :: x9f :: s => trim_start s
  | xe3 :: x80 :: x80 :: s => trim_start s
  | _ => s
  end.
(** The same on a reversed text. *)
Fixpoint trim_end_rev (s : bytes) : bytes :=
  match s with
  | (x09 | x0a | x0b | x0c | x0d | x20) :: s => trim_end_rev s
  | (x85 | xa0) :: xc2 :: s => trim_end_rev s
  | x80 :: x9a :: xe1 :: s => trim_end_rev s
  | (x80 | x81 | x82 | x83 | x84 | x85 | x86 | x87 | x88 | x89 | x8a | xa8 | xa9 | xaf) :: x80 :: xe2 :: s =>
      trim_end_rev s
  | x9f :: x81 :: xe2 :: s => trim_end_rev s
  | x80 :: x80 :: xe3 :: s => trim_end_rev s
  | _ => s
  end.
Definition trim (s : string) : string :=
  String.string_of_list_byte (rev (trim_end_rev (rev (trim_start (as_bytes s))))).

Definition ascii_lower (a : Ascii.ascii) : Ascii.ascii :=
  let n := Ascii.N_of_ascii a in
  if ((65 <=? n) && (n <=? 90))%N then Ascii.ascii_of_N (n + 32) else a.
Fixpoint to_ascii_lowercase (s : string) : string :=
  match s with
  | EmptyString => EmptyString
  | String a s => String (ascii_lower a) (to_ascii_lowercase s)
  end.

(** [split_once(c)]. *)
Fixpoint split_once (c : Ascii.ascii) (s : string) : option (string * string) :=
  match s with
  | EmptyString => None
  | String a s =>
      if decide (a = c) then Some (EmptyString, s)
      else (λ x, (String a x.1, x.2)) <$> split_once c s
  end.
Definition split_once_colon : string → option (string * string) := split_once ":"%char.

(** [split(c)]: the pieces between the characters [c], at least one. *)
Fixpoint split_char (c : Ascii.ascii) (s : string) : list string :=
  match s with
  | EmptyString => [""]
  | String a s' =>
      if decide (a = c) then "" :: split_char c s'
      else match split_char c s' with
           | [] => [String a ""]
           | p :: ps => String a p :: ps
           end
  end.

(** [find(c)] and [rfind(c)]. *)
Fixpoint find_char (c : Ascii.ascii) (s : string) : option nat :=
  match s with
  | EmptyString => None
  | String a s => if decide (a = c) then Some 0 else S <$> find_char c s
  end.
Fixpoint rfind_char (c : Ascii.ascii) (s : string) : option nat :=
  match s with
  | EmptyString => None
  | String a s =>
      match rfind_char c s with
      | Some i => Some (S i)
      | None => if decide (a = c) then Some 0 else None
      end
  end.
Definition contains_char (c : Ascii.ascii) (s : string) : bool := bool_decide (is_Some (find_char c s)).

(** [strip_prefix(p)] and [ends_with(suf)]. *)
Fixpoint strip_prefix (p s : string) : option string :=
  match p, s with
  | EmptyString, _ => Some s
  | String a p, String b s => if decide (a = b) then strip_prefix p s else None
  | String _ _, EmptyString => None
  end.
Definition starts_with (p s : string) : bool := bool_decide (is_Some (strip_prefix p s)).
Fixpoint ends_with (suf s : string) : bool :=
  bool_decide (s = suf) || match s with EmptyString => false | String _ s => ends_with suf s end.

(** [trim_start_matches(c)], [trim_end_matches(c)] and [trim_matches(c)]. *)
Fixpoint trim_start_matches (c : Ascii.ascii) (s : string) : string :=
  match s with
  | EmptyString => EmptyString
  | String a s' => if decide (a = c) then trim_start_matches c s' else s
  end.
Fixpoint trim_end_matches (c : Ascii.ascii) (s : string) : string :=
  match s with
  | EmptyString => EmptyString
  | String a s =>
      match trim_end_matches c s with
      | EmptyString => if decide (a = c) then EmptyString else String a EmptyString
      | t => String a t
      end
  end.
Definition trim_matches (c : Ascii.ascii) (s : string) : string :=
  trim_end_matches c (trim_start_matches c s).

(** [lines()]: a line ends with a newline, with the carriage return before it if
    there is one. *)
Definition newline : Ascii.ascii := "010"%char.
Definition carriage_return : Ascii.ascii := "013"%char.
Definition nl : string := String newline EmptyString.
Fixpoint lines (s : string) : list string :=
  match s with
  | EmptyString => []
  | String a s =>
      if decide (a = newline) then EmptyString :: lines s
      else match s with
           | String b s' =>
               if decide (a = carriage_return ∧ b = newline) then EmptyString :: lines s'
               else match lines s with [] => [String a EmptyString] | l :: ls => String a l :: ls end
           | EmptyString => [String a EmptyString]
           end
  end.

(** [read_line]: up to the first newline, which is kept. *)
Fixpoint read_line (s : string) : string :=
  match s with
  | EmptyString => EmptyString
  | String a s => if decide (a = newline) then nl else String a (read_line s)
  end.

(** *** [String::from_utf8_lossy]

    A maximal part of an invalid sequence becomes one U+FFFD. *)
Definition replacement : bytes := [xef; xbf; xbd].
Definition byte_in (lo hi : N) (b : byte) : bool := ((lo <=? Byte.to_N b) && (Byte.to_N b <=? hi))%N.
Definition is_cont : byte → bool := byte_in 128 191.
(** What may follow a lead byte: the range of the second byte, and the number of
    continuation bytes after it. *)
Definition lead (b : byte) : option (N * N * nat) :=
  if byte_in 194 223 b then Some (128%N, 191%N, 0)
  else if byte_in 224 224 b then Some (160%N, 191%N, 1)
  else if byte_in 237 237 b then Some (128%N, 159%N, 1)
  else if byte_in 225 239 b then Some (128%N, 191%N, 1)
  else if byte_in 240 240 b then Some (144%N, 191%N, 2)
  else if byte_in 241 243 b then Some (128%N, 191%N, 2)
  else if byte_in 244 244 b then Some (128%N, 143%N, 2)
  else None.
Fixpoint utf8_lossy (b : bytes) : bytes :=
  match b with
  | [] => []
  | x :: b1 =>
      if byte_in 0 127 x then x :: utf8_lossy b1
      else match lead x with
           | None => replacement ++ utf8_lossy b1
           | Some (lo, hi, n) =>
               match b1 with
               | [] => replacement
               | y :: b2 =>
                   if negb (byte_in lo hi y) then replacement ++ utf8_lossy b1
                   else match n, b2 with
                        | 0, _ => x :: y :: utf8_lossy b2
                        | _, [] => replacement
                        | S n, z :: b3 =>
                            if negb (is_cont z) then replacement ++ utf8_lossy b2
                            else match n, b3 with
                                 | 0, _ => x :: y :: z :: utf8_lossy b3
                                 | _, [] => replacement
                                 | _, w :: b4 =>
                                     if is_cont w then x :: y :: z :: w :: utf8_lossy b4
                                     else replacement ++ utf8_lossy b3
                                 end
                        end
               end
           end
  end.
Definition from_utf8_lossy (b : bytes) : string := String.string_of_list_byte (utf8_lossy b).

Definition is_ascii_hexdigit (a : Ascii.ascii) : bool :=
  let n := Ascii.N_of_ascii a in
  (((48 <=? n) && (n <=? 57)) || ((65 <=? n) && (n <=? 70)) || ((97 <=? n) && (n <=? 102)))%N.

(** ** Trimming text around a brace *)

(** A trimming function removes white space, none of whose bytes is [stop], until it
    finds none. *)
Definition peels (stop : byte) (f : bytes → bytes) : Prop := ∀ s,
  f s = s ∨ (∃ w s', s = w ++ s' ∧ w ≠ [] ∧ (stop ∉ w) ∧ f s = f s').

Ltac peel_with w s :=
  try (right; exists w, s; split_and!; [reflexivity|discriminate| |reflexivity];
       rewrite ?not_elem_of_cons; split_and!; first [discriminate|apply not_elem_of_nil]).
Ltac solve_peels :=
  let s := fresh "s" in let x := fresh "x" in let y := fresh "y" in let z := fresh "z" in
  intros s; destruct s as [|x s]; [by left|];
  destruct x; try (left; reflexivity);
  match goal with |- context [?b :: s] => peel_with [b] s end;
  (destruct s as [|y s]; [by left|]); destruct y; try (left; reflexivity);
  match goal with |- context [?b :: ?c :: s] => peel_with [b; c] s end;
  (destruct s as [|z s]; [by left|]); destruct z; try (left; reflexivity);
  match goal with |- context [?b :: ?c :: ?d :: s] => peel_with [b; c; d] s end.

Lemma trim_start_peels : peels x7b trim_start.
Proof. solve_peels. Qed.
Lemma trim_end_peels : peels x7d trim_end_rev.
Proof. solve_peels. Qed.

Lemma peels_stop stop f p r : peels stop f →
  ∃ w q, p = w ++ q ∧ f (p ++ stop :: r) = q ++ stop :: r.
Proof.
  intros Hf. remember (length p) as n eqn:Hn. revert p Hn.
  induction (lt_wf n) as [n _ IH]. intros p ->.
  destruct (Hf (p ++ stop :: r)) as [->|(w & s' & Hs & Hw & Hstop & ->)]; [by exists [], p|].
  assert (∃ p', p = w ++ p' ∧ s' = p' ++ stop :: r) as (p' & -> & ->).
  { apply app_eq_app in Hs as [l [[-> ->]|[-> Hl]]]; [by exists l|].
    destruct l as [|b l]; [exists []; by rewrite !app_nil_r|]. simplify_eq/=.
    destruct Hstop. apply elem_of_app. right. left. }
  destruct w as [|b w]; [done|]. rewrite length_app in IH.
  destruct (IH (length p')) with p' as (w' & q & -> & ->); [simpl; lia|done|].
  exists ((b :: w) ++ w'), q. by rewrite (assoc (++)).
Qed.

(** ** Texts as bytes *)

Abbreviation string_of := String.string_of_list_byte.

Lemma as_bytes_string_of b : as_bytes (string_of b) = b.
Proof. apply String.list_byte_of_string_of_list_byte. Qed.
Lemma string_of_as_bytes s : string_of (as_bytes s) = s.
Proof. apply String.string_of_list_byte_of_string. Qed.
Lemma string_of_cons x b : string_of (x :: b) = String (Ascii.ascii_of_byte x) (string_of b).
Proof. done. Qed.
Lemma string_of_app b c : string_of (b ++ c) = string_of b +:+ string_of c.
Proof. apply as_bytes_inj. by rewrite as_bytes_app, !as_bytes_string_of. Qed.

Lemma ascii_of_byte_inj x y : Ascii.ascii_of_byte x = Ascii.ascii_of_byte y → x = y.
Proof. intros H. apply (f_equal Ascii.byte_of_ascii) in H. by rewrite !Ascii.byte_of_ascii_of_byte in H. Qed.

Lemma find_char_None x b : find_char (Ascii.ascii_of_byte x) (string_of b) = None ↔ x ∉ b.
Proof.
  induction b as [|y b IH]; [split; [intros _; apply not_elem_of_nil|done]|].
  rewrite string_of_cons, not_elem_of_cons. cbn [find_char]. destruct (decide _) as [->%ascii_of_byte_inj|Hne].
  - naive_solver.
  - rewrite <- IH. assert (x ≠ y) by congruence. destruct (find_char _ (string_of b)); naive_solver.
Qed.

Lemma find_char_first x b r : x ∉ b →
  find_char (Ascii.ascii_of_byte x) (string_of (b ++ x :: r)) = Some (length b).
Proof.
  induction b as [|y b IH]; simpl app; rewrite string_of_cons; cbn [find_char].
  - by rewrite decide_True.
  - intros [Hxy Hb]%not_elem_of_cons. rewrite decide_False by (by intros ->%ascii_of_byte_inj).
    by rewrite IH.
Qed.

Lemma rfind_char_last x b r : x ∉ r →
  rfind_char (Ascii.ascii_of_byte x) (string_of (b ++ x :: r)) = Some (length b).
Proof.
  intros Hr. induction b as [|y b IH]; simpl app; rewrite string_of_cons; cbn [rfind_char]; [|by rewrite IH].
  assert (rfind_char (Ascii.ascii_of_byte x) (string_of r) = None) as ->; [|by rewrite decide_True].
  induction r as [|y r IH]; [done|]. apply not_elem_of_cons in Hr as [Hxy Hr].
  rewrite string_of_cons. cbn [rfind_char]. rewrite IH by done.
  by rewrite decide_False by (by intros ->%ascii_of_byte_inj).
Qed.

Lemma substring_bytes n k b : String.substring n k (string_of b) = string_of (take k (drop n b)).
Proof.
  revert n k. induction b as [|x b IH]; intros [|n] [|k]; try done; rewrite string_of_cons;
    cbn [String.substring drop take].
  - by rewrite IH, drop_0.
  - apply (IH n 0).
  - apply (IH n (S k)).
Qed.

(** Trimming around braces cuts what is before and after them. *)
Lemma trim_around p m q : ∃ w p' q' w', p = w ++ p' ∧ q = q' ++ w' ∧
  trim (string_of (p ++ x7b :: m ++ x7d :: q)) = string_of (p' ++ x7b :: m ++ x7d :: q').
Proof.
  destruct (peels_stop _ _ p (m ++ x7d :: q) trim_start_peels) as (w & p' & -> & Hs).
  destruct (peels_stop _ _ (rev q) (rev (p' ++ x7b :: m)) trim_end_peels) as (w' & q' & Hq & He).
  exists w, p', (rev q'), (rev w'). split; [done|]. split.
  - by rewrite <- rev_app_distr, <- Hq, rev_involutive.
  - assert (∀ a b : bytes, rev (a ++ x7d :: rev b) = b ++ x7d :: rev a) as Hrev.
    { intros a b. rewrite rev_app_distr. cbn [rev]. by rewrite rev_involutive, <- (assoc (++)). }
    assert (p' ++ x7b :: m ++ x7d :: q = (p' ++ x7b :: m) ++ x7d :: rev (rev q)) as Hq'
      by by rewrite rev_involutive, <- (assoc (++)).
    unfold trim. rewrite as_bytes_string_of, Hs, Hq'. f_equal. rewrite <- Hrev, rev_involutive, He, Hrev.
    by rewrite <- (assoc (++)).
Qed.

(** Braces protect what is between them. *)
Lemma trim_braced b : trim (string_of (x7b :: b ++ [x7d])) = string_of (x7b :: b ++ [x7d]).
Proof.
  unfold trim. rewrite as_bytes_string_of. change (trim_start (x7b :: b ++ [x7d])) with (x7b :: b ++ [x7d]).
  cbn [rev]. rewrite rev_app_distr. change (rev [x7d] ++ rev b) with (x7d :: rev b).
  change (trim_end_rev ((x7d :: rev b) ++ [x7b])) with ((x7d :: rev b) ++ [x7b]).
  rewrite rev_app_distr. cbn [rev]. by rewrite rev_involutive.
Qed.
Lemma trim_braced_line b : trim (string_of (x7b :: b ++ [x7d; x0a])) = string_of (x7b :: b ++ [x7d]).
Proof.
  rewrite <- trim_braced. unfold trim. rewrite !as_bytes_string_of.
  change (trim_start (x7b :: b ++ [x7d; x0a])) with (x7b :: b ++ [x7d; x0a]).
  change (trim_start (x7b :: b ++ [x7d])) with (x7b :: b ++ [x7d]). cbn [rev]. by rewrite !rev_app_distr.
Qed.

Lemma read_line_nl s : find_char newline s = None → read_line (s +:+ nl) = s +:+ nl.
Proof.
  induction s as [|a s IH]; [done|]. change (String a s +:+ nl) with (String a (s +:+ nl)).
  cbn [find_char read_line]. destruct (decide (a = newline)); [done|].
  destruct (find_char newline s); [done|]. intros _. by rewrite IH.
Qed.
Lemma nl_not_empty s : s +:+ nl ≠ "".
Proof. by destruct s. Qed.
