(* ===== verification/Json.v ===== *)
(** * serde_json values

    The [serde_json::Value]s the program builds and inspects by hand.  An object is
    a chain of members ending in [JEmpty], an array a chain of items ending in
    [JNil]; a number is unsigned, negative with the given absolute value, or a
    fraction, whose value the program never looks at.  The program looks an object
    up by key only, so the order of its members is immaterial. *)

From S2P Require Import Prelude CoreTypes Interfaces Text.

Inductive JsonValue :=
| JNull
| JBool (b : bool)
| JNumber (n : N)
| JNegative (n : N)
| JFloat (s : string)
| JString (s : string)
| JEmpty
| JMember (key : string) (v rest : JsonValue)
| JNil
| JItem (v rest : JsonValue).
#[export] Instance JsonValue_eq_dec : EqDecision JsonValue.
Proof. solve_decision. Defined.

(** [value.get(key)], [value[key]], [as_u64] and [as_str]. *)
Fixpoint json_get (key : string) (v : JsonValue) : option JsonValue :=
  match v with
  | JMember k x rest => if decide (k = key) then Some x else json_get key rest
  | _ => None
  end.
Definition json_member (key : string) (v : JsonValue) : JsonValue := default JNull (json_get key v).
Definition as_u64 (v : JsonValue) : option N := match v with JNumber n => Some n | _ => None end.
Definition as_str (v : JsonValue) : option string := match v with JString s => Some s | _ => None end.

(** [as_i64], [as_array] and [value[i]]. *)
Definition as_i64 (v : JsonValue) : option Z :=
  match v with
  | JNumber n => if (n <? 2 ^ 63)%N then Some (Z.of_N n) else None
  | JNegative n => if (n <=? 2 ^ 63)%N then Some (- Z.of_N n)%Z else None
  | _ => None
  end.
Fixpoint json_items (v : JsonValue) : list JsonValue :=
  match v with JItem x rest => x :: json_items rest | _ => [] end.
Definition is_array (v : JsonValue) : bool := match v with JNil | JItem _ _ => true | _ => false end.
Definition is_object (v : JsonValue) : bool := match v with JEmpty | JMember _ _ _ => true | _ => false end.
Definition as_array (v : JsonValue) : option (list JsonValue) :=
  if is_array v then Some (json_items v) else None.
Definition json_index (i : nat) (v : JsonValue) : JsonValue := default JNull (as_array v ≫= (.!! i)).

(** A signed integer as a value. *)
Definition json_int (z : Z) : JsonValue :=
  if (z <? 0)%Z then JNegative (Z.to_N (- z)) else JNumber (Z.to_N z).

(** [json!] objects and arrays. *)
Definition json_object (ms : list (string * JsonValue)) : JsonValue :=
  foldr (λ m r, JMember m.1 m.2 r) JEmpty ms.
Definition json_array (vs : list JsonValue) : JsonValue := foldr JItem JNil vs.

(** Objects with distinct keys, integers of 64 bits, no fractions. *)
Fixpoint json_wf (v : JsonValue) : bool :=
  match v with
  | JNumber n => (n <? 2 ^ 64)%N
  | JFloat _ => false
  | JNegative n => (0 <? n)%N && (n <=? 2 ^ 63)%N
  | JMember k x rest => json_wf x && bool_decide (json_get k rest = None) && is_object rest && json_wf rest
  | JItem x rest => json_wf x && is_array rest && json_wf rest
  | _ => true
  end.

(** [Display] of a value, and [serde_json::from_str] and [from_slice] at a value. *)
Class JsonText := { json_text : JsonValue → string; json_parse : string → result string JsonValue }.

(** A value is read back from its text; the text of an object is in braces, and the
    compact form has no newline. *)
Class JsonTextLaws `{JsonText} := {
  json_parse_text v : json_wf v = true → json_parse (json_text v) = Ok v;
  json_text_braces v : is_object v = true → ∃ s, json_text v = "{" +:+ s +:+ "}";
  json_text_line v : find_char newline (json_text v) = None;
}.

Lemma as_i64_json_int z : (- 2 ^ 63 ≤ z < 2 ^ 63)%Z → as_i64 (json_int z) = Some z.
Proof.
  intros Hz. unfold json_int, as_i64. destruct (Z.ltb_spec z 0).
  - destruct (N.leb_spec (Z.to_N (- z)) (2 ^ 63)); [f_equal; lia|lia].
  - destruct (N.ltb_spec (Z.to_N z) (2 ^ 63)); [f_equal; lia|lia].
Qed.

Lemma json_items_array vs : as_array (json_array vs) = Some vs.
Proof.
  assert (json_items (json_array vs) = vs) as Hi by (induction vs as [|v vs IH]; simpl; by f_equal).
  unfold as_array. rewrite Hi. by destruct vs.
Qed.

Lemma json_array_wf vs : forallb json_wf vs = true → json_wf (json_array vs) = true.
Proof.
  intros Hvs. induction vs as [|v vs IH]; [done|]. simpl in *. apply andb_true_iff in Hvs as [-> Hvs].
  rewrite IH by done. by destruct vs.
Qed.

(** The line a value is sent on is trimmed back to its text. *)
Lemma trim_json_line `{JsonTextLaws} v : is_object v = true → trim (json_text v +:+ nl) = json_text v.
Proof.
  intros (s & ->)%json_text_braces. rewrite <- (string_of_as_bytes s).
  change ("{" +:+ string_of (as_bytes s) +:+ "}") with (string_of [x7b] +:+ string_of (as_bytes s) +:+ string_of [x7d]).
  change nl with (string_of [x0a]). rewrite <- !string_of_app, <- !(assoc (++)). apply trim_braced_line.
Qed.

(** ** Encoding, for concrete serialisers *)

Fixpoint json_tree (v : JsonValue) : gen_tree (N + string) :=
  match v with
  | JNull => GenNode 0 []
  | JBool true => GenNode 3 []
  | JBool false => GenNode 4 []
  | JNumber n => GenLeaf (inl n)
  | JNegative n => GenNode 7 [GenLeaf (inl n)]
  | JFloat s => GenNode 8 [GenLeaf (inr s)]
  | JString s => GenLeaf (inr s)
  | JEmpty => GenNode 1 []
  | JMember k x r => GenNode 2 [GenLeaf (inr k); json_tree x; json_tree r]
  | JNil => GenNode 5 []
  | JItem x r => GenNode 6 [json_tree x; json_tree r]
  end.
Fixpoint tree_json (t : gen_tree (N + string)) : JsonValue :=
  match t with
  | GenLeaf (inl n) => JNumber n
  | GenLeaf (inr s) => JString s
  | GenNode 1 _ => JEmpty
  | GenNode 2 [GenLeaf (inr k); x; r] => JMember k (tree_json x) (tree_json r)
  | GenNode 3 _ => JBool true
  | GenNode 4 _ => JBool false
  | GenNode 5 _ => JNil
  | GenNode 7 [GenLeaf (inl n)] => JNegative n
  | GenNode 8 [GenLeaf (inr s)] => JFloat s
  | GenNode 6 [x; r] => JItem (tree_json x) (tree_json r)
  | GenNode _ _ => JNull
  end.

Lemma tree_json_tree v : tree_json (json_tree v) = v.
Proof. induction v as [|[]| | | | | |k x IHx r IHr| |x IHx r IHr]; simpl; congruence. Qed.

#[export] Instance JsonValue_countable : Countable JsonValue :=
  inj_countable' json_tree tree_json tree_json_tree.

(** A printer and parser for concrete runs: the encoding in braces. *)
Definition brace_text : JsonText := {|
  json_text v := "{" +:+ String.string_of_list_byte (positive_to_bytes (encode v)) +:+ "}";
  json_parse s :=
    match as_bytes s with
    | x7b :: b =>
        match positive_of_bytes (removelast b) ≫= decode with
        | Some v => Ok v
        | None => Err "expected value"
        end
    | _ => Err "expected value"
    end |}.

Lemma brace_text_laws : @JsonTextLaws brace_text.
Proof.
  split.
  - intros v _. cbn [json_text json_parse brace_text].
    rewrite !as_bytes_app, as_bytes_string_of. change (as_bytes "{") with [x7b]. change (as_bytes "}") with [x7d].
    cbn [app]. rewrite removelast_last, positive_of_to_bytes. simpl. by rewrite decode_encode.
  - intros v _. by eexists.
  - intros v.
    change (find_char (Ascii.ascii_of_byte x0a) (string_of [x7b] +:+
      string_of (positive_to_bytes (encode v)) +:+ string_of [x7d]) = None).
    rewrite <- !string_of_app. apply find_char_None. rewrite !not_elem_of_app, !list_elem_of_singleton.
    split; [done|]. split; [|done].
    generalize (encode v). clear. intros p. induction p as [p IH|p IH|]; simpl;
      rewrite ?not_elem_of_cons; split; try done; apply not_elem_of_nil.
Qed.
