(* ===== verification/Effects.v ===== *)
(** * Programs as trees of calls

    The agent is a client of the operating system: it reads its environment, files
    and directories, talks to a socket, runs curl, sleeps and prints.  Such a
    program is a finite tree: a leaf ends it, and an inner node is a call and what
    the program does with each answer.  The tree is inductive, so a program ends
    whatever the answers are.

    A tree has two readings.  [runs] lists the traces of calls and answers it can
    produce, for statements about every environment; [exec] runs it against a
    handler that implements the calls on a state. *)

From S2P Require Import Prelude.

Section trees.
Context {C : Type → Type}.

(** The end of a program: a value, an error (the text anyhow's [Display] prints,
    the outermost context), or [process::exit]. *)
Inductive ending (A : Type) :=
| Returned (a : A)
| Raised (e : string)
| Exited (code : Z).
Arguments Returned {A} _.
Arguments Raised {A} _.
Arguments Exited {A} _.

Inductive prog (A : Type) : Type :=
| End (e : ending A)
| Call {X : Type} (c : C X) (k : X → prog A).
Arguments End {A} _.
Arguments Call {A X} _ _.

Definition call {X} (c : C X) : prog X := Call c (λ x, End (Returned x)).
Definition fail {A} (e : string) : prog A := End (Raised e).
Definition exit {A} (code : Z) : prog A := End (Exited code).

Definition end_bind {A B} (f : A → prog B) (e : ending A) : prog B :=
  match e with
  | Returned a => f a
  | Raised m => End (Raised m)
  | Exited n => End (Exited n)
  end.

#[export] Instance prog_ret : MRet prog := λ A a, End (Returned a).
(** The [?] operator. *)
#[export] Instance prog_bind : MBind prog := λ A B f,
  fix go m := match m with End e => end_bind f e | Call c k => Call c (λ x, go (k x)) end.

(** A call whose error the caller inspects, and a new context for the error of one. *)
Fixpoint catch {A} (m : prog A) : prog (result string A) :=
  match m with
  | End (Returned a) => mret (Ok a)
  | End (Raised e) => mret (Err e)
  | End (Exited n) => End (Exited n)
  | Call c k => Call c (λ x, catch (k x))
  end.
Fixpoint context {A} (msg : string) (m : prog A) : prog A :=
  match m with
  | End (Raised _) => End (Raised msg)
  | End e => End e
  | Call c k => Call c (λ x, context msg (k x))
  end.

Definition of_result {A} (r : result string A) : prog A :=
  match r with Ok a => mret a | Err e => fail e end.
(** A call that can fail, followed by [?]. *)
Definition io {A} (c : C (result string A)) : prog A := r ← call c; of_result r.

(** A [for] loop that updates a state. *)
Fixpoint pfold {S A} (f : S → A → prog S) (s : S) (l : list A) : prog S :=
  match l with [] => mret s | x :: l => s ← f s x; pfold f s l end.

(** ** Traces *)

Inductive act :=
| Act {X : Type} (c : C X) (x : X).

Fixpoint runs {A} (p : prog A) (tr : list act) (e : ending A) : Prop :=
  match p with
  | End e' => tr = [] ∧ e = e'
  | Call c k => ∃ x tr', tr = Act c x :: tr' ∧ runs (k x) tr' e
  end.

Lemma runs_bind {A B} (m : prog A) (f : A → prog B) tr e :
  runs (m ≫= f) tr e ↔
  ∃ tr1 e1 tr2, tr = tr1 ++ tr2 ∧ runs m tr1 e1 ∧ runs (end_bind f e1) tr2 e.
Proof.
  revert tr. induction m as [e0|X c k IH]; intros tr; simpl.
  - split; [intros Hr; by exists [], e0, tr|]. by intros (? & ? & tr2 & -> & [-> ->] & Hr).
  - split.
    + intros (x & tr' & -> & (tr1 & e1 & tr2 & -> & Hm & Hf)%IH). exists (Act c x :: tr1), e1, tr2.
      eauto 10.
    + intros (tr1 & e1 & tr2 & -> & (x & tr' & -> & Hm) & Hf). exists x, (tr' ++ tr2).
      split; [done|]. apply IH. eauto 10.
Qed.

Lemma runs_bind_inv {A B} (m : prog A) (f : A → prog B) tr e :
  runs (m ≫= f) tr e →
  (∃ tr1 a tr2, tr = tr1 ++ tr2 ∧ runs m tr1 (Returned a) ∧ runs (f a) tr2 e) ∨
  (∃ e1, runs m tr e1 ∧ (∀ a, e1 ≠ Returned a) ∧ (∀ b, e ≠ Returned b)).
Proof.
  intros (tr1 & e1 & tr2 & -> & Hm & Hf)%runs_bind. destruct e1 as [a|msg|n]; simpl in Hf.
  - left. by exists tr1, a, tr2.
  - right. destruct Hf as [-> ->]. exists (Raised msg). by rewrite app_nil_r.
  - right. destruct Hf as [-> ->]. exists (Exited n). by rewrite app_nil_r.
Qed.

Lemma runs_bind_ret {A B} (m : prog A) (f : A → prog B) tr b :
  runs (m ≫= f) tr (Returned b) →
  ∃ tr1 a tr2, tr = tr1 ++ tr2 ∧ runs m tr1 (Returned a) ∧ runs (f a) tr2 (Returned b).
Proof. intros [H|(e1 & _ & _ & Hn)]%runs_bind_inv; [done|]. by destruct (Hn b). Qed.

Lemma runs_context {A} msg (m : prog A) tr a :
  runs (context msg m) tr (Returned a) ↔ runs m tr (Returned a).
Proof.
  revert tr. induction m as [[]|X c k IH]; intros tr; simpl; [naive_solver..|].
  by setoid_rewrite IH.
Qed.

Lemma runs_of_result {A} (r : result string A) tr a :
  runs (of_result r) tr (Returned a) → tr = [] ∧ r = Ok a.
Proof. destruct r; simpl; naive_solver. Qed.

Lemma runs_io {A} (c : C (result string A)) tr a :
  runs (io c) tr (Returned a) → tr = [Act c (Ok a)].
Proof.

  unfold io, call, mbind, prog_bind. simpl. intros (x & tr' & -> & [-> ->]%runs_of_result). done.
Qed.

(** *** The cost of a trace *)

Definition cost (w : ∀ X, C X → nat) (tr : list act) : nat :=
  foldr (λ a n, (let 'Act c _ := a in w _ c) + n) 0 tr.
(** Whatever the answers, a run costs at most [n]. *)
Definition at_most {A} (w : ∀ X, C X → nat) (n : nat) (p : prog A) : Prop :=
  ∀ tr e, runs p tr e → cost w tr ≤ n.

Lemma cost_app w tr1 tr2 : cost w (tr1 ++ tr2) = cost w tr1 + cost w tr2.
Proof. induction tr1 as [|[] tr1 IH]; simpl; lia. Qed.

Lemma at_most_mono {A} w m n (p : prog A) : at_most w m p → m ≤ n → at_most w n p.
Proof. intros Hp Hle tr e Hr. etrans; [by eapply Hp|done]. Qed.

Lemma at_most_end {A} w n (e : ending A) : at_most w n (End e).
Proof. intros tr ? [-> ->]. simpl. lia. Qed.

Lemma at_most_call {A X} w m n (c : C X) (k : X → prog A) :
  w X c ≤ m → (∀ x, at_most w n (k x)) → at_most w (m + n) (Call c k).
Proof. intros Hm Hk tr e (x & tr' & -> & Hr). simpl. specialize (Hk x tr' e Hr). lia. Qed.

Lemma at_most_bind {A B} w m n (p : prog A) (f : A → prog B) :
  at_most w m p → (∀ a, at_most w n (f a)) → at_most w (m + n) (p ≫= f).
Proof.
  intros Hp Hf tr e (tr1 & e1 & tr2 & -> & H1 & H2)%runs_bind. rewrite cost_app.
  specialize (Hp _ _ H1). destruct e1 as [a|msg|c]; simpl in H2.
  - specialize (Hf a _ _ H2). lia.
  - destruct H2 as [-> _]. simpl. lia.
  - destruct H2 as [-> _]. simpl. lia.
Qed.

Lemma runs_context_inv {A} msg (p : prog A) tr e : runs (context msg p) tr e → ∃ e', runs p tr e'.
Proof.
  revert tr. induction p as [[]|X c k IH]; simpl; intros tr; [naive_solver..|].
  intros (x & tr' & -> & (e' & He)%IH). eauto 10.
Qed.

Lemma at_most_io {A} (w : ∀ X, C X → nat) n (c : C (result string A)) : w _ c ≤ n → at_most w n (io c).
Proof.
  intros Hc. rewrite <- (Nat.add_0_r n). apply at_most_call; [done|]. intros [a|e]; apply at_most_end.
Qed.

Lemma at_most_context {A} w n msg (p : prog A) : at_most w n p → at_most w n (context msg p).
Proof. intros Hp tr e (e' & He)%runs_context_inv. eauto. Qed.

(** *** The calls of a program *)

Fixpoint calls_in {A} (P : ∀ X, C X → Prop) (p : prog A) : Prop :=
  match p with End _ => True | Call c k => P _ c ∧ ∀ x, calls_in P (k x) end.
Definition act_in (P : ∀ X, C X → Prop) (a : act) : Prop := let 'Act c _ := a in P _ c.

Lemma calls_in_bind {A B} P (p : prog A) (f : A → prog B) :
  calls_in P p → (∀ a, calls_in P (f a)) → calls_in P (p ≫= f).
Proof.
  intros Hp Hf. induction p as [[a| |]|X c k IH]; simpl in *; [apply Hf|done..|].
  destruct Hp as [Hc Hk]. split; [done|]. intros x. apply IH, Hk.
Qed.

Lemma calls_in_mono {A} (P Q : ∀ X, C X → Prop) (p : prog A) :
  (∀ X c, P X c → Q X c) → calls_in P p → calls_in Q p.
Proof. intros HPQ. induction p as [|X c k IH]; [done|]. intros [Hc Hk]. split; auto. Qed.

(** The continuation need only be good at the values that can be returned. *)
Lemma calls_in_bind_runs {A B} P (p : prog A) (f : A → prog B) :
  calls_in P p → (∀ tr a, runs p tr (Returned a) → calls_in P (f a)) → calls_in P (p ≫= f).
Proof.
  intros Hp Hf. induction p as [[a| |]|X c k IH]; simpl in *; [by apply (Hf [])|done..|].
  destruct Hp as [Hc Hk]. split; [done|]. intros x. apply IH; [apply Hk|]. intros tr a Hr.
  apply (Hf (Act c x :: tr)). eauto.
Qed.

Lemma runs_catch {A} (p : prog A) tr r :
  runs (catch p) tr (Returned r) → match r with Ok a => runs p tr (Returned a) | Err e => runs p tr (Raised e) end.
Proof.
  revert tr. induction p as [[]|X c k IH]; simpl; intros tr; [naive_solver..|].
  intros (x & tr' & -> & Hr%IH). destruct r; eauto.
Qed.

Lemma calls_in_catch {A} P (p : prog A) : calls_in P p → calls_in P (catch p).
Proof.
  induction p as [[]|X c k IH]; simpl; [done..|]. intros [Hc Hk]. split; [done|]. intros x. apply IH, Hk.
Qed.

Lemma calls_in_context {A} P msg (p : prog A) : calls_in P p → calls_in P (context msg p).
Proof.
  induction p as [[]|X c k IH]; simpl; [done..|]. intros [Hc Hk]. split; [done|]. intros x. apply IH, Hk.
Qed.

Lemma calls_in_of_result {A} P (r : result string A) : calls_in P (of_result r).
Proof. by destruct r. Qed.

Lemma calls_in_io {A} (P : ∀ X, C X → Prop) (c : C (result string A)) : P _ c → calls_in P (io c).
Proof. intros Hc. split; [done|]. intros x. apply calls_in_of_result. Qed.

Lemma calls_in_pfold {S A} P (f : S → A → prog S) s l :
  (∀ s x, calls_in P (f s x)) → calls_in P (pfold f s l).
Proof.
  intros Hf. revert s. induction l as [|x l IH]; intros s; [done|]. by apply calls_in_bind.
Qed.

Lemma runs_calls_in {A} P (p : prog A) tr e : calls_in P p → runs p tr e → Forall (act_in P) tr.
Proof.
  intros Hp. revert tr. induction p as [e'|X c k IH]; simpl in *; [by intros ? [-> _]|].
  destruct Hp as [Hc Hk]. intros tr (x & tr' & -> & Hr). constructor; [done|]. by eapply IH.
Qed.

Lemma at_most_calls_in {A} w P (p : prog A) :
  (∀ X (c : C X), P X c → w X c = 0) → calls_in P p → at_most w 0 p.
Proof.
  intros Hw Hp tr e Hr. assert (Forall (act_in P) tr) as Htr by by eapply runs_calls_in.
  clear Hr. induction Htr as [|[X c x] tr Ha Htr IH]; simpl; [lia|]. rewrite (Hw X c Ha). done.
Qed.

(** ** Execution *)

Fixpoint exec {W A} (h : ∀ X, C X → W → X * W) (p : prog A) (w : W) : ending A * W :=
  match p with
  | End e => (e, w)
  | Call c k => let '(x, w) := h _ c w in exec h (k x) w
  end.

Lemma exec_bind {W A B} (h : ∀ X, C X → W → X * W) (m : prog A) (f : A → prog B) w :
  exec h (m ≫= f) w = let '(e, w) := exec h m w in exec h (end_bind f e) w.
Proof.
  revert w. induction m as [e|X c k IH]; intros w; simpl; [done|]. destruct (h X c w) as [x w']. apply IH.
Qed.

(** What is executed is one of the traces. *)
Lemma exec_runs {W A} (h : ∀ X, C X → W → X * W) (p : prog A) w :
  ∃ tr, runs p tr (exec h p w).1.
Proof.
  revert w. induction p as [e|X c k IH]; intros w; simpl; [by exists []|].
  destruct (h X c w) as [x w']. destruct (IH x w') as [tr Hr]. eauto 10.
Qed.
End trees.

Arguments ending : clear implicits.
Arguments Returned {A} _.
Arguments Raised {A} _.
Arguments Exited {A} _.
Arguments prog : clear implicits.
Arguments End {C A} _.
Arguments Call {C A X} _ _.
Arguments act : clear implicits.
Arguments Act {C X} _ _.

#[export] Hint Resolve calls_in_bind calls_in_catch calls_in_context calls_in_of_result calls_in_io
  calls_in_pfold : eo.
