(* ===== verification/Channels.v ===== *)
(** * The sending half of a tokio channel

    A sender the program holds is the list of messages it has put on the channel
    and the outcomes the runtime gives to its next sends: [None] for a message
    accepted, [Some e] for a send that fails with [e] (receiver dropped, or queue
    full for [try_send]).  An exhausted list of outcomes accepts everything. *)

From S2P Require Import Prelude.

Record Sender (T : Type) := mkSender { sent : list T; outcomes : list (option string) }.
Arguments mkSender {T} _ _.
Arguments sent {T} _.
Arguments outcomes {T} _.

Definition chan_send {T} (x : T) : M (Sender T) string unit := λ c,
  match outcomes c with
  | Some e :: os => (Done (Err e), mkSender (sent c) os)
  | None :: os => (Done (Ok tt), mkSender (sent c ++ [x]) os)
  | [] => (Done (Ok tt), mkSender (sent c ++ [x]) [])
  end.

(** Whether the next send is accepted. *)
Definition chan_ready {T} (c : Sender T) : bool :=
  match outcomes c with Some _ :: _ => false | _ => true end.

Lemma chan_send_ok {T} (x : T) c u c' :
  chan_send x c = (Done (Ok u), c') → sent c' = sent c ++ [x].
Proof. unfold chan_send. destruct (outcomes c) as [|[e|] os]; intros; by simplify_eq/=. Qed.

Lemma chan_send_err {T} (x : T) c e c' :
  chan_send x c = (Done (Err e), c') → sent c' = sent c.
Proof. unfold chan_send. destruct (outcomes c) as [|[?|] os]; intros; by simplify_eq/=. Qed.

Lemma chan_send_no_panic {T} (x : T) c s : (chan_send x c).1 ≠ Panic s.
Proof. unfold chan_send. by destruct (outcomes c) as [|[?|] os]. Qed.

Lemma chan_send_ready {T} (x : T) c :
  chan_ready c = true → ∃ c', chan_send x c = (Done (Ok tt), c') ∧ sent c' = sent c ++ [x].
Proof.
  unfold chan_ready, chan_send. destruct (outcomes c) as [|[e|] os]; intros; simplify_eq; eauto.
Qed.
