(* ===== verification/StateMachine.v ===== *)
(** * The replicated cluster state (crates/node/src/raft/proposal.rs, state_machine.rs)

    Proposals, their application to [ClusterState], the invariant every committed
    log keeps, and the abstract registry-and-assignments specification the state
    machine refines. *)

From S2P Require Import Prelude CoreTypes Interfaces.

Inductive Proposal :=
| RegisterNode (desc : NodeDescriptor)
| DeregisterNode (id : NodeId)
| AssignRole (id : NodeId) (role : Role)
| RevokeRole (id : NodeId) (role : Role).
#[export] Instance Proposal_eq_dec : EqDecision Proposal.
Proof. solve_decision. Defined.
#[export] Program Instance Proposal_countable : Countable Proposal :=
  inj_countable' (λ p, match p with
    | RegisterNode d => inl (inl d)
    | DeregisterNode i => inl (inr i)
    | AssignRole i r => inr (inl (i, r))
    | RevokeRole i r => inr (inr (i, r))
    end) (λ x, match x with
    | inl (inl d) => RegisterNode d
    | inl (inr i) => DeregisterNode i
    | inr (inl (i, r)) => AssignRole i r
    | inr (inr (i, r)) => RevokeRole i r
    end) _.
Next Obligation. by intros []. Qed.

Inductive ApplyResult :=
| ApplyOk
| NodeRegistered (id : NodeId)
| NodeDeregistered (id : NodeId)
| RoleAssigned (id : NodeId) (role : Role)
| RoleRevoked (id : NodeId) (role : Role)
| Rejected (why : string).
#[export] Instance ApplyResult_eq_dec : EqDecision ApplyResult.
Proof. solve_decision. Defined.

Section encoding.
Context `{SerdeJson Proposal}.
Definition encode_proposal (p : Proposal) : result string bytes := to_vec p.
Definition decode_proposal (b : bytes) : result string Proposal := from_slice b.
End encoding.

Record ClusterState := mkClusterState {
  nodes : gmap NodeId NodeDescriptor;
  role_assignments : gmap NodeId (list Role);
  last_applied_index : N;
}.

Definition ClusterState_default : ClusterState :=
  {| nodes := ∅; role_assignments := ∅; last_applied_index := 0 |}.

Definition set_nodes (f : gmap NodeId NodeDescriptor → gmap NodeId NodeDescriptor)
    (s : ClusterState) : ClusterState :=
  mkClusterState (f (nodes s)) (role_assignments s) (last_applied_index s).
Definition set_roles (f : gmap NodeId (list Role) → gmap NodeId (list Role))
    (s : ClusterState) : ClusterState :=
  mkClusterState (nodes s) (f (role_assignments s)) (last_applied_index s).
Definition set_last_applied (i : N) (s : ClusterState) : ClusterState :=
  mkClusterState (nodes s) (role_assignments s) i.

Section apply.
Context `{UuidText}.

Definition apply (s : ClusterState) (p : Proposal) : ApplyResult * ClusterState :=
  match p with
  | RegisterNode desc =>
      let id := node_id desc in
      let is_new := bool_decide (nodes s !! id = None) in
      (if is_new then NodeRegistered id else ApplyOk, set_nodes (<[id := desc]>) s)
  | DeregisterNode id =>
      (NodeDeregistered id, set_roles (delete id) (set_nodes (delete id) s))
  | AssignRole id role =>
      if decide (nodes s !! id = None) then
        (Rejected ("Cannot assign role to unknown node: " +:+ uuid_to_string id), s)
      else
        let roles := default [] (role_assignments s !! id) in
        if decide (role ∈ roles) then (ApplyOk, set_roles (<[id := roles]>) s)
        else (RoleAssigned id role, set_roles (<[id := roles ++ [role]]>) s)
  | RevokeRole id role =>
      match role_assignments s !! id with
      | Some roles =>
          match list_find (λ r, r = role) roles with
          | Some (pos, _) => (RoleRevoked id role, set_roles (<[id := delete pos roles]>) s)
          | None => (ApplyOk, s)
          end
      | None => (ApplyOk, s)
      end
  end.

(** The committed log applied in order (results discarded, as the node does). *)
Definition apply_all (s : ClusterState) (l : list Proposal) : ClusterState :=
  foldl (λ s p, snd (apply s p)) s l.
End apply.

Record ClusterSnapshot := mkClusterSnapshot {
  snap_nodes : gmap NodeId NodeDescriptor;
  snap_role_assignments : gmap NodeId (list Role);
  snap_last_applied_index : N;
}.

Definition snapshot (s : ClusterState) : ClusterSnapshot :=
  mkClusterSnapshot (nodes s) (role_assignments s) (last_applied_index s).
Definition restore (s : ClusterSnapshot) : ClusterState :=
  mkClusterState (snap_nodes s) (snap_role_assignments s) (snap_last_applied_index s).

(** ** Well-formedness *)

(** Nodes are filed under their own id, only registered nodes have assignments,
    and no role is assigned twice. *)
Record cs_wf (s : ClusterState) : Prop := {
  cs_keyed id d : nodes s !! id = Some d → node_id d = id;
  cs_registered id rs : role_assignments s !! id = Some rs → is_Some (nodes s !! id);
  cs_nodup id rs : role_assignments s !! id = Some rs → NoDup rs;
}.

(** The roles the state assigns to a node. *)
Definition roles_of (s : ClusterState) (id : NodeId) : list Role :=
  default [] (role_assignments s !! id).

(** ** The abstract specification: a registry and a set of assignments *)

Record Spec := mkSpec { sp_nodes : gmap NodeId NodeDescriptor; sp_roles : gset (NodeId * Role) }.

Definition spec_step `{UuidText} (a : Spec) (p : Proposal) : ApplyResult * Spec :=
  match p with
  | RegisterNode d =>
      (if decide (node_id d ∈ dom (sp_nodes a)) then ApplyOk else NodeRegistered (node_id d),
       mkSpec (<[node_id d := d]> (sp_nodes a)) (sp_roles a))
  | DeregisterNode id =>
      (NodeDeregistered id,
       mkSpec (delete id (sp_nodes a)) (filter (λ x, x.1 ≠ id) (sp_roles a)))
  | AssignRole id r =>
      if decide (id ∈ dom (sp_nodes a)) then
        (if decide ((id, r) ∈ sp_roles a) then ApplyOk else RoleAssigned id r,
         mkSpec (sp_nodes a) ({[(id, r)]} ∪ sp_roles a))
      else (Rejected ("Cannot assign role to unknown node: " +:+ uuid_to_string id), a)
  | RevokeRole id r =>
      (if decide ((id, r) ∈ sp_roles a) then RoleRevoked id r else ApplyOk,
       mkSpec (sp_nodes a) (sp_roles a ∖ {[(id, r)]}))
  end.

Definition refines (s : ClusterState) (a : Spec) : Prop :=
  nodes s = sp_nodes a ∧ ∀ id r, r ∈ roles_of s id ↔ (id, r) ∈ sp_roles a.

(** ** Lemmas *)

Lemma list_find_None_not_elem (roles : list Role) role :
  list_find (λ r, r = role) roles = None ↔ role ∉ roles.
Proof. rewrite list_find_None, Forall_forall. naive_solver. Qed.

Lemma delete_NoDup (rs : list Role) pos : NoDup rs → NoDup (delete pos rs).
Proof. intros. eapply sublist_NoDup; [done|]. apply sublist_delete. Qed.

(** Removing the first occurrence from a duplicate-free list removes the role. *)
Lemma elem_of_remove_first (rs : list Role) role pos x r :
  NoDup rs → list_find (λ r, r = role) rs = Some (pos, x) →
  r ∈ delete pos rs ↔ r ∈ rs ∧ r ≠ role.
Proof.
  intros Hnd (Hx & -> & _)%list_find_Some.
  rewrite (delete_Permutation _ _ _ Hx) in Hnd. apply NoDup_cons in Hnd as [Hni _].
  rewrite (delete_Permutation _ _ _ Hx) at 2. set_solver.
Qed.

Section lemmas.
Context `{UuidText}.
Implicit Types s : ClusterState.

Lemma roles_of_insert s id id' rs :
  roles_of (set_roles (<[id := rs]>) s) id' = if decide (id = id') then rs else roles_of s id'.
Proof. unfold roles_of. simpl. rewrite lookup_insert. by case_decide. Qed.

Lemma roles_of_nodup s id : cs_wf s → NoDup (roles_of s id).
Proof.
  intros Hwf. unfold roles_of. destruct (_ !! id) as [rs|] eqn:Hrs; simpl.
  - by eapply cs_nodup.
  - constructor.
Qed.

Lemma default_wf : cs_wf ClusterState_default.
Proof. split; simpl; intros *; by rewrite lookup_empty. Qed.

(** Updating the roles of a registered node keeps the invariant. *)
Lemma set_roles_wf s id rs :
  cs_wf s → is_Some (nodes s !! id) → NoDup rs → cs_wf (set_roles (<[id := rs]>) s).
Proof.
  intros [Hk Hr Hn] Hid Hrs. split; simpl; [done|..]; intros i rs';
    rewrite lookup_insert; case_decide; naive_solver.
Qed.

Lemma apply_wf s p : cs_wf s → cs_wf (apply s p).2.
Proof.
  intros Hwf. pose proof Hwf as [Hk Hr Hn]. destruct p as [d|id|id role|id role]; simpl.
  - split; simpl; [|intros i rs Hi; rewrite lookup_insert; case_decide; eauto|done].
    intros i d'. rewrite lookup_insert. case_decide; naive_solver.
  - split; simpl; intros *; rewrite ?lookup_delete; case_decide; naive_solver.
  - destruct (decide (nodes s !! id = None)) as [|Hid]; [done|].
    assert (is_Some (nodes s !! id)) by by apply not_eq_None_Some.
    pose proof (roles_of_nodup s id Hwf). unfold roles_of in *.
    case_decide; simpl; apply set_roles_wf; auto.
    apply NoDup_app. split_and!; [done| |apply NoDup_singleton]. set_solver.
  - destruct (role_assignments s !! id) as [rs|] eqn:Hrs; [|done].
    destruct (list_find _ rs) as [[pos x]|]; [|done].
    apply set_roles_wf; [done| |]; eauto using delete_NoDup.
Qed.

Lemma apply_all_wf s l : cs_wf s → cs_wf (apply_all s l).
Proof. revert s. induction l as [|p l IH]; simpl; [done|]. auto using apply_wf. Qed.

(** The effect of each proposal on the assigned roles. *)
Lemma roles_of_apply_assign s id role i r :
  r ∈ roles_of (apply s (AssignRole id role)).2 i ↔
  r ∈ roles_of s i ∨ (i = id ∧ r = role ∧ is_Some (nodes s !! id)).
Proof.
  unfold apply. destruct (decide (nodes s !! id = None)) as [Hid|Hid]; simpl.
  - rewrite Hid. split; [auto|]. intros [|(_ & _ & [? [=]])]; done.
  - apply not_eq_None_Some in Hid. fold (roles_of s id).
    case_decide; simpl; rewrite roles_of_insert; case_decide; subst; set_solver.
Qed.

Lemma roles_of_apply_revoke s id role i r :
  cs_wf s →
  r ∈ roles_of (apply s (RevokeRole id role)).2 i ↔
  r ∈ roles_of s i ∧ ¬ (i = id ∧ r = role).
Proof.
  intros Hwf. unfold apply.
  destruct (role_assignments s !! id) as [rs|] eqn:Hrs; simpl.
  - destruct (list_find _ rs) as [[pos x]|] eqn:Hf; simpl.
    + rewrite roles_of_insert. case_decide as Hd; [subst i|naive_solver].
      rewrite elem_of_remove_first by (try done; by eapply cs_nodup).
      unfold roles_of. rewrite Hrs. naive_solver.
    + apply list_find_None_not_elem in Hf. unfold roles_of.
      destruct (decide (i = id)) as [->|]; [rewrite Hrs; simpl; naive_solver|naive_solver].
  - unfold roles_of. destruct (decide (i = id)) as [->|]; [|naive_solver].
    rewrite Hrs. simpl. set_solver.
Qed.

Lemma nodes_apply_assign s id role : nodes (apply s (AssignRole id role)).2 = nodes s.
Proof. unfold apply. repeat case_decide; done. Qed.

Lemma nodes_apply_revoke s id role : nodes (apply s (RevokeRole id role)).2 = nodes s.
Proof. unfold apply. cases_goal. Qed.

Lemma apply_all_app s l1 l2 : apply_all s (l1 ++ l2) = apply_all (apply_all s l1) l2.
Proof. apply foldl_app. Qed.
End lemmas.

#[export] Hint Resolve default_wf apply_wf apply_all_wf set_roles_wf : eo.
#[export] Hint Rewrite @nodes_apply_assign @nodes_apply_revoke : eo.

(** ** Properties *)

Section properties.
Context `{UuidText}.

Lemma refines_register s a d :
  refines s a → refines (apply s (RegisterNode d)).2 (spec_step a (RegisterNode d)).2.
Proof. intros [Hn Hr]. split; simpl; [by rewrite Hn|exact Hr]. Qed.

Lemma refines_deregister s a id :
  refines s a → refines (apply s (DeregisterNode id)).2 (spec_step a (DeregisterNode id)).2.
Proof.
  intros [Hn Hr]. split; simpl; [by rewrite Hn|]. intros i r.
  rewrite elem_of_filter. simpl. rewrite <- Hr. unfold roles_of. simpl.
  rewrite lookup_delete. case_decide; simpl; [set_solver|naive_solver].
Qed.

(** C1: the state machine refines the abstract specification: from related
    states every proposal returns the specified result, and the new states are
    related (the registry is the specified map and a role is assigned exactly
    when the specification's set holds it), for every proposal and every
    well-formed state. *)
Theorem apply_refines_spec s a p :
  cs_wf s → refines s a →
  (apply s p).1 = (spec_step a p).1 ∧ refines (apply s p).2 (spec_step a p).2.
Proof.
  intros Hwf Href. pose proof Href as [Hn Hr]. destruct p as [d|id|id role|id role].
  - split; [|by apply refines_register]. simpl. rewrite <- Hn.
    destruct (nodes s !! node_id d) eqn:Hd; simpl; case_decide as Hdom; try done;
      rewrite elem_of_dom, Hd in Hdom; [|by destruct Hdom].
    destruct Hdom. eauto.
  - split; [done|by apply refines_deregister].
  - assert (id ∈ dom (sp_nodes a) ↔ nodes s !! id ≠ None) as Hdom.
    { by rewrite elem_of_dom, <- Hn, not_eq_None_Some. }
    split; [|split].
    + unfold apply, spec_step. fold (roles_of s id).
      destruct (decide (nodes s !! id = None)) as [Hi|Hi],
        (decide (id ∈ dom (sp_nodes a))); [naive_solver|done| |naive_solver].
      pose proof (Hr id role). by repeat case_decide; simpl; try naive_solver.
    + rewrite nodes_apply_assign, Hn. simpl. by case_decide.
    + intros i r. rewrite roles_of_apply_assign. unfold spec_step.
      rewrite Hr, <- not_eq_None_Some, <- Hdom.
      case_decide; simpl; set_solver.
  - split; [|split].
    + simpl. destruct (role_assignments s !! id) as [rs|] eqn:Hrs.
      * destruct (list_find _ rs) as [[pos x]|] eqn:Hf; simpl; case_decide as Hd; try done;
          rewrite <- Hr in Hd; unfold roles_of in Hd; rewrite Hrs in Hd; simpl in Hd.
        -- destruct Hd. apply list_find_Some in Hf as (Hx & -> & _).
           by eapply list_elem_of_lookup_2.
        -- by apply list_find_None_not_elem in Hf.
      * case_decide as Hd; [|done]. rewrite <- Hr in Hd. unfold roles_of in Hd.
        rewrite Hrs in Hd. set_solver.
    + by rewrite nodes_apply_revoke, Hn.
    + intros i r. rewrite roles_of_apply_revoke by done. simpl. rewrite Hr. set_solver.
Qed.
End properties.

#[global] Arguments apply : simpl never.

(** ** Concrete runs *)

Module Demo.
Definition desc (id : NodeId) (roles : list Role) (rid : option N) (sandbox : bool) :
    NodeDescriptor :=
  {| node_id := id; node_type := Heavy; os := Linux;
     capabilities := {| storage := true; gpu_acceleration := false; runtimes := ["qlean"];
                        max_memory_mb := 1024; cpu_cores := 2; project_sandbox := sandbox |};
     advertised_addresses := []; current_assigned_roles := roles;
     started_at := 0%Z; raft_id := rid |}.

Definition node_a : NodeId := 7%N.
Definition node_b : NodeId := 9%N.

(** Two nodes, the first with the [Storage] role. *)
Definition log : list Proposal :=
  [RegisterNode (desc node_a [] (Some 1%N) true); RegisterNode (desc node_b [] (Some 2%N) true);
   AssignRole node_a Storage].

Definition state `{UuidText} : ClusterState := apply_all ClusterState_default log.

Lemma state_wf `{UuidText} : cs_wf state.
Proof. apply apply_all_wf, default_wf. Qed.
End Demo.

Lemma apply_refines_spec_witness :
  let _ := Toy.uuid_text in
  refines (apply ClusterState_default (AssignRole 3%N Storage)).2
    (spec_step (mkSpec ∅ ∅) (AssignRole 3%N Storage)).2.
Proof.
  intros U. apply (apply_refines_spec (H := U)); [apply default_wf|].
  split; [done|]. intros id r. unfold roles_of. simpl. rewrite lookup_empty. set_solver.
Defined.
