(* ===== verification/Topology.v ===== *)
(** * Topology specs and their diff (crates/node/src/orchestration/topology.rs)

    The desired topology, the proposals that move the cluster to it, and the
    convergence of applying them. *)

From S2P Require Import Prelude CoreTypes Interfaces StateMachine.

Record NodeSelector := mkNodeSelector {
  sel_node_id : option NodeId;
  has_capabilities : list string;
  sel_os : option string;
}.

Record NodeAssignment := mkNodeAssignment {
  node_selector : NodeSelector;
  na_roles : list Role;
}.

Record ClusterTopologySpec := mkClusterTopologySpec {
  version : string;
  assignments : list NodeAssignment;
}.

(** [serde_yaml::from_str] at a type, outside the repository. *)
Class SerdeYaml (T : Type) := { yaml_from_str : string → result string T }.

Definition parse_topology_spec `{SerdeYaml ClusterTopologySpec} (yaml : string) :
    result CoreError ClusterTopologySpec :=
  result_map_err (λ e, Configuration ("invalid topology spec: " +:+ e)) (yaml_from_str yaml).

(** [for role in roles { if !entry.contains(role) { entry.push(role) } }]. *)
Definition push_missing (entry roles : list Role) : list Role :=
  foldl (λ e r, if decide (r ∈ e) then e else e ++ [r]) entry roles.

Definition add_assignment (m : gmap NodeId (list Role)) (a : NodeAssignment) :
    gmap NodeId (list Role) :=
  match sel_node_id (node_selector a) with
  | Some id => <[id := push_missing (default [] (m !! id)) (na_roles a)]> m
  | None => m
  end.

Definition desired_roles (spec : ClusterTopologySpec) : gmap NodeId (list Role) :=
  foldl add_assignment ∅ (assignments spec).

Section diff.
Context `{HashOrder}.

(** The [AssignRole] proposals of one node, then the [RevokeRole] ones. *)
Definition assign_missing (current : gmap NodeId (list Role)) (x : NodeId * list Role) :
    list Proposal :=
  let current_roles := default [] (current !! x.1) in
  AssignRole x.1 <$> filter (λ r, r ∉ current_roles) x.2.

Definition revoke_extra (desired : gmap NodeId (list Role)) (x : NodeId * list Role) :
    list Proposal :=
  let desired := default [] (desired !! x.1) in
  RevokeRole x.1 <$> filter (λ r, r ∉ desired) x.2.

(** [seed_d] and [seed_c] are the iteration seeds of the two maps. *)
Definition diff_topology (seed_d seed_c : N) (current : gmap NodeId (list Role))
    (desired : ClusterTopologySpec) : list Proposal :=
  let dr := desired_roles desired in
  (hash_iter seed_d dr ≫= assign_missing current)
    ++ (hash_iter seed_c current ≫= revoke_extra dr).
End diff.

(** Whether a spec asks for a role on a node. *)
Definition wants (spec : ClusterTopologySpec) (id : NodeId) (r : Role) : Prop :=
  ∃ a, a ∈ assignments spec ∧ sel_node_id (node_selector a) = Some id ∧ r ∈ na_roles a.

(** ** Lemmas *)

Lemma elem_of_push_missing entry roles r :
  r ∈ push_missing entry roles ↔ r ∈ entry ∨ r ∈ roles.
Proof.
  unfold push_missing. revert entry. induction roles as [|x roles IH]; simpl; intros entry.
  - set_solver.
  - rewrite IH. case_decide; set_solver.
Qed.

Lemma elem_of_add_assignment m a id r :
  r ∈ default [] (add_assignment m a !! id) ↔
  r ∈ default [] (m !! id) ∨ (sel_node_id (node_selector a) = Some id ∧ r ∈ na_roles a).
Proof.
  unfold add_assignment. destruct (sel_node_id _) as [i|] eqn:Hi; [|naive_solver].
  rewrite lookup_insert. case_decide; subst; simpl; rewrite ?elem_of_push_missing; naive_solver.
Qed.

Lemma elem_of_desired_roles spec id r :
  r ∈ default [] (desired_roles spec !! id) ↔ wants spec id r.
Proof.
  unfold desired_roles, wants.
  cut (∀ m, r ∈ default [] (foldl add_assignment m (assignments spec) !! id) ↔
    r ∈ default [] (m !! id) ∨ ∃ a, a ∈ assignments spec ∧
      sel_node_id (node_selector a) = Some id ∧ r ∈ na_roles a).
  { intros Hm. rewrite Hm, lookup_empty. simpl. set_solver. }
  induction (assignments spec) as [|a l IH]; simpl; intros m.
  - set_solver.
  - rewrite IH, elem_of_add_assignment. set_solver.
Qed.

(** What a batch of assignments, and a batch of revocations, does to the state. *)
Section batches.
Context `{UuidText}.

Definition as_assign (x : NodeId * Role) : Proposal := AssignRole x.1 x.2.
Definition as_revoke (x : NodeId * Role) : Proposal := RevokeRole x.1 x.2.

Lemma apply_all_assigns s l id r :
  r ∈ roles_of (apply_all s (as_assign <$> l)) id ↔
  r ∈ roles_of s id ∨ ((id, r) ∈ l ∧ is_Some (nodes s !! id)).
Proof.
  revert s. induction l as [|[i ro] l IH]; simpl; intros s; [set_solver|].
  rewrite IH. change (as_assign (i, ro)) with (AssignRole i ro).
  rewrite roles_of_apply_assign, nodes_apply_assign, elem_of_cons. naive_solver.
Qed.

Lemma nodes_apply_all_assigns s l : nodes (apply_all s (as_assign <$> l)) = nodes s.
Proof.
  revert s. induction l as [|[i ro] l IH]; simpl; intros s; [done|].
  rewrite IH. apply nodes_apply_assign.
Qed.

Lemma apply_all_revokes s l id r :
  cs_wf s →
  r ∈ roles_of (apply_all s (as_revoke <$> l)) id ↔ r ∈ roles_of s id ∧ (id, r) ∉ l.
Proof.
  revert s. induction l as [|[i ro] l IH]; simpl; intros s Hwf; [set_solver|].
  rewrite IH by (by apply apply_wf). change (as_revoke (i, ro)) with (RevokeRole i ro).
  rewrite roles_of_apply_revoke, not_elem_of_cons by done. naive_solver.
Qed.
End batches.

Section diff_lemmas.
Context `{HashOrderLaws}.

(** The diff as two batches of (node, role) pairs. *)
Definition to_assign (seed : N) (cur : gmap NodeId (list Role)) (spec : ClusterTopologySpec) :
    list (NodeId * Role) :=
  hash_iter seed (desired_roles spec) ≫= λ x,
    pair x.1 <$> filter (λ r, r ∉ default [] (cur !! x.1)) x.2.
Definition to_revoke (seed : N) (cur : gmap NodeId (list Role)) (spec : ClusterTopologySpec) :
    list (NodeId * Role) :=
  hash_iter seed cur ≫= λ x,
    pair x.1 <$> filter (λ r, r ∉ default [] (desired_roles spec !! x.1)) x.2.

Lemma diff_topology_batches sd sc cur spec :
  diff_topology sd sc cur spec =
  (as_assign <$> to_assign sd cur spec) ++ (as_revoke <$> to_revoke sc cur spec).
Proof.
  unfold diff_topology, to_assign, to_revoke. cbv zeta. f_equal.
  - induction (hash_iter sd (desired_roles spec)) as [|x l IH]; csimpl; [done|].
    rewrite IH, fmap_app, <- list_fmap_compose. done.
  - induction (hash_iter sc cur) as [|x l IH]; csimpl; [done|].
    rewrite IH, fmap_app, <- list_fmap_compose. done.
Qed.

Lemma elem_of_batch seed (m : gmap NodeId (list Role)) (q : NodeId → list Role) id r :
  (id, r) ∈ (hash_iter seed m ≫= λ x, pair x.1 <$> filter (λ r, r ∉ q x.1) x.2) ↔
  r ∈ default [] (m !! id) ∧ r ∉ q id.
Proof.
  rewrite list_elem_of_bind. split.
  - intros ([i rs] & Hr & Hi). apply elem_of_hash_iter in Hi. simpl in Hr.
    apply list_elem_of_fmap in Hr as (? & [= -> ->] & Hr).
    apply list_elem_of_filter in Hr. rewrite Hi. simpl. naive_solver.
  - intros [Hr Hq]. destruct (m !! id) as [rs|] eqn:Hm; simpl in Hr; [|set_solver].
    exists (id, rs). rewrite elem_of_hash_iter. split; [|done].
    apply list_elem_of_fmap. exists r. by rewrite list_elem_of_filter.
Qed.

Lemma elem_of_to_assign sd cur spec id r :
  (id, r) ∈ to_assign sd cur spec ↔ wants spec id r ∧ r ∉ default [] (cur !! id).
Proof.
  unfold to_assign. rewrite (elem_of_batch _ _ (λ i, default [] (cur !! i))).
  by rewrite elem_of_desired_roles.
Qed.

Lemma elem_of_to_revoke sc cur spec id r :
  (id, r) ∈ to_revoke sc cur spec ↔ r ∈ default [] (cur !! id) ∧ ¬ wants spec id r.
Proof.
  unfold to_revoke. rewrite (elem_of_batch _ _ (λ i, default [] (desired_roles spec !! i))).
  by rewrite elem_of_desired_roles.
Qed.
End diff_lemmas.

(** ** Properties *)

Section properties.
Context `{HashOrderLaws, UuidText}.


(** The diff is empty exactly when every node already has the roles the
    spec wants: no spurious proposal, and none missing. *)
Theorem diff_topology_nil_iff sd sc cur spec :
  diff_topology sd sc cur spec = [] ↔ ∀ id r, r ∈ default [] (cur !! id) ↔ wants spec id r.
Proof.
  rewrite diff_topology_batches. split.
  - intros [Ha Hr]%app_nil id r. apply fmap_nil_inv in Ha, Hr.
    pose proof (elem_of_to_assign sd cur spec id r) as Hta.
    pose proof (elem_of_to_revoke sc cur spec id r) as Htr.
    rewrite Ha in Hta. rewrite Hr in Htr. rewrite <- elem_of_desired_roles in *.
    destruct (decide (r ∈ default [] (cur !! id))),
      (decide (r ∈ default [] (desired_roles spec !! id))); set_solver.
  - intros Heq. assert (to_assign sd cur spec = []) as ->.
    { apply elem_of_nil_inv. intros [id r]. rewrite elem_of_to_assign, Heq. naive_solver. }
    assert (to_revoke sc cur spec = []) as ->; [|done].
    apply elem_of_nil_inv. intros [id r]. rewrite elem_of_to_revoke, Heq. naive_solver.
Qed.
End properties.

(** ** Concrete runs *)

Module Demo.
(** [Execution] on the first node, nothing for the second. *)
Definition spec : ClusterTopologySpec := {|
  version := "1.0";
  assignments := [{| node_selector := mkNodeSelector (Some StateMachine.Demo.node_a) [] None;
                     na_roles := [Execution] |}]
|}.
End Demo.


Lemma diff_topology_nil_iff_witness :
  let _ := Toy.hash_order in
  diff_topology 0 0 ∅ (mkClusterTopologySpec "1.0" []) = [].
Proof.
  intros O. apply (@diff_topology_nil_iff O Toy.hash_order_laws).
  intros id r. rewrite lookup_empty. split; [by intros ?%not_elem_of_nil|].
  intros (a & Ha & _). by apply not_elem_of_nil in Ha.
Defined.
