(* ===== verification/RoleEngine.v ===== *)
(** * The role orchestration engine (crates/node/src/orchestration/role_engine.rs)

    Applying a topology spec, registering nodes and failing over the roles of a
    lost node. *)

From S2P Require Import Prelude CoreTypes Interfaces Channels StateMachine Topology.

Record Engine := mkEngine {
  proposal_tx : Sender Proposal;
  desired_topology : option ClusterTopologySpec;
  eng_nodes : gmap NodeId NodeDescriptor;
}.

Definition engine_new (tx : Sender Proposal) : Engine :=
  {| proposal_tx := tx; desired_topology := None; eng_nodes := ∅ |}.

(** A send on the engine's proposal channel. *)
Definition send_proposal (p : Proposal) : M Engine string unit := λ e,
  let '(o, tx) := chan_send p (proposal_tx e) in
  (o, mkEngine tx (desired_topology e) (eng_nodes e)).

(** [find_alternative]'s test of one candidate. *)
Definition can_fulfil (role : Role) (lost_caps : Capabilities) (desc : NodeDescriptor) : bool :=
  match role with
  | Execution => existsb (λ r, bool_decide (r ∈ runtimes lost_caps)) (runtimes (capabilities desc))
  | Storage => storage (capabilities desc)
  | Inference => gpu_acceleration (capabilities desc)
  | Coordinator => true
  | Bootstrap => bool_decide (node_type desc = Heavy)
  end.

Section engine.
Context `{HashOrder}.
(** Iteration seeds of the node map and of the maps the diff builds. *)
Context (seed seed_d seed_c : N).

Definition find_alternative (nodes : gmap NodeId NodeDescriptor) (role : Role)
    (lost_caps : Capabilities) : option NodeId :=
  fst ∘ snd <$> list_find (λ x, can_fulfil role lost_caps x.2 = true) (hash_iter seed nodes).

Definition current_roles (nodes : gmap NodeId NodeDescriptor) : gmap NodeId (list Role) :=
  current_assigned_roles <$> nodes.

Definition apply_topology (spec : ClusterTopologySpec) : M Engine CoreError unit := λ e,
  let proposals := diff_topology seed_d seed_c (current_roles (eng_nodes e)) spec in
  (let! _ := mfor (λ p, ignore_err (send_proposal p)) proposals in
   λ e, (Done (Ok tt), mkEngine (proposal_tx e) (Some spec) (eng_nodes e))) e.

Definition register_node (desc : NodeDescriptor) (e : Engine) : Engine :=
  mkEngine (proposal_tx e) (desired_topology e) (<[node_id desc := desc]> (eng_nodes e)).

(** One iteration of the failover loop. *)
Definition failover_role (caps : Capabilities) (role : Role) : M Engine CoreError unit := λ e,
  match find_alternative (eng_nodes e) role caps with
  | Some alternative =>
      map_err (λ s, Network ("send proposal: " +:+ s))
        (send_proposal (AssignRole alternative role)) e
  | None => (Done (Ok tt), e)
  end.

Definition handle_node_failure (id : NodeId) : M Engine CoreError bool := λ e,
  match eng_nodes e !! id with
  | Some desc =>
      let e := mkEngine (proposal_tx e) (desired_topology e) (delete id (eng_nodes e)) in
      let lost_roles := current_assigned_roles desc in
      (let! _ := mfor (failover_role (capabilities desc)) lost_roles in
       ret (negb (bool_decide (lost_roles = [])))) e
  | None => (Done (Ok false), e)
  end.
End engine.

(** ** Lemmas *)

Lemma send_proposal_frame p e o e' :
  send_proposal p e = (o, e') →
  desired_topology e' = desired_topology e ∧ eng_nodes e' = eng_nodes e.
Proof. unfold send_proposal. destruct (chan_send _ _). intros. by simplify_eq. Qed.

Section lemmas.
Context `{HashOrderLaws}.

Lemma find_alternative_Some seed ns role caps id :
  find_alternative seed ns role caps = Some id →
  ∃ d, ns !! id = Some d ∧ can_fulfil role caps d = true.
Proof.
  unfold find_alternative. intros ([i [j d]] & Hf & [= ->])%fmap_Some.
  apply list_find_Some in Hf as (Hl & Hc & _). exists d. split; [|done].
  apply list_elem_of_lookup_2 in Hl. by apply elem_of_hash_iter in Hl.
Qed.

Lemma find_alternative_None seed ns role caps :
  find_alternative seed ns role caps = None ↔
  ∀ id d, ns !! id = Some d → can_fulfil role caps d = false.
Proof.
  unfold find_alternative. rewrite fmap_None, list_find_None, Forall_forall. split.
  - intros Hall id d Hd. apply not_true_is_false, (Hall (id, d)). by apply elem_of_hash_iter.
  - intros Hall [id d] Hd%elem_of_hash_iter. simpl. by rewrite (Hall _ _ Hd).
Qed.

(** The proposals the loop sends for a list of lost roles. *)
Definition failover_proposals (seed : N) (ns : gmap NodeId NodeDescriptor)
    (caps : Capabilities) (lost : list Role) : list Proposal :=
  omap (λ r, (λ alt, AssignRole alt r) <$> find_alternative seed ns r caps) lost.

Lemma failover_loop_ok seed caps lost e u e' :
  mfor (failover_role seed caps) lost e = (Done (Ok u), e') →
  eng_nodes e' = eng_nodes e ∧ desired_topology e' = desired_topology e ∧
  sent (proposal_tx e') =
    sent (proposal_tx e) ++ failover_proposals seed (eng_nodes e) caps lost.
Proof.
  revert e. induction lost as [|r lost IH]; intros e; simpl.
  - unfold ret. intros. simplify_eq. by rewrite app_nil_r.
  - intros (? & e1 & Hr & Hl)%bind_ok_inv. apply IH in Hl as (Hn & Hd & Hs).
    unfold failover_role in Hr. destruct (find_alternative _ _ _ _) as [alt|]; simpl.
    + apply map_err_ok_inv in Hr. pose proof (send_proposal_frame _ _ _ _ Hr) as [Hd1 Hn1].
      unfold send_proposal in Hr. destruct (chan_send _ _) as [o tx] eqn:Hc. simplify_eq/=.
      apply chan_send_ok in Hc. rewrite Hs, Hc. by rewrite <- app_assoc.
    + simplify_eq/=. done.
Qed.

Lemma send_proposal_no_panic p : no_panic (send_proposal p).
Proof.
  intros e s. unfold send_proposal. pose proof (chan_send_no_panic p (proposal_tx e) s).
  by destruct (chan_send _ _).
Qed.

(** [apply_topology]'s loop swallows send failures: the messages accepted are
    exactly those whose send succeeded, and the node map is untouched. *)
Lemma topology_loop_frame ps e :
  eng_nodes (foldl (λ e p, (send_proposal p e).2) e ps) = eng_nodes e.
Proof.
  revert e. induction ps as [|p ps IH]; intros e; simpl; [done|]. rewrite IH.
  by destruct (send_proposal_frame p e _ _ (surjective_pairing _)) as [_ ->].
Qed.

Lemma topology_loop_sent ps e :
  outcomes (proposal_tx e) = [] →
  let e' := foldl (λ e p, (send_proposal p e).2) e ps in
  sent (proposal_tx e') = sent (proposal_tx e) ++ ps ∧ outcomes (proposal_tx e') = [].
Proof.
  revert e. induction ps as [|p ps IH]; intros e He; simpl; [by rewrite app_nil_r|].
  destruct (IH (send_proposal p e).2) as [Hs Ho].
  - unfold send_proposal, chan_send. by rewrite He.
  - split; [|done]. rewrite Hs. unfold send_proposal, chan_send. rewrite He. simpl.
    by rewrite <- app_assoc.
Qed.
End lemmas.

(** ** Properties *)

Section properties.
Context `{HashOrderLaws}.

(** C37: failover.  When the handler of a lost node succeeds, the node is gone
    from the engine's map, the return value says whether it had roles, and the
    proposals sent are, in the order of the lost roles, one [AssignRole] for each
    role some remaining node can take over, each naming such a node (never the
    lost one), and none for a role no remaining node can fulfil. *)
Theorem handle_node_failure_spec seed id e desc b e' :
  eng_nodes e !! id = Some desc →
  handle_node_failure seed id e = (Done (Ok b), e') →
  eng_nodes e' = delete id (eng_nodes e) ∧
  (b = true ↔ current_assigned_roles desc ≠ []) ∧
  ∃ alts, sent (proposal_tx e') = sent (proposal_tx e) ++ omap (λ x, x) alts ∧
    Forall2 (λ r p, match p with
      | Some (AssignRole alt r') => r' = r ∧ alt ≠ id ∧
          ∃ d, eng_nodes e !! alt = Some d ∧ can_fulfil r (capabilities desc) d = true
      | Some _ => False
      | None => ∀ i d, i ≠ id → eng_nodes e !! i = Some d →
                  can_fulfil r (capabilities desc) d = false
      end) (current_assigned_roles desc) alts.
Proof.
  intros Hid. unfold handle_node_failure. rewrite Hid.
  intros (? & e1 & Hl & Hr)%bind_ok_inv. unfold ret in Hr. simplify_eq/=.
  apply failover_loop_ok in Hl as (Hn & _ & Hs). simpl in *.
  split; [done|]. split; [by rewrite negb_true_iff, bool_decide_eq_false|].
  exists ((λ r, (λ alt, AssignRole alt r) <$>
    find_alternative seed (delete id (eng_nodes e)) r (capabilities desc))
    <$> current_assigned_roles desc).
  split.
  { rewrite Hs. f_equal. unfold failover_proposals. by rewrite omap_id_fmap. }
  apply Forall2_self_fmap. intros r _.
  destruct (find_alternative _ _ r _) as [alt|] eqn:Hf; simpl.
  - apply find_alternative_Some in Hf as (d & Hd & Hc).
    apply lookup_delete_Some in Hd as [Hne Hd]. eauto 6.
  - rewrite find_alternative_None in Hf. intros i d Hne Hi. apply (Hf i).
    by rewrite lookup_delete_ne.
Qed.
End properties.

Module Demo.
Definition engine : Engine :=
  register_node (StateMachine.Demo.desc 9%N [] None false)
    (register_node (StateMachine.Demo.desc 7%N [Execution; Inference] None false)
       (engine_new (mkSender [] []))).
End Demo.

Lemma handle_node_failure_spec_witness :
  let _ := Toy.hash_order in
  sent (proposal_tx (handle_node_failure 0 7%N Demo.engine).2) = [AssignRole 9%N Execution] ∧
  eng_nodes (handle_node_failure 0 7%N Demo.engine).2 = delete 7%N (eng_nodes Demo.engine).
Proof.
  intros O. split; [vm_compute; reflexivity|].
  refine (proj1 (@handle_node_failure_spec O Toy.hash_order_laws 0 7%N Demo.engine
    (StateMachine.Demo.desc 7%N [Execution; Inference] None false) true _ _ _));
  vm_compute; reflexivity.
Defined.
