(* ===== verification/Reporter.v ===== *)
(** * Node health reports (crates/node/src/orchestration/reporter.rs)

    The latest report of each node and the cluster summary. *)

From S2P Require Import Prelude CoreTypes Interfaces.

Inductive HealthStatus := Healthy | Degraded | Unhealthy | HealthUnknown.
#[export] Instance HealthStatus_eq_dec : EqDecision HealthStatus.
Proof. solve_decision. Defined.

Record NodeReport := mkNodeReport {
  rep_node_id : NodeId;
  health : HealthStatus;
  tasks_completed : N;
  tasks_in_flight : N;
  avg_execution_time_ms : N;
  peer_count : N;
}.

Record ClusterSummary := mkClusterSummary {
  total_nodes : N;
  healthy_nodes : N;
  total_tasks_completed : N;
  total_tasks_in_flight : N;
}.

(** The reporter's state is its map of reports. *)
Definition report (r : NodeReport) (reports : gmap NodeId NodeReport) : gmap NodeId NodeReport :=
  <[rep_node_id r := r]> reports.

Definition remove_report (id : NodeId) (reports : gmap NodeId NodeReport) :
    gmap NodeId NodeReport := delete id reports.

(** [Iterator::sum] of [u64]s in a release build. *)
Definition u64_sum (l : list N) : N := foldl u64_add 0%N l.

Section reporter.
Context `{HashOrder}.

Definition unhealthy_nodes (seed : N) (reports : gmap NodeId NodeReport) : list NodeId :=
  fst <$> filter (λ x, health x.2 = Unhealthy) (hash_iter seed reports).

Definition cluster_summary (seed : N) (reports : gmap NodeId NodeReport) : ClusterSummary :=
  let values := snd <$> hash_iter seed reports in
  {| total_nodes := N.of_nat (size reports);
     healthy_nodes := N.of_nat (length (filter (λ r, health r = Healthy) values));
     total_tasks_completed := u64_sum (tasks_completed <$> values);
     total_tasks_in_flight := u64_sum (tasks_in_flight <$> values) |}.
End reporter.

(** ** Lemmas *)

Definition N_sum (l : list N) : N := foldr N.add 0%N l.

Lemma u64_sum_mod l : u64_sum l = (N_sum l mod 2 ^ 64)%N.
Proof.
  unfold u64_sum. cut (∀ a, foldl u64_add a l mod 2 ^ 64 = (a + N_sum l) mod 2 ^ 64)%N.
  - intros Hm. specialize (Hm 0%N). rewrite N.add_0_l in Hm. rewrite <- Hm.
    symmetry. apply N.mod_small.
    destruct l as [|x l] using rev_ind; [done|]. rewrite foldl_app. simpl.
    unfold u64_add. by apply N.mod_lt.
  - induction l as [|x l IH]; intros a; simpl; [by rewrite N.add_0_r|].
    rewrite IH. unfold u64_add. rewrite N.Div0.add_mod_idemp_l. f_equal. lia.
Qed.

Lemma N_sum_perm l l' : l ≡ₚ l' → N_sum l = N_sum l'.
Proof. induction 1; simpl; lia. Qed.

(** ** Properties *)

Section properties.
Context `{HashOrderLaws}.

(** The summary does not depend on the iteration order of the report map:
    it counts the reports, the healthy ones among them (at most all), and its
    task totals are the sums of the reports' counters modulo 2^64, over the
    entries of the map in any order. *)
Theorem cluster_summary_spec seed reports :
  let s := cluster_summary seed reports in
  let values := snd <$> map_to_list reports in
  total_nodes s = N.of_nat (length values) ∧
  healthy_nodes s = N.of_nat (length (filter (λ r, health r = Healthy) values)) ∧
  (healthy_nodes s ≤ total_nodes s)%N ∧
  total_tasks_completed s = (N_sum (tasks_completed <$> values) mod 2 ^ 64)%N ∧
  total_tasks_in_flight s = (N_sum (tasks_in_flight <$> values) mod 2 ^ 64)%N.
Proof.
  simpl. assert ((hash_iter seed reports).*2 ≡ₚ (map_to_list reports).*2) as Hp
    by by rewrite hash_iter_perm.
  assert (size reports = length (map_to_list reports).*2) as Hsz
    by by rewrite length_fmap, length_map_to_list.
  assert (length (filter (λ r, health r = Healthy) (hash_iter seed reports).*2) =
    length (filter (λ r, health r = Healthy) (map_to_list reports).*2)) as Hh
    by by rewrite Hp.
  split_and!; [by rewrite Hsz|by rewrite Hh| |..].
  - rewrite Hh, Hsz. pose proof (length_filter (λ r, health r = Healthy) (map_to_list reports).*2).
    lia.
  - by rewrite u64_sum_mod, (N_sum_perm _ (tasks_completed <$> (map_to_list reports).*2))
      by by rewrite Hp.
  - by rewrite u64_sum_mod, (N_sum_perm _ (tasks_in_flight <$> (map_to_list reports).*2))
      by by rewrite Hp.
Qed.

Lemma elem_of_unhealthy_nodes seed reports id :
  id ∈ unhealthy_nodes seed reports ↔ ∃ r, reports !! id = Some r ∧ health r = Unhealthy.
Proof.
  unfold unhealthy_nodes. rewrite list_elem_of_fmap. split.
  - intros ([i r] & -> & [Hh Hi]%list_elem_of_filter). apply elem_of_hash_iter in Hi. eauto.
  - intros (r & Hr & Hh). exists (id, r). by rewrite list_elem_of_filter, elem_of_hash_iter.
Qed.
End properties.

Lemma cluster_summary_spec_witness :
  let _ := Toy.hash_order in
  (healthy_nodes (cluster_summary 0 (report (mkNodeReport 7%N Healthy 1 0 5 2) ∅)) ≤ 1)%N.
Proof.
  intros O.
  exact (proj1 (proj2 (proj2 (@cluster_summary_spec O Toy.hash_order_laws 0
    (report (mkNodeReport 7%N Healthy 1 0 5 2) ∅))))).
Defined.
