(* ===== verification/FileSys.v ===== *)
(** * The part of std::fs and std::path the program uses

    A file system is a finite map from resolved paths to files and directories,
    together with the faults the operating system injects into the next
    operations.  A failing write may leave a prefix of its data behind. *)

From S2P Require Import Prelude Text.

(** ** Paths *)

(** The components of a path string. *)
Abbreviation split_slash := (split_char "/"%char).

Definition is_absolute (p : string) : bool :=
  match p with String a _ => bool_decide (a = "/"%char) | EmptyString => false end.

(** [Path] drops empty and [.] components; [..] is resolved lexically (there are
    no symbolic links in the model). *)
Definition push_component (acc : list string) (c : string) : list string :=
  if decide (c = "" ∨ c = ".") then acc
  else if decide (c = "..") then removelast acc
  else acc ++ [c].

(** Absolute paths are under the component ["/"], relative ones under the current
    directory []. *)
Definition resolve (p : string) : list string :=
  (if is_absolute p then ["/"] else []) ++ foldl push_component [] (split_slash p).

Fixpoint last_char (s : string) : option Ascii.ascii :=
  match s with
  | EmptyString => None
  | String a EmptyString => Some a
  | String _ s => last_char s
  end.

(** [Path::join]: an absolute argument replaces the path. *)
Definition join (p q : string) : string :=
  if is_absolute q then q
  else if decide (p = "" ∨ last_char p = Some "/"%char) then p +:+ q
  else p +:+ "/" +:+ q.

(** Empty and [.] components are skippable, but for a leading [.] and the root. *)
Definition skippable (c : string) : bool := bool_decide (c = "" ∨ c = ".").
Fixpoint drop_while {A} (f : A → bool) (l : list A) : list A :=
  match l with
  | a :: l' => if f a then drop_while f l' else l
  | [] => []
  end.
(** The components of a path: what is before the first one that can be skippable, and
    the others, the last one first. *)
Definition path_start (p : string) : list string :=
  match split_slash p with
  | c :: _ => if is_absolute p then [""] else if decide (c = ".") then ["."] else []
  | [] => []
  end.
Definition path_rest (p : string) : list string :=
  drop_while skippable (rev (drop (length (path_start p)) (split_slash p))).
Definition of_components (l : list string) : string :=
  if decide (l = [""]) then "/" else String.concat "/" l.

(** [Path::parent]: the path without its last component. *)
Definition parent (p : string) : option string :=
  match path_rest p with
  | _ :: r => Some (of_components (path_start p ++ rev (drop_while skippable r)))
  | [] => if decide (path_start p = ["."]) then Some "" else None
  end.

(** [Path::file_name]: the last component, if it is a name. *)
Definition file_name (p : string) : option string :=
  match path_rest p with
  | c :: _ => if decide (c = "..") then None else Some c
  | [] => None
  end.

(** ** The file system *)

Inductive node := File (data : bytes) | Dir.
#[export] Instance node_eq_dec : EqDecision node.
Proof. solve_decision. Defined.

Inductive fault :=
| NoFault
| FailIo (msg : string)
| FailPartial (n : nat) (msg : string).

Record World := mkWorld {
  files : gmap (list string) node;
  faults : list fault;
}.

Definition set_files (f : gmap (list string) node → gmap (list string) node) (w : World) : World :=
  mkWorld (f (files w)) (faults w).

(** The root and the current directory always exist. *)
Definition fs_lookup (w : World) (p : list string) : option node :=
  if decide (p = [] ∨ p = ["/"]) then Some Dir else files w !! p.

(** An operation first meets the next fault, if any. *)
Definition with_fault {A} (k : fault → M World string A) : M World string A := λ w,
  match faults w with
  | [] => k NoFault w
  | f :: fs => k f (mkWorld (files w) fs)
  end.

Definition or_fail {A} (m : M World string A) : M World string A :=
  with_fault (λ f, match f with
                   | NoFault => m
                   | FailIo msg | FailPartial _ msg => raise msg
                   end).

(** [Path::exists]. *)
Definition path_exists (p : string) (w : World) : bool :=
  bool_decide (is_Some (fs_lookup w (resolve p))).

(** [Path::is_dir]. *)
Definition path_is_dir (p : string) (w : World) : bool :=
  bool_decide (fs_lookup w (resolve p) = Some Dir).

(** The non-empty prefixes of a component list, shortest first. *)
Definition prefixes (p : list string) : list (list string) :=
  (λ n, take (S n) p) <$> seq 0 (length p).

Definition mkdir_one (p : list string) : M World string unit := λ w,
  match fs_lookup w p with
  | Some Dir => (Done (Ok tt), w)
  | Some (File _) => (Done (Err "File exists"), w)
  | None => (Done (Ok tt), set_files <[p := Dir]> w)
  end.

(** [fs::create_dir_all]. *)
Definition create_dir_all (p : string) : M World string unit :=
  or_fail (mfor mkdir_one (prefixes (resolve p))).

(** [File::create]: create or truncate. *)
Definition file_create (p : string) : M World string unit :=
  or_fail (λ w,
    match fs_lookup w (removelast (resolve p)), fs_lookup w (resolve p) with
    | _, Some Dir => (Done (Err "Is a directory"), w)
    | Some Dir, _ => (Done (Ok tt), set_files <[resolve p := File []]> w)
    | Some (File _), _ => (Done (Err "Not a directory"), w)
    | None, _ => (Done (Err "No such file or directory"), w)
    end).

(** Append to the open file's data. *)
Definition append_data (p : list string) (data : bytes) (w : World) : World :=
  match files w !! p with
  | Some (File d) => set_files <[p := File (d ++ data)]> w
  | _ => w
  end.

(** [write_all] on a handle positioned at the end of the file [p]. *)
Definition write_all (p : string) (data : bytes) : M World string unit :=
  with_fault (λ f w,
    match f with
    | NoFault => (Done (Ok tt), append_data (resolve p) data w)
    | FailIo msg => (Done (Err msg), w)
    | FailPartial n msg => (Done (Err msg), append_data (resolve p) (take n data) w)
    end).

(** [flush], and opening an existing file or seeking in it. *)
Definition file_flush : M World string unit := or_fail (ret tt).
Definition file_open (p : string) : M World string bytes :=
  or_fail (λ w,
    match fs_lookup w (resolve p) with
    | Some (File d) => (Done (Ok d), w)
    | Some Dir => (Done (Err "Is a directory"), w)
    | None => (Done (Err "No such file or directory"), w)
    end).

(** [fs::read]. *)
Definition fs_read (p : string) : M World string bytes := file_open p.

(** [fs::write]. *)
Definition fs_write (p : string) (data : bytes) : M World string unit :=
  let! _ := file_create p in write_all p data.

(** [fs::remove_file], and the bind of a Unix socket, which makes its entry. *)
Definition remove_file (p : string) : M World string unit :=
  or_fail (λ w,
    match fs_lookup w (resolve p) with
    | Some (File _) => (Done (Ok tt), set_files (delete (resolve p)) w)
    | Some Dir => (Done (Err "Is a directory"), w)
    | None => (Done (Err "No such file or directory"), w)
    end).
Definition unix_bind (p : string) : M World string unit :=
  or_fail (λ w,
    match fs_lookup w (resolve p), fs_lookup w (removelast (resolve p)) with
    | Some _, _ => (Done (Err "Address already in use"), w)
    | None, Some Dir => (Done (Ok tt), set_files <[resolve p := File []]> w)
    | None, Some (File _) => (Done (Err "Not a directory"), w)
    | None, None => (Done (Err "No such file or directory"), w)
    end).

(** [read_exact] of [len] bytes at [off] in the data of an open file. *)
Definition read_exact_at (d : bytes) (off len : N) : M World string bytes :=
  or_fail (λ w,
    let chunk := take (N.to_nat len) (drop (N.to_nat off) d) in
    if decide (length chunk = N.to_nat len) then (Done (Ok chunk), w)
    else (Done (Err "failed to fill whole buffer"), w)).

(** ** Lemmas *)

(** *** Paths *)

Lemma split_slash_not_nil p : split_slash p ≠ [].
Proof. destruct p as [|a p]; simpl; [done|]. case_decide; [done|]. by destruct (split_slash p). Qed.

Lemma split_slash_app p q :
  split_slash (p +:+ String "/" q) = split_slash p ++ split_slash q.
Proof.
  induction p as [|a p IH]; [done|].
  change (split_slash (String a (p +:+ String "/" q)) = split_slash (String a p) ++ split_slash q).
  simpl. rewrite IH. case_decide; [done|].
  pose proof (split_slash_not_nil p). by destruct (split_slash p).
Qed.

(** A name without a slash that is not a special component. *)
Definition plain (c : string) : Prop :=
  split_slash c = [c] ∧ is_absolute c = false ∧ c ≠ "" ∧ c ≠ "." ∧ c ≠ "..".
#[export] Instance plain_dec c : Decision (plain c) := _.

Lemma push_plain acc c : plain c → push_component acc c = acc ++ [c].
Proof. intros (_ & _ & ? & ? & ?). unfold push_component. repeat case_decide; naive_solver. Qed.

Lemma last_slash_inv p : last_char p = Some "/"%char → ∃ p', p = p' +:+ "/".
Proof.
  induction p as [|a [|b p] IH]; simpl; [done| |].
  - intros [= ->]. by exists "".
  - intros [p' Hp]%IH. exists (String a p'). by rewrite Hp.
Qed.

Lemma resolve_join p c : plain c → resolve (join p c) = resolve p ++ [c].
Proof.
  intros Hc. pose proof Hc as (Hs & Habs & Hne & _). unfold join. rewrite Habs.
  destruct (decide (p = "" ∨ last_char p = Some "/"%char)) as [[->|Hl]|Hn].
  - change ("" +:+ c) with c. unfold resolve. rewrite Habs, Hs. simpl. by rewrite push_plain.
  - apply last_slash_inv in Hl as [p' ->].
    replace ((p' +:+ "/") +:+ c) with (p' +:+ String "/" c)
      by (symmetry; clear; induction p' as [|a p IH]; [done|]; exact (f_equal (String a) IH)).
    unfold resolve. rewrite !split_slash_app, Hs. simpl.
    replace (is_absolute (p' +:+ String "/" c)) with (is_absolute (p' +:+ "/")) by by destruct p'.
    rewrite !foldl_app. simpl. rewrite push_plain by done.
    by rewrite app_assoc.
  - unfold resolve. change (p +:+ "/" +:+ c) with (p +:+ String "/" c).
    rewrite split_slash_app, Hs, foldl_app. simpl. rewrite push_plain by done.
    replace (is_absolute (p +:+ String "/" c)) with (is_absolute p); [by rewrite app_assoc|].
    destruct p; [|done]. destruct Hn. by left.
Qed.

Lemma last_char_app s t : t ≠ "" → last_char (s +:+ t) = last_char t.
Proof.
  intros Ht. induction s as [|a s IH]; [done|].
  change (last_char (String a (s +:+ t)) = last_char t). simpl.
  destruct (s +:+ t) eqn:Hst; [|done]. by destruct s, t.
Qed.

(** The last component, which may be empty. *)
Definition last_comp (p : string) : string := default "" (last (split_slash p)).

Lemma split_slash_plain p c : plain c →
  split_slash (join p c) = (if decide (p = "" ∨ last_char p = Some "/"%char)
    then removelast (split_slash p) else split_slash p) ++ [c].
Proof.
  intros (Hs & Habs & _). unfold join. rewrite Habs.
  destruct (decide (p = "" ∨ _)) as [[->|Hl]|Hn]; [exact Hs| |].
  - apply last_slash_inv in Hl as [p' ->]. rewrite (split_slash_app p' ""). simpl.
    rewrite removelast_last, <- Hs, <- split_slash_app. f_equal.
    clear. induction p' as [|a p IH]; [done|]. exact (f_equal (String a) IH).
  - change (p +:+ "/" +:+ c) with (p +:+ String "/" c). by rewrite split_slash_app, Hs.
Qed.

Lemma last_comp_join p c : plain c → last_comp (join p c) = c.
Proof. intros Hc. unfold last_comp. by rewrite split_slash_plain, last_snoc. Qed.

Lemma last_char_comp p : last_char p = Some "/"%char → last_comp p = "".
Proof.
  intros [p' ->]%last_slash_inv. unfold last_comp. rewrite (split_slash_app p' ""). simpl. by rewrite last_snoc.
Qed.

Lemma concat_split p : String.concat "/" (split_slash p) = p.
Proof.
  induction p as [|a p IH]; [done|]. simpl. pose proof (split_slash_not_nil p).
  case_decide as Ha; destruct (split_slash p) as [|c cs]; try done.
  - subst a. change (String "/" (String.concat "/" (c :: cs)) = String "/" p). by rewrite IH.
  - destruct cs; simpl in *; by rewrite <- IH.
Qed.

Lemma split_concat l : l ≠ [] → Forall (λ c, split_slash c = [c]) l → split_slash (String.concat "/" l) = l.
Proof.
  induction l as [|c [|c' l] IH]; intros Hne Hl; [done| |].
  - by inversion Hl.
  - inversion Hl as [|? ? Hc Hl']; subst.
    change (split_slash (c +:+ String "/" (String.concat "/" (c' :: l))) = c :: c' :: l).
    by rewrite split_slash_app, Hc, IH.
Qed.

Lemma split_slash_comps p : Forall (λ c, split_slash c = [c]) (split_slash p).
Proof.
  induction p as [|a p IH]; [by constructor|]. simpl. case_decide as Ha; [by constructor|].
  destruct (split_slash p) as [|c cs]; inversion IH as [|? ? Hc Hcs]; subst; constructor; try done; simpl;
    rewrite decide_False by done; [done|by rewrite Hc].
Qed.

Lemma is_absolute_split p : is_absolute p = true ↔ ∃ c cs, split_slash p = "" :: c :: cs.
Proof.
  destruct p as [|a p]; simpl; [by split; [|intros (? & ? & ?)]|]. rewrite bool_decide_eq_true.
  pose proof (split_slash_not_nil p) as Hne. case_decide as Ha; destruct (split_slash p) as [|c cs]; try done.
  - split; [by eauto|done].
  - split; [done|by intros (? & ? & ?)].
Qed.

(** A path is its start and the others. *)
Lemma path_start_split p : split_slash p = path_start p ++ drop (length (path_start p)) (split_slash p).
Proof.
  unfold path_start. destruct (split_slash p) as [|c cs] eqn:Hp; [done|].
  destruct (is_absolute p) eqn:Ha; [|case_decide; by subst].
  apply is_absolute_split in Ha as (c' & cs' & Ha). rewrite Hp in Ha. by injection Ha as -> ->.
Qed.

Lemma path_start_join q c : q ≠ "" → plain (last_comp q) → plain c →
  split_slash (join q c) = split_slash q ++ [c] ∧ path_start (join q c) = path_start q.
Proof.
  intros Hq Hl Hc. assert (split_slash (join q c) = split_slash q ++ [c]) as Hs.
  { rewrite split_slash_plain, decide_False; [done| |done]. intros [->|Hlc]; [done|].
    apply last_char_comp in Hlc. rewrite Hlc in Hl. by destruct Hl as (_ & _ & ? & _). }
  split; [done|]. unfold path_start. rewrite Hs. pose proof (split_slash_not_nil q) as Hne.
  assert (is_absolute (join q c) = is_absolute q) as ->.
  { unfold join. destruct Hc as (_ & -> & _). destruct q; [done|]. by case_decide. }
  by destruct (split_slash q).
Qed.

Lemma drop_while_head {A} f (x : A) l : f x = false → drop_while f (x :: l) = x :: l.
Proof. simpl. by intros ->. Qed.
Lemma plain_kept c : plain c → skippable c = false.
Proof. intros (_ & _ & ? & ? & _). apply bool_decide_eq_false. naive_solver. Qed.

Lemma drop_while_spec {A} (f : A → bool) l :
  ∃ pre, l = pre ++ drop_while f l ∧ Forall (λ x, f x = true) pre ∧
    ∀ x l', drop_while f l = x :: l' → f x = false.
Proof.
  induction l as [|a l (pre & Hl & Hpre & Hx)]; [by exists []|]. simpl. destruct (f a) eqn:Ha.
  - exists (a :: pre). split; [simpl; by rewrite <- Hl|]. split; [by constructor|done].
  - exists []. split; [done|]. split; [by constructor|]. by intros x l' [= <- <-].
Qed.

Lemma push_skipped acc l : Forall (λ c, skippable c = true) l → foldl push_component acc l = acc.
Proof.
  induction 1 as [|c l Hc _ IH]; [done|]. simpl. apply bool_decide_eq_true in Hc.
  unfold push_component at 2. by rewrite decide_True.
Qed.

(** A path with a file name, taken apart. *)
Lemma path_rest_split p b r : path_rest p = b :: r →
  ∃ mid tail, split_slash p = (path_start p ++ rev (drop_while skippable r)) ++ mid ++ [b] ++ tail ∧
    Forall (λ c, skippable c = true) mid ∧ Forall (λ c, skippable c = true) tail ∧ skippable b = false.
Proof.
  unfold path_rest. intros Hr.
  destruct (drop_while_spec skippable (rev (drop (length (path_start p)) (split_slash p)))) as (tail & Hl & Ht & Hx).
  rewrite Hr in Hl. apply Hx in Hr. clear Hx. destruct (drop_while_spec skippable r) as (mid & Hm & Hmid & _).
  exists (rev mid), (rev tail). split_and!; [|by apply Forall_rev..|done].
  rewrite (path_start_split p) at 1. rewrite <- (rev_involutive (drop _ _)), Hl, <- app_assoc. f_equal.
  rewrite rev_app_distr. simpl rev at 1. rewrite Hm at 1. by rewrite rev_app_distr, <- !app_assoc.
Qed.

(** A directory is at its name in its parent. *)
Lemma parent_file_name p b : file_name p = Some b →
  ∃ q, parent p = Some q ∧ resolve (join q b) = resolve p.
Proof.
  unfold file_name, parent. destruct (path_rest p) as [|b' r] eqn:Hr; [done|]. case_decide as Hdd; [done|].
  intros [= ->]. eexists. split; [done|].
  destruct (path_rest_split p b r Hr) as (mid & tail & Hp & Hmid & Htail & Hb).
  set (l := path_start p ++ rev (drop_while skippable r)) in *.
  pose proof (split_slash_comps p) as Hcomps. rewrite Hp in Hcomps.
  apply Forall_app in Hcomps as [Hlc Hcomps]. apply Forall_app in Hcomps as [_ Hcomps].
  inversion Hcomps as [|? ? Hbc _]; subst. apply bool_decide_eq_false in Hb.
  assert (plain b) as Hplain.
  { split_and!; try naive_solver. destruct b as [|a b]; [done|]. simpl in *. case_decide; [done|].
    by apply bool_decide_eq_false. }
  rewrite resolve_join by done. unfold resolve at 2. rewrite Hp, !foldl_app. simpl.
  rewrite (push_skipped _ mid), (push_skipped _ tail), push_plain, app_assoc by done. f_equal.
  assert (l = [] ∧ path_start p = [] ∨ ∃ c l', l = c :: l') as Hl.
  { destruct l as [|c l'] eqn:Hl; [left; split; [done|]|eauto]. by apply app_eq_nil in Hl as [-> _]. }
  assert (is_absolute p = true → path_start p = [""]) as Habs.
  { intros Ha. unfold path_start. rewrite Ha. by destruct (split_slash p); [destruct l, mid|]. }
  unfold of_components. case_decide as Hroot.
  - rewrite Hroot. simpl. destruct (is_absolute p) eqn:Ha; [done|]. exfalso.
    rewrite Hroot in Hp. assert (is_absolute p = true); [|congruence]. apply is_absolute_split.
    rewrite Hp. simpl. destruct mid; eauto.
  - destruct Hl as [[-> Hst]|(c & l' & Hl)].
    + destruct (is_absolute p); [by rewrite Habs in Hst|done].
    + assert (split_slash (String.concat "/" l) = l) as Hsl by (apply split_concat; [by rewrite Hl|done]).
      unfold resolve. rewrite Hsl. f_equal.
      assert (is_absolute (String.concat "/" l) = is_absolute p) as ->; [|done].
      apply eq_true_iff_eq. rewrite !is_absolute_split, Hsl, Hp, Hl. split.
      * intros (x & xs & [= -> ->]). simpl. eauto.
      * intros (x & xs & Hx). injection Hx as -> Hx. destruct l' as [|x' l']; [|by eauto]. by destruct Hroot.
Qed.

Lemma parent_join q c : plain (last_comp q) → plain c → parent (join q c) = Some q.
Proof.
  intros Hl Hc. assert (q ≠ "") as Hq by (intros ->; by destruct Hl as (_ & _ & ? & _)).
  destruct (path_start_join q c Hq Hl Hc) as [Hs Hst]. unfold parent, path_rest. rewrite Hs, Hst.
  pose proof (path_start_split q) as Hsp. set (st := path_start q) in *. set (k := drop (length st) (split_slash q)) in *.
  assert (drop (length st) (split_slash q ++ [c]) = k ++ [c]) as ->.
  { rewrite Hsp at 1. by rewrite <- app_assoc, drop_app_length. }
  rewrite rev_app_distr. simpl rev at 1. cbn [app]. rewrite drop_while_head by by apply plain_kept.
  assert (∃ k', k = k' ++ [last_comp q]) as [k' Hk].
  { unfold last_comp in *. destruct k as [|x k' _] using rev_ind.
    - exfalso. rewrite Hsp, app_nil_r in Hl. unfold st, path_start in Hl.
      destruct (split_slash q) as [|c0 cs] eqn:Hq0; [by destruct Hl as (_ & _ & ? & _)|].
      destruct (is_absolute q); [by destruct Hl as (_ & _ & ? & _)|].
      case_decide; [by destruct Hl as (_ & _ & _ & ? & _)|by destruct Hl as (_ & _ & ? & _)].
    - exists k'. by rewrite Hsp, app_assoc, last_snoc. }
  rewrite Hk, rev_app_distr. cbn [rev app]. rewrite drop_while_head by by apply plain_kept.
  change (last_comp q :: rev k') with (rev [last_comp q] ++ rev k'). rewrite <- rev_app_distr, rev_involutive, <- Hk, <- Hsp.
  unfold of_components. rewrite decide_False, concat_split; [done|]. intros Heq.
  unfold last_comp in Hl. rewrite Heq in Hl. by destruct Hl as (_ & _ & ? & _).
Qed.

(** *** Operations *)

Lemma fs_lookup_insert_ne w p q n :
  p ≠ q → fs_lookup (set_files <[p := n]> w) q = fs_lookup w q.
Proof. intros. unfold fs_lookup. case_decide; [done|]. simpl. by rewrite lookup_insert_ne. Qed.

Lemma fs_lookup_delete_ne w p q :
  p ≠ q → fs_lookup (set_files (delete p) w) q = fs_lookup w q.
Proof. intros. unfold fs_lookup. case_decide; [done|]. simpl. by rewrite lookup_delete_ne. Qed.
Lemma fs_lookup_delete w p :
  p ≠ [] → p ≠ ["/"] → fs_lookup (set_files (delete p) w) p = None.
Proof. intros. unfold fs_lookup. case_decide; [naive_solver|]. simpl. apply lookup_delete_eq. Qed.

Lemma fs_lookup_insert w p n :
  p ≠ [] → p ≠ ["/"] → fs_lookup (set_files <[p := n]> w) p = Some n.
Proof. intros. unfold fs_lookup. case_decide; [naive_solver|]. simpl. apply lookup_insert_eq. Qed.

(** [mkdir -p] only turns absent paths into directories. *)
Definition dirs_added (w w' : World) : Prop :=
  ∀ p, fs_lookup w' p = fs_lookup w p ∨ (fs_lookup w p = None ∧ fs_lookup w' p = Some Dir).

#[export] Instance dirs_added_preorder : PreOrder dirs_added.
Proof.
  split; [by left|]. intros w1 w2 w3 H1 H2 p. destruct (H1 p) as [Ha|[Ha Hb]], (H2 p) as [Hc|[Hc Hd]].
  - left. congruence.
  - right. split; congruence.
  - right. split; congruence.
  - congruence.
Qed.

Lemma mkdir_one_added p w o w' : mkdir_one p w = (o, w') → dirs_added w w'.
Proof.
  unfold mkdir_one. intros H q. destruct (fs_lookup w p) as [[]|] eqn:Hp; simplify_eq/=; try by left.
  destruct (decide (p = q)) as [->|]; [|left; by apply fs_lookup_insert_ne].
  right. split; [done|]. unfold fs_lookup in *. case_decide; [done|]. simpl. apply lookup_insert_eq.
Qed.

Lemma mfor_mkdir_added l w o w' : mfor mkdir_one l w = (o, w') → dirs_added w w'.
Proof.
  revert w. induction l as [|p l IH]; intros w; simpl.
  - unfold ret. intros [= _ <-]. reflexivity.
  - unfold bind. destruct (mkdir_one p w) as [[[u|e]|s] w1] eqn:H1; intros H2; simplify_eq;
      apply mkdir_one_added in H1; [|done..]. etrans; [done|]. eauto.
Qed.

Lemma or_fail_ok_inv {A} (m : M World string A) w a w' :
  or_fail m w = (Done (Ok a), w') →
  ∃ fs, m (mkWorld (files w) fs) = (Done (Ok a), w') ∧
        (faults w = [] ∧ fs = [] ∨ faults w = NoFault :: fs).
Proof.
  unfold or_fail, with_fault. destruct w as [fl [|[] fs]]; simpl; unfold raise; intros; simplify_eq;
    eauto.
Qed.

Lemma with_fault_inv {A} (k : fault → M World string A) w o w' :
  with_fault k w = (o, w') → ∃ f fs, k f (mkWorld (files w) fs) = (o, w').
Proof. destruct w as [fl [|f fs]]; simpl; [by exists NoFault, []|by exists f, fs]. Qed.

(** The next operation meets no fault, and leaves the faults [fs]. *)
Definition clear (w : World) (fs : list fault) : Prop :=
  (faults w = [] ∧ fs = []) ∨ faults w = NoFault :: fs.

Lemma or_fail_clear {A} (m : M World string A) w fs :
  clear w fs → or_fail m w = m (mkWorld (files w) fs).
Proof.
  destruct w as [fl fts]. unfold clear, or_fail, with_fault. simpl. by intros [[-> ->]| ->].
Qed.

Lemma or_fail_nofault {A} (m : M World string A) w :
  faults w = [] → or_fail m w = m w.
Proof. intros H. unfold or_fail, with_fault. by rewrite H. Qed.

Lemma create_dir_all_added p w o w' : create_dir_all p w = (o, w') → dirs_added w w'.
Proof.
  unfold create_dir_all, or_fail, with_fault. destruct w as [fl [|f fs]]; simpl.
  - apply mfor_mkdir_added.
  - destruct f; simpl; [|unfold raise; intros [= _ <-]; by left..].
    intros H%mfor_mkdir_added. etrans; [|exact H]. by left.
Qed.

Lemma create_dir_all_faults p w o w' :
  create_dir_all p w = (o, w') → faults w = [] → faults w' = [].
Proof.
  intros H Hf. unfold create_dir_all in H. rewrite or_fail_nofault in H by done.
  revert w H Hf. induction (prefixes (resolve p)) as [|q l IH]; intros w; simpl.
  - unfold ret. by intros [= _ <-].
  - unfold bind, mkdir_one. destruct (fs_lookup w q) as [[]|]; intros H ?; simplify_eq; eauto.
Qed.

Lemma mkdirs_ok l w :
  (∀ q, q ∈ l → ∀ d, fs_lookup w q ≠ Some (File d)) →
  ∃ w', mfor mkdir_one l w = (Done (Ok tt), w') ∧ faults w' = faults w ∧ dirs_added w w' ∧
        ∀ q, q ∈ l → fs_lookup w' q = Some Dir.
Proof.
  revert w. induction l as [|p l IH]; intros w Hl.
  - exists w. split_and!; [done..|reflexivity|]. by intros q ?%not_elem_of_nil.
  - assert (∃ w1, mkdir_one p w = (Done (Ok tt), w1) ∧ faults w1 = faults w ∧
      fs_lookup w1 p = Some Dir) as (w1 & Hp & Hf & Hd).
    { unfold mkdir_one. destruct (fs_lookup w p) as [[d|]|] eqn:Hp; [|by eauto|].
      - by destruct (Hl p (list_elem_of_here _ _) d).
      - eexists. split_and!; [done..|]. unfold fs_lookup in *. case_decide; [done|].
        simpl. apply lookup_insert_eq. }
    pose proof (mkdir_one_added _ _ _ _ Hp) as Ha1. destruct (IH w1) as (w2 & Hw & Hf2 & Ha & Hq).
    { intros q Hq d. destruct (Ha1 q) as [-> |[_ ->]]; [|done]. apply Hl. by right. }
    exists w2. simpl. unfold bind. rewrite Hp. split_and!; [done|congruence|by etrans|].
    intros q [-> |Hin]%elem_of_cons; [|auto]. destruct (Ha p) as [->|[? ?]]; congruence.
Qed.

Lemma elem_of_prefixes q p : q ∈ prefixes p → q `prefix_of` p.
Proof.
  unfold prefixes. intros (n & -> & _)%list_elem_of_fmap. exists (drop (S n) p).
  by rewrite take_drop.
Qed.

Lemma prefixes_self p : p ≠ [] → p ∈ prefixes p.
Proof.
  intros Hp. unfold prefixes. apply list_elem_of_fmap. exists (pred (length p)).
  destruct p as [|c p]; [done|]. simpl length. split; [simpl; by rewrite take_ge|].
  apply elem_of_seq. simpl. lia.
Qed.

(** [mkdir -p] succeeds when no prefix of the path is a file. *)
Lemma create_dir_all_ok p w fs :
  clear w fs → (∀ q d, q `prefix_of` resolve p → fs_lookup w q ≠ Some (File d)) →
  ∃ w', create_dir_all p w = (Done (Ok tt), w') ∧ faults w' = fs ∧ dirs_added w w' ∧
        fs_lookup w' (resolve p) = Some Dir.
Proof.
  intros Hf Hq. unfold create_dir_all. rewrite (or_fail_clear _ _ fs) by done.
  destruct (mkdirs_ok (prefixes (resolve p)) (mkWorld (files w) fs)) as (w' & Hw & Hf' & Ha & Hd).
  { intros q Hin d. by apply Hq, elem_of_prefixes. }
  exists w'. split_and!; [done..|].
  destruct (decide (resolve p = [])) as [->|Hne]; [done|]. by apply Hd, prefixes_self.
Qed.

(** Only paths on the way to the directory are touched, whatever the outcome. *)
Lemma mkdirs_frame l w o w' q :
  mfor mkdir_one l w = (o, w') → q ∉ l → fs_lookup w' q = fs_lookup w q.
Proof.
  revert w. induction l as [|p l IH]; intros w; simpl.
  - unfold ret. by intros [= _ <-].
  - unfold bind. intros Hm [Hqp Hql]%not_elem_of_cons.
    assert (fs_lookup (mkdir_one p w).2 q = fs_lookup w q) as Hq.
    { unfold mkdir_one. destruct (fs_lookup w p) as [[]|]; [done..|]. by apply fs_lookup_insert_ne. }
    destruct (mkdir_one p w) as [[[u|e]|s] w1]; simpl in *; simplify_eq; [|done..].
    rewrite <- Hq. eauto.
Qed.

Lemma create_dir_all_frame p w o w' q :
  create_dir_all p w = (o, w') → ¬ q `prefix_of` resolve p → fs_lookup w' q = fs_lookup w q.
Proof.
  intros Hc Hq. assert (q ∉ prefixes (resolve p)) as Hn by (by intros ?%elem_of_prefixes).
  apply with_fault_inv in Hc as (f & fs & Hc).
  change (fs_lookup w q) with (fs_lookup (mkWorld (files w) fs) q).
  destruct f; [by eapply mkdirs_frame|unfold raise in Hc; by simplify_eq..].
Qed.

(** Only the entry of [p] differs. *)
Definition only (p : list string) (w w' : World) : Prop :=
  ∀ q, q ≠ p → fs_lookup w' q = fs_lookup w q.

#[export] Instance only_preorder p : PreOrder (only p).
Proof. split; [by intros w q|]. intros w1 w2 w3 Ha Hb q Hq. rewrite Hb, Ha; done. Qed.

Lemma only_insert p n w fs : only p w (set_files <[p := n]> (mkWorld (files w) fs)).
Proof. intros q Hq. by rewrite fs_lookup_insert_ne by done. Qed.

Lemma only_faults p w fs : only p w (mkWorld (files w) fs).
Proof. by intros q Hq. Qed.

#[export] Hint Resolve only_insert only_faults : eo.

Lemma file_create_only p w o w' : file_create p w = (o, w') → only (resolve p) w w'.
Proof.
  intros (f & fs & Hf)%with_fault_inv. revert Hf. cbv beta.
  destruct f; unfold raise; [|intros; simplify_eq; auto with eo..].
  repeat case_match; intros; simplify_eq; auto with eo.
Qed.

Lemma write_all_only p data w o w' : write_all p data w = (o, w') → only (resolve p) w w'.
Proof.
  intros (f & fs & Hf)%with_fault_inv. revert Hf. cbv beta. unfold append_data. simpl.
  destruct f; repeat case_match; intros; simplify_eq; auto with eo.
Qed.

Lemma file_create_ok p w fs :
  clear w fs → fs_lookup w (removelast (resolve p)) = Some Dir →
  fs_lookup w (resolve p) ≠ Some Dir →
  file_create p w = (Done (Ok tt), set_files <[resolve p := File []]> (mkWorld (files w) fs)).
Proof.
  intros Hf Hd Hn. unfold file_create. rewrite (or_fail_clear _ _ fs) by done.
  change (fs_lookup (mkWorld (files w) fs)) with (fs_lookup w). rewrite Hd.
  by destruct (fs_lookup w (resolve p)) as [[]|].
Qed.

Lemma not_dir_path w p : fs_lookup w p ≠ Some Dir → p ≠ [] ∧ p ≠ ["/"].
Proof. intros Hn. split; by intros ->. Qed.

Lemma remove_file_ok p w d :
  faults w = [] → fs_lookup w (resolve p) = Some (File d) →
  remove_file p w = (Done (Ok tt), set_files (delete (resolve p)) w) ∧
  fs_lookup (set_files (delete (resolve p)) w) (resolve p) = None.
Proof.
  intros Hf Hd. destruct (not_dir_path w (resolve p)) as [H1 H2]; [by rewrite Hd|].
  split; [|by apply fs_lookup_delete]. unfold remove_file. rewrite or_fail_nofault by done. by rewrite Hd.
Qed.

Lemma unix_bind_ok p w :
  faults w = [] → fs_lookup w (resolve p) = None → fs_lookup w (removelast (resolve p)) = Some Dir →
  unix_bind p w = (Done (Ok tt), set_files <[resolve p := File []]> w) ∧
  fs_lookup (set_files <[resolve p := File []]> w) (resolve p) = Some (File []).
Proof.
  intros Hf Hn Hd. destruct (not_dir_path w (resolve p)) as [H1 H2]; [by rewrite Hn|].
  split; [|by apply fs_lookup_insert]. unfold unix_bind. rewrite or_fail_nofault by done. by rewrite Hn, Hd.
Qed.

Lemma write_all_ok p data d w :
  faults w = [] → files w !! resolve p = Some (File d) →
  write_all p data w = (Done (Ok tt), set_files <[resolve p := File (d ++ data)]> w).
Proof. intros Hf Hd. unfold write_all, with_fault, append_data. by rewrite Hf, Hd. Qed.

(** What a failing create or write leaves in its file. *)
Lemma file_create_leaves p w o w' :
  file_create p w = (o, w') → fs_lookup w (resolve p) = None →
  (fs_lookup w' (resolve p) = None ∧ ∀ u, o ≠ Done (Ok u)) ∨ files w' !! resolve p = Some (File []).
Proof.
  intros (f & fs & Hf)%with_fault_inv Hn. revert Hf. cbv beta.
  destruct f; unfold raise; [|intros; simplify_eq; by left..].
  change (fs_lookup (mkWorld (files w) fs) (resolve p)) with (fs_lookup w (resolve p)).
  rewrite Hn. repeat case_match; intros; simplify_eq; try by left.
  right. simpl. apply lookup_insert_eq.
Qed.

Lemma write_all_leaves p data w o w' :
  write_all p data w = (o, w') → files w !! resolve p = Some (File []) →
  ∃ n, files w' !! resolve p = Some (File (take n data)).
Proof.
  intros (f & fs & Hf)%with_fault_inv Hd. revert Hf. cbv beta. unfold append_data. simpl.
  rewrite Hd. destruct f as [| |n]; intros; simplify_eq; simpl.
  - exists (length data). by rewrite lookup_insert_eq, take_ge.
  - by exists 0.
  - exists n. by rewrite lookup_insert_eq.
Qed.

Lemma fs_lookup_files w p n : files w !! p = Some n → p ≠ [] → p ≠ ["/"] → fs_lookup w p = Some n.
Proof. intros. unfold fs_lookup. case_decide; naive_solver. Qed.

Lemma fs_read_frame p w o w' : fs_read p w = (o, w') → files w' = files w.
Proof.
  intros (f & fs & Hf)%with_fault_inv. revert Hf. cbv beta.
  destruct f; unfold raise; [|intros; by simplify_eq..]. repeat case_match; intros; by simplify_eq.
Qed.

Lemma fs_read_no_panic p : no_panic (fs_read p).
Proof.
  intros w why. destruct (fs_read p w) as [o w'] eqn:Hr. apply with_fault_inv in Hr as (f & fs & Hr).
  revert Hr. cbv beta. unfold raise. simpl. repeat case_match; intros; by simplify_eq.
Qed.

Lemma create_dir_all_no_panic p : no_panic (create_dir_all p).
Proof.
  intros w why. destruct (create_dir_all p w) as [o w'] eqn:Hc. apply with_fault_inv in Hc as (f & fs & Hc).
  destruct f; [|unfold raise in Hc; by simplify_eq..].
  simpl. intros ->. eapply (mfor_no_panic mkdir_one); [|by rewrite Hc]. intros q w1 why1.
  unfold mkdir_one. by repeat case_match.
Qed.

Lemma file_create_no_panic p : no_panic (file_create p).
Proof.
  intros w why. destruct (file_create p w) as [o w'] eqn:Hc. apply with_fault_inv in Hc as (f & fs & Hc).
  revert Hc. cbv beta. unfold raise. repeat case_match; intros; by simplify_eq.
Qed.

Lemma write_all_no_panic p d : no_panic (write_all p d).
Proof.
  intros w why. destruct (write_all p d w) as [o w'] eqn:Hc. apply with_fault_inv in Hc as (f & fs & Hc).
  revert Hc. cbv beta. repeat case_match; intros; by simplify_eq.
Qed.

#[export] Hint Resolve create_dir_all_no_panic file_create_no_panic write_all_no_panic fs_read_no_panic : eo.

Lemma fs_read_ok_inv p w d w' :
  fs_read p w = (Done (Ok d), w') → fs_lookup w (resolve p) = Some (File d).
Proof.
  intros (f & fs & Hf)%with_fault_inv. revert Hf. cbv beta.
  destruct f; unfold raise; [|intros; by simplify_eq..]. unfold fs_lookup. simpl.
  repeat case_match; intros; by simplify_eq.
Qed.

Lemma fs_read_ok p w d :
  faults w = [] → fs_lookup w (resolve p) = Some (File d) → fs_read p w = (Done (Ok d), w).
Proof. intros Hf Hd. unfold fs_read, file_open. rewrite or_fail_nofault by done. by rewrite Hd. Qed.

#[export] Hint Resolve mkdir_one_added create_dir_all_added : eo.
