(* ===== verification/Objects.v ===== *)
(** * Git-model objects and their hashes (crates/storage/src/objects.rs)

    Blobs, trees, commits and tags, and the SHA-256 preimages of their hashes. *)

From S2P Require Import Prelude CoreTypes Interfaces.

Record Blob := mkBlob { blob_hash : Hash; blob_data : bytes }.

Record Tree := mkTree { tree_hash_of : Hash; tree_entries : list TreeEntry }.

Record Commit := mkCommit {
  commit_hash_of : Hash;
  commit_tree_hash : Hash;
  commit_parent_hashes : list Hash;
  commit_author : string;
  commit_timestamp : DateTime;
  commit_message : string;
}.

Record Tag := mkTag {
  tag_hash : Hash;
  tag_commit_hash : Hash;
  tag_name : string;
  tag_message : option string;
}.

#[export] Instance Blob_eq_dec : EqDecision Blob.
Proof. solve_decision. Defined.
#[export] Instance Tree_eq_dec : EqDecision Tree.
Proof. solve_decision. Defined.
#[export] Instance Commit_eq_dec : EqDecision Commit.
Proof.
  assert (EqDecision DateTime) by exact (_ : EqDecision Z). solve_decision.
Defined.
#[export] Instance Tag_eq_dec : EqDecision Tag.
Proof. solve_decision. Defined.

Inductive Object :=
| OBlob (b : Blob)
| OTree (t : Tree)
| OCommit (c : Commit)
| OTag (t : Tag).
#[export] Instance Object_eq_dec : EqDecision Object.
Proof. solve_decision. Defined.

(** Encodings of the object types, for concrete serialisers. *)
#[export] Instance ObjectMode_countable : Countable ObjectMode :=
  inj_countable' (λ m, match m with ModeBlob => 0 | ModeTree => 1 | ModeExecutable => 2 end)
    (λ n, match n with 0 => ModeBlob | 1 => ModeTree | _ => ModeExecutable end) ltac:(by intros []).
#[export] Instance TreeEntry_countable : Countable TreeEntry :=
  inj_countable' (λ e, (te_name e, te_hash e, te_mode e)) (λ x, mkTreeEntry x.1.1 x.1.2 x.2)
    ltac:(by intros []).
#[export] Instance Blob_countable : Countable Blob :=
  inj_countable' (λ b, (blob_hash b, blob_data b)) (λ x, mkBlob x.1 x.2) ltac:(by intros []).
#[export] Instance Tree_countable : Countable Tree :=
  inj_countable' (λ t, (tree_hash_of t, tree_entries t)) (λ x, mkTree x.1 x.2) ltac:(by intros []).
#[export] Instance Commit_countable : Countable Commit :=
  inj_countable' (λ c, (commit_hash_of c, commit_tree_hash c, commit_parent_hashes c,
      commit_author c, commit_timestamp c : Z, commit_message c))
    (λ x, mkCommit x.1.1.1.1.1 x.1.1.1.1.2 x.1.1.1.2 x.1.1.2 x.1.2 x.2) ltac:(by intros []).
#[export] Instance Tag_countable : Countable Tag :=
  inj_countable' (λ t, (tag_hash t, tag_commit_hash t, tag_name t, tag_message t))
    (λ x, mkTag x.1.1.1 x.1.1.2 x.1.2 x.2) ltac:(by intros []).
#[export] Instance Object_countable : Countable Object :=
  inj_countable' (λ o, match o with
      | OBlob b => inl (inl b) | OTree t => inl (inr t)
      | OCommit c => inr (inl c) | OTag t => inr (inr t) end)
    (λ x, match x with
      | inl (inl b) => OBlob b | inl (inr t) => OTree t
      | inr (inl c) => OCommit c | inr (inr t) => OTag t end) ltac:(by intros []).

Definition object_hash (o : Object) : Hash :=
  match o with
  | OBlob b => blob_hash b
  | OTree t => tree_hash_of t
  | OCommit c => commit_hash_of c
  | OTag t => tag_hash t
  end.

Definition nul : string := String (Ascii.ascii_of_N 0) "".
Definition newline : string := String (Ascii.ascii_of_N 10) "".

(** The bytes that are hashed: ["<type> <len>\0<content>"]. *)
Definition preimage (kind : string) (content : bytes) : bytes :=
  as_bytes (fmt [kind; " "; dec (N.of_nat (length content)); nul]) ++ content.

Definition mode_str (m : ObjectMode) : string :=
  match m with
  | ModeBlob => "100644"
  | ModeExecutable => "100755"
  | ModeTree => "040000"
  end.

Definition entry_line (e : TreeEntry) : string :=
  fmt [mode_str (te_mode e); " "; te_hash e; " "; te_name e; newline].

(** The content of a tree: its entries sorted by name, a line each. *)
Definition tree_content (entries : list TreeEntry) : string :=
  fmt (entry_line <$> sort_by te_name entries).

Section hashes.
Context `{Digest, TimeText}.

Definition commit_content (tree_hash : Hash) (parents : list Hash) (author : string)
    (ts : DateTime) (message : string) : string :=
  fmt ([fmt ["tree "; tree_hash; newline]]
       ++ ((λ p, fmt ["parent "; p; newline]) <$> parents)
       ++ [fmt ["author "; author; " "; format_epoch_zone ts; newline];
           fmt ["committer "; author; " "; format_epoch_zone ts; newline];
           fmt [newline; message; newline]]).

Definition hash_blob (data : bytes) : Hash := hex_encode (sha256 (preimage "blob" data)).

Definition hash_tree (entries : list TreeEntry) : Hash :=
  hex_encode (sha256 (preimage "tree" (as_bytes (tree_content entries)))).

Definition hash_commit (tree_hash : Hash) (parents : list Hash) (author : string)
    (ts : DateTime) (message : string) : Hash :=
  hex_encode (sha256 (preimage "commit"
    (as_bytes (commit_content tree_hash parents author ts message)))).
End hashes.

(** ** Lemmas *)

(** A decimal number has no NUL byte. *)
Lemma byte_list_of_string_cons a s : as_bytes (String a s) = Ascii.byte_of_ascii a :: as_bytes s.
Proof. done. Qed.

Fixpoint no_byte (b : byte) (s : string) : bool :=
  match s with
  | EmptyString => true
  | String a s => negb (Byte.eqb (Ascii.byte_of_ascii a) b) && no_byte b s
  end.

Lemma byte_eqb_refl b : Byte.eqb b b = true.
Proof. by destruct b. Qed.

Lemma no_byte_not_elem b s : no_byte b s = true → b ∉ as_bytes s.
Proof.
  induction s as [|a s IH]; simpl; [intros _; apply not_elem_of_nil|].
  rewrite andb_true_iff, negb_true_iff. intros [Ha Hs]. rewrite byte_list_of_string_cons.
  apply not_elem_of_cons. split; [|auto]. intros ->. by rewrite byte_eqb_refl in Ha.
Qed.

Lemma no_byte_app b s t : no_byte b (s +:+ t) = no_byte b s && no_byte b t.
Proof. induction s as [|a s IH]; simpl; [done|]. by rewrite IH, andb_assoc. Qed.

(** Two lists cut at the first occurrence of a separator. *)
Lemma app_sep_inj {A} (x : A) l1 l2 k1 k2 :
  x ∉ l1 → x ∉ l2 → l1 ++ x :: k1 = l2 ++ x :: k2 → l1 = l2 ∧ k1 = k2.
Proof.
  revert l2. induction l1 as [|a l1 IH]; intros [|b l2]; simpl; rewrite ?not_elem_of_cons.
  - intros _ _ [=]. done.
  - intros _ [Hb _] [= -> _]. done.
  - intros [Ha _] _ [= -> _]. done.
  - intros [_ H1] [_ H2] [= -> Heq]. destruct (IH l2 H1 H2 Heq) as [-> ->]. done.
Qed.

Lemma no_byte_elem b s : b ∉ as_bytes s → no_byte b s = true.
Proof.
  induction s as [|a s IH]; simpl; [done|]. rewrite byte_list_of_string_cons, not_elem_of_cons.
  intros [Ha Hs]. rewrite IH by done. destruct (Byte.eqb _ b) eqn:He; [|done].
  by apply Byte.byte_dec_bl in He.
Qed.

(** A decimal number consists of digits. *)
Definition is_digit_byte (b : byte) : bool :=
  let n := Byte.to_N b in ((48 <=? n)%N && (n <=? 57)%N).

Lemma no_byte_pretty_N_go b x s :
  is_digit_byte b = false → no_byte b s = true → no_byte b (pretty_N_go x s) = true.
Proof.
  intros Hb. revert s. induction (N.lt_wf_0 x) as [x _ IH]; intros s Hs.
  destruct (decide (x = 0%N)) as [->|Hx]; [by rewrite pretty_N_go_0|].
  rewrite pretty_N_go_step by lia. apply IH; [apply N.div_lt; lia|].
  assert (∀ a, a = pretty_N_char (x `mod` 10) → Byte.eqb (Ascii.byte_of_ascii a) b = false) as Ha.
  { intros a ->. unfold pretty_N_char. destruct (x `mod` 10)%N as [|p]; [|
      repeat (destruct p as [p|p|]; try (by destruct b))]; by destruct b. }
  simpl. by rewrite Ha, Hs.
Qed.

Lemma no_byte_dec b n : is_digit_byte b = false → no_byte b (dec n) = true.
Proof.
  intros Hb. unfold dec, pretty, pretty_N. case_decide.
  - by destruct b.
  - by apply no_byte_pretty_N_go.
Qed.

Lemma string_app_assoc (s t u : string) : (s +:+ t) +:+ u = s +:+ (t +:+ u).
Proof. induction s as [|a s IH]; [done|]. exact (f_equal (String a) IH). Qed.

Lemma string_app_nil_r (s : string) : s +:+ "" = s.
Proof. induction s as [|a s IH]; [done|]. exact (f_equal (String a) IH). Qed.

Lemma preimage_unfold kind content :
  preimage kind content =
  (as_bytes kind ++ x20 :: as_bytes (dec (N.of_nat (length content)))) ++ x00 :: content.
Proof.
  unfold preimage, fmt. simpl. rewrite !as_bytes_app, <- !app_assoc. done.
Qed.

Lemma header_no_nul k n :
  no_byte x00 k = true → x00 ∉ as_bytes k ++ x20 :: as_bytes (dec n).
Proof.
  intros Hk. rewrite elem_of_app, elem_of_cons. intros [H1|[?|H1]]; [|done|];
    revert H1; apply no_byte_not_elem; auto using no_byte_dec.
Qed.

(** The hashed bytes determine the kind and the content. *)
Lemma preimage_inj k c k' c' :
  no_byte x20 k = true → no_byte x00 k = true → no_byte x20 k' = true → no_byte x00 k' = true →
  preimage k c = preimage k' c' → k = k' ∧ c = c'.
Proof.
  intros Hk Hk0 Hk' Hk0'. rewrite !preimage_unfold.
  intros [Hh Hc]%app_sep_inj; auto using header_no_nul.
  split; [|done]. apply app_sep_inj in Hh as [Hk2 _]; auto using no_byte_not_elem.
  by apply as_bytes_inj.
Qed.

(** Newline-terminated lines are recovered from their concatenation. *)
Lemma fmt_lines_inj l l' :
  Forall (λ s, no_byte x0a s = true) l → Forall (λ s, no_byte x0a s = true) l' →
  fmt ((λ s, s +:+ newline) <$> l) = fmt ((λ s, s +:+ newline) <$> l') → l = l'.
Proof.
  intros Hl. revert l'. induction Hl as [|s l Hs Hl IH]; intros [|s' l'] Hl'; csimpl; try done.
  - intros Heq%(f_equal as_bytes). rewrite !as_bytes_app in Heq. by destruct (as_bytes s').
  - intros Heq%(f_equal as_bytes). rewrite !as_bytes_app in Heq. by destruct (as_bytes s).
  - inversion_clear Hl' as [|? ? Hs' Hl0]. intros Heq%(f_equal as_bytes).
    rewrite !as_bytes_app, <- !app_assoc in Heq.
    apply app_sep_inj in Heq as [Hss Hll]; [|by apply no_byte_not_elem..].
    f_equal; [by apply as_bytes_inj|]. by apply IH, as_bytes_inj.
Qed.

(** The text of an entry without its newline. *)
Definition entry_text (e : TreeEntry) : string :=
  fmt [mode_str (te_mode e); " "; te_hash e; " "; te_name e].

Lemma entry_line_text e : entry_line e = entry_text e +:+ newline.
Proof. unfold entry_line, entry_text, fmt. simpl. rewrite !string_app_assoc. done. Qed.

(** An entry whose hash has no space and whose fields have no newline. *)
Definition clean_entry (e : TreeEntry) : bool :=
  no_byte x20 (te_hash e) && no_byte x0a (te_hash e) && no_byte x0a (te_name e).

Lemma clean_entry_text e : clean_entry e = true → no_byte x0a (entry_text e) = true.
Proof.
  unfold clean_entry, entry_text, fmt. rewrite !andb_true_iff. simpl. intros [[_ Hh] Hn].
  rewrite !no_byte_app, Hh, Hn. by destruct (te_mode e).
Qed.

Lemma entry_text_inj e e' :
  clean_entry e = true → clean_entry e' = true → entry_text e = entry_text e' → e = e'.
Proof.
  unfold clean_entry. rewrite !andb_true_iff. intros [[Hh _] _] [[Hh' _] _] Heq.
  apply (f_equal as_bytes) in Heq. unfold entry_text, fmt in Heq. simpl in Heq.
  rewrite !as_bytes_app, !app_nil_r in Heq.
  apply (app_sep_inj x20) in Heq as [Hm Heq];
    [|apply no_byte_not_elem; destruct e as [? ? []]; done
     |apply no_byte_not_elem; destruct e' as [? ? []]; done].
  apply (app_sep_inj x20) in Heq as [Hhash Hname]; [|by apply no_byte_not_elem..].
  apply as_bytes_inj in Hm, Hhash, Hname. destruct e as [n h m], e' as [n' h' m'].
  simpl in *. subst. by destruct m, m'.
Qed.

Definition clean_entries (es : list TreeEntry) : Prop := Forall (λ e, clean_entry e = true) es.
#[export] Instance clean_entries_dec es : Decision (clean_entries es) := _.

Lemma entry_texts_inj l l' :
  clean_entries l → clean_entries l' → entry_text <$> l = entry_text <$> l' → l = l'.
Proof.
  intros Hl. revert l'. induction Hl as [|e l He Hl IH]; intros [|e' l'] Hl'; csimpl; try done.
  inversion_clear Hl'. intros [= Heq Htl]. f_equal; auto using entry_text_inj.
Qed.

Lemma tree_content_inj es es' :
  clean_entries es → clean_entries es' →
  tree_content es = tree_content es' → sort_by te_name es = sort_by te_name es'.
Proof.
  unfold clean_entries. intros Hes Hes'.
  rewrite <- (sort_by_perm te_name es) in Hes. rewrite <- (sort_by_perm te_name es') in Hes'.
  unfold tree_content. revert Hes Hes'.
  generalize (sort_by te_name es), (sort_by te_name es'). intros l l' Hl Hl'.
  assert (∀ k : list TreeEntry, entry_line <$> k = (λ s, s +:+ newline) <$> (entry_text <$> k)) as Hk.
  { intros k. rewrite <- list_fmap_compose. apply list_fmap_ext. intros. apply entry_line_text. }
  rewrite !Hk. intros Heq%fmt_lines_inj; [by apply entry_texts_inj|..];
    rewrite Forall_fmap; (eapply Forall_impl; [eassumption|apply clean_entry_text]).
Qed.

Lemma tree_content_perm es es' :
  NoDup (te_name <$> es) → es ≡ₚ es' → tree_content es = tree_content es'.
Proof. intros. unfold tree_content. by rewrite (sort_by_perm_eq te_name es es'). Qed.

(** ** Properties *)

Section properties.
Context `{DigestLaws, TimeText}.

(** Two byte strings are not a SHA-256 collision. *)
Definition no_collision (p q : bytes) : Prop := sha256 p = sha256 q → p = q.

Definition tree_preimage (es : list TreeEntry) : bytes :=
  preimage "tree" (as_bytes (tree_content es)).

(** Equal object hashes without a collision: equal kind and content. *)
Lemma hash_preimage_inj k c k' c' :
  no_byte x20 k = true → no_byte x00 k = true → no_byte x20 k' = true → no_byte x00 k' = true →
  no_collision (preimage k c) (preimage k' c') →
  hex_encode (sha256 (preimage k c)) = hex_encode (sha256 (preimage k' c')) → k = k' ∧ c = c'.
Proof. intros ???? Hc ?%hex_encode_inj. apply preimage_inj; auto. Qed.

(** C26: the tree hash identifies a directory.  For entry lists with distinct
    names whose fields have no newline (nor the hashes a space), and barring a
    collision of the two hashed byte strings, two lists have the same tree hash
    exactly when they hold the same entries, in any order. *)
Theorem hash_tree_eq_iff es es' :
  NoDup (te_name <$> es) → clean_entries es → clean_entries es' →
  no_collision (tree_preimage es) (tree_preimage es') →
  hash_tree es = hash_tree es' ↔ es ≡ₚ es'.
Proof.
  intros Hnd Hc Hc' Hcol. unfold hash_tree. split.
  - intros [_ Heq]%hash_preimage_inj; try done.
    apply as_bytes_inj, tree_content_inj in Heq; [|done..].
    by rewrite <- (sort_by_perm te_name es), Heq, sort_by_perm.
  - intros Hp. by rewrite (tree_content_perm es es').
Qed.

(** The kinds of objects are separated and a blob hash identifies its data:
    barring a collision of the hashed byte strings, equal blob hashes come from
    equal data, and no tree or commit has the hash of a blob, nor a commit the
    hash of a tree. *)
Theorem hashes_separate data data' es th ps author ts msg :
  let cp := preimage "commit" (as_bytes (commit_content th ps author ts msg)) in
  no_collision (preimage "blob" data) (preimage "blob" data') →
  no_collision (preimage "blob" data) (tree_preimage es) →
  no_collision (preimage "blob" data) cp → no_collision (tree_preimage es) cp →
  (hash_blob data = hash_blob data' → data = data') ∧
  hash_blob data ≠ hash_tree es ∧
  hash_blob data ≠ hash_commit th ps author ts msg ∧
  hash_tree es ≠ hash_commit th ps author ts msg.
Proof.
  intros cp Hc1 Hc2 Hc3 Hc4. unfold hash_blob, hash_tree, hash_commit. split_and!.
  - intros [_ Heq]%hash_preimage_inj; done.
  - intros [Heq _]%hash_preimage_inj; done.
  - intros [Heq _]%hash_preimage_inj; done.
  - intros [Heq _]%hash_preimage_inj; done.
Qed.
End properties.

(** ** Concrete runs *)

Module Demo.
Definition file_a : TreeEntry := mkTreeEntry "a" "11" ModeBlob.
Definition file_b : TreeEntry := mkTreeEntry "b" "22" ModeExecutable.

(** One entry whose name spans the line of a second one. *)
Definition forged : TreeEntry :=
  mkTreeEntry (fmt ["a"; newline; "100755 22 b"]) "11" ModeBlob.
Definition zone : TimeText := {| format_epoch_zone _ := "0 +0000" |}.
End Demo.

(** A name with a newline makes two different directories hash alike. *)
Lemma hash_tree_newline_ambiguous `{Digest} :
  hash_tree [Demo.forged] = hash_tree [Demo.file_a; Demo.file_b].
Proof. done. Qed.

Lemma hash_tree_eq_iff_witness :
  let _ := Toy.digest in hash_tree [Demo.file_b; Demo.file_a] = hash_tree [Demo.file_a; Demo.file_b].
Proof.
  intros D. apply (@hash_tree_eq_iff D Toy.digest_laws).
  - apply (bool_decide_unpack _). vm_compute. exact I.
  - apply (bool_decide_unpack _). vm_compute. exact I.
  - apply (bool_decide_unpack _). vm_compute. exact I.
  - intros _. vm_compute. reflexivity.
  - apply Permutation_swap.
Defined.

Lemma hashes_separate_witness :
  let _ := Toy.digest in hash_blob (as_bytes "x") ≠ hash_tree [Demo.file_a].
Proof.
  intros D.
  refine (proj1 (proj2 (@hashes_separate D Toy.digest_laws Demo.zone (as_bytes "x") (as_bytes "y")
    [Demo.file_a] "t" [] "me" 0%Z "m" _ _ _ _)));
  unfold no_collision; vm_compute; intros [=].
Defined.
