(* ===== verification/Diff.v ===== *)
(** * Tree diffing (crates/storage/src/diff.rs)

    The difference of two tree snapshots, indexed by entry name, and its use as a
    patch. *)

From S2P Require Import Prelude CoreTypes.

Record TreeDiff := mkTreeDiff {
  added_or_modified : list TreeEntry;
  removed : list TreeEntry;
  unchanged : list TreeEntry;
}.

(** The name-indexed map of a snapshot. *)
Definition by_name (es : list TreeEntry) : gmap string TreeEntry := collect_by te_name es.

(** The guard of the [unchanged] arm. *)
Definition same_hash (old_map : gmap string TreeEntry) (x : string * TreeEntry) : bool :=
  match old_map !! x.1 with
  | Some old_entry => bool_decide (te_hash old_entry = te_hash x.2)
  | None => false
  end.

Definition diff_trees (old new : list TreeEntry) : TreeDiff :=
  let old_map := by_name old in
  let new_map := by_name new in
  {| unchanged := snd <$> filter (λ x, same_hash old_map x = true) (btree_iter new_map);
     added_or_modified := snd <$> filter (λ x, same_hash old_map x = false) (btree_iter new_map);
     removed := snd <$> filter (λ x, new_map !! x.1 = None) (btree_iter old_map) |}.

Definition diff_is_empty (d : TreeDiff) : bool :=
  bool_decide (added_or_modified d = []) && bool_decide (removed d = []).

Definition change_count (d : TreeDiff) : nat :=
  length (added_or_modified d) + length (removed d).

(** Bringing a snapshot up to date with a diff. *)
Definition patch (d : TreeDiff) (m : gmap string TreeEntry) : gmap string TreeEntry :=
  foldl (λ m e, <[te_name e := e]> m)
    (foldl (λ m e, delete (te_name e) m) m (removed d)) (added_or_modified d).

(** ** Lemmas *)

Lemma by_name_name es k e : by_name es !! k = Some e → te_name e = k.
Proof. intros H. by apply collect_by_key in H as [? _]. Qed.

(** The entries of a snapshot's map selected by a test. *)
Lemma elem_of_selected (P : string * TreeEntry → Prop) `{∀ x, Decision (P x)} es e :
  e ∈ snd <$> filter P (btree_iter (by_name es)) ↔
  by_name es !! te_name e = Some e ∧ P (te_name e, e).
Proof.
  rewrite list_elem_of_fmap. split.
  - intros ([k e'] & -> & Hf). apply list_elem_of_filter in Hf as [Hs Hin].
    apply elem_of_btree_iter in Hin. simpl. by rewrite (by_name_name _ _ _ Hin).
  - intros [Hn Hs]. exists (te_name e, e). split; [done|].
    rewrite list_elem_of_filter, elem_of_btree_iter. done.
Qed.

Lemma elem_of_added old new e :
  e ∈ added_or_modified (diff_trees old new) ↔
  by_name new !! te_name e = Some e ∧ same_hash (by_name old) (te_name e, e) = false.
Proof. apply elem_of_selected. Qed.

Lemma elem_of_unchanged old new e :
  e ∈ unchanged (diff_trees old new) ↔
  by_name new !! te_name e = Some e ∧ same_hash (by_name old) (te_name e, e) = true.
Proof. apply elem_of_selected. Qed.

Lemma elem_of_removed old new e :
  e ∈ removed (diff_trees old new) ↔
  by_name old !! te_name e = Some e ∧ by_name new !! te_name e = None.
Proof. apply elem_of_selected. Qed.

(** Selected entries are in name order, without repetition. *)
Lemma selected_sorted (P : string * TreeEntry → Prop) `{∀ x, Decision (P x)} es :
  NoDup (te_name <$> (snd <$> filter P (btree_iter (by_name es)))) ∧
  StronglySorted (key_le te_name) (snd <$> filter P (btree_iter (by_name es))).
Proof.
  assert (∀ x, x ∈ btree_iter (by_name es) → te_name x.2 = x.1) as Hk.
  { intros [k e] Hx. apply elem_of_btree_iter in Hx. by eapply by_name_name. }
  pose proof (NoDup_btree_iter_keys (by_name es)) as Hnd.
  assert (StronglySorted (key_le fst) (btree_iter (by_name es))) as Hs by apply sort_by_sorted.
  induction (btree_iter (by_name es)) as [|x l IH]; [by repeat constructor|].
  csimpl in Hnd. apply NoDup_cons in Hnd as [Hx Hnd].
  inversion_clear Hs as [|? ? Hs' Hall]. rewrite filter_cons.
  destruct IH as [IH1 IH2]; [intros; apply Hk; by right|done..|].
  case_decide; [|done]. csimpl. rewrite Hk by left. rewrite Forall_forall in Hall.
  split; constructor; [|done|done|].
  - intros (e & Heq & (y & -> & Hy)%list_elem_of_fmap)%list_elem_of_fmap.
    apply list_elem_of_filter in Hy as [_ Hy]. apply Hx. rewrite Heq, Hk by by right.
    by apply list_elem_of_fmap_2.
  - apply Forall_forall. intros e (y & -> & Hy)%list_elem_of_fmap.
    apply list_elem_of_filter in Hy as [_ Hy]. unfold key_le in *.
    rewrite !Hk; [|by right|by left]. auto.
Qed.

Lemma foldl_delete_lookup es (m : gmap string TreeEntry) k :
  foldl (λ m e, delete (te_name e) m) m es !! k =
  if decide (k ∈ te_name <$> es) then None else m !! k.
Proof.
  revert m. induction es as [|e es IH]; intros m; [done|].
  change (te_name <$> e :: es) with (te_name e :: (te_name <$> es)).
  cbn [foldl]. rewrite IH. destruct (decide (k ∈ te_name <$> es)), (decide (k ∈ te_name e :: (te_name <$> es)));
    try set_solver.
  - rewrite lookup_delete. case_decide; set_solver.
  - rewrite lookup_delete_ne; set_solver.
Qed.

Lemma foldl_insert_lookup es (m : gmap string TreeEntry) k :
  foldl (λ m e, <[te_name e := e]> m) m es !! k = collect_by te_name es !! k ∪ m !! k.
Proof.
  revert m. induction es as [|e es IH] using rev_ind; intros m.
  - simpl. rewrite collect_by_nil, lookup_empty. by destruct (m !! k).
  - rewrite foldl_app, collect_by_snoc. simpl. rewrite !lookup_insert. case_decide; [|apply IH].
    by destruct (m !! k).
Qed.

(** ** Properties *)

(** A patched snapshot has the new hash under every name. *)
Lemma patch_lookup old new k :
  te_hash <$> patch (diff_trees old new) (by_name old) !! k = te_hash <$> by_name new !! k.
Proof.
  unfold patch. rewrite foldl_insert_lookup, foldl_delete_lookup.
  destruct (selected_sorted (λ x, same_hash (by_name old) x = false) new) as [Hnd _].
  change (NoDup (te_name <$> added_or_modified (diff_trees old new))) in Hnd.
  destruct (collect_by te_name (added_or_modified (diff_trees old new)) !! k) as [e|] eqn:Ha.
  - apply collect_by_key in Ha as [<- [Hn _]%elem_of_added]. rewrite Hn. by destruct (if decide _ then _ else _ : option TreeEntry).
  - rewrite (left_id_L None _).
    destruct (by_name new !! k) as [e|] eqn:Hn.
    + assert (te_name e = k) as <- by by eapply by_name_name.
      assert (same_hash (by_name old) (te_name e, e) = true) as Hs.
      { apply not_false_is_true. intros Hf.
        assert (e ∈ added_or_modified (diff_trees old new)) as He by by apply elem_of_added.
        by rewrite (collect_by_NoDup _ _ _ Hnd He) in Ha. }
      unfold same_hash in Hs. simpl in Hs. destruct (by_name old !! te_name e) as [o|] eqn:Ho; [|done].
      apply bool_decide_eq_true in Hs. rewrite decide_False; [simpl; by f_equal|].
      intros (r & Heq & [_ Hr]%elem_of_removed)%list_elem_of_fmap. congruence.
    + case_decide as Hd; [done|]. destruct (by_name old !! k) as [o|] eqn:Ho; [|done].
      destruct Hd. assert (te_name o = k) as <- by by eapply by_name_name.
      apply list_elem_of_fmap_2. by apply elem_of_removed.
Qed.

(** A diff is a patch: starting from the old snapshot, deleting the removed
    names and writing the added or modified entries gives, for every name, the hash
    the new snapshot has under it (its last entry of that name), whatever the two
    snapshots. *)
Theorem diff_trees_patch old new k :
  te_hash <$> patch (diff_trees old new) (by_name old) !! k = te_hash <$> by_name new !! k.
Proof. apply patch_lookup. Qed.

(** The diff is empty, and its change count zero, exactly when the two
    snapshots map every name to the same hash; an entry whose mode alone changed
    counts as unchanged. *)
Theorem diff_is_empty_iff old new :
  (diff_is_empty (diff_trees old new) = true ↔ te_hash <$> by_name old = te_hash <$> by_name new) ∧
  (change_count (diff_trees old new) = 0 ↔ te_hash <$> by_name old = te_hash <$> by_name new).
Proof.
  assert (added_or_modified (diff_trees old new) = [] ∧ removed (diff_trees old new) = [] ↔
    te_hash <$> by_name old = te_hash <$> by_name new) as Hiff.
  - split.
    + intros [Ha Hr]. apply map_eq. intros k. rewrite !lookup_fmap, <- (patch_lookup old new).
      unfold patch. by rewrite Ha, Hr.
    + intros Heq. assert (∀ k, te_hash <$> by_name old !! k = te_hash <$> by_name new !! k) as Hk.
      { intros k. by rewrite <- !lookup_fmap, Heq. }
      split; apply elem_of_nil_inv; intros e.
      * intros [Hn Hs]%elem_of_added. specialize (Hk (te_name e)). rewrite Hn in Hk.
        unfold same_hash in Hs. simpl in *. destruct (by_name old !! te_name e); [|done].
        simplify_eq/=. by apply bool_decide_eq_false in Hs.
      * intros [Ho Hn]%elem_of_removed. specialize (Hk (te_name e)). by rewrite Ho, Hn in Hk.
  - unfold diff_is_empty, change_count. rewrite andb_true_iff, !bool_decide_eq_true, <- Hiff.
    split; [done|]. rewrite Nat.eq_add_0, !length_zero_iff_nil. done.
Qed.
