(* ===== verification/Store.v ===== *)
(** * The local object store (crates/storage/src/store.rs)

    Objects on disk under [root/<2 chars>/<rest>], written once and read back with
    a check of the stored hash field.  The store's state is the file system. *)

From S2P Require Import Prelude CoreTypes Interfaces FileSys Objects.

(** ** Paths *)

(** The byte at an offset starts a character (or is the end of the string). *)
Definition is_char_boundary_2 (rest : string) : bool :=
  match rest with
  | EmptyString => true
  | String a _ => let n := Ascii.N_of_ascii a in (n <? 128)%N || (192 <=? n)%N
  end.

(** [str::split_at(2)]: panics past the end or inside a character. *)
Definition split_at_2 (s : string) : option (string * string) :=
  match s with
  | String a (String b rest) =>
      if is_char_boundary_2 rest then Some (String a (String b ""), rest) else None
  | _ => None
  end.

Section store.
Context `{SerdeJson Object, SerdeJson Tag, Digest, Zlib, TimeText, DebugText Object}.
(** The root directory. *)
Context (root : string).

Definition store_new : M World CoreError string :=
  let! _ := map_err (λ e, StorageIo (fmt ["failed to create object store root "; root; ": "; e]))
              (create_dir_all root) in
  ret root.

Definition object_path (hash : Hash) : M World CoreError string :=
  match split_at_2 hash with
  | Some (prefix, rest) => ret (join (join root prefix) rest)
  | None => panic "byte index 2 is not a char boundary"
  end.

Definition exists_ (hash : Hash) : M World CoreError bool :=
  let! path := object_path hash in
  λ w, (Done (Ok (path_exists path w)), w).

Definition write_object (object : Object) (hash : Hash) : M World CoreError unit :=
  let! path := object_path hash in
  λ w,
    if path_exists path w then (Done (Ok tt), w)
    else
      (let! _ := match parent path with
                 | Some p => map_err (λ e, StorageIo (fmt ["mkdir "; p; ": "; e])) (create_dir_all p)
                 | None => ret tt
                 end in
       let! serialized := lift_result (result_map_err Serialization (to_vec object)) in
       let compressed := deflate serialized in
       let! _ := map_err (λ e, StorageIo (fmt ["create "; path; ": "; e])) (file_create path) in
       map_err (λ e, StorageIo (fmt ["write "; path; ": "; e])) (write_all path compressed)) w.

Definition read_object (hash : Hash) : M World CoreError Object :=
  let! path := object_path hash in
  λ w,
    if path_exists path w then
      (let! compressed := map_err (λ e, StorageIo (fmt ["read "; path; ": "; e])) (fs_read path) in
       let! serialized := lift_result
         (result_map_err (λ e, StorageIo (fmt ["decompress "; path; ": "; e])) (inflate compressed)) in
       let! object := lift_result
         (result_map_err (λ e, Serialization (fmt ["deserialize "; path; ": "; e]))
           (from_slice serialized)) in
       if decide (object_hash object = hash) then ret object
       else raise (HashMismatch hash (object_hash object))) w
    else (Done (Err (ObjectNotFound hash)), w).

Definition put_blob (data : bytes) : M World CoreError Hash :=
  let hash := hash_blob data in
  let! _ := write_object (OBlob (mkBlob hash data)) hash in
  ret hash.

Definition get_blob (hash : Hash) : M World CoreError bytes :=
  let! o := read_object hash in
  match o with
  | OBlob blob => ret (blob_data blob)
  | other => raise (HashMismatch hash ("expected Blob, got " +:+ debug_text other))
  end.

Definition put_tree (entries : list TreeEntry) : M World CoreError Hash :=
  let hash := hash_tree entries in
  let! _ := write_object (OTree (mkTree hash entries)) hash in
  ret hash.

Definition get_tree (hash : Hash) : M World CoreError (list TreeEntry) :=
  let! o := read_object hash in
  match o with
  | OTree tree => ret (tree_entries tree)
  | other => raise (HashMismatch hash ("expected Tree, got " +:+ debug_text other))
  end.

(** [now] is the clock's reading. *)
Definition commit (now : DateTime) (tree_hash : Hash) (parent_hashes : list Hash)
    (author message : string) : M World CoreError Hash :=
  let hash := hash_commit tree_hash parent_hashes author now message in
  let! _ := write_object (OCommit (mkCommit hash tree_hash parent_hashes author now message)) hash in
  ret hash.

Definition get_commit (hash : Hash) : M World CoreError Commit :=
  let! o := read_object hash in
  match o with
  | OCommit c => ret c
  | other => raise (HashMismatch hash ("expected Commit, got " +:+ debug_text other))
  end.

Definition put_tag (commit_hash : Hash) (name : string) (message : option string) :
    M World CoreError Hash :=
  let tag := mkTag "" commit_hash name message in
  let! serialized := lift_result (result_map_err Serialization (to_vec tag)) in
  let hash := hash_blob serialized in
  let! _ := write_object (OTag (mkTag hash commit_hash name message)) hash in
  ret hash.

Definition gc (_keep_roots : list Hash) : M World CoreError (list Hash) := ret [].

(** ** Specification *)

(** The file a hash is stored in. *)
Definition object_file (hash : Hash) : option (list string) :=
  match split_at_2 hash with
  | Some (prefix, rest) => Some (resolve (join (join root prefix) rest))
  | None => None
  end.

(** The hashed bytes of an object, from its content. *)
Definition object_preimage (o : Object) : option bytes :=
  match o with
  | OBlob b => Some (preimage "blob" (blob_data b))
  | OTree t => Some (tree_preimage (tree_entries t))
  | OCommit c => Some (preimage "commit" (as_bytes (commit_content (commit_tree_hash c)
                   (commit_parent_hashes c) (commit_author c) (commit_timestamp c)
                   (commit_message c))))
  | OTag t => preimage "blob" <$> result_ok (to_vec (mkTag "" (tag_commit_hash t) (tag_name t) (tag_message t)))
  end.

(** The object's hash field is the hash of its content. *)
Definition authentic (o : Object) : Prop :=
  ∃ p, object_preimage o = Some p ∧ object_hash o = hex_encode (sha256 p).

(** The file of [hash] holds the encoding of [o]. *)
Definition stored (w : World) (hash : Hash) (o : Object) : Prop :=
  ∃ p s, object_file hash = Some p ∧ to_vec o = Ok s ∧ fs_lookup w p = Some (File (deflate s)).

Definition is_hash (h : Hash) : Prop :=
  String.length h = 64 ∧ forallb is_hex_digit (chars h) = true.

(** The file of [hash] holds the encoding of [o], possibly cut short. *)
Definition torn (w : World) (hash : Hash) (o : Object) : Prop :=
  ∃ p s n, object_file hash = Some p ∧ to_vec o = Ok s ∧
    fs_lookup w p = Some (File (take n (deflate s))).

(** The store's directories are not files, and every object file holds ([R]) an
    authentic object of its name. *)
Record store_inv (R : World → Hash → Object → Prop) (w : World) : Prop := {
  wf_root q : q `prefix_of` resolve root → ∀ d, fs_lookup w q ≠ Some (File d);
  wf_prefix h pre rest d : is_hash h → split_at_2 h = Some (pre, rest) →
    fs_lookup w (resolve root ++ [pre]) ≠ Some (File d);
  wf_objects h p n : is_hash h → object_file h = Some p → fs_lookup w p = Some n →
    ∃ o, R w h o ∧ authentic o ∧ object_hash o = h;
}.

(** The store after writes that all succeeded, and after any faults. *)
Definition store_wf : World → Prop := store_inv stored.
Definition store_ok : World → Prop := store_inv torn.
End store.

(** ** Lemmas *)

(** *** Hashes and their files *)

Lemma hex_digit_not_special a : is_hex_digit a = true → a ≠ "/"%char ∧ a ≠ "."%char.
Proof. by intros Ha; split; intros ->. Qed.

Lemma hex_split_slash s : forallb is_hex_digit (chars s) = true → split_slash s = [s].
Proof.
  induction s as [|a s IH]; simpl; [done|]. rewrite andb_true_iff. intros [Ha Hs].
  apply hex_digit_not_special in Ha as [Ha _]. rewrite decide_False by done. by rewrite IH.
Qed.

Lemma hex_plain s : s ≠ "" → forallb is_hex_digit (chars s) = true → plain s.
Proof.
  intros Hne Hs. split; [by apply hex_split_slash|]. destruct s as [|a s]; [done|].
  simpl in Hs. apply andb_true_iff in Hs as [[Hsl Hd]%hex_digit_not_special _].
  split; [by apply bool_decide_eq_false|]. split_and!; congruence.
Qed.

Lemma hex_char_boundary s :
  forallb is_hex_digit (chars s) = true → is_char_boundary_2 s = true.
Proof.
  destruct s as [|a s]; simpl; [done|]. rewrite andb_true_iff. intros [Ha _].
  unfold is_hex_digit in Ha. apply orb_true_iff. left.
  rewrite orb_true_iff, !andb_true_iff, !N.leb_le in Ha. apply N.ltb_lt. lia.
Qed.

Lemma is_hash_split h :
  is_hash h → ∃ pre rest, split_at_2 h = Some (pre, rest) ∧ plain pre ∧ plain rest ∧
    h = pre +:+ rest ∧ String.length pre = 2.
Proof.
  intros [Hlen Hhex]. destruct h as [|a [|b s]]; [done..|].
  simpl in Hhex. apply andb_true_iff in Hhex as [Ha [Hb Hs]%andb_true_iff].
  exists (String a (String b "")), s. simpl. rewrite hex_char_boundary by done.
  split_and!; [done| |..|done|done].
  - apply hex_plain; [done|]. simpl. by rewrite Ha, Hb.
  - apply hex_plain; [by intros ->|done].
Qed.

Section lemmas.
Context `{SerdeJson Object, SerdeJson Tag, DigestLaws, ZlibLaws, TimeText, DebugText Object}.
Context `{!SerdeJsonLaws Object, !SerdeJsonLaws Tag}.
Context (root : string).

Lemma hex_encode_is_hash p : is_hash (hex_encode (sha256 p)).
Proof. split; [by rewrite hex_length, sha256_length|apply hex_digits]. Qed.

Lemma object_file_hash h pre rest :
  split_at_2 h = Some (pre, rest) → plain pre → plain rest →
  object_file root h = Some (resolve root ++ [pre; rest]).
Proof.
  intros Hs Hp Hr. unfold object_file. rewrite Hs, !resolve_join, <- app_assoc by done. done.
Qed.

Lemma object_file_inj h h' p :
  is_hash h → is_hash h' → object_file root h = Some p → object_file root h' = Some p → h = h'.
Proof.
  intros (pre & rest & Hs & Hp & Hr & -> & _)%is_hash_split
    (pre' & rest' & Hs' & Hp' & Hr' & -> & _)%is_hash_split.
  rewrite (object_file_hash _ _ _ Hs), (object_file_hash _ _ _ Hs') by done.
  intros [= <-] [= Heq]. apply app_inj_2 in Heq as [_ [= -> ->]]; done.
Qed.

Lemma stored_lookup w h o p n :
  stored root w h o → object_file root h = Some p → fs_lookup w p = Some n →
  ∃ s, to_vec o = Ok s ∧ n = File (deflate s).
Proof. intros (q & s & Hq & Hs & Hw) Hp Hn. simplify_eq. eauto. Qed.

Lemma stored_inj w h o o' : stored root w h o → stored root w h o' → o = o'.
Proof.
  intros (p & s & Hp & Hs & Hw) (p' & s' & Hp' & Hs' & Hw'). simplify_eq.
  assert (Ok s = Ok s' :> result string bytes) as Hss.
  { rewrite <- (inflate_deflate s), <- (inflate_deflate s'). congruence. }
  simplify_eq. apply from_to_vec in Hs, Hs'. congruence.
Qed.

(** *** Reading *)

Lemma read_object_frame h w o w' : read_object root h w = (o, w') → files w' = files w.
Proof.
  unfold read_object, object_path, bind. destruct (split_at_2 h) as [[pre rest]|]; simpl.
  - destruct (path_exists _ w); [|by intros; simplify_eq]. unfold map_err at 1.
    destruct (fs_read _ w) as [[[d|e]|s] w1] eqn:Hr; apply fs_read_frame in Hr;
      [|by intros; simplify_eq..].
    unfold lift_result, ret, raise. repeat case_match; intros; by simplify_eq.
  - unfold panic. by intros; simplify_eq.
Qed.

Lemma read_object_ok_inv h w o w' :
  read_object root h w = (Done (Ok o), w') →
  object_hash o = h ∧ ∃ p d s, object_file root h = Some p ∧ fs_lookup w p = Some (File d) ∧
    inflate d = Ok s ∧ from_slice s = Ok o.
Proof.
  unfold read_object, object_path, object_file. intros Hr.
  destruct (split_at_2 h) as [[pre rest]|]; simpl in Hr; [|by mstep].
  unfold bind in Hr at 1. simpl in Hr. destruct (path_exists _ w); [|done].
  apply bind_ok_inv in Hr as (d & w1 & Hd%map_err_ok_inv%fs_read_ok_inv & Hr).
  apply bind_ok_inv in Hr as (s & w2 & Hs & Hr). unfold lift_result in Hs.
  apply bind_ok_inv in Hr as (o' & w3 & Ho & Hr). unfold lift_result in Ho.
  destruct (inflate d) as [s'|] eqn:Hi; simplify_eq/=.
  destruct (from_slice s) as [o''|] eqn:Hf; simplify_eq/=.
  case_decide; unfold ret, raise in Hr; simplify_eq. eauto 10.
Qed.

Lemma read_object_stored h o w :
  faults w = [] → stored root w h o → object_hash o = h →
  read_object root h w = (Done (Ok o), w).
Proof.
  intros Hf (p & s & Hp & Hs & Hw) Hh. unfold read_object, object_path, object_file in *.
  destruct (split_at_2 h) as [[pre rest]|]; [|done]. injection Hp as Hp.
  unfold bind at 1. simpl. unfold path_exists. rewrite Hp, Hw, bool_decide_eq_true_2 by eauto.
  unfold bind, map_err. rewrite (fs_read_ok _ _ (deflate s)) by (try done; by rewrite Hp).
  unfold lift_result. rewrite inflate_deflate. simpl. rewrite (from_to_vec _ _ Hs). simpl.
  by rewrite decide_True by done.
Qed.

(** What a well-formed store returns is authentic. *)
Lemma read_object_authentic h w o w' :
  is_hash h → store_wf root w → read_object root h w = (Done (Ok o), w') →
  authentic o ∧ object_hash o = h ∧ stored root w h o.
Proof.
  intros Hh Hwf (Ho & p & d & s & Hp & Hd & Hi & Hs)%read_object_ok_inv.
  destruct (wf_objects root (stored root) w Hwf h p (File d) Hh Hp Hd) as (o' & Hst & Ha & Ho').
  destruct (stored_lookup _ _ _ _ _ Hst Hp Hd) as (s' & Hs' & [= ->]).
  rewrite inflate_deflate in Hi. simplify_eq. apply from_to_vec in Hs' as Hs''.
  assert (o = o') as -> by congruence. done.
Qed.
(** *** Writing *)

(** The file and the directory of a hash. *)
Definition dir_of (pre : string) : list string := resolve root ++ [pre].
Definition file_of (pre rest : string) : list string := resolve root ++ [pre; rest].

Lemma file_of_not_prefix pre rest pre' : ¬ file_of pre rest `prefix_of` dir_of pre'.
Proof.
  intros Hp%prefix_length. unfold file_of, dir_of in Hp. rewrite !length_app in Hp. simpl in Hp. lia.
Qed.

Lemma file_of_not_root pre rest : file_of pre rest ≠ [] ∧ file_of pre rest ≠ ["/"].
Proof.
  unfold file_of. split.
  - by destruct (resolve root).
  - destruct (resolve root) as [|? [|? ?]]; done.
Qed.

Lemma object_path_file pre rest :
  plain pre → plain rest →
  resolve (join (join root pre) rest) = file_of pre rest ∧
  parent (join (join root pre) rest) = Some (join root pre) ∧
  resolve (join root pre) = dir_of pre ∧
  removelast (file_of pre rest) = dir_of pre.
Proof.
  intros Hp Hr. assert (plain (last_comp (join root pre))) as Hl by by rewrite last_comp_join.
  rewrite !resolve_join, parent_join, <- app_assoc by done. split_and!; [done..|].
  unfold file_of, dir_of. change [pre; rest] with ([pre] ++ [rest]).
  by rewrite app_assoc, removelast_last.
Qed.

(** What a write changes, whatever its outcome. *)
Definition write_frame (o : Object) (pre rest : string) (w w' : World) : Prop :=
  ∃ w1, (∀ q, ¬ q `prefix_of` dir_of pre → fs_lookup w1 q = fs_lookup w q) ∧
    dirs_added w w1 ∧ only (file_of pre rest) w1 w' ∧
    (fs_lookup w' (file_of pre rest) = None ∨
     ∃ s n, to_vec o = Ok s ∧ fs_lookup w' (file_of pre rest) = Some (File (take n (deflate s)))).

Lemma write_frame_dirs o pre rest w w' :
  (∀ q, ¬ q `prefix_of` dir_of pre → fs_lookup w' q = fs_lookup w q) → dirs_added w w' →
  fs_lookup w (file_of pre rest) = None → write_frame o pre rest w w'.
Proof.
  intros Hq Ha Hn. exists w'. split_and!; [done|done|reflexivity|]. left.
  rewrite Hq; [done|]. apply file_of_not_prefix.
Qed.

Lemma write_object_frame o h pre rest w out w' :
  split_at_2 h = Some (pre, rest) → plain pre → plain rest →
  write_object root o h w = (out, w') →
  (is_Some (fs_lookup w (file_of pre rest)) ∧ w' = w ∧ out = Done (Ok tt)) ∨
  (fs_lookup w (file_of pre rest) = None ∧ write_frame o pre rest w w').
Proof.
  intros Hs Hp Hr. destruct (object_path_file pre rest Hp Hr) as (Hf & Hpar & Hd & _).
  unfold write_object, object_path. rewrite Hs. unfold bind at 1. simpl. unfold path_exists.
  rewrite Hf, Hpar. case_bool_decide as Hex; [intros; simplify_eq; by left|].
  apply eq_None_not_Some in Hex. intros Hw. right. split; [done|]. revert Hw.
  unfold bind, map_err, lift_result.
  destruct (create_dir_all (join root pre) w) as [out1 w1] eqn:Hc.
  assert (∀ q, ¬ q `prefix_of` dir_of pre → fs_lookup w1 q = fs_lookup w q) as Hfr.
  { intros q Hq. eapply create_dir_all_frame; [done|by rewrite Hd]. }
  pose proof (create_dir_all_added _ _ _ _ Hc) as Hadd.
  assert (fs_lookup w1 (file_of pre rest) = None) as Hn1
    by (rewrite Hfr; [done|apply file_of_not_prefix]).
  destruct out1 as [[[]|e]|why]; [|intros; simplify_eq; by apply write_frame_dirs..].
  destruct (to_vec o) as [s|e] eqn:Hv; simpl; [|intros; simplify_eq; by apply write_frame_dirs].
  destruct (file_create _ w1) as [out2 w2] eqn:Hfc.
  pose proof (file_create_only _ _ _ _ Hfc) as Ho2.
  apply file_create_leaves in Hfc as [[Hn2 Hno]|Hf2]; [| |by rewrite Hf]; rewrite Hf in *.
  - destruct out2 as [[[]|e]|why]; [by destruct (Hno tt)|..]; intros; simplify_eq; exists w1;
      split_and!; auto.
  - destruct (file_of_not_root pre rest).
    destruct out2 as [[[]|e]|why]; [|intros; simplify_eq; exists w1; split_and!; [done..|];
      right; exists s, 0; split; [done|]; by apply fs_lookup_files ..].
    destruct (write_all _ _ w2) as [out3 w3] eqn:Hwa.
    pose proof (write_all_only _ _ _ _ _ Hwa) as Ho3. rewrite Hf in Ho3.
    apply write_all_leaves in Hwa as [n Hn]; [|by rewrite Hf]. rewrite Hf in Hn.
    destruct out3 as [[[]|e]|why]; intros; simplify_eq; exists w1; split_and!;
      try done; try (by etrans); right; exists s, n; split; auto using fs_lookup_files.
Qed.

(** A new object's directory and empty file are made when the first two operations
    meet no fault; what remains of the write is the file's data. *)
Lemma write_object_upto o h s w fs1 fs2 :
  clear w fs1 → (∀ w1, faults w1 = fs1 → clear w1 fs2) → is_hash h → store_wf root w →
  (∀ p, object_file root h = Some p → fs_lookup w p = None) → to_vec o = Ok s →
  ∃ path w1, object_file root h = Some (resolve path) ∧ faults w1 = fs2 ∧
    files w1 !! resolve path = Some (File []) ∧ resolve path ≠ [] ∧ resolve path ≠ ["/"] ∧
    write_object root o h w =
      map_err (λ e, StorageIo (fmt ["write "; path; ": "; e])) (write_all path (deflate s)) w1.
Proof.
  intros Hf Hf2 Hh Hwf Hn Hv. destruct (is_hash_split h Hh) as (pre & rest & Hs & Hp & Hr & _).
  pose proof (object_file_hash h pre rest Hs Hp Hr) as Hof. specialize (Hn _ Hof).
  destruct (object_path_file pre rest Hp Hr) as (Hfile & Hpar & Hd & Hrl).
  fold (file_of pre rest) in *.
  destruct (create_dir_all_ok (join root pre) w fs1 Hf) as (w1 & Hc & Hf1 & Ha & Hd1).
  { rewrite Hd. intros q d [-> |Hq]%prefix_snoc_inv.
    - by eapply wf_prefix.
    - by eapply wf_root. }
  assert (fs_lookup w1 (file_of pre rest) = None) as Hn1.
  { erewrite create_dir_all_frame; [done|done|]. rewrite Hd. apply file_of_not_prefix. }
  rewrite Hd in Hd1. destruct (file_of_not_root pre rest).
  pose proof (file_create_ok (join (join root pre) rest) w1 fs2 (Hf2 w1 Hf1)) as Hfc.
  rewrite Hfile, Hrl, Hn1 in Hfc. specialize (Hfc Hd1 ltac:(done)).
  exists (join (join root pre) rest), (set_files <[file_of pre rest:=File []]> (mkWorld (files w1) fs2)).
  rewrite Hfile. split_and!; [done..| |done|done|].
  - simpl. apply lookup_insert_eq.
  - unfold write_object, object_path. rewrite Hs. unfold bind at 1. simpl. unfold path_exists.
    rewrite Hfile, Hpar, Hn. simpl. unfold bind, map_err, lift_result. rewrite Hc, Hv. simpl.
    by rewrite Hfc.
Qed.

(** A healthy write stores the object. *)
Lemma write_object_healthy o h w :
  faults w = [] → is_hash h → store_wf root w →
  (∀ p, object_file root h = Some p → fs_lookup w p = None) →
  ∃ w', write_object root o h w = (Done (Ok tt), w') ∧ faults w' = [] ∧ stored root w' h o.
Proof.
  intros Hf Hh Hwf Hn. destruct (to_vec_total o) as [s Hv].
  destruct (write_object_upto o h s w [] []) as (path & w1 & Hof & Hf1 & Hfile & ? & ? & ->);
    [by left|by left|done..|].
  unfold map_err. rewrite (write_all_ok _ _ []) by done. eexists. split_and!; [done|exact Hf1|].
  exists (resolve path), s. split_and!; [done..|]. apply fs_lookup_files; [|done..].
  simpl. apply lookup_insert_eq.
Qed.

(** Writing an authentic object keeps the store's invariant, for a relation [R]
    that only looks at the object's own file. *)
Lemma write_frame_inv R o h pre rest w w' :
  (∀ w w' h o, (∀ p, object_file root h = Some p → fs_lookup w' p = fs_lookup w p) →
     R w h o → R w' h o) →
  is_hash h → split_at_2 h = Some (pre, rest) → plain pre → plain rest →
  store_inv root R w → write_frame o pre rest w w' → authentic o → object_hash o = h →
  (is_Some (fs_lookup w' (file_of pre rest)) → R w' h o) → store_inv root R w'.
Proof.
  intros HR Hh Hs Hp Hr [Hroot Hpre Hobj] (w1 & Hfr & Ha & Honly & Hfile) Hauth Ho HRo.
  assert (∀ q d, q ≠ file_of pre rest → fs_lookup w q ≠ Some (File d) →
    fs_lookup w' q ≠ Some (File d)) as Hnf.
  { intros q d Hq Hd. rewrite Honly by done. destruct (Ha q) as [-> |[_ ->]]; done. }
  split.
  - intros q Hq d. apply Hnf; [|by apply Hroot]. intros ->.
    apply prefix_length in Hq. unfold file_of in Hq. rewrite length_app in Hq. simpl in Hq. lia.
  - intros h' pre' rest' d Hh' Hs'. apply Hnf; [|by eapply Hpre]. intros Heq.
    apply (f_equal length) in Heq. unfold file_of in Heq. rewrite !length_app in Heq.
    simpl in Heq. lia.
  - intros h' p' n Hh' Hp' Hn. pose proof (object_file_hash h pre rest Hs Hp Hr) as Hof.
    fold (file_of pre rest) in Hof.
    destruct (decide (p' = file_of pre rest)) as [->|Hne].
    + assert (h' = h) as -> by by eapply object_file_inj. exists o. split_and!; [|done..].
      apply HRo. eauto.
    + assert (fs_lookup w' p' = fs_lookup w p') as Heq.
      { rewrite Honly by done. apply Hfr. intros Hpf.
        destruct (is_hash_split h' Hh') as (pre' & rest' & Hs' & Hpp' & Hr' & _).
        rewrite (object_file_hash h' pre' rest') in Hp' by done. simplify_eq.
        by apply (file_of_not_prefix pre' rest' pre). }
      rewrite Heq in Hn. destruct (Hobj h' p' n Hh' Hp' Hn) as (o' & HR' & ? & ?).
      exists o'. split_and!; [|done..]. eapply HR; [|done]. intros p Hpp. by simplify_eq.
Qed.

Lemma write_object_exists o h p w :
  object_file root h = Some p → is_Some (fs_lookup w p) →
  write_object root o h w = (Done (Ok tt), w).
Proof.
  unfold object_file, write_object, object_path. destruct (split_at_2 h) as [[pre rest]|]; [|done].
  intros [= Hp] Hs. unfold bind at 1. simpl. unfold path_exists. rewrite Hp.
  by rewrite bool_decide_eq_true_2.
Qed.

(** An empty object file is unreadable. *)
Lemma read_empty_file h p w :
  faults w = [] → object_file root h = Some p → fs_lookup w p = Some (File []) →
  ∃ e, get_blob root h w = (Done (Err e), w).
Proof.
  intros Hf Hp Hl. assert (∃ e, read_object root h w = (Done (Err e), w)) as [e He].
  - unfold read_object, object_path, object_file in *.
    destruct (split_at_2 h) as [[pre rest]|]; [|done]. injection Hp as Hp.
    unfold bind at 1. simpl. unfold path_exists. rewrite Hp, Hl, bool_decide_eq_true_2 by eauto.
    unfold bind, map_err, lift_result. rewrite (fs_read_ok _ _ []) by (try done; by rewrite Hp).
    destruct inflate_nil as [-> |[e ->]]; simpl; [|by eexists].
    destruct (from_slice_nil (OBlob (mkBlob "" [])) (OTree (mkTree "" []))) as [e ->]; [done|].
    by eexists.
  - exists e. unfold get_blob. by rewrite (bind_err _ _ _ _ _ He).
Qed.

Lemma write_object_no_panic o h : is_hash h → no_panic (write_object root o h).
Proof.
  intros (pre & rest & Hs & _)%is_hash_split. unfold write_object, object_path. rewrite Hs.
  apply bind_no_panic; [apply ret_no_panic|]. intros path w why.
  destruct (path_exists path w); [done|]. revert w why. change (no_panic
    (let! _ := match parent path with
               | Some p => map_err (λ e, StorageIo (fmt ["mkdir "; p; ": "; e])) (create_dir_all p)
               | None => ret tt
               end in
     let! serialized := lift_result (result_map_err Serialization (to_vec o)) in
     let! _ := map_err (λ e, StorageIo (fmt ["create "; path; ": "; e])) (file_create path) in
     map_err (λ e, StorageIo (fmt ["write "; path; ": "; e])) (write_all path (deflate serialized)))).
  apply bind_no_panic; [destruct (parent path); eauto with eo|]. intros _.
  apply bind_no_panic; [eauto with eo|]. intros s.
  apply bind_no_panic; [eauto with eo|]. intros _. eauto with eo.
Qed.

Lemma stored_local w w' h o :
  (∀ p, object_file root h = Some p → fs_lookup w' p = fs_lookup w p) →
  stored root w h o → stored root w' h o.
Proof. intros Heq (p & s & ? & ? & ?). exists p, s. split_and!; [done..|]. by rewrite Heq. Qed.

Lemma torn_local w w' h o :
  (∀ p, object_file root h = Some p → fs_lookup w' p = fs_lookup w p) →
  torn root w h o → torn root w' h o.
Proof. intros Heq (p & s & n & ? & ? & ?). exists p, s, n. split_and!; [done..|]. by rewrite Heq. Qed.
(** *** Operations *)

(** The empty file system holds an empty store. *)
Lemma empty_store_inv R fs : store_inv root R (mkWorld ∅ fs).
Proof.
  assert (∀ q n, fs_lookup (mkWorld ∅ fs) q = Some n → n = Dir ∧ (q = [] ∨ q = ["/"])) as Hl.
  { intros q n. unfold fs_lookup. case_decide as Hq; simpl; [by intros [= <-]|].
    by rewrite lookup_empty. }
  split.
  - by intros q _ d [? _]%Hl.
  - by intros h pre rest d _ _ [? _]%Hl.
  - intros h p n Hh Hp [_ Hq]%Hl. destruct (is_hash_split h Hh) as (pre & rest & Hs & Hpp & Hr & _).
    rewrite (object_file_hash h pre rest) in Hp by done. simplify_eq.
    destruct (file_of_not_root pre rest). by destruct Hq.
Qed.

(** The state after an operation, whatever its outcome. *)
Inductive store_op :=
| PutBlob (data : bytes)
| PutTree (entries : list TreeEntry)
| PutCommit (now : DateTime) (tree_hash : Hash) (parents : list Hash) (author message : string)
| PutTag (commit_hash : Hash) (name : string) (message : option string)
| Get (hash : Hash)
| Gc (keep_roots : list Hash).

Definition run_op (w : World) (op : store_op) : World :=
  match op with
  | PutBlob d => (put_blob root d w).2
  | PutTree es => (put_tree root es w).2
  | PutCommit now th ps a m => (commit root now th ps a m w).2
  | PutTag ch n m => (put_tag root ch n m w).2
  | Get h => (read_object root h w).2
  | Gc keep => (gc keep w).2
  end.

Definition run_ops (ops : list store_op) (w : World) : World := foldl run_op w ops.

(** Every operation is a read or a write of an authentic object. *)
Lemma run_op_cases w op :
  files (run_op w op) = files w ∨
  ∃ o, authentic o ∧ is_hash (object_hash o) ∧
       run_op w op = (write_object root o (object_hash o) w).2.
Proof.
  assert (∀ o h, (bind (write_object root o h) (λ _, ret h) w).2 = (write_object root o h w).2) as Hb.
  { intros o h. unfold bind, ret. by destruct (write_object _ _ _ _) as [[[]|] ?]. }
  destruct op as [d|es|now th ps a m|ch n m|h|keep]; simpl; [right..|left|by left].
  - exists (OBlob (mkBlob (hash_blob d) d)). unfold put_blob. rewrite Hb. split_and!; [|apply
      hex_encode_is_hash|done]. by eexists.
  - exists (OTree (mkTree (hash_tree es) es)). unfold put_tree. rewrite Hb. split_and!; [|apply
      hex_encode_is_hash|done]. by eexists.
  - exists (OCommit (mkCommit (hash_commit th ps a now m) th ps a now m)). unfold commit. rewrite Hb.
    split_and!; [by eexists|apply hex_encode_is_hash|done].
  - destruct (to_vec_total (mkTag "" ch n m)) as [s Hs]. exists (OTag (mkTag (hash_blob s) ch n m)).
    unfold put_tag, lift_result. rewrite Hs. unfold bind at 1. simpl. rewrite Hb.
    split_and!; [|apply hex_encode_is_hash|done]. eexists. simpl. by rewrite Hs.
  - destruct (read_object root h w) eqn:Hr. by apply read_object_frame in Hr.
Qed.

Lemma fs_lookup_same_files w w' q : files w' = files w → fs_lookup w' q = fs_lookup w q.
Proof. intros Heq. unfold fs_lookup. by rewrite Heq. Qed.

Lemma store_ok_same_files w w' : files w' = files w → store_ok root w → store_ok root w'.
Proof.
  intros Hf [Hr Hp Ho]. pose proof (λ q, fs_lookup_same_files w w' q Hf) as Hl. split.
  - intros q ? d. rewrite Hl. by apply Hr.
  - intros * ??. rewrite Hl. by eapply Hp.
  - intros h p n Hh Hpp. rewrite Hl. intros Hn. destruct (Ho h p n) as (o & ? & ?); [done..|].
    exists o. split; [|done]. eapply torn_local; [intros ? _; apply Hl|done].
Qed.

Lemma run_op_ok w op : store_ok root w → store_ok root (run_op w op).
Proof.
  intros Hok. destruct (run_op_cases w op) as [Hf|(o & Ha & Hh & ->)].
  - by eapply store_ok_same_files.
  - destruct (is_hash_split _ Hh) as (pre & rest & Hs & Hp & Hr & _).
    destruct (write_object root o (object_hash o) w) as [out w'] eqn:Hw.
    apply (write_object_frame _ _ pre rest) in Hw as [(_ & -> & _)|[_ Hfr]]; [done| |done..].
    eapply (write_frame_inv (torn root)); eauto using torn_local. pose proof Hfr as (w1 & _ & _ & _ & Hfile).
    intros [n Hn]. destruct Hfile as [?|(s & k & Hs' & Hk)]; [simplify_eq/=; congruence|].
    exists (file_of pre rest), s, k. split_and!; [by apply object_file_hash|done..].
Qed.

Lemma run_ops_ok w ops : store_ok root w → store_ok root (run_ops ops w).
Proof. revert w. induction ops as [|op ops IH]; intros w Hw; [done|]. by apply IH, run_op_ok. Qed.

Lemma run_op_keeps w op p d :
  fs_lookup w p = Some (File d) → fs_lookup (run_op w op) p = Some (File d).
Proof.
  intros Hd. destruct (run_op_cases w op) as [Hf|(o & Ha & Hh & ->)].
  - by rewrite (fs_lookup_same_files w).
  - destruct (is_hash_split _ Hh) as (pre & rest & Hs & Hp & Hr & _).
    destruct (write_object root o (object_hash o) w) as [out w'] eqn:Hw.
    apply (write_object_frame _ _ pre rest) in Hw
      as [(_ & -> & _)|[Hn (w1 & _ & Hadd & Honly & _)]]; [done| |done..].
    simpl. rewrite Honly by congruence. destruct (Hadd p) as [->|[? _]]; congruence.
Qed.

(** A successful read of a file that may be torn returned the whole object. *)
Lemma read_object_ok_authentic h w o w' :
  is_hash h → store_ok root w → read_object root h w = (Done (Ok o), w') →
  authentic o ∧ object_hash o = h.
Proof.
  intros Hh Hwf (Ho & p & d & s & Hp & Hd & Hi & Hs)%read_object_ok_inv.
  destruct (wf_objects root _ w Hwf h p (File d) Hh Hp Hd) as (o' & Hst & Ha & Ho').
  destruct Hst as (p' & s' & n & Hp' & Hs' & Hd'). simplify_eq.
  destruct (inflate_cut s' n) as [[e He]|[k Hk]]; [congruence|].
  assert (s = take k s') as -> by congruence.
  destruct (decide (k < length s')) as [Hlt|Hge].
  - destruct (from_slice_cut _ _ _ Hs' Hlt). congruence.
  - rewrite take_ge, (from_to_vec _ _ Hs') in Hs by lia. by simplify_eq.
Qed.

(** A healthy put either stores the object or finds one of the same hash. *)
Lemma write_object_put o h w :
  faults w = [] → is_hash h → store_wf root w → authentic o → object_hash o = h →
  ∃ w', write_object root o h w = (Done (Ok tt), w') ∧ faults w' = [] ∧ store_wf root w' ∧
    ∃ o', stored root w' h o' ∧ authentic o' ∧ object_hash o' = h ∧ (o' = o ∨ stored root w h o').
Proof.
  intros Hf Hh Hwf Ha Ho. destruct (is_hash_split h Hh) as (pre & rest & Hs & Hp & Hr & _).
  pose proof (object_file_hash h pre rest Hs Hp Hr) as Hof.
  destruct (fs_lookup w (file_of pre rest)) as [n|] eqn:Hn.
  - destruct (write_object root o h w) as [out w'] eqn:Hw.
    apply (write_object_frame _ _ pre rest) in Hw as [(_ & -> & ->)|[? _]]; [|congruence|done..].
    destruct (wf_objects root _ w Hwf h _ n Hh Hof Hn) as (o' & ? & ? & ?).
    exists w. split_and!; [done..|]. eauto 10.
  - destruct (write_object_healthy o h w Hf Hh Hwf) as (w' & Hw & Hf' & Hst).
    { intros p Hpp. rewrite Hof in Hpp. by simplify_eq. }
    exists w'. split_and!; [done..| |by eauto 10].
    apply (write_object_frame _ _ pre rest) in Hw as [([? ?] & _)|[_ Hfr]]; [congruence| |done..].
    eapply (write_frame_inv (stored root)); eauto using stored_local.
Qed.
End lemmas.

(** ** Properties *)

Section properties.
Context `{SerdeJson Object, SerdeJson Tag, DigestLaws, ZlibLaws, TimeText, DebugText Object}.
Context `{!SerdeJsonLaws Object, !SerdeJsonLaws Tag}.
Context (root : string).

(** The objects already stored under a hash do not collide with the bytes hashed
    for a new one, and none of them is a tag (tags are hashed as blobs). *)
Definition collision_free (w : World) (h : Hash) (pre : bytes) : Prop :=
  ∀ o p, stored root w h o → object_preimage o = Some p → no_collision p pre ∧ ∀ t, o ≠ OTag t.

Lemma object_preimage_kind o p :
  object_preimage o = Some p → (∀ t, o ≠ OTag t) →
  match o with
  | OBlob b => p = preimage "blob" (blob_data b)
  | OTree t => p = tree_preimage (tree_entries t)
  | OCommit c => ∃ x, p = preimage "commit" x
  | OTag _ => False
  end.
Proof.
  intros Hp Ht. destruct o as [b|t|c|t]; [| | |by destruct (Ht t)]; unfold object_preimage in Hp;
    [congruence..|]. eexists. symmetry. by apply Some_inj.
Qed.

Lemma object_preimage_blob o d :
  object_preimage o = Some (preimage "blob" d) → (∀ t, o ≠ OTag t) →
  ∃ b, o = OBlob b ∧ blob_data b = d.
Proof.
  intros Hp Ht. pose proof (object_preimage_kind o _ Hp Ht) as Hk.
  destruct o as [b|t|c|t]; [exists b|..|done].
  - by apply preimage_inj in Hk as [_ ->].
  - by apply preimage_inj in Hk as [? _].
  - destruct Hk as [x Hk]. by apply preimage_inj in Hk as [? _].
Qed.

Lemma object_preimage_tree o es :
  object_preimage o = Some (tree_preimage es) → (∀ t, o ≠ OTag t) →
  ∃ t, o = OTree t ∧ tree_content (tree_entries t) = tree_content es.
Proof.
  intros Hp Ht. pose proof (object_preimage_kind o _ Hp Ht) as Hk.
  destruct o as [b|t|c|t]; [|exists t|..|done].
  - by apply preimage_inj in Hk as [? _].
  - apply preimage_inj in Hk as [_ Hk]; try done. split; [done|]. by apply as_bytes_inj in Hk.
  - destruct Hk as [x Hk]. by apply preimage_inj in Hk as [? _].
Qed.

(** C6: integrity across faults. Start from a sound store (for instance the
    empty one) and run any operations while the file system fails any of them at
    any point, torn writes included: whatever a later read returns as a blob, tree
    or commit has the requested hash. *)
Theorem store_integrity ops w h w' o :
  store_ok root w → is_hash h →
  read_object root h (run_ops root ops w) = (Done (Ok o), w') →
  match o with
  | OBlob b => hash_blob (blob_data b) = h
  | OTree t => hash_tree (tree_entries t) = h
  | OCommit c => hash_commit (commit_tree_hash c) (commit_parent_hashes c) (commit_author c)
                   (commit_timestamp c) (commit_message c) = h
  | OTag t => ∃ s, to_vec (mkTag "" (tag_commit_hash t) (tag_name t) (tag_message t)) = Ok s ∧
                   hash_blob s = h
  end.
Proof.
  intros Hok Hh Hr.
  apply read_object_ok_authentic in Hr as [(p & Hp & Ho) Hoh]; [|done|by apply run_ops_ok].
  destruct o as [b|t|c|t]; simpl in *; [by simplify_eq/=..|].
  destruct (to_vec _) as [s|] eqn:Hs; simplify_eq/=. exists s. by split.
Qed.

(** Stored files are immutable: no sequence of operations, with any faults,
    changes or removes a file that already exists, so a stored object stays
    stored. *)
Theorem store_immutable ops w p d :
  fs_lookup w p = Some (File d) → fs_lookup (run_ops root ops w) p = Some (File d).
Proof.
  revert w. induction ops as [|op ops IH]; intros w Hd; [done|].
  apply IH. by apply run_op_keeps.
Qed.

(** Blob round trip. On a healthy store without faults [put_blob] succeeds,
    returns the blob's hash and keeps the store healthy, and reading that hash
    returns the data. *)
Theorem put_blob_get_blob d w :
  faults w = [] → store_wf root w → collision_free w (hash_blob d) (preimage "blob" d) →
  ∃ w', put_blob root d w = (Done (Ok (hash_blob d)), w') ∧ faults w' = [] ∧ store_wf root w' ∧
        get_blob root (hash_blob d) w' = (Done (Ok d), w').
Proof.
  intros Hf Hwf Hcol. destruct (write_object_put root (OBlob (mkBlob (hash_blob d) d)) (hash_blob d) w)
    as (w' & Hw & Hf' & Hwf' & o' & Hst & (p & Hp & Ho) & Hoh & Hor);
    [done|apply hex_encode_is_hash|done|by eexists|done|].
  exists w'. split_and!; [|done..|].
  - unfold put_blob. by rewrite (bind_ok _ _ _ _ _ Hw).
  - unfold get_blob. rewrite (bind_ok _ _ _ _ _ (read_object_stored root _ _ _ Hf' Hst Hoh)).
    destruct Hor as [->|Hst0]; [done|]. destruct (Hcol _ _ Hst0 Hp) as [Hc Hnt].
    assert (p = preimage "blob" d) as -> by (apply Hc, hex_encode_inj; rewrite <- Ho; exact Hoh).
    destruct (object_preimage_blob _ _ Hp Hnt) as (b & -> & <-). done.
Qed.

(** Tree round trip. Under the same conditions [put_tree] succeeds, and
    reading its hash returns entries with the same tree content: when entries of
    that content were already stored, in another order, those are returned. *)
Theorem put_tree_get_tree es w :
  faults w = [] → store_wf root w → collision_free w (hash_tree es) (tree_preimage es) →
  ∃ w' es', put_tree root es w = (Done (Ok (hash_tree es)), w') ∧ store_wf root w' ∧
    get_tree root (hash_tree es) w' = (Done (Ok es'), w') ∧ tree_content es' = tree_content es.
Proof.
  intros Hf Hwf Hcol. destruct (write_object_put root (OTree (mkTree (hash_tree es) es)) (hash_tree es) w)
    as (w' & Hw & Hf' & Hwf' & o' & Hst & (p & Hp & Ho) & Hoh & Hor);
    [done|apply hex_encode_is_hash|done|by eexists|done|].
  assert (∃ es', o' = OTree (mkTree (hash_tree es) es') ∧ tree_content es' = tree_content es)
    as (es' & -> & Hes).
  { destruct Hor as [->|Hst0]; [by eexists|]. destruct (Hcol _ _ Hst0 Hp) as [Hc Hnt].
    assert (p = tree_preimage es) as -> by (apply Hc, hex_encode_inj; rewrite <- Ho; exact Hoh).
    destruct (object_preimage_tree _ _ Hp Hnt) as ([th es'] & -> & Hes). simpl in *.
    exists es'. by subst. }
  exists w', es'. split_and!; [|done| |done].
  - unfold put_tree. by rewrite (bind_ok _ _ _ _ _ Hw).
  - unfold get_tree. by rewrite (bind_ok _ _ _ _ _ (read_object_stored root _ _ _ Hf' Hst Hoh)).
Qed.

(** A read of a stored object of the wrong kind is a mismatch error. *)
Lemma get_blob_other h o w :
  faults w = [] → stored root w h o → object_hash o = h → (∀ b, o ≠ OBlob b) →
  get_blob root h w =
    (Done (Err (HashMismatch h ("expected Blob, got " +:+ debug_text o))), w).
Proof.
  intros Hf Hst Ho Hn. unfold get_blob.
  rewrite (bind_ok _ _ _ _ _ (read_object_stored root _ _ _ Hf Hst Ho)).
  by destruct o as [b|t|c|t]; [destruct (Hn b)|..].
Qed.

(** Tags are not separated from blobs.  Once a tag is stored, the bytes of
    its serialisation are an unstorable blob: [put_blob] returns their hash as
    stored, and reading that hash fails with a mismatch. *)
Theorem tag_shadows_blob ch n m s w w1 h :
  faults w = [] → store_wf root w → to_vec (mkTag "" ch n m) = Ok s →
  fs_lookup w (default [] (object_file root (hash_blob s))) = None →
  put_tag root ch n m w = (Done (Ok h), w1) →
  put_blob root s w1 = (Done (Ok h), w1) ∧ ∃ e, get_blob root h w1 = (Done (Err e), w1).
Proof.
  intros Hf Hwf Hs Hn Hput. pose proof (hex_encode_is_hash (preimage "blob" s)) as Hh.
  change (hex_encode (sha256 (preimage "blob" s))) with (hash_blob s) in Hh.
  destruct (write_object_healthy root (OTag (mkTag (hash_blob s) ch n m)) (hash_blob s) w)
    as (w' & Hw & Hf' & Hst); [done..| |].
  { intros p Hp. by rewrite Hp in Hn. }
  unfold put_tag, lift_result in Hput. rewrite Hs in Hput. unfold bind at 1 in Hput. simpl in Hput.
  rewrite (bind_ok _ _ _ _ _ Hw) in Hput. unfold ret in Hput. simplify_eq.
  split; [|eexists; by apply (get_blob_other _ (OTag (mkTag (hash_blob s) ch n m)))].
  destruct (is_hash_split _ Hh) as (pre & rest & Hsp & Hp & Hr & _).
  destruct Hst as (p & t & Hpf & Ht & Hl). rewrite (object_file_hash root _ pre rest) in Hpf by done.
  injection Hpf as <-. unfold put_blob. apply bind_ok with (w' := w1) (a := tt) (m := write_object _ _ _).
  destruct (write_object root _ (hash_blob s) w1) as [out w2] eqn:Hw2.
  apply (write_object_frame root _ _ pre rest) in Hw2 as [(_ & -> & ->)|[Hno _]]; try done.
  unfold file_of in Hno. congruence.
Qed.

(** A failed write poisons its hash.  When the write of a new blob's file
    fails after the file was created, [put_blob] reports the error, but trying
    again reports success without writing anything, and the blob cannot be read:
    the half-written file is never repaired. *)
Theorem failed_write_poisons d msg w :
  faults w = [NoFault; NoFault; FailIo msg] → store_wf root w →
  fs_lookup w (default [] (object_file root (hash_blob d))) = None →
  ∃ e w1, put_blob root d w = (Done (Err e), w1) ∧ faults w1 = [] ∧
    put_blob root d w1 = (Done (Ok (hash_blob d)), w1) ∧
    ∃ e', get_blob root (hash_blob d) w1 = (Done (Err e'), w1).
Proof.
  intros Hf Hwf Hn. pose proof (hex_encode_is_hash (preimage "blob" d)) as Hh.
  change (hex_encode (sha256 (preimage "blob" d))) with (hash_blob d) in Hh.
  set (o := OBlob (mkBlob (hash_blob d) d)). destruct (to_vec_total o) as [s Hv].
  destruct (write_object_upto root o (hash_blob d) s w [NoFault; FailIo msg] [FailIo msg])
    as (path & w1 & Hof & Hf1 & Hfile & ? & ? & Hw); [by right|by right|done|done| |done|].
  { intros p Hp. by rewrite Hp in Hn. }
  assert (write_all path (deflate s) w1 = (Done (Err msg), mkWorld (files w1) [])) as Hwa.
  { unfold write_all, with_fault. by rewrite Hf1. }
  set (w2 := mkWorld (files w1) []) in *.
  assert (fs_lookup w2 (resolve path) = Some (File [])) as Hl by by apply fs_lookup_files.
  eexists _, w2. split_and!; [|done|..].
  - unfold put_blob. fold o. unfold bind. rewrite Hw. unfold map_err. by rewrite Hwa.
  - unfold put_blob. fold o. apply bind_ok with (w' := w2) (a := tt) (m := write_object _ _ _).
    by apply write_object_exists with (p := resolve path); [done|rewrite Hl; eauto].
  - by eapply read_empty_file.
Qed.
(** [get_blob] panics exactly on a hash that [split_at(2)] cannot cut (shorter
    than two bytes, or with a character across the cut), which a peer may request;
    every other failure is an error value. *)
Theorem get_blob_panics_iff h w :
  (∃ why, (get_blob root h w).1 = Panic why) ↔ split_at_2 h = None.
Proof.
  unfold get_blob, read_object, object_path. destruct (split_at_2 h) as [[pre rest]|]; simpl.
  - split; [|done]. intros [why Hw]. revert Hw. unfold bind at 2. simpl. unfold bind at 1.
    destruct (path_exists _ w); simpl; [|done]. unfold bind, map_err, lift_result, ret, raise.
    pose proof (fs_read_no_panic (join (join root pre) rest) w) as Hnp.
    destruct (fs_read _ w) as [[[d|e]|s] w1]; simpl in *; [|done|by destruct (Hnp s)].
    repeat case_match; by intros; simplify_eq/=.
  - split; [done|]. intros _. by eexists.
Qed.

(** A hash can name any file.  Nothing checks the text of a hash, which may come from a
    peer: when it goes on with an absolute path after its first two bytes, that path is
    read wherever the store is, and a blob encoded there under this text is returned. *)
Theorem hash_names_any_file a b path d s w :
  let h := String a (String b path) in
  is_absolute path = true → faults w = [] → to_vec (OBlob (mkBlob h d)) = Ok s →
  fs_lookup w (resolve path) = Some (File (deflate s)) → get_blob root h w = (Done (Ok d), w).
Proof.
  intros h Habs Hf Hs Hl. assert (object_file root h = Some (resolve path)) as Hof.
  { unfold object_file, h, split_at_2. destruct path as [|c path]; [done|]. simpl in Habs.
    assert (is_char_boundary_2 (String c path) = true) as ->.
    { case_bool_decide; by subst. }
    f_equal. f_equal. unfold join at 1. simpl. by rewrite Habs. }
  unfold get_blob. by rewrite (bind_ok _ _ _ _ _ (read_object_stored root h (OBlob (mkBlob h d)) w Hf
    (ex_intro _ _ (ex_intro _ s (conj Hof (conj Hs Hl)))) eq_refl)).
Qed.
End properties.

(** ** Concrete runs *)

Module Demo.
Definition object_json : SerdeJson Object := countable_json Object.
Definition tag_json : SerdeJson Tag := countable_json Tag.
Definition zone : TimeText := {| format_epoch_zone _ := "0 +0000" |}.
Definition debug : DebugText Object := {| debug_text _ := "Object" |}.
Definition data : bytes := as_bytes "hello".
Definition fresh (fs : list fault) : World := mkWorld ∅ fs.
End Demo.

Lemma empty_no_stored `{SerdeJson Object, Zlib} root fs h o : is_hash h → ¬ stored root (Demo.fresh fs) h o.
Proof.
  intros Hh (p & s & Hp & _ & Hl). destruct (is_hash_split h Hh) as (pre & rest & Hs & Hpp & Hr & _).
  rewrite (object_file_hash root h pre rest) in Hp by done. injection Hp as <-.
  destruct (file_of_not_root root pre rest) as [Ha Hb].
  unfold fs_lookup in Hl. case_decide as Hd; [by destruct Hd|]. done.
Qed.

(** The file systems below start empty. *)
Section fresh.
Context `{SerdeJson Object, SerdeJson Tag, DigestLaws, Zlib, TimeText}.

Lemma fresh_wf root fs : store_wf root (Demo.fresh fs).
Proof. apply empty_store_inv. Qed.

Lemma fresh_ok root fs : store_ok root (Demo.fresh fs).
Proof. apply empty_store_inv. Qed.

Lemma fresh_collision_free root fs p : collision_free root (Demo.fresh fs) (hex_encode (sha256 p)) p.
Proof. intros o q Hst. by apply empty_no_stored in Hst; [|apply hex_encode_is_hash]. Qed.

Lemma fresh_absent root fs p :
  fs_lookup (Demo.fresh fs) (default [] (object_file root (hex_encode (sha256 p)))) = None.
Proof.
  pose proof (hex_encode_is_hash p) as Hh.
  destruct (is_hash_split _ Hh) as (pre & rest & Hs & Hpp & Hr & _).
  rewrite (object_file_hash root _ pre rest) by done. simpl.
  destruct (file_of_not_root root pre rest) as [Ha Hb]. unfold fs_lookup. case_decide as Hd; [|done].
  by destruct Hd.
Qed.
End fresh.

Lemma store_integrity_witness :
  let _ := Demo.object_json in let _ := Demo.tag_json in let _ := Toy.digest in
  let _ := Toy.zlib in let _ := Demo.zone in
  let h := hash_blob Demo.data in
  ∃ w' b, read_object "/s" h (run_ops "/s" [PutBlob Demo.data] (Demo.fresh [])) =
            (Done (Ok (OBlob b)), w') ∧ hash_blob (blob_data b) = h.
Proof.
  intros J T D Z F h. set (b := mkBlob h Demo.data).
  pose proof (hex_encode_is_hash (H2 := Toy.digest_laws) (preimage "blob" Demo.data)) as Hh.
  destruct (write_object_healthy (SerdeJsonLaws0 := countable_json_laws _)
    "/s" (OBlob b) h (Demo.fresh [])) as (w1 & Hw & Hf & Hst).
  - reflexivity.
  - exact Hh.
  - apply fresh_wf.
  - intros p Hp. pose proof (fresh_absent (H2 := Toy.digest_laws) "/s" [] (preimage "blob" Demo.data)) as Ha.
    change (hex_encode (sha256 (preimage "blob" Demo.data))) with h in Ha. by rewrite Hp in Ha.
  - pose proof (read_object_stored (H4 := Toy.zlib_laws) (SerdeJsonLaws0 := countable_json_laws _)
      "/s" h (OBlob b) w1 Hf Hst eq_refl) as Hr.
    assert (run_ops "/s" [PutBlob Demo.data] (Demo.fresh []) = w1) as Hrun.
    { simpl. unfold put_blob. by rewrite (bind_ok _ _ _ _ _ Hw). }
    exists w1, b. rewrite Hrun. split; [exact Hr|].
    rewrite <- Hrun in Hr at 1.
    refine (store_integrity (H2 := Toy.digest_laws) (H4 := Toy.zlib_laws)
      (SerdeJsonLaws0 := countable_json_laws _) (SerdeJsonLaws1 := countable_json_laws _)
      "/s" [PutBlob Demo.data] (Demo.fresh []) h w1 (OBlob b) _ Hh Hr).
    apply fresh_ok.
Defined.

Lemma store_immutable_witness :
  let _ := Demo.object_json in let _ := Demo.tag_json in let _ := Toy.digest in
  let _ := Toy.zlib in let _ := Demo.zone in
  fs_lookup (run_ops "/s" [PutBlob Demo.data] (mkWorld {[["/"; "etc"] := File Demo.data]} [])) ["/"; "etc"]
  = Some (File Demo.data).
Proof.
  intros J T D Z F. apply (store_immutable (H2 := Toy.digest_laws)
    (SerdeJsonLaws1 := countable_json_laws _)).
  reflexivity.
Defined.

Lemma put_blob_get_blob_witness :
  let _ := Demo.object_json in let _ := Demo.tag_json in let _ := Toy.digest in
  let _ := Toy.zlib in let _ := Demo.zone in let _ := Demo.debug in
  ∃ w', put_blob "/s" Demo.data (Demo.fresh []) = (Done (Ok (hash_blob Demo.data)), w') ∧
        get_blob "/s" (hash_blob Demo.data) w' = (Done (Ok Demo.data), w').
Proof.
  intros J T D Z F G.
  destruct (put_blob_get_blob (H2 := Toy.digest_laws) (H4 := Toy.zlib_laws)
    (SerdeJsonLaws0 := countable_json_laws _)
    "/s" Demo.data (Demo.fresh [])) as (w' & Hp & _ & _ & Hg).
  - reflexivity.
  - apply fresh_wf.
  - apply (fresh_collision_free (H2 := Toy.digest_laws)).
  - exists w'. exact (conj Hp Hg).
Defined.

Lemma put_tree_get_tree_witness :
  let _ := Demo.object_json in let _ := Demo.tag_json in let _ := Toy.digest in
  let _ := Toy.zlib in let _ := Demo.zone in let _ := Demo.debug in
  let es := [Objects.Demo.file_b; Objects.Demo.file_a] in
  ∃ w' es', get_tree "/s" (hash_tree es) w' = (Done (Ok es'), w') ∧ tree_content es' = tree_content es.
Proof.
  intros J T D Z F G es.
  destruct (put_tree_get_tree (H2 := Toy.digest_laws) (H4 := Toy.zlib_laws)
    (SerdeJsonLaws0 := countable_json_laws _)
    "/s" es (Demo.fresh [])) as (w' & es' & _ & _ & Hg & Hc).
  - reflexivity.
  - apply fresh_wf.
  - apply (fresh_collision_free (H2 := Toy.digest_laws)).
  - exists w', es'. exact (conj Hg Hc).
Defined.

Lemma tag_shadows_blob_witness :
  let _ := Demo.object_json in let _ := Demo.tag_json in let _ := Toy.digest in
  let _ := Toy.zlib in let _ := Demo.zone in let _ := Demo.debug in
  ∃ s h w, put_blob "/s" s w = (Done (Ok h), w) ∧ ∃ e, get_blob "/s" h w = (Done (Err e), w).
Proof.
  intros J T D Z F G. set (s := positive_to_bytes (encode (mkTag "" "c" "n" None))).
  destruct (put_tag "/s" "c" "n" None (Demo.fresh [])) as [o w1] eqn:Hput.
  assert (o = Done (Ok (hash_blob s))) as Ho.
  { change (o = Done (Ok (hash_blob s))). apply (f_equal fst) in Hput. simpl in Hput. subst o.
    vm_compute. reflexivity. }
  subst o. exists s, (hash_blob s), w1.
  refine (tag_shadows_blob (H2 := Toy.digest_laws) (H4 := Toy.zlib_laws)
    (SerdeJsonLaws0 := countable_json_laws _)
    "/s" "c" "n" None s (Demo.fresh []) w1 (hash_blob s) _ _ _ _ Hput).
  - reflexivity.
  - apply fresh_wf.
  - reflexivity.
  - apply (fresh_absent (H2 := Toy.digest_laws)).
Defined.

Lemma failed_write_poisons_witness :
  let _ := Demo.object_json in let _ := Demo.tag_json in let _ := Toy.digest in
  let _ := Toy.zlib in let _ := Demo.zone in let _ := Demo.debug in
  ∃ e w1, put_blob "/s" Demo.data (Demo.fresh [NoFault; NoFault; FailIo "disk full"]) =
            (Done (Err e), w1) ∧
    put_blob "/s" Demo.data w1 = (Done (Ok (hash_blob Demo.data)), w1) ∧
    ∃ e', get_blob "/s" (hash_blob Demo.data) w1 = (Done (Err e'), w1).
Proof.
  intros J T D Z F G.
  destruct (failed_write_poisons (H2 := Toy.digest_laws) (H4 := Toy.zlib_laws)
    (SerdeJsonLaws0 := countable_json_laws _)
    "/s" Demo.data "disk full" (Demo.fresh [NoFault; NoFault; FailIo "disk full"]))
    as (e & w1 & Hp & _ & Hq & Hg).
  - reflexivity.
  - apply fresh_wf.
  - apply (fresh_absent (H2 := Toy.digest_laws)).
  - exists e, w1. exact (conj Hp (conj Hq Hg)).
Defined.
