(* ===== verification/Pack.v ===== *)
(** * Packfiles (crates/storage/src/index.rs)

    An append-only writer, its index, and a random-access reader. *)

From S2P Require Import Prelude CoreTypes Interfaces Json FileSys.

Record IndexEntry := mkIndexEntry {
  ie_offset : N;
  ie_length : N;
  ie_hash : Hash;
}.

Abbreviation PackIndex := (gmap Hash IndexEntry).

Definition index_insert (e : IndexEntry) (i : PackIndex) : PackIndex := <[ie_hash e := e]> i.
Definition index_get (h : Hash) (i : PackIndex) : option IndexEntry := i !! h.
Definition index_len (i : PackIndex) : nat := size i.
Definition index_is_empty (i : PackIndex) : bool := Nat.eqb (size i) 0.

Record PackWriter := mkPackWriter {
  pw_objects : list (Hash * bytes);
  pw_index : PackIndex;
  pw_offset : N;
}.

Definition writer_new : PackWriter := {| pw_objects := []; pw_index := ∅; pw_offset := 0 |}.

Definition append (hash : Hash) (data : bytes) (w : PackWriter) : PackWriter :=
  let length := N.of_nat (length data) in
  {| pw_index := index_insert (mkIndexEntry (pw_offset w) length hash) (pw_index w);
     pw_objects := pw_objects w ++ [(hash, data)];
     pw_offset := u64_add (pw_offset w) length |}.

(** The members of one index row, and the entry read back from a row. *)
Definition row_of_entry (e : IndexEntry) : JsonValue :=
  json_object [("hash", JString (ie_hash e)); ("offset", JNumber (ie_offset e));
               ("length", JNumber (ie_length e))].
Definition entry_of_row (v : JsonValue) : IndexEntry :=
  {| ie_offset := default 0%N (as_u64 (json_member "offset" v));
     ie_length := default 0%N (as_u64 (json_member "length" v));
     ie_hash := default "" (as_str (json_member "hash" v)) |}.

(** The UTF-8 check of [fs::read_to_string]. *)
Class Utf8 := { utf8_valid : bytes → bool }.
Class Utf8Laws (T : Type) `{SerdeJson T, Utf8} := {
  utf8_json x b : to_vec x = Ok b → utf8_valid b = true;
}.

Section pack.
Context `{SerdeJson (list JsonValue), Utf8, HashOrder}.

Definition index_values (seed : N) (i : PackIndex) : list IndexEntry := snd <$> hash_iter seed i.

Definition flush (seed : N) (pack_path index_path : string) (wr : PackWriter) :
    M World CoreError unit :=
  let! _ := map_err (λ e, StorageIo ("create pack: " +:+ e)) (file_create pack_path) in
  let! _ := mfor (λ x, map_err (λ e, StorageIo ("write pack: " +:+ e)) (write_all pack_path x.2))
              (pw_objects wr) in
  let! _ := map_err (λ e, StorageIo ("flush pack: " +:+ e)) file_flush in
  let index_entries := row_of_entry <$> index_values seed (pw_index wr) in
  let! index_json := lift_result (result_map_err Serialization (to_vec index_entries)) in
  map_err (λ e, StorageIo ("write index: " +:+ e)) (fs_write index_path index_json).

Record PackReader := mkPackReader { pack_path : string; rd_index : PackIndex }.

Definition read_to_string (path : string) : M World string bytes :=
  let! b := fs_read path in
  if utf8_valid b then ret b else raise "stream did not contain valid UTF-8".

Definition open (pack_path index_path : string) : M World CoreError PackReader :=
  let! index_json := map_err (λ e, StorageIo ("read index: " +:+ e)) (read_to_string index_path) in
  let! entries := lift_result
    (result_map_err (λ e, Serialization ("parse index: " +:+ e)) (from_slice index_json)) in
  ret (mkPackReader pack_path (foldl (λ i v, index_insert (entry_of_row v) i) ∅ entries)).

(** [vec![0u8; n]] panics beyond [isize::MAX]. *)
Definition alloc_buf (n : N) : M World CoreError unit :=
  if (n <? 2 ^ 63)%N then ret tt else panic "capacity overflow".

Definition read (r : PackReader) (hash : Hash) : M World CoreError bytes :=
  let! entry := lift_result (ok_or (ObjectNotFound hash) (index_get hash (rd_index r))) in
  let! file := map_err (λ e, StorageIo ("open pack: " +:+ e)) (file_open (pack_path r)) in
  let! _ := map_err (λ e, StorageIo ("seek pack: " +:+ e)) (or_fail (ret tt)) in
  let! _ := alloc_buf (ie_length entry) in
  map_err (λ e, StorageIo ("read pack: " +:+ e)) (read_exact_at file (ie_offset entry) (ie_length entry)).

Definition reader_exists (r : PackReader) (hash : Hash) : bool :=
  match index_get hash (rd_index r) with Some _ => true | None => false end.
End pack.

(** ** Specification *)

(** The writer after a sequence of appends, and the data last appended under a
    hash. *)
Definition append_all (l : list (Hash * bytes)) : PackWriter :=
  foldl (λ w x, append x.1 x.2 w) writer_new l.

Definition last_data (l : list (Hash * bytes)) (h : Hash) : option bytes :=
  snd <$> last (filter (λ x, x.1 = h) l).

Definition total_size (l : list (Hash * bytes)) : nat := length (concat (snd <$> l)).

(** The entries of an index point at the last data of their hash. *)
Definition index_points (i : PackIndex) (l : list (Hash * bytes)) : Prop :=
  ∀ h, match last_data l h with
       | None => i !! h = None
       | Some d => ∃ off, i !! h = Some (mkIndexEntry (N.of_nat off) (N.of_nat (length d)) h) ∧
                     take (length d) (drop off (concat (snd <$> l))) = d
       end.

(** ** Lemmas *)

Lemma append_all_snoc l h d : append_all (l ++ [(h, d)]) = append h d (append_all l).
Proof. unfold append_all. by rewrite foldl_app. Qed.

Lemma append_all_objects l : pw_objects (append_all l) = l.
Proof.
  induction l as [|[h d] l IH] using rev_ind; [done|]. rewrite append_all_snoc. simpl. by rewrite IH.
Qed.

Lemma total_size_snoc l h d : total_size (l ++ [(h, d)]) = total_size l + length d.
Proof. unfold total_size. rewrite fmap_app, concat_app, length_app. simpl. rewrite app_nil_r. lia. Qed.

Lemma append_all_offset l :
  (N.of_nat (total_size l) < 2 ^ 64)%N → pw_offset (append_all l) = N.of_nat (total_size l).
Proof.
  induction l as [|[h d] l IH] using rev_ind; [done|]. rewrite append_all_snoc, total_size_snoc.
  intros Hs. simpl. rewrite IH by lia. rewrite u64_add_small by lia. lia.
Qed.

Lemma last_data_snoc l h d h' :
  last_data (l ++ [(h, d)]) h' = if decide (h = h') then Some d else last_data l h'.
Proof.
  unfold last_data. rewrite filter_app, filter_cons. simpl.
  case_decide; [|by rewrite filter_nil, app_nil_r]. by rewrite filter_nil, last_snoc.
Qed.

Lemma concat_snoc (l : list (Hash * bytes)) h d :
  concat (l ++ [(h, d)]).*2 = concat l.*2 ++ d.
Proof. rewrite fmap_app, concat_app. simpl. by rewrite app_nil_r. Qed.

Lemma append_all_index l :
  (N.of_nat (total_size l) < 2 ^ 64)%N → index_points (pw_index (append_all l)) l.
Proof.
  induction l as [|[h d] l IH] using rev_ind; intros Hs h'; [done|].
  rewrite total_size_snoc in Hs. specialize (IH ltac:(lia) h').
  rewrite last_data_snoc, append_all_snoc, concat_snoc. simpl. unfold index_insert. simpl.
  rewrite append_all_offset by lia. case_decide as Hh.
  - subst h'. exists (total_size l). rewrite lookup_insert_eq. split; [done|].
    unfold total_size. rewrite drop_app_length. apply take_ge. lia.
  - rewrite lookup_insert_ne by done. destruct (last_data l h') as [d'|]; [|done].
    destruct IH as (off & Hi & Ht). exists off. split; [done|].
    assert (length d' ≤ length (drop off (concat (snd <$> l)))) as Hl.
    { rewrite <- Ht at 1. rewrite length_take. lia. }
    destruct (decide (off ≤ length (concat (snd <$> l)))).
    + rewrite drop_app_le by done. by rewrite take_app_le.
    + rewrite length_drop in Hl. by destruct d'; simpl in *; [|lia].
Qed.

(** Rows and entries correspond, and the reader rebuilds the index. *)
Lemma entry_of_row_of e : entry_of_row (row_of_entry e) = e.
Proof. by destruct e. Qed.

Lemma rebuild_index (i : PackIndex) (es : list IndexEntry) :
  (∀ h e, i !! h = Some e ↔ e ∈ es ∧ ie_hash e = h) →
  foldl (λ i v, index_insert (entry_of_row v) i) ∅ (row_of_entry <$> es) = i.
Proof.
  intros Hi. assert (foldl (λ i v, index_insert (entry_of_row v) i) ∅ (row_of_entry <$> es) =
    collect_by ie_hash es) as ->.
  { clear Hi. induction es as [|e es IH] using rev_ind; [done|].
    rewrite fmap_app, foldl_app, collect_by_snoc, IH. simpl. by rewrite entry_of_row_of. }
  apply map_eq. intros h. apply option_eq. intros e. rewrite Hi. split.
  - intros [? ?]%collect_by_key. auto.
  - intros [He <-]. destruct (proj2 (collect_by_is_Some ie_hash es (ie_hash e))) as [e' He'].
    { by apply list_elem_of_fmap_2. }
    apply collect_by_key in He' as Hk. destruct Hk as [Hk He2].
    assert (Some e = Some e') as Heq; [|by rewrite Heq].
    transitivity (i !! ie_hash e); [symmetry|]; apply Hi; auto.
Qed.

(** Writing the objects one after the other fills the file with their
    concatenation. *)
Lemma write_objects_ok p (l : list (Hash * bytes)) w d (f : string → CoreError) :
  faults w = [] → files w !! resolve p = Some (File d) →
  mfor (λ x, map_err f (write_all p x.2)) l w =
  (Done (Ok tt), set_files <[resolve p := File (d ++ concat l.*2)]> w).
Proof.
  revert w d. induction l as [|[h x] l IH]; intros w d Hf Hd.
  - unfold set_files. simpl. rewrite app_nil_r, insert_id by done. by destruct w.
  - cbn [mfor]. unfold bind at 1, map_err at 1. rewrite (write_all_ok _ _ d) by done.
    rewrite (IH _ (d ++ x)); [|done|by simpl; rewrite lookup_insert_eq].
    unfold set_files. simpl. by rewrite insert_insert_eq, <- app_assoc.
Qed.

(** ** Properties *)

Section properties.
Context `{SerdeJsonLaws (list JsonValue), !Utf8, !Utf8Laws (list JsonValue), HashOrderLaws}.

Lemma fs_write_ok p data w :
  faults w = [] → fs_lookup w (removelast (resolve p)) = Some Dir →
  fs_lookup w (resolve p) ≠ Some Dir →
  fs_write p data w = (Done (Ok tt), set_files <[resolve p := File data]> w).
Proof.
  intros Hf Hd Hn. unfold fs_write. destruct w as [fl fts]. simpl in Hf. subst fts.
  rewrite (bind_ok _ _ _ _ _ (file_create_ok p (mkWorld fl []) [] ltac:(by left) Hd Hn)).
  rewrite (write_all_ok _ _ []); [|done|apply lookup_insert_eq].
  unfold set_files. simpl. by rewrite insert_insert_eq.
Qed.

(** The two files a flush leaves. *)
Lemma flush_ok seed pack index wr w :
  faults w = [] →
  fs_lookup w (removelast (resolve pack)) = Some Dir → fs_lookup w (resolve pack) ≠ Some Dir →
  fs_lookup w (removelast (resolve index)) = Some Dir → fs_lookup w (resolve index) ≠ Some Dir →
  resolve pack ≠ resolve index →
  ∃ json w', to_vec (row_of_entry <$> index_values seed (pw_index wr)) = Ok json ∧
    flush seed pack index wr w = (Done (Ok tt), w') ∧ faults w' = [] ∧
    fs_lookup w' (resolve pack) = Some (File (concat (pw_objects wr).*2)) ∧
    fs_lookup w' (resolve index) = Some (File json).
Proof.
  intros Hf Hpd Hp Hid Hi Hne. destruct (to_vec_total (row_of_entry <$> index_values seed (pw_index wr)))
    as [json Hj]. destruct (not_dir_path _ _ Hp), (not_dir_path _ _ Hi).
  destruct w as [fl fts]. simpl in Hf. subst fts.
  set (w1 := set_files <[resolve pack := File (concat (pw_objects wr).*2)]> (mkWorld fl [])).
  assert (∀ q, q ≠ resolve pack → fs_lookup w1 q = fs_lookup (mkWorld fl []) q) as Hw1.
  { intros q Hq. by apply fs_lookup_insert_ne. }
  exists json, (set_files <[resolve index := File json]> w1). split_and!; [done| |done| |].
  - unfold flush. unfold bind at 1, map_err at 1.
    rewrite (file_create_ok pack (mkWorld fl []) [] ltac:(by left) Hpd Hp).
    unfold bind at 1. rewrite (write_objects_ok _ _ _ []); [|done|apply lookup_insert_eq].
    unfold set_files at 1. simpl. rewrite insert_insert_eq. fold w1.
    unfold bind, map_err, lift_result. simpl. rewrite Hj. simpl.
    change (mkWorld (<[resolve pack:=File (concat (pw_objects wr).*2)]> fl) []) with w1.
    rewrite (fs_write_ok index json w1); [done|done|..]; rewrite Hw1; try done.
    intros Heq. by rewrite <- Heq in Hp.
  - rewrite fs_lookup_insert_ne by done. by apply fs_lookup_insert.
  - by apply fs_lookup_insert.
Qed.

Lemma open_ok seed pack index i json w :
  faults w = [] → fs_lookup w (resolve index) = Some (File json) →
  (∀ h e, i !! h = Some e → ie_hash e = h) →
  to_vec (row_of_entry <$> index_values seed i) = Ok json →
  open pack index w = (Done (Ok (mkPackReader pack i)), w).
Proof.
  intros Hf Hl Hk Hj. unfold open, read_to_string, bind, map_err, lift_result.
  rewrite (fs_read_ok _ _ json) by done. rewrite (utf8_json _ _ Hj). unfold ret.
  rewrite (from_to_vec _ _ Hj). simpl. rewrite (rebuild_index i); [done|].
  intros h e. unfold index_values. rewrite list_elem_of_fmap. split.
  - intros Hi. split; [|by apply Hk]. exists (h, e). by rewrite elem_of_hash_iter.
  - intros [([h' e'] & -> & He) Hh]. apply elem_of_hash_iter in He. simpl in *.
    by rewrite <- Hh, (Hk h' e').
Qed.

Lemma read_ok pack i l w h :
  faults w = [] → fs_lookup w (resolve pack) = Some (File (concat l.*2)) → index_points i l →
  (N.of_nat (total_size l) < 2 ^ 63)%N →
  read (mkPackReader pack i) h w =
    (Done (match last_data l h with Some d => Ok d | None => Err (ObjectNotFound h) end), w).
Proof.
  intros Hf Hl Hi Hs. specialize (Hi h). unfold read, index_get, lift_result. simpl.
  destruct (last_data l h) as [d|]; [|by rewrite Hi]. destruct Hi as (off & -> & Ht).
  unfold bind, map_err. simpl. change file_open with fs_read.
  rewrite (fs_read_ok _ _ _ Hf Hl), (or_fail_nofault _ _ Hf). unfold ret, alloc_buf.
  assert (length d ≤ total_size l) as Hd.
  { rewrite <- Ht, length_take, length_drop. unfold total_size. lia. }
  rewrite (proj2 (N.ltb_lt _ _)) by lia. unfold ret, read_exact_at.
  rewrite (or_fail_nofault _ _ Hf), !Nat2N.id, Ht. by rewrite decide_True by done.
Qed.

(** C20: pack round trip.  Flushing a writer after any appends of less than 2^63
    bytes in all, without faults, then opening the two files gives a reader that
    returns, for every hash, the data last appended under it, and [ObjectNotFound]
    for a hash never appended, whatever order the index map was written in. *)
Theorem pack_roundtrip seed pack index l w :
  faults w = [] → (N.of_nat (total_size l) < 2 ^ 63)%N →
  fs_lookup w (removelast (resolve pack)) = Some Dir → fs_lookup w (resolve pack) ≠ Some Dir →
  fs_lookup w (removelast (resolve index)) = Some Dir → fs_lookup w (resolve index) ≠ Some Dir →
  resolve pack ≠ resolve index →
  ∃ w' r, flush seed pack index (append_all l) w = (Done (Ok tt), w') ∧
    open pack index w' = (Done (Ok r), w') ∧
    ∀ h, read r h w' =
      (Done (match last_data l h with Some d => Ok d | None => Err (ObjectNotFound h) end), w').
Proof.
  intros Hf Hs Hpd Hp Hid Hi Hne.
  destruct (flush_ok seed pack index (append_all l) w) as (json & w' & Hj & Hfl & Hf' & Hpk & Hix);
    [done..|]. rewrite append_all_objects in Hpk.
  pose proof (append_all_index l ltac:(lia)) as Hpts.
  exists w', (mkPackReader pack (pw_index (append_all l))). split_and!; [done| |].
  - eapply open_ok; [done..| |exact Hj]. intros h e He. specialize (Hpts h).
    destruct (last_data l h) as [d|]; [destruct Hpts as (off & Hpt & _)|];
      rewrite He in *; by simplify_eq/=.
  - intros h. by apply read_ok.
Qed.
End properties.

(** ** Concrete runs *)

Module Demo.
Definition json : SerdeJson (list JsonValue) := countable_json (list JsonValue).
Definition utf8 : Utf8 := {| utf8_valid _ := true |}.

Lemma utf8_laws : @Utf8Laws (list JsonValue) json utf8.
Proof. by split. Qed.

(** The second append under "a" replaces the first. *)
Definition appends : list (Hash * bytes) :=
  [("a", as_bytes "old"); ("b", as_bytes "other"); ("a", as_bytes "new")].
End Demo.

Lemma pack_roundtrip_witness :
  let _ := Demo.json in let _ := Demo.utf8 in let _ := Toy.hash_order in
  ∃ w' r, flush 0 "o.pack" "o.idx" (append_all Demo.appends) (mkWorld ∅ []) = (Done (Ok tt), w') ∧
    read r "a" w' = (Done (Ok (as_bytes "new")), w').
Proof.
  intros J U O.
  destruct (pack_roundtrip (H0 := countable_json_laws _) (Utf8Laws0 := Demo.utf8_laws)
    (H3 := Toy.hash_order_laws) 0 "o.pack" "o.idx" Demo.appends (mkWorld ∅ []))
    as (w' & r & Hf & _ & Hr).
  - reflexivity.
  - vm_compute. reflexivity.
  - vm_compute. reflexivity.
  - vm_compute. intros [=].
  - vm_compute. reflexivity.
  - vm_compute. intros [=].
  - vm_compute. intros [=].
  - exists w', r. exact (conj Hf (Hr "a")).
Defined.
