(* ===== verification/Protocol.v ===== *)
(** * Request-response protocols (crates/p2p/src/protocol.rs)

    The four-byte big-endian length framing, and the codecs of the descriptor, raft,
    blob and project protocols. *)

From S2P Require Import Prelude CoreTypes Interfaces.

(** ** Streams

    A substream is the bytes still to be read, the bytes written so far, and the
    room left before the peer closes it ([None]: it stays open). *)

Record Stream := mkStream { input : bytes; output : bytes; room : option nat }.

Inductive IoErrorKind := UnexpectedEof | InvalidData | WriteZero.
#[export] Instance IoErrorKind_eq_dec : EqDecision IoErrorKind.
Proof. solve_decision. Defined.
Record IoError := mkIoError { io_kind : IoErrorKind; io_message : string }.

(** [AsyncReadExt::read_exact] into a buffer of [n] bytes. *)
Definition read_exact (n : nat) : M Stream IoError bytes := λ s,
  if decide (n ≤ length (input s)) then
    (Done (Ok (take n (input s))), mkStream (drop n (input s)) (output s) (room s))
  else (Done (Err (mkIoError UnexpectedEof "unexpected end of file")),
        mkStream [] (output s) (room s)).

(** [AsyncWriteExt::write_all]. *)
Definition stream_write_all (data : bytes) : M Stream IoError unit := λ s,
  match room s with
  | None => (Done (Ok tt), mkStream (input s) (output s ++ data) None)
  | Some r =>
      if decide (length data ≤ r) then
        (Done (Ok tt), mkStream (input s) (output s ++ data) (Some (r - length data)))
      else (Done (Err (mkIoError WriteZero "write zero")),
            mkStream (input s) (output s ++ take r data) (Some 0))
  end.

(** ** Framing *)

(** [as u8] and the big-endian bytes of a [u32]. *)
Definition u8_of (n : N) : byte := default x00 (Byte.of_N (n mod 256)).
Definition to_be_bytes (n : N) : bytes :=
  [u8_of (N.shiftr n 24); u8_of (N.shiftr n 16); u8_of (N.shiftr n 8); u8_of n].
Definition from_be_bytes (b : bytes) : N := foldl (λ a x, N.lor (N.shiftl a 8) (Byte.to_N x)) 0%N b.

(** [len() as u32]. *)
Definition as_u32 (n : N) : N := (n mod 2 ^ 32)%N.

Definition read_length_prefixed (max_size : N) : M Stream IoError bytes :=
  let! len_buf := read_exact 4 in
  let len := from_be_bytes len_buf in
  if (max_size <? len)%N then
    raise (mkIoError InvalidData (fmt ["payload size "; dec len; " exceeds max "; dec max_size]))
  else read_exact (N.to_nat len).

Definition write_length_prefixed (data : bytes) : M Stream IoError unit :=
  let len := as_u32 (N.of_nat (length data)) in
  let! _ := stream_write_all (to_be_bytes len) in
  stream_write_all data.

(** A framed JSON message, as every codec method reads and writes one. *)
Section messages.
Context {T : Type} `{SerdeJson T}.

Definition read_message (max_size : N) : M Stream IoError T :=
  let! data := read_length_prefixed max_size in
  lift_result (result_map_err (mkIoError InvalidData) (from_slice data)).

Definition write_message (x : T) : M Stream IoError unit :=
  let! data := lift_result (result_map_err (mkIoError InvalidData) (to_vec x)) in
  write_length_prefixed data.
End messages.

(** ** Codecs *)

(** libp2p's [request_response::Codec] trait. *)
Class Codec (Req Resp : Type) := {
  protocol : string;
  read_request : M Stream IoError Req;
  read_response : M Stream IoError Resp;
  write_request : Req → M Stream IoError unit;
  write_response : Resp → M Stream IoError unit;
}.

(** The descriptor protocol. *)
Definition DESCRIPTOR_PROTOCOL : string := "/edge-orch/descriptor/1.0.0".
Definition REQUEST_MAX_SIZE : N := 128.
Definition RESPONSE_MAX_SIZE : N := 8 * 1024.

Record DescriptorRequest := mkDescriptorRequest { requester_id : string }.
Record DescriptorResponse := mkDescriptorResponse { descriptor_json : string }.

Definition from_descriptor `{SerdeJson NodeDescriptor} (desc : NodeDescriptor) :
    result string DescriptorResponse :=
  let? b := to_vec desc in Ok (mkDescriptorResponse (String.string_of_list_byte b)).

Definition to_descriptor `{SerdeJson NodeDescriptor} (r : DescriptorResponse) :
    result string NodeDescriptor := from_slice (as_bytes (descriptor_json r)).

#[export] Instance DescriptorCodec `{SerdeJson DescriptorRequest, SerdeJson DescriptorResponse} :
    Codec DescriptorRequest DescriptorResponse := {|
  protocol := DESCRIPTOR_PROTOCOL;
  read_request := read_message REQUEST_MAX_SIZE;
  read_response := read_message RESPONSE_MAX_SIZE;
  write_request := write_message;
  write_response := write_message;
|}.

(** The raft message protocol. *)
Definition RAFT_PROTOCOL : string := "/edge-orch/raft/1.0.0".
Definition RAFT_REQUEST_MAX_SIZE : N := 16 * 1024 * 1024.
Definition RAFT_RESPONSE_MAX_SIZE : N := 1024.

Record RaftMessageRequest := mkRaftMessageRequest { rm_data : bytes }.
Record RaftMessageResponse := mkRaftMessageResponse { accepted : bool }.

#[export] Instance RaftMessageCodec `{SerdeJson RaftMessageRequest, SerdeJson RaftMessageResponse} :
    Codec RaftMessageRequest RaftMessageResponse := {|
  protocol := RAFT_PROTOCOL;
  read_request := read_message RAFT_REQUEST_MAX_SIZE;
  read_response := read_message RAFT_RESPONSE_MAX_SIZE;
  write_request := write_message;
  write_response := write_message;
|}.

(** The blob distribution protocol. *)
Definition BLOB_PROTOCOL : string := "/edge-orch/blob/1.0.0".
Definition BLOB_REQUEST_MAX_SIZE : N := 4 * 1024.
Definition BLOB_RESPONSE_MAX_SIZE : N := 512 * 1024 * 1024.

Record BlobRequest := mkBlobRequest { breq_hash : Hash }.
Record BlobResponse := mkBlobResponse { bresp_hash : Hash; found : bool; bresp_data : bytes }.

#[export] Instance BlobCodec `{SerdeJson BlobRequest, SerdeJson BlobResponse} :
    Codec BlobRequest BlobResponse := {|
  protocol := BLOB_PROTOCOL;
  read_request := read_message BLOB_REQUEST_MAX_SIZE;
  read_response := read_message BLOB_RESPONSE_MAX_SIZE;
  write_request := write_message;
  write_response := write_message;
|}.

(** The project execution protocol. *)
Definition PROJECT_PROTOCOL : string := "/edge-orch/project/1.0.0".
Definition PROJECT_REQUEST_MAX_SIZE : N := 64 * 1024 * 1024.
Definition PROJECT_RESPONSE_MAX_SIZE : N := 64 * 1024 * 1024.

#[export] Instance ProjectCodec `{SerdeJson ProjectTask, SerdeJson ProjectResult} :
    Codec ProjectTask ProjectResult := {|
  protocol := PROJECT_PROTOCOL;
  read_request := read_message PROJECT_REQUEST_MAX_SIZE;
  read_response := read_message PROJECT_RESPONSE_MAX_SIZE;
  write_request := write_message;
  write_response := write_message;
|}.

(** ** Lemmas *)

Lemma u8_of_to_N n : Byte.to_N (u8_of n) = (n mod 256)%N.
Proof.
  unfold u8_of. assert (n mod 256 < 256)%N as Hlt by (apply N.mod_lt; lia).
  destruct (Byte.of_N (n mod 256)) as [b|] eqn:Hb; simpl.
  - by apply Byte.to_of_N.
  - apply Byte.of_N_None_iff in Hb. lia.
Qed.

(** Concatenating the next byte in binary is multiplying by 256 and adding. *)
Lemma lor_shiftl_add a x : (x < 256)%N → N.lor (N.shiftl a 8) x = (a * 256 + x)%N.
Proof.
  intros Hx. rewrite N.shiftl_mul_pow2. change (2 ^ 8)%N with 256%N.
  rewrite <- N.lxor_lor, <- N.add_nocarry_lxor; [done|..]; (apply N.bits_inj; intros i;
    rewrite N.land_spec, N.bits_0; change 256%N with (2 ^ 8)%N;
    destruct (N.lt_ge_cases i 8) as [Hi|Hi]; [by rewrite N.mul_pow2_bits_low|
      rewrite (N.bits_above_log2 x), andb_false_r; [done|];
      destruct (decide (x = 0%N)) as [->|]; [simpl; lia|];
      apply N.lt_le_trans with 8%N; [apply N.log2_lt_pow2; simpl; lia|done]]).
Qed.

Lemma from_to_be_bytes n : from_be_bytes (to_be_bytes n) = as_u32 n.
Proof.
  unfold from_be_bytes, to_be_bytes, as_u32. cbn [foldl].
  rewrite !lor_shiftl_add, !u8_of_to_N, !N.shiftr_div_pow2
    by (rewrite u8_of_to_N; apply N.mod_lt; lia).
  change (2 ^ 24)%N with 16777216%N. change (2 ^ 16)%N with 65536%N.
  change (2 ^ 8)%N with 256%N. change (2 ^ 32)%N with 4294967296%N.
  pose proof (N.div_mod n 4294967296). zify. Z.to_euclidean_division_equations. lia.
Qed.

Lemma length_to_be_bytes n : length (to_be_bytes n) = 4.
Proof. done. Qed.

Lemma read_exact_app a rest out r :
  read_exact (length a) (mkStream (a ++ rest) out r) = (Done (Ok a), mkStream rest out r).
Proof.
  unfold read_exact. simpl. rewrite length_app, decide_True by lia.
  by rewrite take_app_length, drop_app_length.
Qed.

(** The bytes a message of payload [data] puts on an open stream. *)
Definition frame (data : bytes) : bytes :=
  to_be_bytes (as_u32 (N.of_nat (length data))) ++ data.

Lemma write_frame_open data inp out :
  write_length_prefixed data (mkStream inp out None) =
  (Done (Ok tt), mkStream inp (out ++ frame data) None).
Proof. unfold write_length_prefixed, bind, stream_write_all, frame. simpl. by rewrite <- app_assoc. Qed.

Lemma as_u32_idemp n : as_u32 (as_u32 n) = as_u32 n.
Proof. unfold as_u32. apply N.Div0.mod_mod. Qed.

Lemma read_frame_header max data rest out r :
  read_length_prefixed max (mkStream (frame data ++ rest) out r) =
  (let len := as_u32 (N.of_nat (length data)) in
   if (max <? len)%N then
     raise (mkIoError InvalidData (fmt ["payload size "; dec len; " exceeds max "; dec max]))
   else read_exact (N.to_nat len)) (mkStream (data ++ rest) out r).
Proof.
  unfold read_length_prefixed, frame. rewrite <- app_assoc.
  change 4 with (length (to_be_bytes (as_u32 (N.of_nat (length data))))).
  rewrite (bind_ok _ _ _ _ _ (read_exact_app _ _ _ _)), from_to_be_bytes. simpl.
  by rewrite as_u32_idemp.
Qed.

Lemma as_u32_small n : (n < 2 ^ 32)%N → as_u32 n = n.
Proof. apply N.mod_small. Qed.

(** ** Properties *)

(** C25: framing.  Whatever a payload's size, writing it to an open stream
    succeeds.  Reading the frame back with a limit gives: the payload, leaving what
    follows it, when it is within the limit; an [InvalidData] error raised before
    the payload is read when it is beyond the limit but below 4 GiB; and from 4 GiB
    on the length wraps, so a frame of a multiple of 4 GiB reads as empty and its
    payload is left on the stream. *)
Theorem framing_roundtrip max data inp out rest out' r :
  (max < 2 ^ 32)%N →
  ∃ w, write_length_prefixed data (mkStream inp out None) =
         (Done (Ok tt), mkStream inp (out ++ w) None) ∧
    (N.of_nat (length data) ≤ max →
      read_length_prefixed max (mkStream (w ++ rest) out' r) =
        (Done (Ok data), mkStream rest out' r))%N ∧
    (max < N.of_nat (length data) < 2 ^ 32 →
      ∃ e, io_kind e = InvalidData ∧ read_length_prefixed max (mkStream (w ++ rest) out' r) =
        (Done (Err e), mkStream (data ++ rest) out' r))%N ∧
    (N.of_nat (length data) mod 2 ^ 32 = 0 →
      read_length_prefixed max (mkStream (w ++ rest) out' r) =
        (Done (Ok []), mkStream (data ++ rest) out' r))%N.
Proof.
  intros Hmax. exists (frame data). split; [apply write_frame_open|].
  rewrite read_frame_header. cbv zeta. split_and!.
  - intros Hl. rewrite as_u32_small by lia. rewrite (proj2 (N.ltb_ge _ _)) by done.
    rewrite Nat2N.id. apply read_exact_app.
  - intros [Hl Hb]. rewrite as_u32_small by done. rewrite (proj2 (N.ltb_lt _ _)) by done.
    eexists. split; [|reflexivity]. done.
  - intros Hz. unfold as_u32. rewrite Hz, (proj2 (N.ltb_ge _ _)) by lia.
    apply (read_exact_app []).
Qed.

(** A direction of a protocol: what one side writes on an open stream the other
    reads unchanged when its JSON is within the reader's limit; a larger message
    (below 4 GiB) is written without error and rejected by the reader. *)
Definition delivers {T} `{SerdeJson T} (max : N) (write : T → M Stream IoError unit)
    (read : M Stream IoError T) : Prop :=
  ∀ x b out rest out' r, to_vec x = Ok b → (N.of_nat (length b) < 2 ^ 32)%N →
  ∃ w, write x (mkStream [] out None) = (Done (Ok tt), mkStream [] (out ++ w) None) ∧
    if (N.of_nat (length b) <=? max)%N then
      read (mkStream (w ++ rest) out' r) = (Done (Ok x), mkStream rest out' r)
    else ∃ e s', io_kind e = InvalidData ∧ read (mkStream (w ++ rest) out' r) = (Done (Err e), s').

Definition codec_delivers {Req Resp} `{SerdeJson Req, SerdeJson Resp} (C : Codec Req Resp)
    (req_max resp_max : N) : Prop :=
  delivers req_max write_request read_request ∧ delivers resp_max write_response read_response.

Lemma message_delivers {T} `{SerdeJsonLaws T} max :
  (max < 2 ^ 32)%N → delivers (T := T) max write_message (read_message max).
Proof.
  intros Hmax x b out rest out' r Hb Hlt. exists (frame b). split.
  - unfold write_message, lift_result. unfold bind at 1. rewrite Hb. apply write_frame_open.
  - destruct (N.leb_spec (N.of_nat (length b)) max) as [Hle|Hgt]; unfold read_message, bind.
    + rewrite read_frame_header. cbv zeta. rewrite as_u32_small by done.
      rewrite (proj2 (N.ltb_ge _ _)) by done. rewrite Nat2N.id, read_exact_app.
      unfold lift_result. by rewrite (from_to_vec _ _ Hb).
    + rewrite read_frame_header. cbv zeta. rewrite as_u32_small by done.
      rewrite (proj2 (N.ltb_lt _ _)) by done. unfold raise. eexists _, _. split; [|done]. done.
Qed.

(** Codec round trips.  Each of the four protocols delivers its requests and
    responses unchanged up to its limits (128 B and 8 KiB for descriptors, 16 MiB
    and 1 KiB for raft, 4 KiB and 512 MiB for blobs, 64 MiB both ways for
    projects), and a reader rejects what is larger although the writer saw no
    error. *)
Theorem codecs_deliver
    `{SerdeJsonLaws DescriptorRequest, SerdeJsonLaws DescriptorResponse,
      SerdeJsonLaws RaftMessageRequest, SerdeJsonLaws RaftMessageResponse,
      SerdeJsonLaws BlobRequest, SerdeJsonLaws BlobResponse,
      SerdeJsonLaws ProjectTask, SerdeJsonLaws ProjectResult} :
  codec_delivers DescriptorCodec 128 8192 ∧
  codec_delivers RaftMessageCodec 16777216 1024 ∧
  codec_delivers BlobCodec 4096 536870912 ∧
  codec_delivers ProjectCodec 67108864 67108864.
Proof. split_and!; split; by apply message_delivers. Qed.

(** ** Concrete runs *)

#[export] Instance DescriptorRequest_eq_dec : EqDecision DescriptorRequest.
Proof. solve_decision. Defined.
#[export] Instance DescriptorResponse_eq_dec : EqDecision DescriptorResponse.
Proof. solve_decision. Defined.
#[export] Instance RaftMessageRequest_eq_dec : EqDecision RaftMessageRequest.
Proof. solve_decision. Defined.
#[export] Instance RaftMessageResponse_eq_dec : EqDecision RaftMessageResponse.
Proof. solve_decision. Defined.
#[export] Instance BlobRequest_eq_dec : EqDecision BlobRequest.
Proof. solve_decision. Defined.
#[export] Instance BlobResponse_eq_dec : EqDecision BlobResponse.
Proof. solve_decision. Defined.
#[export] Instance DescriptorRequest_countable : Countable DescriptorRequest :=
  inj_countable' requester_id mkDescriptorRequest ltac:(by intros []).
#[export] Instance DescriptorResponse_countable : Countable DescriptorResponse :=
  inj_countable' descriptor_json mkDescriptorResponse ltac:(by intros []).
#[export] Instance RaftMessageRequest_countable : Countable RaftMessageRequest :=
  inj_countable' rm_data mkRaftMessageRequest ltac:(by intros []).
#[export] Instance RaftMessageResponse_countable : Countable RaftMessageResponse :=
  inj_countable' accepted mkRaftMessageResponse ltac:(by intros []).
#[export] Instance BlobRequest_countable : Countable BlobRequest :=
  inj_countable' breq_hash mkBlobRequest ltac:(by intros []).
#[export] Instance BlobResponse_countable : Countable BlobResponse :=
  inj_countable' (λ r, (bresp_hash r, found r, bresp_data r)) (λ x, mkBlobResponse x.1.1 x.1.2 x.2)
    ltac:(by intros []).

Lemma codecs_deliver_witness :
  let _ := countable_json BlobRequest in let _ := countable_json BlobResponse in
  codec_delivers BlobCodec 4096 536870912.
Proof.
  exact (proj1 (proj2 (proj2 (codecs_deliver
    (H0 := countable_json_laws DescriptorRequest) (H2 := countable_json_laws DescriptorResponse)
    (H4 := countable_json_laws RaftMessageRequest) (H6 := countable_json_laws RaftMessageResponse)
    (H8 := countable_json_laws BlobRequest) (H10 := countable_json_laws BlobResponse)
    (H12 := countable_json_laws ProjectTask) (H14 := countable_json_laws ProjectResult))))).
Defined.

Lemma framing_roundtrip_witness :
  ∃ w, read_length_prefixed 10 (mkStream (w ++ [x01]) [] None) =
         (Done (Ok (as_bytes "hi")), mkStream [x01] [] None).
Proof.
  destruct (framing_roundtrip 10 (as_bytes "hi") [] [] [x01] [] None) as (w & _ & Hok & _).
  - reflexivity.
  - exists w. apply Hok. vm_compute. discriminate.
Defined.
