(* ===== verification/BlobStore.v ===== *)
(** * The blob interface of the object store

    The operations the raft storage, the CAS fetcher and the project snapshots
    use, with the laws their theorems are proved against, and the instance the
    local object store provides. *)

From S2P Require Import Prelude CoreTypes Interfaces FileSys Objects Store.

Class BlobStore (W : Type) := {
  bs_put : bytes → M W CoreError Hash;
  bs_get : Hash → M W CoreError bytes;
  bs_exists : Hash → M W CoreError bool;
}.

(** A put never panics, and the hash of some data is the same in every store.  On a
    healthy store, putting data of an admissible family succeeds, keeps what was held
    and holds the data under the returned hash; getting a held hash
    returns its data, and a held hash exists; no get changes the store, and what one
    returns for a hash another store holds data under is that data. *)
Class BlobStoreLaws (W : Type) `{BlobStore W} := {
  bs_adm : bytes → Prop;
  bs_healthy : W → Prop;
  bs_holds : W → Hash → bytes → Prop;
  bs_put_ok d w : bs_healthy w → bs_adm d →
    ∃ h w', bs_put d w = (Done (Ok h), w') ∧ bs_healthy w' ∧ bs_holds w' h d ∧
      ∀ h' d', bs_holds w h' d' → bs_holds w' h' d';
  bs_get_ok h d w : bs_healthy w → bs_holds w h d → bs_get h w = (Done (Ok d), w);
  bs_get_pure h w : bs_healthy w → (bs_get h w).2 = w;
  bs_exists_ok h d w : bs_healthy w → bs_holds w h d → bs_exists h w = (Done (Ok true), w);
  bs_put_no_panic d : no_panic (bs_put d);
  bs_same_hash w w' h h' d : bs_healthy w → bs_healthy w' → bs_holds w h d → bs_holds w' h' d → h = h';
  bs_get_same w w' h d d' : bs_healthy w → bs_healthy w' → bs_holds w h d →
    (bs_get h w').1 = Done (Ok d') → d' = d ∧ bs_holds w' h d;
}.

(** ** The local object store *)

Section local.
Context `{SerdeJson Object, SerdeJson Tag, DigestLaws, ZlibLaws, TimeText, DebugText Object}.
Context `{!SerdeJsonLaws Object}.
Context (root : string).

Definition local_blob_store : BlobStore World :=
  {| bs_put := put_blob root; bs_get := get_blob root; bs_exists := exists_ root |}.

(** The admissible data are a family without collisions among its blobs. *)
Context (adm : bytes → Prop).
Context (adm_no_collision :
  ∀ d d', adm d → adm d' → no_collision (preimage "blob" d) (preimage "blob" d')).

Definition local_healthy (w : World) : Prop :=
  faults w = [] ∧ store_wf root w ∧
  ∀ h o, is_hash h → stored root w h o → ∃ b, o = OBlob b ∧ adm (blob_data b).

Definition local_holds (w : World) (h : Hash) (d : bytes) : Prop :=
  h = hash_blob d ∧ stored root w h (OBlob (mkBlob h d)).

Lemma stored_kept o h w out w' h' o' :
  is_hash h → write_object root o h w = (out, w') → stored root w h' o' → stored root w' h' o'.
Proof.
  intros Hh Hw (p & s & Hp & Hs & Hl). exists p, s. split_and!; [done..|].
  destruct (is_hash_split h Hh) as (pre & rest & Hsp & Hpp & Hr & _).
  apply (write_object_frame root _ _ pre rest) in Hw
    as [(_ & -> & _)|[Hn (w1 & _ & Hadd & Honly & _)]]; [done| |done..].
  rewrite Honly by congruence. destruct (Hadd p) as [->|[? _]]; congruence.
Qed.

Lemma get_blob_pure h w : faults w = [] → (get_blob root h w).2 = w.
Proof.
  intros Hf. assert ((read_object root h w).2 = w) as Hr.
  { unfold read_object, object_path. destruct (split_at_2 h) as [[pre rest]|]; [|done].
    unfold bind at 1. simpl. destruct (path_exists _ w); [|done]. unfold bind at 1, map_err at 1.
    unfold fs_read, file_open. rewrite or_fail_nofault by done.
    destruct (fs_lookup w _) as [[d|]|]; [|done..]. unfold bind, lift_result.
    destruct (inflate d) as [s|]; simpl; [|done]. destruct (from_slice s); simpl; [|done].
    by case_decide. }
  unfold get_blob, bind. destruct (read_object root h w) as [[[o|e]|why] w']; simpl in *; subst; [|done..].
  by destruct o.
Qed.

(** A put of a blob the store may already have. *)
Lemma put_blob_local d w :
  local_healthy w → adm d →
  ∃ w', put_blob root d w = (Done (Ok (hash_blob d)), w') ∧ local_healthy w' ∧
    local_holds w' (hash_blob d) d ∧ ∀ h' d', local_holds w h' d' → local_holds w' h' d'.
Proof.
  intros (Hf & Hwf & Hblobs) Hd. set (h := hash_blob d). set (o := OBlob (mkBlob h d)).
  assert (is_hash h) as Hh by apply hex_encode_is_hash.
  destruct (write_object_put root o h w) as (w' & Hw & Hf' & Hwf' & o' & Hst & (p & Hp & Ho) & Hoh & Hor);
    [done|done|done|by eexists|done|].
  assert (o' = o) as ->.
  { destruct Hor as [|Hst0]; [done|]. destruct (Hblobs _ _ Hh Hst0) as (b & -> & Hb).
    simpl in Hp. injection Hp as <-. simpl in Hoh, Ho. rewrite Ho in Hoh.
    apply hash_preimage_inj in Hoh as [_ Heq]; [|done..|by apply adm_no_collision].
    destruct b as [h0 d0]. simpl in *. subst d0. unfold o. f_equal. f_equal. by rewrite Ho. }
  assert (put_blob root d w = (Done (Ok h), w')) as Hput.
  { unfold put_blob. fold h o. by rewrite (bind_ok _ _ _ _ _ Hw). }
  exists w'. split; [done|]. split; [split_and!; [done..|]|split; [done|]].
  - intros h1 o1 Hh1 Hst1. destruct (decide (h1 = h)) as [->|Hne].
    + assert (o1 = o) as -> by by eapply (stored_inj root). by exists (mkBlob h d).
    + apply (Hblobs h1); [done|]. destruct Hst1 as (p1 & s1 & Hp1 & Hs1 & Hl1).
      exists p1, s1. split_and!; [done..|].
      destruct (is_hash_split h Hh) as (pre & rest & Hsp & Hpp & Hr & _).
      apply (write_object_frame root _ _ pre rest) in Hw
        as [(_ & -> & _)|[Hn (w1 & Hfr & _ & Honly & _)]]; [done| |done..].
      destruct (is_hash_split h1 Hh1) as (pre1 & rest1 & Hsp1 & Hpp1 & Hr1 & _).
      pose proof (object_file_hash root h1 pre1 rest1 Hsp1 Hpp1 Hr1) as Hof1.
      pose proof (object_file_hash root h pre rest Hsp Hpp Hr) as Hof.
      assert (p1 = file_of root pre1 rest1) as -> by (unfold file_of; congruence).
      rewrite Honly, Hfr in Hl1; [done|apply file_of_not_prefix|].
      intros Heq. destruct Hne. eapply (object_file_inj root); [done|done|exact Hp1|].
      by rewrite Hof, Heq.
  - intros h' d' [-> Hst']. split; [done|]. by eapply stored_kept.
Qed.

#[export] Program Instance local_blob_store_laws : @BlobStoreLaws World local_blob_store := {|
  bs_adm := adm; bs_healthy := local_healthy; bs_holds := local_holds
|}.
Next Obligation. intros d w Hw Hd. destruct (put_blob_local d w Hw Hd) as (w' & ?). eauto. Qed.
Next Obligation.
  intros h d w (Hf & _ & _) [-> Hst]. simpl. unfold get_blob.
  by rewrite (bind_ok _ _ _ _ _ (read_object_stored root _ _ _ Hf Hst eq_refl)).
Qed.
Next Obligation. intros h w (Hf & _ & _). by apply get_blob_pure. Qed.
Next Obligation.
  intros h d w _ [-> (p & s & Hp & _ & Hl)]. simpl. unfold exists_, object_path, object_file in *.
  destruct (split_at_2 _) as [[pre rest]|]; [|done]. injection Hp as Hp.
  unfold bind. simpl. unfold path_exists. by rewrite Hp, Hl, bool_decide_eq_true_2 by eauto.
Qed.
Next Obligation.
  intros d. apply bind_no_panic; [|eauto with eo]. apply write_object_no_panic, hex_encode_is_hash.
Qed.
Next Obligation. by intros w w' h h' d _ _ [-> _] [-> _]. Qed.
Next Obligation.
  intros w w' h d d' (_ & _ & Hw) (_ & Hwf & Hw') [-> Hst] Hg. simpl in Hg.
  assert (is_hash (hash_blob d)) as Hh by apply hex_encode_is_hash.
  destruct (Hw _ _ Hh Hst) as (b & [= <-] & Hd).
  destruct (get_blob root (hash_blob d) w') as [o w''] eqn:Hget. simpl in Hg. subst o.
  unfold get_blob in Hget. apply bind_ok_inv in Hget as (o & w1 & Hr & Hret).
  destruct (read_object_authentic root _ _ _ _ Hh Hwf Hr) as ((p & Hp & Ho) & Hoh & Hst').
  destruct (Hw' _ _ Hh Hst') as (b' & -> & Hb'). injection Hret as <- <-.
  injection Hp as <-. rewrite Hoh in Ho. unfold hash_blob in Ho.
  apply hash_preimage_inj in Ho as [_ Heq]; [|done..|by apply adm_no_collision].
  split; [done|]. split; [done|]. destruct b' as [h' d']. simpl in *. by subst h' d'.
Qed.
End local.

(** ** A store in memory, for concrete runs *)

Module MemStore.
Definition mem_put (d : bytes) : M (gmap Hash bytes) CoreError Hash := λ w,
  let h := String.string_of_list_byte d in (Done (Ok h), <[h := d]> w).
Definition mem_get (h : Hash) : M (gmap Hash bytes) CoreError bytes := λ w,
  (Done (ok_or (ObjectNotFound h) (w !! h)), w).
Definition mem_exists (h : Hash) : M (gmap Hash bytes) CoreError bool := λ w,
  (Done (Ok (bool_decide (is_Some (w !! h)))), w).
Definition mem_store : BlobStore (gmap Hash bytes) :=
  {| bs_put := mem_put; bs_get := mem_get; bs_exists := mem_exists |}.

Lemma string_of_list_byte_inj d d' :
  String.string_of_list_byte d = String.string_of_list_byte d' → d = d'.
Proof.
  intros Heq%(f_equal String.list_byte_of_string).
  by rewrite !String.list_byte_of_string_of_list_byte in Heq.
Qed.

Program Definition mem_store_laws : @BlobStoreLaws (gmap Hash bytes) mem_store := {|
  bs_adm _ := True;
  bs_healthy w := ∀ h d, w !! h = Some d → h = String.string_of_list_byte d;
  bs_holds w h d := w !! h = Some d;
|}.
Next Obligation.
  intros d w Hw _. exists (String.string_of_list_byte d), (<[String.string_of_list_byte d := d]> w).
  split; [done|]. simpl. split_and!.
  - intros h' d'. rewrite lookup_insert. case_decide; naive_solver.
  - apply lookup_insert_eq.
  - intros h' d' Hd'. rewrite lookup_insert. case_decide as Heq; [|done].
    apply Hw in Hd' as Hd. rewrite Hd in Heq. by apply string_of_list_byte_inj in Heq as ->.
Qed.
Next Obligation. intros h d w _ Hd. simpl. unfold mem_get. by rewrite Hd. Qed.
Next Obligation. done. Qed.
Next Obligation. intros h d w _ Hd. simpl. unfold mem_exists. by rewrite Hd. Qed.
Next Obligation. by intros d w why. Qed.
Next Obligation. intros w w' h h' d Hw Hw' Hh%Hw Hh'%Hw'. congruence. Qed.
Next Obligation.
  intros w w' h d d' Hw Hw' Hd%Hw Hg. simpl in Hg. destruct (w' !! h) as [x|] eqn:Hx; [|done].
  injection Hg as <-. apply Hw' in Hx as Hx'. rewrite Hd in Hx'. by apply string_of_list_byte_inj in Hx' as ->.
Qed.
End MemStore.
