(* ===== verification/StoreContract.v ===== *)
(** * The object store as a map (crates/core/src/traits.rs, crates/storage/src/store.rs)

    [ObjectStore] is what the core crate asks of a store of content-addressed objects.
    The abstract store is a map from hashes to objects; the local store refines it: on
    a disk without faults, whatever is asked, it answers as the map does. *)

From S2P Require Import Prelude CoreTypes Interfaces FileSys Objects Store.

(** [trait ObjectStore]. *)
Class ObjectStore (W : Type) := {
  os_put_blob : bytes → M W CoreError Hash;
  os_get_blob : Hash → M W CoreError bytes;
  os_put_tree : list TreeEntry → M W CoreError Hash;
  os_get_tree : Hash → M W CoreError (list TreeEntry);
  os_commit : Hash → list Hash → string → M W CoreError Hash;
  os_exists : Hash → M W CoreError bool;
}.

(** ** Requests *)

Inductive Request :=
| ReqPutBlob (data : bytes)
| ReqGetBlob (hash : Hash)
| ReqPutTree (entries : list TreeEntry)
| ReqGetTree (hash : Hash)
| ReqCommit (tree_hash : Hash) (parent_hashes : list Hash) (message : string)
| ReqExists (hash : Hash).

Inductive Answer :=
| AnsHash (hash : Hash)
| AnsBlob (data : bytes)
| AnsTree (entries : list TreeEntry)
| AnsBool (b : bool).

Definition perform {W} (S : ObjectStore W) (r : Request) : M W CoreError Answer :=
  match r with
  | ReqPutBlob data => let! h := os_put_blob data in ret (AnsHash h)
  | ReqGetBlob hash => let! d := os_get_blob hash in ret (AnsBlob d)
  | ReqPutTree entries => let! h := os_put_tree entries in ret (AnsHash h)
  | ReqGetTree hash => let! es := os_get_tree hash in ret (AnsTree es)
  | ReqCommit tree_hash parent_hashes message =>
      let! h := os_commit tree_hash parent_hashes message in ret (AnsHash h)
  | ReqExists hash => let! b := os_exists hash in ret (AnsBool b)
  end.

(** Requests one after the other, each at its own time. *)
Fixpoint serve {W} (S : DateTime → ObjectStore W) (rs : list (DateTime * Request)) (w : W) :
    list (outcome CoreError Answer) * W :=
  match rs with
  | [] => ([], w)
  | (now, r) :: rs =>
      let '(o, w) := perform (S now) r w in
      let '(os, w) := serve S rs w in (o :: os, w)
  end.

Section contract.
Context `{SerdeJson Object, SerdeJson Tag, DigestLaws, ZlibLaws, TimeText, DebugText Object}.
Context `{!SerdeJsonLaws Object, !SerdeJsonLaws Tag}.

(** The author of the commits: [LocalObjectStore::commit] asks for one, the trait does
    not. *)
Context (author : string).

(** The methods of [LocalObjectStore] under the trait's signatures. *)
Definition local_object_store (root : string) (now : DateTime) : ObjectStore World := {|
  os_put_blob := put_blob root;
  os_get_blob := get_blob root;
  os_put_tree := put_tree root;
  os_get_tree := get_tree root;
  os_commit tree_hash parent_hashes message := commit root now tree_hash parent_hashes author message;
  os_exists := exists_ root;
|}.

(** ** The abstract store

    An object is kept under its hash, the first one for good. *)

Abbreviation ObjectMap := (gmap Hash Object).
Definition map_write (o : Object) (h : Hash) : M ObjectMap CoreError unit := λ m,
  (Done (Ok tt), match m !! h with Some _ => m | None => <[h := o]> m end).
Definition map_read (h : Hash) : M ObjectMap CoreError Object := λ m, (Done (ok_or (ObjectNotFound h) (m !! h)), m).

Definition map_object_store (now : DateTime) : ObjectStore ObjectMap := {|
  os_put_blob data :=
    let h := hash_blob data in
    let! _ := map_write (OBlob (mkBlob h data)) h in ret h;
  os_get_blob h :=
    let! o := map_read h in
    match o with
    | OBlob b => ret (blob_data b)
    | other => raise (HashMismatch h ("expected Blob, got " +:+ debug_text other))
    end;
  os_put_tree entries :=
    let h := hash_tree entries in
    let! _ := map_write (OTree (mkTree h entries)) h in ret h;
  os_get_tree h :=
    let! o := map_read h in
    match o with
    | OTree t => ret (tree_entries t)
    | other => raise (HashMismatch h ("expected Tree, got " +:+ debug_text other))
    end;
  os_commit tree_hash parent_hashes message :=
    let h := hash_commit tree_hash parent_hashes author now message in
    let! _ := map_write (OCommit (mkCommit h tree_hash parent_hashes author now message)) h in ret h;
  os_exists h := λ m, (Done (Ok (bool_decide (is_Some (m !! h)))), m);
|}.

(** ** The refinement *)

Context (root : string).

(** A sound store without faults, and the map of its objects. *)
Record related (w : World) (m : ObjectMap) : Prop := {
  rel_faults : faults w = [];
  rel_wf : store_wf root w;
  rel_some h o : is_hash h → m !! h = Some o → stored root w h o ∧ object_hash o = h;
  rel_none h p : is_hash h → m !! h = None → object_file root h = Some p → fs_lookup w p = None;
}.

(** A computation answers as the abstract one does, and keeps the states related. *)
Definition refines {A} (c : M World CoreError A) (a : M ObjectMap CoreError A) : Prop :=
  ∀ w m, related w m → ∃ w', c w = ((a m).1, w') ∧ related w' (a m).2.

Lemma refines_ret {A} (x : A) : refines (ret x) (ret x).
Proof. intros w m Hr. by exists w. Qed.
Lemma refines_raise {A} e : refines (A := A) (raise e) (raise e).
Proof. intros w m Hr. by exists w. Qed.
Lemma refines_bind {A B} (c : M World CoreError A) a (k : A → M World CoreError B) k' :
  refines c a → (∀ x, refines (k x) (k' x)) → refines (bind c k) (bind a k').
Proof.
  intros Hc Hk w m Hr. destruct (Hc w m Hr) as (w1 & Hw & Hr1). unfold bind. rewrite Hw.
  destruct (a m) as [[[x|e]|why] m1]; simpl in *; [by apply Hk|by exists w1..].
Qed.

Lemma is_hash_file h : is_hash h → ∃ pre rest, split_at_2 h = Some (pre, rest) ∧ plain pre ∧ plain rest ∧
  object_file root h = Some (file_of root pre rest).
Proof.
  intros (pre & rest & Hs & Hp & Hr & _)%is_hash_split. exists pre, rest. split_and!; [done..|].
  by apply object_file_hash.
Qed.

(** A write under a hash leaves the files of the other hashes alone. *)
Lemma write_object_other o h w out w' h' p : is_hash h → is_hash h' → h ≠ h' →
  write_object root o h w = (out, w') → object_file root h' = Some p → fs_lookup w' p = fs_lookup w p.
Proof.
  intros Hh Hh' Hne Hw Hp. destruct (is_hash_file h Hh) as (pre & rest & Hs & Hpp & Hr & Hof).
  apply (write_object_frame root _ _ pre rest) in Hw as [(_ & -> & _)|[_ (w1 & Hfr & _ & Honly & _)]]; [done| |done..].
  destruct (is_hash_file h' Hh') as (pre' & rest' & _ & _ & _ & Hof'). rewrite Hof' in Hp. injection Hp as <-.
  rewrite Honly; [apply Hfr, file_of_not_prefix|].
  intros Heq. rewrite Heq in Hof'. destruct Hne. by eapply (object_file_inj root).
Qed.

Lemma refines_write o h : is_hash h → authentic o → object_hash o = h →
  refines (write_object root o h) (map_write o h).
Proof.
  intros Hh Ha Ho w m Hr. pose proof Hr as [Hf Hwf Hsome Hnone]. unfold map_write. simpl.
  destruct (is_hash_file h Hh) as (pre & rest & Hs & Hpp & Hrp & Hof).
  destruct (m !! h) as [o0|] eqn:Hm.
  - destruct (Hsome h o0 Hh Hm) as [(p & s & Hp & _ & Hl) _]. exists w. split; [|done].
    apply (write_object_exists root _ _ p); [done|by eexists].
  - destruct (write_object_put root o h w) as (w' & Hw & Hf' & Hwf' & o' & Hst & _ & _ & Hor); [done..|].
    assert (o' = o) as ->.
    { destruct Hor as [|(p & s & Hp & _ & Hl)]; [done|]. rewrite (Hnone h p) in Hl; done. }
    exists w'. split; [done|]. split; [done|done| |].
    + intros h' o'. rewrite lookup_insert. case_decide as Hd; intros Hh' Ho'.
      * subst h'. injection Ho' as <-. done.
      * destruct (Hsome h' o' Hh' Ho') as [(p & s & Hp & Hs' & Hl) ?]. split; [|done]. exists p, s.
        split_and!; [done..|]. rewrite <- Hl. by apply (write_object_other o h w (Done (Ok tt)) w' h').
    + intros h' p Hh'. rewrite lookup_insert. case_decide as Hd; [done|]. intros Hn Hp.
      rewrite <- (Hnone h' p) by done. by apply (write_object_other o h w (Done (Ok tt)) w' h').
Qed.

Lemma refines_read h : is_hash h → refines (read_object root h) (map_read h).
Proof.
  intros Hh w m Hr. pose proof Hr as [Hf Hwf Hsome Hnone]. exists w. split; [|done]. unfold map_read. simpl.
  destruct (m !! h) as [o|] eqn:Hm; simpl.
  - destruct (Hsome h o Hh Hm). by apply read_object_stored.
  - destruct (is_hash_file h Hh) as (pre & rest & Hs & _ & _ & Hof). pose proof (Hnone h _ Hh Hm Hof) as Hl.
    unfold read_object, object_path. unfold object_file in Hof. rewrite Hs in *. injection Hof as Hof.
    unfold bind, ret. unfold path_exists. by rewrite Hof, Hl.
Qed.

Lemma refines_exists h : is_hash h →
  refines (exists_ root h) (λ m, (Done (Ok (bool_decide (is_Some (m !! h)))), m)).
Proof.
  intros Hh w m Hr. pose proof Hr as [Hf Hwf Hsome Hnone]. exists w. split; [|done]. simpl.
  destruct (is_hash_file h Hh) as (pre & rest & Hs & _ & _ & Hof).
  unfold exists_, object_path. pose proof Hof as Hof'. unfold object_file in Hof'. rewrite Hs in *. injection Hof' as Hof'.
  unfold bind, ret, path_exists. rewrite Hof'. destruct (m !! h) as [o|] eqn:Hm.
  - destruct (Hsome h o Hh Hm) as [(p & s & Hp & _ & Hl) _]. simplify_eq. by rewrite Hl, !bool_decide_eq_true_2 by eauto.
  - by rewrite (Hnone h _ Hh Hm Hof), !bool_decide_eq_false_2 by (by intros [? ?]).
Qed.

Hint Resolve refines_ret refines_raise refines_bind refines_read refines_exists : core.

(** The hashes a request names are hashes. *)
Definition well_formed (r : Request) : Prop :=
  match r with ReqGetBlob h | ReqGetTree h | ReqExists h => is_hash h | _ => True end.

Lemma refines_perform now r : well_formed r →
  refines (perform (local_object_store root now) r) (perform (map_object_store now) r).
Proof.
  intros Hr. destruct r; simpl in *; apply refines_bind; auto.
  - apply refines_bind; [|done]. apply refines_write; [apply hex_encode_is_hash|by eexists|done].
  - apply refines_bind; [auto|]. intros []; auto.
  - apply refines_bind; [|done]. apply refines_write; [apply hex_encode_is_hash|by eexists|done].
  - apply refines_bind; [auto|]. intros []; auto.
  - apply refines_bind; [|done]. apply refines_write; [apply hex_encode_is_hash|by eexists|done].
Qed.

Lemma serve_refines rs w m : Forall (well_formed ∘ snd) rs → related w m →
  (serve (local_object_store root) rs w).1 = (serve map_object_store rs m).1 ∧
  related (serve (local_object_store root) rs w).2 (serve map_object_store rs m).2.
Proof.
  intros Hwf. revert w m. induction Hwf as [|[now r] rs Hr _ IH]; intros w m Hrel; [done|].
  cbn [serve]. destruct (refines_perform now r Hr w m Hrel) as (w' & Hw & Hrel'). rewrite Hw.
  destruct (perform (map_object_store now) r m) as [o m']. simpl in *.
  destruct (IH w' m' Hrel') as [Ho Hs].
  destruct (serve (local_object_store root) rs w') as [os w2], (serve map_object_store rs m') as [os' m2].
  simpl in *. by subst.
Qed.

Lemma empty_related : related (mkWorld ∅ []) ∅.
Proof.
  split; [done|apply empty_store_inv|done|]. intros h p Hh _ Hp.
  destruct (is_hash_file h Hh) as (pre & rest & _ & _ & _ & Hof). simplify_eq.
  destruct (file_of_not_root root pre rest). unfold fs_lookup. rewrite decide_False by tauto. done.
Qed.

(** C38: the local store is a map from hashes to objects.  On an empty disk without
    faults, whatever sequence of blobs, trees, commits, reads and queries it is asked
    for, in any order and at any times, the store gives exactly the answers the map
    gives, errors included: an object that was never put is not found, one of another
    kind is a mismatch, and what was first put under a hash is what is read from then
    on. *)
Theorem local_store_is_a_map rs : Forall (well_formed ∘ snd) rs →
  (serve (local_object_store root) rs (mkWorld ∅ [])).1 = (serve map_object_store rs ∅).1.
Proof. intros Hrs. exact (proj1 (serve_refines rs _ _ Hrs empty_related)). Qed.
End contract.

(** ** A concrete run: a blob is put and read, read as a tree, and another is missing *)

Module DemoContract.
Definition now : DateTime := 5%Z.
Definition requests `{Digest} : list (DateTime * Request) :=
  let h := hash_blob Demo.data in
  [(now, ReqExists h); (now, ReqPutBlob Demo.data); (now, ReqGetBlob h); (now, ReqGetTree h);
   (now, ReqGetBlob (hash_blob []))].
End DemoContract.

Lemma local_store_is_a_map_witness :
  let _ := Demo.object_json in let _ := Demo.tag_json in let D := Toy.digest in
  let _ := Toy.zlib in let _ := Demo.zone in let _ := Demo.debug in
  let h := hash_blob Demo.data in
  (serve (local_object_store "me" "/s") (DemoContract.requests (H := D)) (mkWorld ∅ [])).1 =
    [Done (Ok (AnsBool false)); Done (Ok (AnsHash h)); Done (Ok (AnsBlob Demo.data));
     Done (Err (HashMismatch h "expected Tree, got Object")); Done (Err (ObjectNotFound (hash_blob [])))].
Proof.
  intros J T D Z F G h.
  etransitivity; [apply (local_store_is_a_map (H2 := Toy.digest_laws) (H4 := Toy.zlib_laws)
    (SerdeJsonLaws0 := countable_json_laws _))|reflexivity].
  pose proof (hex_encode_is_hash (H2 := Toy.digest_laws)) as Hh.
  repeat (apply Forall_cons; split; [try exact I; apply Hh|]). apply Forall_nil. exact I.
Defined.
