(* ===== verification/ObjectTransport.v ===== *)
(** * The object transport of the storage crate (crates/storage/src/transport.rs)

    The stub that stands where objects will be fetched from peers; the fetching the
    program does is [CasFetch]. *)

From S2P Require Import Prelude CoreTypes.

Record P2pObjectTransport := mkP2pObjectTransport { _private : unit }.

(** [P2pObjectTransport::new], also its [Default]. *)
Definition object_transport_new : P2pObjectTransport := mkP2pObjectTransport tt.

Definition transport_fetch (hash : Hash) : M P2pObjectTransport CoreError bytes :=
  raise (ObjectNotFound (fmt ["P2P transport not yet implemented — hash: "; hash])).

(** The announcement is only logged. *)
Definition announce (hash : Hash) : M P2pObjectTransport CoreError unit := ret tt.

(** No object is ever found through the stub, not one that was announced either; the
    error names the hash. *)
Lemma announced_object_not_found hashes hash :
  (let! _ := mfor announce hashes in transport_fetch hash) object_transport_new =
  (Done (Err (ObjectNotFound (fmt ["P2P transport not yet implemented — hash: "; hash]))), object_transport_new).
Proof. induction hashes as [|h hashes IH]; [done|]. apply IH. Qed.
