(* ===== verification/RaftStorage.v ===== *)
(** * CAS-backed raft storage (crates/node/src/raft/storage.rs)

    The log entries of a raft node: their data as blobs of the object store, their
    hashes by index, and an LRU cache of whole entries. *)

From S2P Require Import Prelude CoreTypes Interfaces Json BlobStore.

(** ** The raft crate's data *)

Record Entry := mkEntry {
  entry_type : N;
  e_term : N;
  e_index : N;
  e_data : bytes;
  e_context : bytes;
  sync_log : bool;
}.
#[export] Instance Entry_eq_dec : EqDecision Entry.
Proof. solve_decision. Defined.

Definition Entry_default : Entry :=
  {| entry_type := 0; e_term := 0; e_index := 0; e_data := []; e_context := []; sync_log := false |}.

Record HardState := mkHardState { hs_term : N; hs_vote : N; hs_commit : N }.
Definition HardState_default : HardState := mkHardState 0 0 0.

Record ConfState := mkConfState {
  voters : list N;
  learners : list N;
  voters_outgoing : list N;
  learners_next : list N;
  auto_leave : bool;
}.
Definition ConfState_default : ConfState := mkConfState [] [] [] [] false.

Record RaftState := mkRaftState { rs_hard_state : HardState; rs_conf_state : ConfState }.

Record SnapshotMetadata := mkSnapshotMetadata {
  md_conf_state : option ConfState; md_index : N; md_term : N }.
Record Snapshot := mkSnapshot { sn_data : bytes; sn_metadata : option SnapshotMetadata }.

Inductive RaftError := Unavailable | SnapshotTemporarilyUnavailable.

(** ** The lru crate

    A cache is observed by [peek]; [get] and [put] return what the map holds and
    may reorder or evict, but never change a value. *)

Class Lru (C : Type) := {
  lru_new : N → C;
  peek : C → N → option Entry;
  lru_get : N → C → option Entry * C;
  lru_put : N → Entry → C → C;
  lru_pop : N → C → C;
}.

Class LruLaws (C : Type) `{Lru C} := {
  peek_new cap i : peek (lru_new cap) i = None;
  lru_get_value i c : (lru_get i c).1 = peek c i;
  lru_get_peek i c j : peek (lru_get i c).2 j = peek c j;
  lru_put_same i e c : peek (lru_put i e c) i = Some e;
  lru_put_other i e c j : i ≠ j → peek (lru_put i e c) j = peek c j ∨ peek (lru_put i e c) j = None;
  lru_pop_same i c : peek (lru_pop i c) i = None;
  lru_pop_other i c j : i ≠ j → peek (lru_pop i c) j = peek c j;
}.

Definition ENTRY_CACHE_SIZE : N := 1024.

Section storage.
Context {W C : Type} `{BlobStore W, Lru C, SerdeJson JsonValue}.

Record CasRaftStorage := mkCasRaftStorage {
  object_store : W;
  entry_cache : C;
  hard_state : option HardState;
  conf_state : option ConfState;
  first_index_ : N;
  last_index_ : N;
  entry_hashes : list (option Hash);
}.

(** Field updates. *)
Definition set_store (w : W) (s : CasRaftStorage) : CasRaftStorage :=
  mkCasRaftStorage w (entry_cache s) (hard_state s) (conf_state s) (first_index_ s) (last_index_ s)
    (entry_hashes s).
Definition set_cache (c : C) (s : CasRaftStorage) : CasRaftStorage :=
  mkCasRaftStorage (object_store s) c (hard_state s) (conf_state s) (first_index_ s) (last_index_ s)
    (entry_hashes s).
Definition set_hard (h : option HardState) (s : CasRaftStorage) : CasRaftStorage :=
  mkCasRaftStorage (object_store s) (entry_cache s) h (conf_state s) (first_index_ s) (last_index_ s)
    (entry_hashes s).
Definition set_conf (c : option ConfState) (s : CasRaftStorage) : CasRaftStorage :=
  mkCasRaftStorage (object_store s) (entry_cache s) (hard_state s) c (first_index_ s) (last_index_ s)
    (entry_hashes s).
Definition set_first (i : N) (s : CasRaftStorage) : CasRaftStorage :=
  mkCasRaftStorage (object_store s) (entry_cache s) (hard_state s) (conf_state s) i (last_index_ s)
    (entry_hashes s).
Definition set_last (i : N) (s : CasRaftStorage) : CasRaftStorage :=
  mkCasRaftStorage (object_store s) (entry_cache s) (hard_state s) (conf_state s) (first_index_ s) i
    (entry_hashes s).
Definition set_hashes (l : list (option Hash)) (s : CasRaftStorage) : CasRaftStorage :=
  mkCasRaftStorage (object_store s) (entry_cache s) (hard_state s) (conf_state s) (first_index_ s)
    (last_index_ s) l.

(** A call on the object store. *)
Definition with_store {E A} (m : M W E A) : M CasRaftStorage E A := λ s,
  let '(o, w) := m (object_store s) in (o, set_store w s).

Definition load_state_from_store (store : W) (cache : C) :
    option HardState * option ConfState * N * N := (None, None, 1%N, 0%N).

Definition storage_new (store : W) : CasRaftStorage :=
  let cache := lru_new ENTRY_CACHE_SIZE in
  let '(hs, cs, first_idx, last_idx) := load_state_from_store store cache in
  mkCasRaftStorage store cache hs cs first_idx last_idx [None].

Definition new_empty (store : W) (voters : list N) : CasRaftStorage :=
  mkCasRaftStorage store (lru_new ENTRY_CACHE_SIZE) None
    (Some (mkConfState voters [] [] [] false)) 1 0 [None].

(** [while hashes.len() <= idx { hashes.push(None) }; hashes[idx] = Some(hash)]. *)
Definition record_hash (idx : N) (hash : Hash) (hashes : list (option Hash)) : list (option Hash) :=
  <[N.to_nat idx := Some hash]>
    (hashes ++ replicate (S (N.to_nat idx) - length hashes) None).

Definition append_entry (entry : Entry) : M CasRaftStorage CoreError unit :=
  let idx := e_index entry in
  let! hash := with_store (bs_put (e_data entry)) in
  λ s,
    let s := set_hashes (record_hash idx hash (entry_hashes s)) s in
    let s := set_cache (lru_put idx entry (entry_cache s)) s in
    let s := if (last_index_ s <? idx)%N then set_last idx s else s in
    (Done (Ok tt), s).

Definition hard_state_to_json (hs : HardState) : JsonValue :=
  json_object [("term", JNumber (hs_term hs)); ("vote", JNumber (hs_vote hs));
               ("commit", JNumber (hs_commit hs))].
Definition conf_state_to_json (cs : ConfState) : JsonValue :=
  json_object [("voters", json_array (JNumber <$> voters cs));
               ("learners", json_array (JNumber <$> learners cs));
               ("auto_leave", JBool (auto_leave cs))].

Definition set_hard_state (hs : HardState) : M CasRaftStorage CoreError unit :=
  let! data := lift_result (result_map_err Serialization (to_vec (hard_state_to_json hs))) in
  let! _ := with_store (bs_put data) in
  λ s, (Done (Ok tt), set_hard (Some hs) s).

Definition set_conf_state (cs : ConfState) : M CasRaftStorage CoreError unit :=
  let! data := lift_result (result_map_err Serialization (to_vec (conf_state_to_json cs))) in
  let! _ := with_store (bs_put data) in
  λ s, (Done (Ok tt), set_conf (Some cs) s).

(** The indices [a..b] and [1..=n]. *)
Definition range (a b : N) : list N := (λ i, a + N.of_nat i)%N <$> seq 0 (N.to_nat (b - a)).

Definition compact (compact_index : N) : M CasRaftStorage CoreError unit := λ s,
  if (last_index_ s <? compact_index)%N then
    (Done (Err (InvalidState (fmt ["compact_index "; dec compact_index; " > last_index ";
       dec (last_index_ s)]))), s)
  else
    let s := set_first (u64_add compact_index 1) s in
    (Done (Ok tt), set_cache (foldl (λ c i, lru_pop i c) (entry_cache s)
                               (range 1 (compact_index + 1))) s).

(** ** The raft crate's [Storage] trait *)

Definition initial_state (s : CasRaftStorage) : RaftState :=
  mkRaftState (default HardState_default (hard_state s)) (default ConfState_default (conf_state s)).

(** [hashes.get(idx).cloned().flatten()]. *)
Definition tracked_hash (idx : N) (s : CasRaftStorage) : option Hash :=
  mjoin (entry_hashes s !! N.to_nat idx).

(** Whether pushing an entry of this size would exceed the limit. *)
Definition over_limit (max_size : option N) (entries : list Entry) (total size : N) : bool :=
  match max_size with
  | Some limit => negb (bool_decide (entries = [])) && (limit <? u64_add total size)%N
  | None => false
  end.

(** The entry of one index: from the cache, or rebuilt from its blob; the flag
    says that it must be put in the cache. *)
Definition fetch_entry (idx : N) : M CasRaftStorage RaftError (option (Entry * bool)) := λ s,
  let '(cached, c) := lru_get idx (entry_cache s) in
  let s := set_cache c s in
  match cached with
  | Some entry => (Done (Ok (Some (entry, false))), s)
  | None =>
      match tracked_hash idx s with
      | Some hash =>
          (let! r := attempt (with_store (bs_get hash)) in
           match r with
           | Ok data => ret (Some (mkEntry 0 0 idx data [] false, true))
           | Err _ => ret None
           end) s
      | None => (Done (Ok None), s)
      end
  end.

(** The [for idx in low..high] loop with its accumulators. *)
Fixpoint entries_loop (max_size : option N) (idxs : list N) (entries : list Entry) (total : N) :
    M CasRaftStorage RaftError (list Entry) :=
  match idxs with
  | [] => ret entries
  | idx :: idxs =>
      let! r := fetch_entry idx in
      match r with
      | Some (entry, fresh) =>
          let size := N.of_nat (length (e_data entry)) in
          if over_limit max_size entries total size then ret entries
          else λ s,
            entries_loop max_size idxs (entries ++ [entry]) (u64_add total size)
              (if fresh : bool then set_cache (lru_put idx entry (entry_cache s)) s else s)
      | None => entries_loop max_size idxs entries total
      end
  end.

Definition entries (low high : N) (max_size : option N) : M CasRaftStorage RaftError (list Entry) :=
  λ s,
    if (u64_add (last_index_ s) 1 <? high)%N then
      (Panic (fmt ["entries: requested high="; dec high; " exceeds last_index+1=";
         dec (u64_add (last_index_ s) 1)]), s)
    else entries_loop max_size (range low high) [] 0 s.

(** [u64::from_le_bytes]. *)
Definition from_le_bytes (b : bytes) : N :=
  foldr (λ x a, N.lor (Byte.to_N x) (N.shiftl a 8)) 0%N b.

(** [first - 1] on [u64] in a release build. *)
Definition u64_pred (n : N) : N := ((n + 2 ^ 64 - 1) mod 2 ^ 64)%N.

Definition term (idx : N) : M CasRaftStorage RaftError N := λ s,
  let first := first_index_ s in
  if (idx <? u64_pred first)%N then (Done (Err Unavailable), s)
  else if (idx =? u64_pred first)%N then (Done (Ok 0%N), s)
  else
    let '(cached, c) := lru_get idx (entry_cache s) in
    let s := set_cache c s in
    match cached with
    | Some entry => (Done (Ok (e_term entry)), s)
    | None =>
        match tracked_hash idx s with
        | Some hash =>
            (let! r := attempt (with_store (bs_get hash)) in
             match r with
             | Ok data => if (8 <=? length data)%nat then ret (from_le_bytes (take 8 data))
                          else raise Unavailable
             | Err _ => raise Unavailable
             end) s
        | None => (Done (Err Unavailable), s)
        end
    end.

Definition first_index (s : CasRaftStorage) : N := first_index_ s.
Definition last_index (s : CasRaftStorage) : N := last_index_ s.

(** The data of a snapshot: the readable entries' blobs, a newline after each. *)
Fixpoint snapshot_data (idxs : list N) (data : bytes) : M CasRaftStorage RaftError bytes :=
  match idxs with
  | [] => ret data
  | idx :: idxs => λ s,
      match tracked_hash idx s with
      | Some hash =>
          (let! r := attempt (with_store (bs_get hash)) in
           match r with
           | Ok entry_data => snapshot_data idxs (data ++ entry_data ++ [x0a])
           | Err _ => snapshot_data idxs data
           end) s
      | None => snapshot_data idxs data s
      end
  end.

Definition snapshot (request_index : N) : M CasRaftStorage RaftError Snapshot := λ s,
  let last := last_index_ s in
  if (last <? request_index)%N then (Done (Err SnapshotTemporarilyUnavailable), s)
  else
    (let! data := snapshot_data (range 1 (last + 1)) [] in
     λ s, (Done (Ok (mkSnapshot data
       (Some (mkSnapshotMetadata (Some (default ConfState_default (conf_state s))) last 1)))), s)) s.
End storage.

(** ** Specification *)

(** What the storage may return for a stored entry: the entry itself, or one
    rebuilt from its data alone. *)
Definition reloaded (e : Entry) : Entry := mkEntry 0 0 (e_index e) (e_data e) [] false.
Definition faithful (e' e : Entry) : Prop := e' = e ∨ e' = reloaded e.

(** The prefix of a list of entries that the size limit lets through. *)
Fixpoint limited (max_size : option N) (acc : list Entry) (total : N) (es : list Entry) :
    list Entry :=
  match es with
  | [] => []
  | e :: es =>
      let size := N.of_nat (length (e_data e)) in
      if over_limit max_size acc total size then []
      else e :: limited max_size (acc ++ [e]) (u64_add total size) es
  end.

Section spec.
Context {W C : Type} `{BlobStoreLaws W, LruLaws C, SerdeJson JsonValue}.

(** The storage holds the log [l]: every entry's data under its tracked hash, no
    hash for other indices, and a cache of faithful entries. *)
Record log_ok (s : CasRaftStorage (W := W) (C := C)) (l : gmap N Entry) : Prop := {
  lo_healthy : bs_healthy (object_store s);
  lo_index i e : l !! i = Some e → e_index e = i ∧ (i ≤ last_index_ s)%N;
  lo_hash i e : l !! i = Some e →
    ∃ h, tracked_hash i s = Some h ∧ bs_holds (object_store s) h (e_data e);
  lo_absent i : l !! i = None → tracked_hash i s = None;
  lo_cache i e' : peek (entry_cache s) i = Some e' → ∃ e, l !! i = Some e ∧ faithful e' e;
}.

(** ** Lemmas *)

Lemma tracked_record_hash i idx h (s : CasRaftStorage (W := W) (C := C)) :
  tracked_hash i (set_hashes (record_hash idx h (entry_hashes s)) s) =
  if decide (i = idx) then Some h else tracked_hash i s.
Proof.
  unfold tracked_hash, record_hash. simpl.
  set (hs := entry_hashes s). set (k := N.to_nat idx).
  assert (k < length (hs ++ replicate (S k - length hs) None)) as Hk.
  { rewrite length_app, length_replicate. lia. }
  case_decide as Hi; [subst i; by rewrite list_lookup_insert_eq|].
  rewrite list_lookup_insert_ne by lia.
  destruct (decide (N.to_nat i < length hs)).
  - by rewrite lookup_app_l.
  - rewrite lookup_app_r, (lookup_ge_None_2 hs) by lia.
    destruct (replicate _ _ !! _) as [o|] eqn:Ho; [|done].
    apply lookup_replicate in Ho as [-> _]. done.
Qed.

Lemma storage_new_ok store : bs_healthy store → log_ok (storage_new store) ∅.
Proof.
  intros Hs. split; simpl; [done|..].
  - intros i e. by rewrite lookup_empty.
  - intros i e. by rewrite lookup_empty.
  - intros i _. unfold tracked_hash. simpl. destruct (N.to_nat i) as [|[|n]]; done.
  - intros i e'. by rewrite peek_new.
Qed.

Lemma append_entry_ok e s l :
  log_ok s l → bs_adm (e_data e) →
  ∃ s', append_entry e s = (Done (Ok tt), s') ∧ log_ok s' (<[e_index e := e]> l) ∧
    last_index_ s' = N.max (last_index_ s) (e_index e).
Proof.
  intros [Hw Hidx Hhash Habs Hcache] Hadm.
  destruct (bs_put_ok (e_data e) (object_store s) Hw Hadm) as (h & w' & Hput & Hw' & Hh & Hkeep).
  eexists. split.
  { unfold append_entry, bind, with_store. by rewrite Hput. }
  set (s1 := set_cache _ _).
  assert (∀ s2, s2 = s1 ∨ s2 = set_last (e_index e) s1 →
    object_store s2 = w' ∧ entry_cache s2 = lru_put (e_index e) e (entry_cache s) ∧
    ∀ i, tracked_hash i s2 = if decide (i = e_index e) then Some h else tracked_hash i s) as Hs2.
  { intros s2 [-> | ->]; (split; [done|split; [done|]]); intros i;
      exact (tracked_record_hash i (e_index e) h s). }
  set (s' := if _ : bool then _ else _).
  assert (last_index_ s' = N.max (last_index_ s) (e_index e)) as Hlast.
  { unfold s'. simpl. destruct (N.ltb_spec (last_index_ s) (e_index e)); simpl; lia. }
  destruct (Hs2 s') as (Hst & Hc & Htr); [unfold s'; case_match; auto|].
  split; [|done]. split.
  - by rewrite Hst.
  - intros i e0. rewrite lookup_insert, Hlast. case_decide as Hi; [intros [= <-]; lia|].
    intros [? ?]%Hidx. lia.
  - intros i e0. rewrite lookup_insert, Htr, Hst. destruct (decide (e_index e = i)) as [<-|Hne].
    + intros [= <-]. rewrite decide_True by done. eauto.
    + rewrite decide_False by done. intros (h0 & ? & ?)%Hhash. eauto.
  - intros i. rewrite lookup_insert, Htr. destruct (decide (e_index e = i)) as [<-|Hne]; [done|].
    rewrite decide_False by done. apply Habs.
  - intros i e'. rewrite Hc, lookup_insert. case_decide as Hi.
    + subst i. rewrite lru_put_same. intros [= <-]. exists e. split; [done|by left].
    + destruct (lru_put_other (e_index e) e (entry_cache s) i Hi) as [->| ->]; [apply Hcache|done].
Qed.

(** The cache may change as long as it stays faithful. *)
Lemma set_cache_ok c s l :
  log_ok s l → (∀ i e', peek c i = Some e' → ∃ e, l !! i = Some e ∧ faithful e' e) →
  log_ok (set_cache c s) l.
Proof. intros [] Hc. by split. Qed.

Lemma lru_get_ok i s l : log_ok s l → log_ok (set_cache (lru_get i (entry_cache s)).2 s) l.
Proof.
  intros Hl. apply set_cache_ok; [done|]. intros j e'. rewrite lru_get_peek. by apply lo_cache.
Qed.

Lemma with_get_ok h d s l {E} :
  log_ok s l → bs_holds (object_store s) h d →
  (attempt (with_store (bs_get h)) s : outcome E _ * _) = (Done (Ok (Ok d)), s).
Proof.
  intros Hl Hd. unfold attempt, with_store. rewrite (bs_get_ok h d) by (try done; by eapply lo_healthy).
  simpl. by destruct s.
Qed.

(** Fetching an index gives its entry, faithfully, or nothing when there is none. *)
Lemma fetch_entry_ok i s l :
  log_ok s l →
  ∃ r s', fetch_entry i s = (Done (Ok r), s') ∧ log_ok s' l ∧ last_index_ s' = last_index_ s ∧
    entry_cache s' = (lru_get i (entry_cache s)).2 ∧
    match l !! i with
    | Some e => ∃ e' fresh, r = Some (e', fresh) ∧ faithful e' e ∧
                  (peek (entry_cache s) i = None → e' = reloaded e ∧ fresh = true)
    | None => r = None
    end.
Proof.
  intros Hl. unfold fetch_entry. pose proof (lru_get_value i (entry_cache s)) as Hv.
  pose proof (lru_get_ok i s l Hl) as Hl'. destruct (lru_get i (entry_cache s)) as [cached c].
  simpl in *. subst cached. destruct (peek (entry_cache s) i) as [e'|] eqn:Hp.
  - destruct (lo_cache s l Hl i e' Hp) as (e & He & Hf). rewrite He.
    eexists _, _. split; [done|]. split_and!; [done..|]. by exists e', false.
  - change (tracked_hash i (set_cache c s)) with (tracked_hash i s).
    destruct (l !! i) as [e|] eqn:He.
    + destruct (lo_hash s l Hl i e He) as (h & -> & Hh).
      unfold bind. rewrite (with_get_ok h (e_data e) (set_cache c s) l) by done.
      eexists _, _. split; [done|]. split_and!; [done..|]. eexists _, _. split; [done|].
      destruct (lo_index s l Hl i e He) as [<- _]. split; [by right|done].
    + rewrite (lo_absent s l Hl i He). eexists _, _. split; [done|]. by split_and!.
Qed.

Lemma fetch_entry_first i (s : CasRaftStorage (W := W) (C := C)) o s' :
  fetch_entry i s = (o, s') → first_index_ s' = first_index_ s.
Proof.
  unfold fetch_entry. destruct (lru_get i _) as [[e|] c]; [by intros; simplify_eq|].
  destruct (tracked_hash _ _) as [h|]; [|by intros; simplify_eq].
  unfold bind, attempt, with_store, ret. simpl.
  destruct (bs_get h _) as [[[d|e]|why] w]; intros; by simplify_eq.
Qed.

Lemma put_fetched_ok i e e' s l :
  log_ok s l → l !! i = Some e → faithful e' e → log_ok (set_cache (lru_put i e' (entry_cache s)) s) l.
Proof.
  intros Hl He Hf. apply set_cache_ok; [done|]. intros j e0. destruct (decide (i = j)) as [<-|Hne].
  - rewrite lru_put_same. intros [= <-]. eauto.
  - destruct (lru_put_other i e' (entry_cache s) j Hne) as [->| ->]; [by apply lo_cache|done].
Qed.

Lemma faithful_data e' e : faithful e' e → e_data e' = e_data e.
Proof. by intros [->| ->]. Qed.

Lemma over_limit_length max es es' total size :
  length es = length es' → over_limit max es total size = over_limit max es' total size.
Proof. unfold over_limit. by destruct max, es, es'. Qed.

Lemma entries_loop_ok max l idxs acc acc' total s :
  log_ok s l → length acc = length acc' →
  ∃ es s', entries_loop max idxs acc total s = (Done (Ok (acc ++ es)), s') ∧ log_ok s' l ∧
    last_index_ s' = last_index_ s ∧
    Forall2 faithful es (limited max acc' total (omap (λ i, l !! i) idxs)).
Proof.
  revert acc acc' total s. induction idxs as [|i idxs IH]; intros acc acc' total s Hl Hlen.
  - exists [], s. rewrite app_nil_r. split_and!; [done..|constructor].
  - destruct (fetch_entry_ok i s l Hl) as (r & s1 & Hf & Hl1 & Hlast & _ & Hr).
    cbn [entries_loop]. rewrite (bind_ok _ _ _ _ _ Hf). csimpl.
    destruct (l !! i) as [e|] eqn:He; [destruct Hr as (e' & fresh & -> & Hfa & _)|subst r].
    + cbn [limited]. rewrite (faithful_data _ _ Hfa), (over_limit_length _ acc acc') by done.
      destruct (over_limit _ _ _ _).
      { exists [], s1. rewrite app_nil_r. split_and!; [done..|constructor]. }
      set (s2 := if fresh then _ else _).
      assert (log_ok s2 l) as Hl2 by (unfold s2; destruct fresh; [by eapply put_fetched_ok|done]).
      destruct (IH (acc ++ [e']) (acc' ++ [e]) (u64_add total (N.of_nat (length (e_data e)))) s2)
        as (es & s' & Hloop & Hl' & Hla & Hes); [done|by rewrite !length_app, Hlen|].
      exists (e' :: es), s'. rewrite Hloop, <- app_assoc. split_and!; [done|done| |by constructor].
      rewrite Hla. unfold s2. by destruct fresh.
    + destruct (IH acc acc' total s1 Hl1 Hlen) as (es & s' & Hloop & Hl' & Hla & Hes).
      exists es, s'. split_and!; [done|done|congruence|done].
Qed.
Lemma entries_ok low high max s l :
  log_ok s l → (high ≤ last_index_ s + 1)%N → (last_index_ s + 1 < 2 ^ 64)%N →
  ∃ es s', entries low high max s = (Done (Ok es), s') ∧ log_ok s' l ∧
    Forall2 faithful es (limited max [] 0 (omap (λ i, l !! i) (range low high))).
Proof.
  intros Hl Hh Hlast. unfold entries. rewrite u64_add_small by done.
  rewrite (proj2 (N.ltb_ge _ _)) by done.
  destruct (entries_loop_ok max l (range low high) [] [] 0 s Hl eq_refl) as (es & s' & He & Hl' & _ & Hes).
  eauto.
Qed.

(** A sequence of appends, stopping at the first error. *)
Definition append_entries (es : list Entry) : M (CasRaftStorage (W := W) (C := C)) CoreError unit :=
  mfor append_entry es.

Lemma append_entries_ok es s l :
  log_ok s l → Forall (λ e, bs_adm (e_data e)) es →
  ∃ s', append_entries es s = (Done (Ok tt), s') ∧
    log_ok s' (foldl (λ l e, <[e_index e := e]> l) l es) ∧
    last_index_ s' = foldl (λ n e, N.max n (e_index e)) (last_index_ s) es.
Proof.
  intros Hl Hadm. revert s l Hl. induction Hadm as [|e es He _ IH]; intros s l Hl; [by exists s|].
  destruct (append_entry_ok e s l Hl He) as (s1 & Ha & Hl1 & Hlast).
  destruct (IH s1 _ Hl1) as (s2 & Hs2 & Hl2 & Hlast2).
  exists s2. unfold append_entries. cbn [mfor]. rewrite (bind_ok _ _ _ _ _ Ha).
  split_and!; [done..|]. simpl. by rewrite Hlast2, Hlast.
Qed.

(** The total size of some entries. *)
Definition data_size (es : list Entry) : N := foldr (λ e n, N.of_nat (length (e_data e)) + n)%N 0%N es.

Lemma data_size_app es es' : data_size (es ++ es') = (data_size es + data_size es')%N.
Proof. unfold data_size. induction es as [|e es IH]; simpl; lia. Qed.

Lemma limited_prefix max acc total es : limited max acc total es `prefix_of` es.
Proof.
  revert acc total. induction es as [|e es IH]; intros acc total; simpl; [done|].
  destruct (over_limit _ _ _ _); [apply prefix_nil|]. by apply prefix_cons.
Qed.

Lemma limited_bound limit acc total es :
  total = data_size acc → (data_size (acc ++ es) < 2 ^ 64)%N →
  length acc ≤ 1 ∨ (data_size acc ≤ limit)%N →
  length (acc ++ limited (Some limit) acc total es) ≤ 1 ∨
  (data_size (acc ++ limited (Some limit) acc total es) ≤ limit)%N.
Proof.
  revert acc total. induction es as [|e es IH]; intros acc total -> Hs Hacc; simpl.
  - by rewrite app_nil_r.
  - rewrite data_size_app in Hs. simpl in Hs. rewrite u64_add_small by lia.
    destruct (bool_decide (acc = [])) eqn:Hnil; simpl.
    + apply bool_decide_eq_true in Hnil as ->. simpl in *.
      specialize (IH [e] (N.of_nat (length (e_data e)) + 0)%N). simpl in IH.
      rewrite N.add_0_r in *. apply IH; [done|simpl; lia|left; lia].
    + destruct (N.ltb_spec limit (data_size acc + N.of_nat (length (e_data e)))).
      * by rewrite app_nil_r.
      * specialize (IH (acc ++ [e]) (data_size acc + N.of_nat (length (e_data e)))%N).
        rewrite <- !app_assoc in IH. apply IH; rewrite ?data_size_app; simpl; [lia|lia|right; lia].
Qed.

Lemma faithful_size es' es : Forall2 faithful es' es → data_size es' = data_size es.
Proof. induction 1 as [|e' e es' es He _ IH]; simpl; [done|]. by rewrite (faithful_data _ _ He), IH. Qed.

(** ** Properties *)


(** The size limit of [entries].  With a limit, what is returned corresponds to
    a prefix of the entries of the range; its data is within the limit, unless it is
    a single entry (the first one, returned whatever its size). *)
Theorem entries_size_limit low high limit s l :
  log_ok s l → (high ≤ last_index_ s + 1 < 2 ^ 64)%N →
  (data_size (omap (λ i, l !! i) (range low high)) < 2 ^ 64)%N →
  ∃ out s' es, entries low high (Some limit) s = (Done (Ok out), s') ∧ Forall2 faithful out es ∧
    es `prefix_of` omap (λ i, l !! i) (range low high) ∧
    (omap (λ i, l !! i) (range low high) ≠ [] → out ≠ []) ∧
    (length out ≤ 1 ∨ (data_size out ≤ limit)%N).
Proof.
  intros Hl [Hh Hb] Hsz. destruct (entries_ok low high (Some limit) s l Hl Hh Hb)
    as (out & s' & He & _ & Hout).
  exists out, s', (limited (Some limit) [] 0 (omap (λ i, l !! i) (range low high))).
  split_and!; [done|done|apply limited_prefix|..].
  - intros Hne ->. apply Forall2_nil_inv_l in Hout. by destruct (omap _ _).
  - rewrite (faithful_size _ _ Hout), (Forall2_length _ _ _ Hout).
    apply (limited_bound limit [] 0); [done|done|left; simpl; lia].
Qed.

(** An evicted entry loses its term.  For an entry no longer in the cache,
    [term] answers with the first eight bytes of its data (or reports it
    unavailable when the data is shorter), and after [entries] has reloaded it both
    the entry and [term] say 0, whatever term it was appended with. *)
Theorem evicted_term s l i e :
  log_ok s l → l !! i = Some e → (1 ≤ first_index_ s ≤ i)%N → (first_index_ s < 2 ^ 64)%N →
  (last_index_ s + 1 < 2 ^ 64)%N → peek (entry_cache s) i = None →
  (∃ s1, term i s = (Done (if (8 <=? length (e_data e))%nat
                           then Ok (from_le_bytes (take 8 (e_data e))) else Err Unavailable), s1)) ∧
  ∃ s2 s3, entries i (i + 1) None s = (Done (Ok [reloaded e]), s2) ∧
    term i s2 = (Done (Ok 0%N), s3).
Proof.
  intros Hl He Hi Hf Hlast Hp. destruct (lo_index s l Hl i e He) as [Hidx Hil].
  assert (u64_pred (first_index_ s) < i)%N as Hlt.
  { unfold u64_pred. replace (first_index_ s + 2 ^ 64 - 1)%N with (first_index_ s - 1 + 1 * 2 ^ 64)%N
      by lia. rewrite N.Div0.mod_add, N.mod_small; lia. }
  assert (∀ s' : CasRaftStorage (W := W) (C := C), first_index_ s' = first_index_ s → ((i <? u64_pred (first_index_ s')) = false ∧
    (i =? u64_pred (first_index_ s')) = false)%N) as Hguards.
  { intros s' ->. split; [apply N.ltb_ge|apply N.eqb_neq]; lia. }
  split.
  - unfold term. destruct (Hguards s eq_refl) as [-> ->].
    pose proof (lru_get_value i (entry_cache s)) as Hv. pose proof (lru_get_ok i s l Hl) as Hl'.
    destruct (lru_get i (entry_cache s)) as [cached c]. simpl in *. subst cached. rewrite Hp.
    change (tracked_hash i (set_cache c s)) with (tracked_hash i s).
    destruct (lo_hash s l Hl i e He) as (h & -> & Hh).
    unfold bind. rewrite (with_get_ok h (e_data e) (set_cache c s) l) by done.
    eexists. unfold ret, raise. by repeat case_match.
  - destruct (fetch_entry_ok i s l Hl) as (r & s1 & Hfe & Hl1 & Hl1' & Hc & Hr).
    rewrite He in Hr. destruct Hr as (e' & fresh & -> & _ & Hev). destruct (Hev Hp) as [-> ->].
    pose proof (fetch_entry_first _ _ _ _ Hfe) as Hfirst.
    pose proof (lru_get_value i (lru_put i (reloaded e) (entry_cache s1))) as Hv.
    rewrite lru_put_same in Hv.
    destruct (lru_get i (lru_put i (reloaded e) (entry_cache s1))) as [cached c] eqn:Hget.
    simpl in Hv. subst cached.
    exists (set_cache (lru_put i (reloaded e) (entry_cache s1)) s1). eexists. split.
    + unfold entries. rewrite u64_add_small by done. rewrite (proj2 (N.ltb_ge _ _)) by lia.
      unfold range. replace (N.to_nat (i + 1 - i)) with 1 by lia. simpl.
      rewrite N.add_0_r. by rewrite (bind_ok _ _ _ _ _ Hfe).
    + unfold term. simpl. destruct (Hguards s1 Hfirst) as [-> ->]. by rewrite Hget.
Qed.

(** Removing entries from the cache. *)
Lemma pop_all_peek idxs c j :
  peek (foldl (λ c i, lru_pop i c) c idxs) j = if decide (j ∈ idxs) then None else peek c j.
Proof.
  revert c. induction idxs as [|i idxs IH]; intros c; [done|]. cbn [foldl]. rewrite IH.
  destruct (decide (j ∈ idxs)), (decide (j ∈ i :: idxs)); try set_solver.
  - assert (j = i) as -> by set_solver. apply lru_pop_same.
  - apply lru_pop_other. set_solver.
Qed.

Lemma elem_of_range j a b : j ∈ range a b ↔ (a ≤ j < b)%N.
Proof.
  unfold range. rewrite list_elem_of_fmap. setoid_rewrite elem_of_seq. split.
  - intros (k & -> & Hk). lia.
  - intros Hj. exists (N.to_nat (j - a)). lia.
Qed.

(** Compaction.  Beyond the last index it fails and changes nothing;
    otherwise it sets the first index to the next one (also backwards, when called
    with a smaller index than before), keeps the log, the object store and the last
    index, and drops exactly the compacted entries from the cache. *)
Theorem compact_spec c s l :
  log_ok s l → (last_index_ s + 1 < 2 ^ 64)%N →
  ((last_index_ s < c)%N → ∃ e, compact c s = (Done (Err e), s)) ∧
  ((c ≤ last_index_ s)%N → ∃ s', compact c s = (Done (Ok tt), s') ∧ log_ok s' l ∧
    first_index s' = (c + 1)%N ∧ last_index s' = last_index s ∧ object_store s' = object_store s ∧
    ∀ i, peek (entry_cache s') i =
      if decide (1 ≤ i ≤ c)%N then None else peek (entry_cache s) i).
Proof.
  intros Hl Hb. unfold compact. split; intros Hc.
  - rewrite (proj2 (N.ltb_lt _ _)) by done. eauto.
  - rewrite (proj2 (N.ltb_ge _ _)) by done. rewrite u64_add_small by lia.
    set (s' := set_cache _ _).
    assert (∀ i, peek (entry_cache s') i =
      if decide (1 ≤ i ≤ c)%N then None else peek (entry_cache s) i) as Hpeek.
    { intros i. unfold s'. simpl. rewrite pop_all_peek.
      destruct (decide (i ∈ range 1 (c + 1))) as [Hi|Hi], (decide (1 ≤ i ≤ c)%N); try done;
        rewrite elem_of_range in Hi; lia. }
    exists s'. split_and!; try done. destruct Hl as [Hw Hidx Hhash Habs Hcache].
    split; try done. intros i e'. rewrite Hpeek. case_decide; [done|]. apply Hcache.
Qed.
End spec.

(** ** Concrete runs *)

(** A cache of one entry. *)
Module OneSlot.
Definition lru : Lru (option (N * Entry)) := {|
  lru_new _ := None;
  peek c i := match c with Some (j, e) => if decide (j = i) then Some e else None | None => None end;
  lru_get i c := (match c with Some (j, e) => if decide (j = i) then Some e else None | None => None end, c);
  lru_put i e _ := Some (i, e);
  lru_pop i c := match c with Some (j, e) => if decide (j = i) then None else Some (j, e) | None => None end;
|}.

Lemma lru_laws : @LruLaws _ lru.
Proof.
  split; simpl; try done.
  - intros i e c. by rewrite decide_True.
  - intros i e c j Hne. right. by rewrite decide_False.
  - intros i [[j e]|]; [|done]. destruct (decide (j = i)); [done|]. by rewrite decide_False.
  - intros i [[k e]|] j Hne; [|done]. destruct (decide (k = i)) as [->|]; [|done].
    by rewrite decide_False.
Qed.
End OneSlot.

Module Demo.
Definition entry (i t : N) (d : string) : Entry := mkEntry 0 t i (as_bytes d) [] false.
Definition log : list Entry := [entry 1 3 "first"; entry 2 3 "second"].
End Demo.


Module DemoState.
#[export] Existing Instance MemStore.mem_store.
#[export] Existing Instance OneSlot.lru.
#[export] Existing Instance MemStore.mem_store_laws.
#[export] Existing Instance OneSlot.lru_laws.

(** Two entries appended through a cache that holds one. *)
Definition state : CasRaftStorage := (append_entries Demo.log (storage_new ∅)).2.
Definition map : gmap N Entry := foldl (λ l e, <[e_index e := e]> l) ∅ Demo.log.

Lemma state_ok : log_ok state map.
Proof.
  destruct (append_entries_ok Demo.log (storage_new ∅) ∅) as (s & Ha & Hl & _).
  - apply storage_new_ok. intros h d. by rewrite lookup_empty.
  - by repeat constructor.
  - unfold state. by rewrite Ha.
Qed.
End DemoState.

Lemma entries_size_limit_witness :
  let _ := MemStore.mem_store in let _ := OneSlot.lru in
  ∃ out s', entries 1 3 (Some 4%N) DemoState.state = (Done (Ok out), s') ∧
    (length out ≤ 1 ∨ (data_size out ≤ 4)%N).
Proof.
  intros S L.
  destruct (entries_size_limit (H0 := MemStore.mem_store_laws) (H2 := OneSlot.lru_laws)
    1 3 4 DemoState.state DemoState.map DemoState.state_ok) as (out & s' & es & He & _ & _ & _ & Hb).
  - vm_compute. split; [discriminate|reflexivity].
  - vm_compute. reflexivity.
  - exists out, s'. exact (conj He Hb).
Defined.

Lemma evicted_term_witness :
  let _ := MemStore.mem_store in let _ := OneSlot.lru in
  ∃ s, term 1 DemoState.state = (Done (Err Unavailable), s).
Proof.
  intros S L.
  exact (proj1 (evicted_term (H0 := MemStore.mem_store_laws) (H2 := OneSlot.lru_laws)
    DemoState.state DemoState.map 1 (Demo.entry 1 3 "first") DemoState.state_ok eq_refl
    ltac:(vm_compute; split; discriminate) eq_refl eq_refl eq_refl)).
Defined.

Lemma compact_spec_witness :
  let _ := MemStore.mem_store in let _ := OneSlot.lru in
  ∃ s', compact 1 DemoState.state = (Done (Ok tt), s') ∧ first_index s' = 2%N.
Proof.
  intros S L.
  destruct (proj2 (compact_spec (H0 := MemStore.mem_store_laws) (H2 := OneSlot.lru_laws)
    1 DemoState.state DemoState.map DemoState.state_ok eq_refl)) as (s' & Hc & _ & Hf & _).
  - vm_compute. discriminate.
  - exists s'. exact (conj Hc Hf).
Defined.
