(* ===== verification/Swarm.v ===== *)
(** * The swarm event loop (crates/p2p/src/swarm.rs, discovery.rs, lib.rs)

    The loop that owns the libp2p swarm: it turns libp2p events into application
    events, executes commands, answers requests, and completes project jobs that
    run beside it.  What the loop asks libp2p to do is a list of actions. *)

From S2P Require Import Prelude CoreTypes Interfaces Channels Protocol.

(** A libp2p [ResponseChannel], by its identity, and [identify::Info], opaque. *)
Definition Channel : Type := N.
#[export] Instance Channel_eq_dec : EqDecision Channel := _ : EqDecision N.

Inductive Event :=
| PeerDiscovered (peer_id : PeerId) (address : Multiaddr)
| PeerExpired (peer_id : PeerId)
| DescriptorReceived (peer_id : PeerId) (descriptor : NodeDescriptor)
| DescriptorSent (peer_id : PeerId)
| NewListenAddr (address : Multiaddr)
| Identified (peer_id : PeerId) (info : string)
| ConnectionClosed (peer_id : PeerId)
| PeerConnected (peer_id : PeerId)
| ProjectResultReceived (peer_id : PeerId) (result : ProjectResult)
| RaftMessageReceived (peer_id : PeerId) (data : bytes)
| BlobRequestReceived (peer_id : PeerId) (hash : Hash)
| BlobResponseReceived (peer_id : PeerId) (hash : Hash) (found : bool) (data : bytes).

Inductive SwarmCommand :=
| Dial (addr : Multiaddr)
| RequestDescriptor (peer_id : PeerId)
| SendRaftMessage (peer_id : PeerId) (data : bytes)
| RequestBlob (peer_id : PeerId) (hash : Hash)
| SendProjectTask (peer_id : PeerId) (task : ProjectTask).

(** ** libp2p's events and the actions asked of it *)

Inductive RREvent (Req Resp : Type) :=
| RRRequest (peer : PeerId) (request : Req) (channel : Channel)
| RRResponse (peer : PeerId) (response : Resp)
| OutboundFailure (peer : PeerId) (error : string)
| InboundFailure (peer : PeerId) (error : string)
| ResponseSent (peer : PeerId).
Arguments RRRequest {Req Resp} _ _ _.
Arguments RRResponse {Req Resp} _ _.
Arguments OutboundFailure {Req Resp} _ _.
Arguments InboundFailure {Req Resp} _ _.
Arguments ResponseSent {Req Resp} _.

Inductive BehaviourEvent :=
| MdnsDiscovered (peers : list (PeerId * Multiaddr))
| MdnsExpired (peers : list (PeerId * Multiaddr))
| IdentifyReceived (peer_id : PeerId) (info : string)
| IdentifyOther
| Ping (peer : PeerId) (result : result string N)
| DescriptorExchange (e : RREvent DescriptorRequest DescriptorResponse)
| RaftExchange (e : RREvent RaftMessageRequest RaftMessageResponse)
| BlobExchange (e : RREvent BlobRequest BlobResponse)
| ProjectExchange (e : RREvent ProjectTask ProjectResult).

Inductive SwarmEvent :=
| SeNewListenAddr (address : Multiaddr)
| SeConnectionClosed (peer_id : PeerId)
| SeConnectionEstablished (peer_id : PeerId)
| SeBehaviour (e : BehaviourEvent)
| SeOther.

Inductive NetAction :=
| DoDial (addr : Multiaddr)
| ReqDescriptor (peer : PeerId) (r : DescriptorRequest)
| ReqRaft (peer : PeerId) (r : RaftMessageRequest)
| ReqBlob (peer : PeerId) (r : BlobRequest)
| ReqProject (peer : PeerId) (t : ProjectTask)
| RespDescriptor (c : Channel) (r : DescriptorResponse)
| RespRaft (c : Channel) (r : RaftMessageResponse)
| RespBlob (c : Channel) (r : BlobResponse)
| RespProject (c : Channel) (r : ProjectResult).

(** ** The state of the loop and of the jobs beside it *)

Inductive Status := Running | Stopped | Crashed (why : string).

Record ProjectOutcome := mkProjectOutcome { po_task_id : TaskId; po_result : ProjectResult }.

(** A spawned job: the task it runs and the peer that sent it. *)
Record Job := mkJob { job_task : ProjectTask; job_peer : PeerId }.

Record Loop := mkLoop {
  status : Status;
  actions : list NetAction;
  event_tx : Sender Event;
  project_queue : list ProjectOutcome;
  pending : gmap TaskId Channel;
  jobs : gmap N Job;
  next_job : N;
}.

Definition set_status (x : Status) (s : Loop) : Loop :=
  mkLoop x (actions s) (event_tx s) (project_queue s) (pending s) (jobs s) (next_job s).
Definition act (a : NetAction) (s : Loop) : Loop :=
  mkLoop (status s) (actions s ++ [a]) (event_tx s) (project_queue s) (pending s) (jobs s) (next_job s).
Definition set_event_tx (c : Sender Event) (s : Loop) : Loop :=
  mkLoop (status s) (actions s) c (project_queue s) (pending s) (jobs s) (next_job s).
Definition set_queue (q : list ProjectOutcome) (s : Loop) : Loop :=
  mkLoop (status s) (actions s) (event_tx s) q (pending s) (jobs s) (next_job s).
Definition set_pending (p : gmap TaskId Channel) (s : Loop) : Loop :=
  mkLoop (status s) (actions s) (event_tx s) (project_queue s) p (jobs s) (next_job s).
Definition set_jobs (j : gmap N Job) (s : Loop) : Loop :=
  mkLoop (status s) (actions s) (event_tx s) (project_queue s) (pending s) j (next_job s).
Definition spawn (j : Job) (s : Loop) : Loop :=
  mkLoop (status s) (actions s) (event_tx s) (project_queue s) (pending s)
    (<[next_job s := j]> (jobs s)) (N.succ (next_job s)).

(** What the loop is created with: [blob_provider] may panic, [has_executor] says
    whether the node runs project tasks. *)
Record Config := mkConfig {
  self_peer_id : PeerId;
  self_descriptor : NodeDescriptor;
  bootstrap_peers : list Multiaddr;
  blob_provider : option (Hash → outcome string (option bytes));
  has_executor : bool;
}.

Definition project_failure (task : ProjectTask) (exit_code : Z) (msg : string) : ProjectResult :=
  {| pr_task_id := pt_task_id task; pr_exit_code := exit_code; pr_stdout := [];
     pr_stderr := as_bytes msg; pr_execution_time_ms := 0; pr_executed_on := uuid_nil |}.

Definition no_executor_msg : string :=
  "no project executor on this node (Linux+KVM required); task rejected instead of silently dropped".

Section swarm.
Context `{SerdeJson NodeDescriptor, UuidText}.
Context (cfg : Config).

(** Each handler returns the application event it produces, if any. *)

Definition handle_project_exchange (event : RREvent ProjectTask ProjectResult) (s : Loop) :
    option Event * Loop :=
  match event with
  | RRRequest peer request channel =>
      if has_executor cfg then
        (None, spawn (mkJob request peer) (set_pending (<[pt_task_id request := channel]> (pending s)) s))
      else (None, act (RespProject channel (project_failure request 101 no_executor_msg)) s)
  | RRResponse peer response => (Some (ProjectResultReceived peer response), s)
  | OutboundFailure _ _ | InboundFailure _ _ | ResponseSent _ => (None, s)
  end.

Definition handle_blob_exchange (event : RREvent BlobRequest BlobResponse) (s : Loop) :
    option Event * Loop :=
  match event with
  | RRRequest peer request channel =>
      let hash := breq_hash request in
      let answer found data :=
        (Some (BlobRequestReceived peer hash), act (RespBlob channel (mkBlobResponse hash found data)) s) in
      match blob_provider cfg with
      | Some p =>
          match p hash with
          | Done (Ok (Some bytes)) => answer true bytes
          | Done _ => answer false []
          | Panic why => (None, set_status (Crashed why) s)
          end
      | None => answer false []
      end
  | RRResponse peer response =>
      (Some (BlobResponseReceived peer (bresp_hash response) (found response) (bresp_data response)), s)
  | OutboundFailure _ _ | InboundFailure _ _ | ResponseSent _ => (None, s)
  end.

Definition handle_raft_exchange (event : RREvent RaftMessageRequest RaftMessageResponse) (s : Loop) :
    option Event * Loop :=
  match event with
  | RRRequest peer request channel =>
      (Some (RaftMessageReceived peer (rm_data request)),
       act (RespRaft channel (mkRaftMessageResponse true)) s)
  | RRResponse _ _ => (None, s)
  | OutboundFailure _ _ | InboundFailure _ _ | ResponseSent _ => (None, s)
  end.

Definition handle_descriptor_exchange (event : RREvent DescriptorRequest DescriptorResponse)
    (s : Loop) : option Event * Loop :=
  match event with
  | RRRequest peer request channel =>
      match from_descriptor (self_descriptor cfg) with
      | Ok response => (Some (DescriptorSent peer), act (RespDescriptor channel response) s)
      | Err _ => (None, s)
      end
  | RRResponse peer response =>
      match to_descriptor response with
      | Ok descriptor => (Some (DescriptorReceived peer descriptor), s)
      | Err _ => (None, s)
      end
  | OutboundFailure _ _ | InboundFailure _ _ | ResponseSent _ => (None, s)
  end.

Definition of_option (x : option Event * Loop) : list Event * Loop := (option_list x.1, x.2).

Definition handle_behaviour_event (event : BehaviourEvent) (s : Loop) : list Event * Loop :=
  match event with
  | MdnsDiscovered peers =>
      (omap (λ p, if decide (p.1 = self_peer_id cfg) then None
                  else Some (PeerDiscovered p.1 p.2)) peers, s)
  | MdnsExpired peers =>
      (omap (λ p, if decide (p.1 = self_peer_id cfg) then None else Some (PeerExpired p.1)) peers, s)
  | IdentifyReceived peer_id info => ([Identified peer_id info], s)
  | IdentifyOther => ([], s)
  | Ping _ _ => ([], s)
  | DescriptorExchange e => of_option (handle_descriptor_exchange e s)
  | RaftExchange e => of_option (handle_raft_exchange e s)
  | BlobExchange e => of_option (handle_blob_exchange e s)
  | ProjectExchange e => of_option (handle_project_exchange e s)
  end.

(** [for event in app_event { if event_tx.send(event).await.is_err() { break; } }]:
    the [break] leaves this loop only. *)
Fixpoint forward_events (events : list Event) (s : Loop) : Loop :=
  match events with
  | [] => s
  | e :: events =>
      let '(o, tx) := chan_send e (event_tx s) in
      let s := set_event_tx tx s in
      match o with
      | Done (Ok _) => forward_events events s
      | _ => s
      end
  end.

Definition on_swarm_event (e : option SwarmEvent) (s : Loop) : Loop :=
  match e with
  | Some (SeNewListenAddr address) => forward_events [NewListenAddr address] s
  | Some (SeConnectionClosed peer_id) => forward_events [ConnectionClosed peer_id] s
  | Some (SeConnectionEstablished peer_id) => forward_events [PeerConnected peer_id] s
  | Some (SeBehaviour event) =>
      let '(events, s) := handle_behaviour_event event s in forward_events events s
  | Some SeOther => s
  | None => set_status Stopped s
  end.

(** The [project_rx] arm: only taken when an outcome is there. *)
Definition on_outcome (s : Loop) : Loop :=
  match project_queue s with
  | outcome :: queue =>
      let s := set_queue queue s in
      let task_id := po_task_id outcome in
      match pending s !! task_id with
      | Some ch => act (RespProject ch (po_result outcome)) (set_pending (delete task_id (pending s)) s)
      | None => s
      end
  | [] => s
  end.

Definition on_command (c : option SwarmCommand) (s : Loop) : Loop :=
  match c with
  | Some (Dial addr) => act (DoDial addr) s
  | Some (RequestDescriptor peer_id) =>
      act (ReqDescriptor peer_id (mkDescriptorRequest
        (uuid_to_string (node_id (self_descriptor cfg))))) s
  | Some (SendRaftMessage peer_id data) => act (ReqRaft peer_id (mkRaftMessageRequest data)) s
  | Some (RequestBlob peer_id hash) => act (ReqBlob peer_id (mkBlobRequest hash)) s
  | Some (SendProjectTask peer_id task) => act (ReqProject peer_id task) s
  | None => set_status Stopped s
  end.

(** The end of a job: the result of [ex.run], the forwarded event, and the outcome
    queued for the loop while it runs. *)
Definition job_result (task : ProjectTask) (r : result string ProjectResult) : ProjectResult :=
  match r with
  | Ok res => res
  | Err e => project_failure task 1 e
  end.

Definition on_job_done (id : N) (r : result string ProjectResult) (s : Loop) : Loop :=
  match jobs s !! id with
  | Some job =>
      let result := job_result (job_task job) r in
      let s := set_jobs (delete id (jobs s)) s in
      let s := set_event_tx (chan_send (ProjectResultReceived (job_peer job) result) (event_tx s)).2 s in
      match status s with
      | Running => set_queue (project_queue s ++ [mkProjectOutcome (pt_task_id (job_task job)) result]) s
      | _ => s
      end
  | None => s
  end.

(** A job that panics, in [ex.run], unwinds its task: nothing is sent. *)
Definition on_job_panic (id : N) (s : Loop) : Loop := set_jobs (delete id (jobs s)) s.

(** The interleaving of the loop's [select!] arms and of the jobs. *)
Inductive Input :=
| InSwarm (e : option SwarmEvent)
| InOutcome
| InCommand (c : option SwarmCommand)
| InJobDone (id : N) (r : result string ProjectResult)
| InJobPanic (id : N).

Definition step (i : Input) (s : Loop) : Loop :=
  match i with
  | InJobDone id r => on_job_done id r s
  | InJobPanic id => on_job_panic id s
  | InSwarm e => match status s with Running => on_swarm_event e s | _ => s end
  | InOutcome => match status s with Running => on_outcome s | _ => s end
  | InCommand c => match status s with Running => on_command c s | _ => s end
  end.

(** [run_event_loop] up to its [loop]: every bootstrap peer is dialed once. *)
Definition loop_start (tx : Sender Event) : Loop :=
  foldl (λ s addr, act (DoDial addr) s) (mkLoop Running [] tx [] ∅ ∅ 0) (bootstrap_peers cfg).

Definition run_event_loop (tx : Sender Event) (inputs : list Input) : Loop :=
  foldl (λ s i, step i s) (loop_start tx) inputs.
End swarm.

(** ** Specification: the phases of a project request *)

Definition responses (s : Loop) (ch : Channel) : list ProjectResult :=
  omap (λ a, match a with
             | RespProject c r => if decide (c = ch) then Some r else None
             | _ => None
             end) (actions s).

(** The number of running jobs, and of finished ones the loop has not taken, of a
    task id. *)
Definition jobs_of (s : Loop) (t : TaskId) : nat :=
  size (filter (λ x, pt_task_id (job_task x.2) = t) (jobs s)).
Definition outcomes_of (s : Loop) (t : TaskId) : nat :=
  length (filter (λ o, po_task_id o = t) (project_queue s)).

(** The project requests among some inputs. *)
Definition request_of (i : Input) : option (ProjectTask * Channel) :=
  match i with
  | InSwarm (Some (SeBehaviour (ProjectExchange (RRRequest _ request ch)))) => Some (request, ch)
  | _ => None
  end.
Definition requests (inputs : list Input) : list (ProjectTask * Channel) := omap request_of inputs.

(** Executing, or finished and not yet answered; answered, once; and lost: its job
    panicked, its channel is parked and nothing will answer. *)
Definition in_progress (s : Loop) (task : ProjectTask) (ch : Channel) : Prop :=
  pending s !! pt_task_id task = Some ch ∧ responses s ch = [] ∧
  jobs_of s (pt_task_id task) + outcomes_of s (pt_task_id task) = 1.
Definition answered (s : Loop) (task : ProjectTask) (ch : Channel) : Prop :=
  pending s !! pt_task_id task = None ∧ (∃ res, responses s ch = [job_result task res]) ∧
  jobs_of s (pt_task_id task) = 0 ∧ outcomes_of s (pt_task_id task) = 0.
Definition lost (s : Loop) (task : ProjectTask) (ch : Channel) : Prop :=
  pending s !! pt_task_id task = Some ch ∧ responses s ch = [] ∧
  jobs_of s (pt_task_id task) = 0 ∧ outcomes_of s (pt_task_id task) = 0.

(** What relates the loop's state to the requests received so far, [panicked]
    saying whether a job has panicked. *)
Record tracks (s : Loop) (reqs : list (ProjectTask * Channel)) (panicked : Prop) : Prop := {
  tr_phase task ch : (task, ch) ∈ reqs →
    in_progress s task ch ∨ answered s task ch ∨ lost s task ch ∧ panicked;
  tr_tasks t : t ∉ (pt_task_id ∘ fst <$> reqs) →
    pending s !! t = None ∧ jobs_of s t = 0 ∧ outcomes_of s t = 0;
  tr_channels ch : ch ∉ reqs.*2 → responses s ch = [];
  tr_jobs id j : jobs s !! id = Some j → job_task j ∈ reqs.*1 ∧ (id < next_job s)%N;
  tr_outcomes o : o ∈ project_queue s → ∃ task res, task ∈ reqs.*1 ∧
    po_task_id o = pt_task_id task ∧ po_result o = job_result task res;
}.

(** ** Lemmas *)

(** Steps that neither add nor finish a project job nor answer one. *)
Definition same_projects (s s' : Loop) : Prop :=
  pending s' = pending s ∧ jobs s' = jobs s ∧ next_job s' = next_job s ∧
  project_queue s' = project_queue s ∧ ∀ ch, responses s' ch = responses s ch.

#[export] Instance same_projects_preorder : PreOrder same_projects.
Proof. split; [done|]. intros s1 s2 s3 (?&?&?&?&Ha) (?&?&?&?&Hb). split_and!; congruence. Qed.

Lemma tracks_same s s' reqs (p p' : Prop) :
  same_projects s s' → (p → p') → tracks s reqs p → tracks s' reqs p'.
Proof.
  intros (Hp & Hj & Hn & Hq & Hr) Hpp [H1 H2 H3 H4 H5].
  split; unfold in_progress, answered, lost, jobs_of, outcomes_of in *; intros *;
    rewrite ?Hp, ?Hj, ?Hn, ?Hq, ?Hr; eauto. intros Hin. apply H1 in Hin. tauto.
Qed.

Lemma act_same a s : (∀ ch r, a ≠ RespProject ch r) → same_projects s (act a s).
Proof.
  intros Ha. split_and!; try done. intros ch. unfold responses. simpl. rewrite omap_app. simpl.
  destruct a; rewrite ?app_nil_r; try done. by destruct (Ha c r).
Qed.

Lemma forward_events_same es s : same_projects s (forward_events es s).
Proof.
  revert s. induction es as [|e es IH]; intros s; [done|]. simpl.
  destruct (chan_send e (event_tx s)) as [[[u|?]|?] tx]; [|by split_and!..].
  etrans; [|apply IH]. by split_and!.
Qed.

Section lemmas.
Context `{SerdeJson NodeDescriptor, UuidText}.
Context (cfg : Config).

Lemma handle_other_same e s :
  (∀ pe, e ≠ ProjectExchange pe) → same_projects s (handle_behaviour_event cfg e s).2.
Proof.
  intros Hne. destruct e as [ps|ps|p i| |p r|e|e|e|e]; [done..| | | |by destruct (Hne e)].
  - simpl. destruct e; simpl; try done; case_match; try done. by apply act_same.
  - simpl. destruct e; simpl; try done. by apply act_same.
  - simpl. destruct e; simpl; try done. destruct (blob_provider cfg); simpl.
    + destruct (o _) as [[[]|]|]; simpl; try (by apply act_same). done.
    + by apply act_same.
Qed.

Lemma project_event_same e s :
  request_of (InSwarm (Some (SeBehaviour (ProjectExchange e)))) = None →
  same_projects s (handle_behaviour_event cfg (ProjectExchange e) s).2.
Proof. by destruct e. Qed.

Lemma command_same c s : same_projects s (on_command cfg c s).
Proof. destruct c as [[]|]; simpl; try (by apply act_same); by split_and!. Qed.

(** *** Counting *)

Lemma jobs_of_spawn s j t :
  jobs s !! next_job s = None →
  jobs_of (spawn j s) t = jobs_of s t + (if decide (pt_task_id (job_task j) = t) then 1 else 0).
Proof.
  intros Hn. unfold jobs_of. simpl. rewrite map_filter_insert. simpl. case_decide.
  - rewrite map_size_insert_None; [lia|]. apply map_lookup_filter_None. by left.
  - rewrite delete_id by done. lia.
Qed.

Lemma jobs_of_delete s id j t :
  jobs s !! id = Some j →
  jobs_of (set_jobs (delete id (jobs s)) s) t + (if decide (pt_task_id (job_task j) = t) then 1 else 0)
  = jobs_of s t.
Proof.
  intros Hj. unfold jobs_of. simpl. rewrite map_filter_delete. case_decide as Ht.
  - rewrite map_size_delete_Some by (exists j; by apply map_lookup_filter_Some).
    assert (size (filter (λ x : N * Job, pt_task_id (job_task x.2) = t) (jobs s)) ≠ 0); [|lia].
    rewrite map_size_ne_0_lookup. exists id, j. by apply map_lookup_filter_Some.
  - rewrite delete_id; [lia|]. apply map_lookup_filter_None. right.
    intros j' Hj' Heq. simplify_eq/=.
Qed.

Lemma outcomes_of_snoc q s o t :
  outcomes_of (set_queue (q ++ [o]) s) t =
  outcomes_of (set_queue q s) t + (if decide (po_task_id o = t) then 1 else 0).
Proof.
  unfold outcomes_of. simpl. rewrite filter_app, length_app, filter_cons, filter_nil.
  by case_decide.
Qed.

(** Distinct requests: neither task ids nor channels repeat. *)
Definition distinct (reqs : list (ProjectTask * Channel)) : Prop :=
  NoDup (pt_task_id ∘ fst <$> reqs) ∧ NoDup reqs.*2.

Lemma distinct_task reqs x y :
  distinct reqs → x ∈ reqs → y ∈ reqs → pt_task_id x.1 = pt_task_id y.1 → x = y.
Proof. intros [Hd _] Hx Hy Heq. by eapply (fmap_key_NoDup_inj (pt_task_id ∘ fst)). Qed.

Lemma distinct_channel reqs x y :
  distinct reqs → x ∈ reqs → y ∈ reqs → x.2 = y.2 → x = y.
Proof. intros [_ Hd] Hx Hy Heq. by eapply (fmap_key_NoDup_inj snd). Qed.
(** *** The three steps of a request *)

Lemma tracks_request s reqs p task peer ch :
  tracks s reqs p → distinct (reqs ++ [(task, ch)]) →
  tracks (spawn (mkJob task peer) (set_pending (<[pt_task_id task := ch]> (pending s)) s))
    (reqs ++ [(task, ch)]) p.
Proof.
  intros [Hph Ht Hc Hj Ho] [Hdt Hdc]. rewrite fmap_app in Hdt, Hdc. csimpl in *.
  apply NoDup_app in Hdt as (_ & Hnt & _). apply NoDup_app in Hdc as (_ & Hnc & _).
  assert (pt_task_id task ∉ (pt_task_id ∘ fst <$> reqs)) as Htask by set_solver.
  assert (ch ∉ reqs.*2) as Hch by set_solver.
  destruct (Ht _ Htask) as (Hp0 & Hj0 & Ho0).
  set (s' := spawn _ _).
  assert (jobs s !! next_job s = None) as Hnext.
  { destruct (jobs s !! next_job s) eqn:Hn; [|done]. apply Hj in Hn as [_ Hn]. lia. }
  assert (∀ t, jobs_of s' t = jobs_of s t + (if decide (pt_task_id task = t) then 1 else 0)) as Hjobs.
  { intros t. unfold s'. by rewrite jobs_of_spawn. }
  assert (∀ t, pt_task_id task ≠ t → pending s' !! t = pending s !! t) as Hpend.
  { intros t Hne. simpl. by rewrite lookup_insert_ne. }
  split.
  - intros t c [Hin|[= -> ->]%list_elem_of_singleton]%elem_of_app.
    + assert (pt_task_id task ≠ pt_task_id t) as Hne.
      { intros Heq. destruct Htask. rewrite Heq. apply (list_elem_of_fmap_2 (pt_task_id ∘ fst) _ _ Hin). }
      unfold in_progress, answered, lost.
      rewrite Hpend, Hjobs, decide_False, Nat.add_0_r by done. by apply Hph.
    + left. split_and!; [apply lookup_insert_eq|by apply Hc|].
      rewrite Hjobs, decide_True, Hj0 by done. change (outcomes_of s' _) with (outcomes_of s (pt_task_id task)).
      lia.
  - intros t. rewrite fmap_app. csimpl. intros Hnin. assert (pt_task_id task ≠ t) by set_solver.
    rewrite Hpend, Hjobs, decide_False, Nat.add_0_r by done. apply Ht. set_solver.
  - intros c. rewrite fmap_app. csimpl. intros Hnin. apply Hc. set_solver.
  - intros id j. simpl. rewrite lookup_insert, fmap_app. csimpl. case_decide.
    + intros [= <-]. simpl. split; [set_solver|lia].
    + intros [? ?]%Hj. split; [set_solver|lia].
  - intros o (t & res & ? & ? & ?)%Ho. exists t, res. rewrite fmap_app. set_solver.
Qed.

Lemma tracks_job_panic s reqs p id :
  distinct reqs → tracks s reqs p → tracks (on_job_panic id s) reqs True.
Proof.
  intros Hd Htr. unfold on_job_panic. destruct (jobs s !! id) as [j|] eqn:Hid.
  - destruct Htr as [Hph Ht Hc Hj Ho]. set (s' := set_jobs _ _).
    assert (∀ t, jobs_of s' t + (if decide (pt_task_id (job_task j) = t) then 1 else 0) = jobs_of s t)
      as Hdel by (intros t; by apply jobs_of_delete).
    split; [| |done| |done].
    + intros t c Hin. unfold in_progress, answered, lost.
      change (pending s') with (pending s). change (responses s' c) with (responses s c).
      change (outcomes_of s') with (outcomes_of s). specialize (Hdel (pt_task_id t)).
      destruct (Hph t c Hin) as [(? & ? & ?)|[(? & ? & ? & ?)|[(? & ? & ? & ?) _]]]; case_decide.
      * right; right. split_and!; done || lia.
      * left. split_and!; done || lia.
      * right; left. split_and!; done || lia.
      * right; left. split_and!; done || lia.
      * right; right. split_and!; done || lia.
      * right; right. split_and!; done || lia.
    + intros t (? & ? & ?)%Ht. specialize (Hdel t). split_and!; [done| |done]. lia.
    + intros id' j'. simpl. intros [_ Hj']%lookup_delete_Some. by apply Hj.
  - rewrite delete_id by done. eapply tracks_same; [|done|exact Htr]. by split_and!.
Qed.

Lemma tracks_job_done s reqs p id r :
  distinct reqs → status s = Running → tracks s reqs p → tracks (on_job_done id r s) reqs p.
Proof.
  intros Hd Hrun Htr. unfold on_job_done. destruct (jobs s !! id) as [j|] eqn:Hid; [|done].
  simpl. rewrite Hrun. pose proof Htr as [Hph Ht Hc Hj Ho].
  set (result := job_result (job_task j) r). set (tid := pt_task_id (job_task j)).
  set (s' := set_queue _ _).
  assert (∀ t, jobs_of s' t + outcomes_of s' t = jobs_of s t + outcomes_of s t) as Hsum.
  { intros t. pose proof (jobs_of_delete s id j t Hid) as Hdel.
    change (jobs_of s' t) with (jobs_of (set_jobs (delete id (jobs s)) s) t).
    unfold s'. rewrite outcomes_of_snoc. simpl. fold tid in Hdel.
    change (outcomes_of (set_queue _ _) t) with (outcomes_of s t). lia. }
  assert (∀ t, jobs_of s' t = 0 ∧ outcomes_of s' t = 0 ↔ jobs_of s t = 0 ∧ outcomes_of s t = 0) as Hz.
  { intros t. specialize (Hsum t). lia. }
  split.
  - intros t c Hin. destruct (Hph t c Hin) as [(? & ? & Hs)|[(? & ? & Ha)|[(? & ? & Ha) ?]]].
    + left. split_and!; [done..|]. by rewrite Hsum.
    + right; left. split_and!; [done|done|..]; by apply Hz.
    + right; right. split; [|done]. split_and!; [done|done|..]; by apply Hz.
  - intros t Hnin. destruct (Ht t Hnin) as (? & Ha). split; [done|]. by apply Hz.
  - intros c Hnin. by apply Hc.
  - intros id' j'. simpl. intros [_ Hj']%lookup_delete_Some. by apply Hj.
  - intros o [Hin| ->%list_elem_of_singleton]%elem_of_app; [by apply Ho|].
    exists (job_task j), r. destruct (Hj id j Hid). done.
Qed.

Lemma tracks_outcome s reqs p :
  distinct reqs → tracks s reqs p → tracks (on_outcome s) reqs p.
Proof.
  intros Hd Htr. pose proof Htr as [Hph Ht Hc Hj Ho]. unfold on_outcome.
  destruct (project_queue s) as [|o queue] eqn:Hq; [done|]. simpl.
  destruct (Ho o) as (task & res & Hin & Htid & Hres); [left|].
  apply list_elem_of_fmap in Hin as ([t ch] & -> & Hin). simpl in *.
  assert (∀ t', outcomes_of s t' = (if decide (po_task_id o = t') then 1 else 0) +
    length (filter (λ o, po_task_id o = t') queue)) as Hcount.
  { intros t'. unfold outcomes_of. rewrite Hq, filter_cons. by case_decide. }
  destruct (Hph t ch Hin) as [(Hp & Hr & Hs)|[(_ & _ & _ & Hz)|[(_ & _ & _ & Hz) _]]];
    [|rewrite Hcount, decide_True in Hz by done; lia..].
  rewrite Hcount, decide_True in Hs by done. rewrite Htid, Hp.
  set (s' := act _ _).
  assert (∀ c, responses s' c = responses s c ++ (if decide (ch = c) then [po_result o] else [])) as Hresp.
  { intros c. unfold responses, s'. simpl. rewrite omap_app. simpl. by case_decide. }
  assert (∀ t', pending s' !! t' = if decide (pt_task_id t = t') then None else pending s !! t') as Hpend.
  { intros t'. apply lookup_delete. }
  assert (∀ t', outcomes_of s' t' = length (filter (λ o, po_task_id o = t') queue)) as Hout by done.
  assert (∀ t', jobs_of s' t' = jobs_of s t') as Hjobs by done.
  split.
  - intros t' c Hin'. destruct (decide ((t', c) = (t, ch))) as [[= -> ->]|Hne].
    + right; left. split_and!; rewrite ?Hpend, ?Hresp, ?Hjobs, ?Hout, ?decide_True by done; [done| |lia..].
      exists res. by rewrite Hr, Hres.
    + assert (pt_task_id t ≠ pt_task_id t') as Hnt.
      { intros Heq. destruct Hne. by apply (distinct_task reqs (t', c) (t, ch)). }
      assert (ch ≠ c) as Hnc.
      { intros Heq. destruct Hne. by apply (distinct_channel reqs (t', c) (t, ch)). }
      unfold in_progress, answered, lost. rewrite Hpend, Hresp, Hjobs, Hout, !decide_False, app_nil_r by done.
      pose proof (Hcount (pt_task_id t')) as Hct. rewrite decide_False in Hct by congruence.
      simpl in Hct. rewrite <- Hct. by apply Hph.
  - intros t' Hnin. assert (pt_task_id t ≠ t') as Hne.
    { intros <-. destruct Hnin. apply (list_elem_of_fmap_2 (pt_task_id ∘ fst) _ _ Hin). }
    rewrite Hpend, Hjobs, Hout, decide_False by done. pose proof (Hcount t') as Hct.
    rewrite decide_False in Hct by congruence. simpl in Hct. rewrite <- Hct. by apply Ht.
  - intros c Hnin. rewrite Hresp, decide_False, app_nil_r; [by apply Hc|].
    intros <-. destruct Hnin. apply (list_elem_of_fmap_2 snd _ _ Hin).
  - done.
  - intros o' Ho'. apply Ho. by right.
Qed.
End lemmas.

Section runs.
Context `{SerdeJson NodeDescriptor, UuidText}.
Context (cfg : Config).

Lemma forward_events_status es s : status (forward_events es s) = status s.
Proof.
  revert s. induction es as [|e es IH]; intros s; [done|]. simpl.
  destruct (chan_send e (event_tx s)) as [[[u|?]|?] tx]; [|done..]. by rewrite IH.
Qed.

(** The loop never restarts. *)
Lemma step_status i s : status (step cfg i s) = Running → status s = Running.
Proof.
  destruct i as [e| |c|id r|id]; simpl; [by destruct (status s) eqn:Hs; simpl; rewrite ?Hs..| |done].
  unfold on_job_done. destruct (jobs s !! id); [|done]. simpl.
  by destruct (status s) eqn:Hs; simpl; rewrite ?Hs.
Qed.

Lemma run_status inputs s :
  status (foldl (λ s i, step cfg i s) s inputs) = Running → status s = Running.
Proof.
  revert s. induction inputs as [|i inputs IH]; intros s; [done|]. simpl.
  intros Hr. by apply (step_status i), IH.
Qed.

Lemma swarm_event_same e s :
  request_of (InSwarm e) = None → same_projects s (on_swarm_event cfg e s).
Proof.
  intros Hr. destruct e as [[a|p|p|e|]|]; unfold on_swarm_event;
    [apply forward_events_same..| |done|by split_and!].
  assert (same_projects s (handle_behaviour_event cfg e s).2) as Hs.
  { destruct e; try (by apply handle_other_same). by apply project_event_same. }
  destruct (handle_behaviour_event cfg e s) as [es s']. etrans; [exact Hs|].
  apply forward_events_same.
Qed.

(** A job of the inputs panics. *)
Definition job_panics (inputs : list Input) : Prop := ∃ id, InJobPanic id ∈ inputs.

Lemma step_tracks i s reqs p :
  has_executor cfg = true → status s = Running → tracks s reqs p →
  distinct (reqs ++ requests [i]) →
  tracks (step cfg i s) (reqs ++ requests [i]) (p ∨ job_panics [i]).
Proof.
  intros Hex Hrun Htr Hd. unfold requests in *. simpl in *.
  destruct (request_of i) as [[task ch]|] eqn:Hreq.
  - destruct i as [[[| | |[| | | | | | | |[pe t c|? ?|? ?|? ?|?]]|]|]| | | |]; simplify_eq/=.
    rewrite Hrun, Hex. simpl. eapply tracks_same; [reflexivity|by left|]. by apply tracks_request.
  - rewrite app_nil_r in *. destruct i as [e| |c|id r|id]; simpl; rewrite ?Hrun.
    + eapply tracks_same; [by apply swarm_event_same|by left|done].
    + eapply tracks_same; [reflexivity|by left|]. by apply tracks_outcome.
    + eapply tracks_same; [apply command_same|by left|done].
    + eapply tracks_same; [reflexivity|by left|]. by apply tracks_job_done.
    + eapply tracks_same; [reflexivity| |by eapply tracks_job_panic].
      intros _. right. exists id. by left.
Qed.

Lemma tracks_start tx : tracks (loop_start cfg tx) [] (job_panics []).
Proof.
  assert (∀ l s, (∀ ch, responses s ch = []) → jobs s = ∅ → pending s = ∅ → project_queue s = [] →
    tracks (foldl (λ s addr, act (DoDial addr) s) s l) [] (job_panics [])) as Hl; [|by apply Hl].
  induction l as [|a l IH]; intros s Hr Hj Hp Hq.
  - simpl. split.
    + by intros * ?%not_elem_of_nil.
    + intros t _. unfold jobs_of, outcomes_of. rewrite Hp, Hj, Hq, map_filter_empty.
      by rewrite lookup_empty, map_size_empty.
    + done.
    + intros id j. by rewrite Hj, lookup_empty.
    + intros o. rewrite Hq. by intros ?%not_elem_of_nil.
  - simpl. apply IH; try done. intros ch. unfold responses in *. simpl. by rewrite omap_app, Hr.
Qed.

Lemma distinct_prefix l k : distinct (l ++ k) → distinct l.
Proof.
  unfold distinct. rewrite !fmap_app, !NoDup_app. intros [(? & _) (? & _)]. done.
Qed.

Lemma run_tracks tx inputs :
  has_executor cfg = true → distinct (requests inputs) →
  status (run_event_loop cfg tx inputs) = Running →
  tracks (run_event_loop cfg tx inputs) (requests inputs) (job_panics inputs).
Proof.
  intros Hex. unfold run_event_loop.
  induction inputs as [|i inputs IH] using rev_ind; [intros; apply tracks_start|].
  rewrite foldl_app. simpl. unfold requests. rewrite omap_app. intros Hd Hs.
  pose proof (step_status _ _ Hs) as Hs0.
  eapply (tracks_same _ _ _ (job_panics inputs ∨ job_panics [i])); [reflexivity| |].
  - intros [[id Hid]|[id Hid]]; exists id; apply elem_of_app; auto.
  - apply (step_tracks i); [done|done| |done]. apply IH; [|done]. by eapply distinct_prefix.
Qed.

Lemma step_request p task ch s :
  has_executor cfg = true → status s = Running →
  step cfg (InSwarm (Some (SeBehaviour (ProjectExchange (RRRequest p task ch))))) s =
  spawn (mkJob task p) (set_pending (<[pt_task_id task := ch]> (pending s)) s).
Proof. intros Hex Hrun. simpl. by rewrite Hrun, Hex. Qed.

(** The end of a job, and the handling of an outcome, field by field. *)
Lemma job_done_eq id r j acts tx q pd js nj :
  js !! id = Some j →
  on_job_done id r (mkLoop Running acts tx q pd js nj) =
  mkLoop Running acts (chan_send (ProjectResultReceived (job_peer j) (job_result (job_task j) r)) tx).2
    (q ++ [mkProjectOutcome (pt_task_id (job_task j)) (job_result (job_task j) r)]) pd
    (delete id js) nj.
Proof. intros Hj. unfold on_job_done. cbn [jobs]. by rewrite Hj. Qed.

Lemma outcome_eq ch acts tx o q pd js nj :
  pd !! po_task_id o = Some ch →
  on_outcome (mkLoop Running acts tx (o :: q) pd js nj) =
  mkLoop Running (acts ++ [RespProject ch (po_result o)]) tx q (delete (po_task_id o) pd) js nj.
Proof. intros Hp. unfold on_outcome. cbn [project_queue set_queue pending]. by rewrite Hp. Qed.

Lemma outcome_none acts tx o q pd js nj :
  pd !! po_task_id o = None →
  on_outcome (mkLoop Running acts tx (o :: q) pd js nj) = mkLoop Running acts tx q pd js nj.
Proof. intros Hp. unfold on_outcome. cbn [project_queue set_queue pending]. by rewrite Hp. Qed.

(** ** Properties *)

(** C7: exactly one response.  On a node with an executor, as long as the loop
    runs and requests have distinct task ids and channels, every project request
    received so far is still in progress (its channel parked, exactly one job or
    finished outcome, and no response sent), or answered: exactly one response, the
    result of its job; or lost, without a response, which needs a job that panicked.
    Once no job runs and no outcome waits, and if no job panicked, every request has
    been answered.  Nothing is ever sent on another channel. *)
Theorem one_response_per_request tx inputs :
  let s := run_event_loop cfg tx inputs in
  has_executor cfg = true → distinct (requests inputs) → status s = Running →
  (∀ task ch, (task, ch) ∈ requests inputs →
    (in_progress s task ch ∨ answered s task ch ∨ lost s task ch ∧ job_panics inputs) ∧
    (jobs s = ∅ → project_queue s = [] → ¬ job_panics inputs → answered s task ch)) ∧
  (∀ ch, ch ∉ (requests inputs).*2 → responses s ch = []).
Proof.
  intros s Hex Hd Hs. pose proof (run_tracks tx inputs Hex Hd Hs) as Htr. fold s in Htr.
  split; [|apply (tr_channels _ _ _ Htr)]. intros task ch Hin.
  pose proof (tr_phase _ _ _ Htr task ch Hin) as Hph. split; [done|]. intros Hj Hq Hnp.
  destruct Hph as [(_ & _ & Hc)|[|[_ ?]]]; [|done..]. unfold jobs_of, outcomes_of in Hc.
  rewrite Hj, Hq, map_filter_empty in Hc. simpl in Hc. rewrite map_size_empty in Hc. done.
Qed.

(** A repeated task id loses a response.  When two requests with the same task
    id arrive on different channels before the first is answered, the second
    replaces the first's channel: once both jobs have finished and been handled,
    the first request never gets a response, and the second gets the result of
    whichever job finished first. *)
Theorem duplicate_task_loses_response task p1 p2 ch1 ch2 r1 r2 :
  let request p ch := InSwarm (Some (SeBehaviour (ProjectExchange (RRRequest p task ch)))) in
  let s := run_event_loop cfg (mkSender [] [])
    [request p1 ch1; request p2 ch2; InJobDone 0 r1; InJobDone 1 r2; InOutcome; InOutcome] in
  has_executor cfg = true → ch1 ≠ ch2 →
  status s = Running ∧ jobs s = ∅ ∧ project_queue s = [] ∧
  responses s ch1 = [] ∧ responses s ch2 = [job_result task r1].
Proof.
  intros request s Hex Hne. unfold s, run_event_loop.
  pose proof (tracks_start (mkSender [] [])) as Htr.
  pose proof (tr_channels _ _ _ Htr) as Hch.
  assert (∀ l s0, (status s0, jobs s0, next_job s0, project_queue s0, pending s0) =
      (Running, ∅, 0%N, [], ∅) → let s' := foldl (λ s addr, act (DoDial addr) s) s0 l in
      (status s', jobs s', next_job s', project_queue s', pending s') = (Running, ∅, 0%N, [], ∅))
    as Hstart.
  { induction l as [|a l IH]; intros s0 Hs0; [done|]. by apply IH. }
  specialize (Hstart (bootstrap_peers cfg) (mkLoop Running [] (mkSender [] []) [] ∅ ∅ 0) eq_refl).
  change (foldl _ _ (bootstrap_peers cfg)) with (loop_start cfg (mkSender [] [])) in Hstart.
  cbv zeta in Hstart. destruct (loop_start cfg (mkSender [] [])) as [st acts tx q pd js nj].
  simpl in Hstart. simplify_eq.
  assert (∀ c, responses (mkLoop Running acts tx [] ∅ ∅ 0) c = []) as Hr.
  { intros c. apply Hch. by intros ?%not_elem_of_nil. }
  clear Htr Hch. unfold request.
  set (res1 := job_result task r1). set (res2 := job_result task r2).
  assert (∃ tx' js nj, js = ∅ ∧
    foldl (λ s i, step cfg i s) (mkLoop Running acts tx [] ∅ ∅ 0)
      [InSwarm (Some (SeBehaviour (ProjectExchange (RRRequest p1 task ch1))));
       InSwarm (Some (SeBehaviour (ProjectExchange (RRRequest p2 task ch2))));
       InJobDone 0 r1; InJobDone 1 r2; InOutcome; InOutcome] =
    mkLoop Running (acts ++ [RespProject ch2 res1]) tx' []
      (delete (pt_task_id task) (<[pt_task_id task := ch2]> (<[pt_task_id task := ch1]> ∅))) js nj)
    as (tx' & js & nj & -> & ->).
  { cbn [foldl]. rewrite (step_request p1 task ch1), (step_request p2 task ch2) by done.
    unfold spawn, set_pending. cbn [status actions event_tx project_queue pending jobs next_job].
    do 3 eexists. split; [reflexivity|].
    unfold step at 4. rewrite (job_done_eq _ _ (mkJob task p1)) by done.
    unfold step at 3. rewrite (job_done_eq _ _ (mkJob task p2)) by done.
    unfold step at 2. cbn [status app]. rewrite (outcome_eq ch2) by apply lookup_insert_eq.
    unfold step. cbn [status]. rewrite outcome_none by (simpl; apply lookup_delete_eq).
    reflexivity. }
  cbn [status jobs project_queue]. split_and!; [done..| |].
  - unfold responses in *. cbn [actions] in *. rewrite omap_app, Hr. simpl. by rewrite decide_False.
  - unfold responses in *. cbn [actions] in *. rewrite omap_app, Hr. simpl. by rewrite decide_True.
Qed.
End runs.

(** ** Concrete runs *)

Module Demo.
Definition task (id : TaskId) : ProjectTask :=
  {| pt_task_id := id; pt_snapshot := from_hash "h"; pt_work_dir := "."; pt_build_cmd := [];
     pt_run_cmd := ["true"]; pt_timeout_ms := 1000; pt_resource_limits := ResourceLimits_default;
     pt_pinned_node := None |}.

Definition descriptor : NodeDescriptor :=
  {| node_id := 1%N; node_type := Heavy; os := Linux; capabilities := Capabilities_default;
     advertised_addresses := []; current_assigned_roles := []; started_at := 0%Z; raft_id := None |}.

Definition config : Config := mkConfig 1%N descriptor ["/ip4/10.0.0.2"] None true.

Definition request (id : TaskId) (ch : Channel) : Input :=
  InSwarm (Some (SeBehaviour (ProjectExchange (RRRequest 5%N (task id) ch)))).

(** Two requests; the first is finished and answered. *)
Definition inputs : list Input :=
  [request 11%N 100%N; request 12%N 101%N; InJobDone 0 (Err "boom"); InOutcome].
End Demo.

Lemma one_response_per_request_witness :
  let _ := countable_json NodeDescriptor in let _ := Toy.uuid_text in
  let s := run_event_loop Demo.config (mkSender [] []) Demo.inputs in
  in_progress s (Demo.task 12%N) 101%N ∨ answered s (Demo.task 12%N) 101%N ∨
  lost s (Demo.task 12%N) 101%N ∧ job_panics Demo.inputs.
Proof.
  intros J U s.
  refine (proj1 (proj1 (one_response_per_request Demo.config (mkSender [] []) Demo.inputs _ _ _)
    (Demo.task 12%N) 101%N _)).
  - reflexivity.
  - split; apply (bool_decide_unpack _); vm_compute; exact I.
  - vm_compute. reflexivity.
  - apply (bool_decide_unpack _); vm_compute; exact I.
Defined.

Lemma duplicate_task_loses_response_witness :
  let _ := countable_json NodeDescriptor in let _ := Toy.uuid_text in
  let r := Err "boom" in
  responses (run_event_loop Demo.config (mkSender [] [])
    [Demo.request 11%N 100%N; Demo.request 11%N 101%N; InJobDone 0 r; InJobDone 1 r; InOutcome; InOutcome])
    100%N = [].
Proof.
  intros J U r.
  refine (proj1 (proj2 (proj2 (proj2 (duplicate_task_loses_response Demo.config (Demo.task 11%N)
    5%N 5%N 100%N 101%N r r _ _))))).
  - reflexivity.
  - discriminate.
Defined.
