(* ===== verification/RaftNet.v ===== *)
(** * Raft transport (crates/node/src/raft/network.rs)

    The registry of raft ids, the envelope around raft's own messages, and the
    transport that queues them for the swarm. *)

From S2P Require Import Prelude CoreTypes Interfaces Channels Swarm.

(** The raft crate's [Message] with its prost encoding. *)
Class ProstMessage (Msg : Type) := {
  msg_to : Msg → N;
  encode_to_vec : Msg → bytes;
  prost_decode : bytes → result string Msg;
}.
Class ProstMessageLaws (Msg : Type) `{ProstMessage Msg} := {
  prost_decode_encode m : prost_decode (encode_to_vec m) = Ok m;
}.

(** ** RaftIdRegistry *)

Abbreviation RaftIdRegistry := (gmap N PeerId).

Definition registry_insert (raft_id : N) (peer_id : PeerId) (r : RaftIdRegistry) : RaftIdRegistry :=
  <[raft_id := peer_id]> r.
Definition registry_get (raft_id : N) (r : RaftIdRegistry) : option PeerId := r !! raft_id.
Definition registry_remove (raft_id : N) (r : RaftIdRegistry) : RaftIdRegistry := delete raft_id r.
Definition knows_all (peer_ids : list N) (r : RaftIdRegistry) : bool :=
  forallb (λ id, bool_decide (is_Some (r !! id))) peer_ids.
Definition registry_snapshot `{HashOrder} (seed : N) (r : RaftIdRegistry) : list (N * PeerId) :=
  sort_by fst (hash_iter seed r).

(** ** Envelope and transport *)

Record RaftEnvelope := mkRaftEnvelope { env_data : bytes }.

Section transport.
Context {Msg : Type} `{ProstMessage Msg}.

Definition envelope_new (_from _to : N) (msg : Msg) : result CoreError RaftEnvelope :=
  Ok (mkRaftEnvelope (encode_to_vec msg)).
Definition envelope_decode (e : RaftEnvelope) : result string Msg := prost_decode (env_data e).
Definition envelope_from_data (data : bytes) : RaftEnvelope := mkRaftEnvelope data.

Record Transport := mkTransport {
  swarm_commands : Sender SwarmCommand;
  incoming : list RaftEnvelope;
  registry : RaftIdRegistry;
}.

Definition create_raft_transport (tx : Sender SwarmCommand) : Transport := mkTransport tx [] ∅.

(** [try_send] on the command channel. *)
Definition try_send (c : SwarmCommand) : M Transport string unit := λ t,
  let '(o, tx) := chan_send c (swarm_commands t) in (o, mkTransport tx (incoming t) (registry t)).

Definition transport_send (to : N) (msg : Msg) : M Transport CoreError unit := λ t,
  (let! peer_id := lift_result (ok_or (Network (fmt ["no libp2p PeerId for raft id "; dec to;
      " (descriptor not received yet)"])) (registry_get to (registry t))) in
   let! envelope := lift_result (envelope_new 0 to msg) in
   map_err (λ e, Network (fmt ["failed to queue raft message for "; dec to; ": "; e]))
     (try_send (SendRaftMessage peer_id (env_data envelope)))) t.

Definition transport_recv (t : Transport) : option (RaftEnvelope * Transport) :=
  match incoming t with
  | e :: es => Some (e, mkTransport (swarm_commands t) es (registry t))
  | [] => None
  end.
End transport.

(** ** Lemmas *)

Lemma knows_all_spec ids (r : RaftIdRegistry) :
  knows_all ids r = true ↔ ∀ id, id ∈ ids → is_Some (registry_get id r).
Proof.
  unfold knows_all. rewrite <- Is_true_true, forallb_True, Forall_forall. unfold registry_get.
  by setoid_rewrite bool_decide_spec.
Qed.

Section lemmas.
Context {Msg : Type} `{ProstMessage Msg}.

Lemma transport_send_frame to (m : Msg) t o t' :
  transport_send to m t = (o, t') →
  registry t' = registry t ∧ incoming t' = incoming t ∧ ∀ why, o ≠ Panic why.
Proof.
  unfold transport_send, bind, map_err, try_send, lift_result, ok_or, envelope_new.
  destruct (registry_get to (registry t)) as [p|]; [|by intros; simplify_eq].
  pose proof (chan_send_no_panic (SendRaftMessage p (encode_to_vec m)) (swarm_commands t)) as Hnp.
  simpl. destruct (chan_send _ (swarm_commands t)) as [[[u|e]|s] tx]; intros; simplify_eq; try done.
  by destruct (Hnp s).
Qed.

(** What a successful send queues. *)
Lemma transport_send_ok to (m : Msg) t u t' :
  transport_send to m t = (Done (Ok u), t') →
  ∃ p, registry t !! to = Some p ∧
    sent (swarm_commands t') = sent (swarm_commands t) ++ [SendRaftMessage p (encode_to_vec m)].
Proof.
  unfold transport_send, bind, map_err, try_send, lift_result, ok_or, envelope_new, registry_get.
  destruct (registry t !! to) as [p|]; [|by intros; simplify_eq]. simpl.
  destruct (chan_send _ (swarm_commands t)) as [[[v|e]|s] tx] eqn:Hc; intros; simplify_eq.
  apply chan_send_ok in Hc. eauto.
Qed.

(** A sent message decodes at the other end to the same message. *)
Lemma envelope_roundtrip `{!ProstMessageLaws Msg} from to (m : Msg) e :
  envelope_new from to m = Ok e → envelope_decode (envelope_from_data (env_data e)) = Ok m.
Proof. intros [= <-]. apply prost_decode_encode. Qed.
End lemmas.

(** The registry snapshot lists every mapping once, in raft id order. *)
Lemma registry_snapshot_sorted `{HashOrderLaws} seed (r : RaftIdRegistry) :
  registry_snapshot seed r = btree_iter r.
Proof.
  unfold registry_snapshot, btree_iter. apply sort_by_perm_eq.
  - apply NoDup_hash_iter_keys.
  - apply hash_iter_perm.
Qed.
