(* ===== verification/RaftNode.v ===== *)
(** * The raft participant (crates/node/src/raft/node.rs)

    The node around raft-rs's [RawNode]: its event loop, and the processing of each
    [Ready]: send, persist, send, apply, advance. *)

From S2P Require Import Prelude CoreTypes Interfaces Json Channels StateMachine BlobStore RaftStorage.
From S2P Require Import Swarm RaftNet.

(** raft-rs's [Ready] and [LightReady]. *)
Record Ready (Msg : Type) := mkReady {
  rd_messages : list Msg;
  rd_hs : option HardState;
  rd_entries : list Entry;
  rd_persisted_messages : list Msg;
  rd_committed_entries : list Entry;
}.
Arguments mkReady {Msg} _ _ _ _ _.
Arguments rd_messages {Msg} _.
Arguments rd_hs {Msg} _.
Arguments rd_entries {Msg} _.
Arguments rd_persisted_messages {Msg} _.
Arguments rd_committed_entries {Msg} _.

Record LightReady (Msg : Type) := mkLightReady {
  lr_messages : list Msg;
  lr_committed_entries : list Entry;
}.
Arguments mkLightReady {Msg} _ _.
Arguments lr_messages {Msg} _.
Arguments lr_committed_entries {Msg} _.

(** The fields of raft-rs's [Config] the node sets. *)
Record RaftConfig := mkRaftConfig {
  rc_id : N;
  rc_election_tick : N;
  rc_heartbeat_tick : N;
  rc_pre_vote : bool;
  rc_check_quorum : bool;
}.

(** raft-rs's [RawNode] around a storage. *)
Class RawNode (R S Msg : Type) := {
  raw_new : RaftConfig → S → result string R;
  raw_store : R → S;
  raw_set_store : S → R → R;
  raw_tick : R → R;
  raw_step : Msg → R → result string unit * R;
  raw_propose : bytes → R → result string unit * R;
  raw_has_ready : R → bool;
  raw_ready : R → Ready Msg * R;
  raw_advance : Ready Msg → R → LightReady Msg * R;
}.

Section node.
Context {W C Msg R : Type} `{BlobStore W, Lru C, SerdeJson JsonValue, SerdeJson Proposal,
  ProstMessage Msg, UuidText}.
Local Abbreviation Store := (CasRaftStorage (W := W) (C := C)).
Context `{!RawNode R Store Msg}.

Record RaftNode := mkRaftNode {
  raw_node : R;
  transport : Transport;
  cluster : ClusterState;
}.

Definition set_raw (r : R) (n : RaftNode) : RaftNode := mkRaftNode r (transport n) (cluster n).
Definition set_transport (t : Transport) (n : RaftNode) : RaftNode :=
  mkRaftNode (raw_node n) t (cluster n).
Definition set_cluster (c : ClusterState) (n : RaftNode) : RaftNode :=
  mkRaftNode (raw_node n) (transport n) c.

(** [RaftNode::new]: the proposal channel it creates is the list of wake-ups of
    [run] below. *)
Definition node_new (id : N) (voters : list N) (object_store : W) (transport : Transport) :
    result CoreError RaftNode :=
  let config := mkRaftConfig id 10 3 false true in
  let storage := new_empty object_store voters in
  let? raw_node := result_map_err (λ e, CoreTypes.Raft ("failed to create RawNode: " +:+ e))
                     (raw_new config storage) in
  Ok (mkRaftNode raw_node transport ClusterState_default).

(** Calls on the transport and on the storage inside the raw node. *)
Definition with_transport {E A} (m : M Transport E A) : M RaftNode E A := λ n,
  let '(o, t) := m (transport n) in (o, set_transport t n).
Definition with_storage {E A} (m : M Store E A) : M RaftNode E A := λ n,
  let '(o, s) := m (raw_store (raw_node n)) in (o, set_raw (raw_set_store s (raw_node n)) n).

Definition send_message (msg : Msg) : M RaftNode CoreError unit :=
  ignore_err (with_transport (transport_send (msg_to msg) msg)).

(** The body of the loop over committed entries. *)
Definition apply_entry (s : ClusterState) (entry : Entry) : ClusterState :=
  match e_data entry with
  | [] => s
  | _ =>
      match decode_proposal (e_data entry) with
      | Ok proposal => set_last_applied (e_index entry) (snd (apply s proposal))
      | Err _ => s
      end
  end.

Definition handle_ready (ready : Ready Msg) : M RaftNode CoreError unit :=
  let! _ := mfor send_message (rd_messages ready) in
  let! _ := match rd_hs ready with
            | Some hs => ignore_err (with_storage (set_hard_state hs))
            | None => ret tt
            end in
  let! _ := mfor (λ e, ignore_err (with_storage (append_entry e))) (rd_entries ready) in
  let! _ := mfor send_message (rd_persisted_messages ready) in
  λ n,
    let n := set_cluster (foldl apply_entry (cluster n) (rd_committed_entries ready)) n in
    let '(_light_ready, r) := raw_advance ready (raw_node n) in
    (Done (Ok tt), set_raw r n).

Definition process_ready : M RaftNode CoreError unit := λ n,
  if raw_has_ready (raw_node n) then
    let '(ready, r) := raw_ready (raw_node n) in
    handle_ready ready (set_raw r n)
  else (Done (Ok tt), n).

Definition propose (proposal : Proposal) : M RaftNode CoreError unit :=
  let! data := lift_result (result_map_err (λ e, Serialization ("encode proposal: " +:+ e))
                 (encode_proposal proposal)) in
  λ n,
    let '(r, raw) := raw_propose data (raw_node n) in
    (Done (result_map_err (λ e, CoreTypes.Raft ("propose failed: " +:+ e)) r), set_raw raw n).

(** One turn of the event loop; [false] ends it. *)
Inductive Wake :=
| WakeTick
| WakeMessage (m : option RaftEnvelope)
| WakeProposal (p : option Proposal).

Definition on_wake (w : Wake) : M RaftNode CoreError bool :=
  match w with
  | WakeTick => λ n, (Done (Ok true), set_raw (raw_tick (raw_node n)) n)
  | WakeMessage (Some envelope) => λ n,
      match envelope_decode envelope with
      | Ok raft_msg => (Done (Ok true), set_raw (raw_step raft_msg (raw_node n)).2 n)
      | Err _ => (Done (Ok true), n)
      end
  | WakeMessage None => ret false
  | WakeProposal (Some proposal) => let! _ := ignore_err (propose proposal) in ret true
  | WakeProposal None => ret false
  end.

Definition turn (w : Wake) : M RaftNode CoreError bool :=
  let! continue := on_wake w in
  if continue then let! _ := process_ready in ret true else ret false.

(** [run] on the wake-ups of an execution. *)
Fixpoint run (wakes : list Wake) : M RaftNode CoreError unit :=
  match wakes with
  | [] => ret tt
  | w :: wakes =>
      let! continue := turn w in
      if continue then run wakes else ret tt
  end.
End node.

(** ** Lemmas *)

(** The cluster state after some committed entries is the replicated state machine
    run on the proposals among them. *)
Definition proposals `{SerdeJson Proposal} (es : list Entry) : list Proposal :=
  omap (λ e, match e_data e with
             | [] => None
             | _ => result_ok (decode_proposal (e_data e))
             end) es.

(** Two cluster states that agree but for the last applied index. *)
Definition same_cluster (s s' : ClusterState) : Prop :=
  nodes s = nodes s' ∧ role_assignments s = role_assignments s'.

#[export] Instance same_cluster_equiv : Equivalence same_cluster.
Proof.
  split; [done|by intros s s' [? ?]|]. intros s1 s2 s3 [? ?] [? ?]. split; congruence.
Qed.

#[export] Instance apply_proper `{UuidText} :
  Proper (same_cluster ==> eq ==> same_cluster) (λ s p, snd (apply s p)).
Proof.
  intros [n ra i] [n' ra' i'] [Hn Hr] p p' <-. simpl in *. subst n' ra'.
  unfold apply. destruct p; simpl; repeat case_match; by split.
Qed.

#[export] Instance set_last_applied_proper i : Proper (same_cluster ==> same_cluster) (set_last_applied i).
Proof. by intros s s' [? ?]. Qed.

Lemma set_last_applied_same i s : same_cluster (set_last_applied i s) s.
Proof. done. Qed.

Section lemmas.
Context `{SerdeJson Proposal, UuidText}.

#[export] Instance apply_all_proper :
  Proper (same_cluster ==> eq ==> same_cluster) apply_all.
Proof.
  intros s s' Hs l l' <-. revert s s' Hs. induction l as [|p l IH]; intros s s' Hs; [done|].
  apply IH. by apply apply_proper.
Qed.

Lemma apply_entries_proposals es s :
  same_cluster (foldl apply_entry s es) (apply_all s (proposals es)).
Proof.
  revert s. induction es as [|e es IH]; intros s; [done|]. simpl. rewrite IH.
  unfold apply_entry. destruct (e_data e) as [|b d]; [done|].
  destruct (decode_proposal (b :: d)) as [p|]; simpl; [|done].
  apply apply_all_proper; [|done]. apply set_last_applied_same.
Qed.

(** The last applied index is that of the last decodable entry. *)
Lemma apply_entries_last es s :
  last_applied_index (foldl apply_entry s es) =
  default (last_applied_index s)
    (last (omap (λ e, if bool_decide (proposals [e] = []) then None else Some (e_index e)) es)).
Proof.
  revert s. induction es as [|e es IH] using rev_ind; intros s; [done|].
  rewrite foldl_app, omap_app. simpl. unfold apply_entry at 1. unfold proposals.
  destruct (e_data e) as [|b d] eqn:Hd; simpl; [by rewrite app_nil_r, IH|].
  destruct (decode_proposal (b :: d)) as [p|]; simpl; [by rewrite last_snoc|by rewrite app_nil_r, IH].
Qed.
End lemmas.

(** The storage inside the raw node is what was last put there, and advancing keeps
    it. *)
Class RawNodeLaws (R S Msg : Type) `{RawNode R S Msg} := {
  raw_store_set s r : raw_store (raw_set_store s r) = s;
  raw_store_advance rd r : raw_store (raw_advance rd r).2 = raw_store r;
}.

Section processing.
Context {W C Msg R : Type} `{BlobStoreLaws W, Lru C, SerdeJson JsonValue, SerdeJson Proposal,
  ProstMessage Msg, UuidText}.
Local Abbreviation Store := (CasRaftStorage (W := W) (C := C)).
Context `{!RawNode R Store Msg}.
Local Abbreviation Node := (RaftNode (R := R)).

(** The transport after sending one message. *)
Definition sends (t : Transport) (m : Msg) : Transport := (transport_send (msg_to m) m t).2.

Lemma send_messages_ok l (n : Node) :
  (mfor send_message l n : outcome CoreError unit * Node) =
  (Done (Ok tt), set_transport (foldl sends (transport n) l) n).
Proof.
  unfold send_message. rewrite mfor_ignore_err.
  - f_equal. revert n. induction l as [|m l IH]; intros [r t c]; [done|]. simpl. rewrite IH.
    unfold with_transport, sends. simpl. by destruct (transport_send _ _ _).
  - intros m n0 why. unfold with_transport.
    destruct (transport_send (msg_to m) m (transport n0)) as [o t] eqn:Ht.
    apply transport_send_frame in Ht as (_ & _ & Hp). apply Hp.
Qed.

Lemma with_store_no_panic {E A} (m : M W E A) :
  no_panic m → no_panic (with_store (C := C) m).
Proof. intros Hm s why. unfold with_store. specialize (Hm (object_store s)). by destruct (m _). Qed.

Lemma with_storage_no_panic {E A} (m : M Store E A) :
  no_panic m → no_panic (with_storage (R := R) m).
Proof. intros Hm n why. unfold with_storage. specialize (Hm (raw_store (raw_node n))). by destruct (m _). Qed.

Lemma append_entry_no_panic e : no_panic (append_entry (W := W) (C := C) e).
Proof. apply bind_no_panic; [apply with_store_no_panic, bs_put_no_panic|]. by intros h s why. Qed.

Lemma set_hard_state_no_panic hs : no_panic (set_hard_state (W := W) (C := C) hs).
Proof.
  apply bind_no_panic; [apply lift_result_no_panic|]. intros d.
  apply bind_no_panic; [apply with_store_no_panic, bs_put_no_panic|]. by intros h s why.
Qed.

Lemma ignore_storage_ok {A} (m : M Store CoreError A) (n : Node) :
  no_panic m →
  ∃ s, (ignore_err (with_storage m) n : outcome CoreError unit * Node) =
       (Done (Ok tt), set_raw (raw_set_store s (raw_node n)) n) ∧
       s = (m (raw_store (raw_node n))).2.
Proof.
  intros Hm. eexists. rewrite ignore_err_total by by apply with_storage_no_panic.
  split; [|done]. f_equal. unfold with_storage. by destruct (m _).
Qed.

(** Persisting entries touches the raw node only. *)
Lemma persist_entries_ok es (n : Node) :
  ∃ r, (mfor (λ e, ignore_err (with_storage (append_entry e))) es n : outcome CoreError unit * Node) =
       (Done (Ok tt), set_raw r n).
Proof.
  revert n. induction es as [|e es IH]; intros n; [by exists (raw_node n); destruct n|].
  cbn [mfor]. destruct (ignore_storage_ok (append_entry e) n (append_entry_no_panic e)) as (s & Hs & _).
  rewrite (bind_ok _ _ _ _ _ Hs). destruct (IH (set_raw (raw_set_store s (raw_node n)) n)) as [r ->].
  by exists r.
Qed.

(** A ready is always processed to the end: all its messages are sent, in order,
    and its committed entries applied, whatever happens to the persistence. *)
Lemma handle_ready_ok rd (n : Node) :
  ∃ r, handle_ready rd n = (Done (Ok tt),
    mkRaftNode (raw_advance rd r).2 (foldl sends (transport n) (rd_messages rd ++ rd_persisted_messages rd))
      (foldl apply_entry (cluster n) (rd_committed_entries rd))).
Proof.
  unfold handle_ready. rewrite (bind_ok _ _ _ _ _ (send_messages_ok _ _)).
  set (n1 := set_transport _ n).
  assert (∃ r, (match rd_hs rd with
    | Some hs => ignore_err (with_storage (set_hard_state hs))
    | None => ret tt
    end n1 : outcome CoreError unit * Node) = (Done (Ok tt), set_raw r n1)) as [r1 Hr1].
  { destruct (rd_hs rd) as [hs|]; [|by exists (raw_node n1); destruct n1].
    destruct (ignore_storage_ok (set_hard_state hs) n1 (set_hard_state_no_panic hs)) as (s & -> & _).
    eauto. }
  rewrite (bind_ok _ _ _ _ _ Hr1).
  destruct (persist_entries_ok (rd_entries rd) (set_raw r1 n1)) as [r2 Hr2].
  rewrite (bind_ok _ _ _ _ _ Hr2), (bind_ok _ _ _ _ _ (send_messages_ok _ _)). simpl.
  rewrite <- foldl_app. exists r2. by destruct (raw_advance _ _).
Qed.

Lemma handle_readies_ok rds (n : Node) :
  ∃ n', mfor handle_ready rds n = (Done (Ok tt), n') ∧
    cluster n' = foldl apply_entry (cluster n) (rds ≫= rd_committed_entries).
Proof.
  revert n. induction rds as [|rd rds IH]; intros n; [by exists n|]. cbn [mfor].
  destruct (handle_ready_ok rd n) as [r Hr]. rewrite (bind_ok _ _ _ _ _ Hr).
  destruct (IH (mkRaftNode (raw_advance rd r).2 (foldl sends (transport n) (rd_messages rd ++ rd_persisted_messages rd))
    (foldl apply_entry (cluster n) (rd_committed_entries rd)))) as (n' & Hn' & Hc).
  exists n'. split; [done|]. rewrite Hc. simpl. by rewrite foldl_app.
Qed.

(** *** The participant's run *)

Lemma apply_entry_wf s e : cs_wf s → cs_wf (apply_entry s e).
Proof.
  intros Hs. unfold apply_entry. destruct (e_data e) as [|b d]; [done|].
  destruct (decode_proposal (b :: d)) as [p|]; [|done].
  pose proof (apply_wf s p Hs) as [Hk Hr Hn]. by split.
Qed.

Lemma apply_entries_wf es s : cs_wf s → cs_wf (foldl apply_entry s es).
Proof. revert s. induction es as [|e es IH]; intros s Hs; [done|]. apply IH. by apply apply_entry_wf. Qed.

Lemma on_wake_ok w (n : Node) : ∃ b n', on_wake w n = (Done (Ok b), n') ∧ cluster n' = cluster n.
Proof.
  destruct w as [|[m|]|[p|]]; simpl; try by eexists _, _.
  - destruct (envelope_decode m); by eexists _, _.
  - unfold bind at 1, ignore_err, propose, bind, lift_result.
    destruct (result_map_err _ (encode_proposal p)); [|by eexists _, _].
    destruct (raw_propose _ (raw_node n)) as [r raw]. by eexists _, _.
Qed.

Lemma turn_ok w (n : Node) : cs_wf (cluster n) →
  ∃ b n', turn w n = (Done (Ok b), n') ∧ cs_wf (cluster n').
Proof.
  intros Hn. destruct (on_wake_ok w n) as (b & n1 & Hw & Hc). unfold turn. rewrite (bind_ok _ _ _ _ _ Hw).
  rewrite <- Hc in Hn. destruct b; [|by exists false, n1].
  unfold process_ready. unfold bind. destruct (raw_has_ready (raw_node n1)); [|by exists true, n1].
  destruct (raw_ready (raw_node n1)) as [rd r]. destruct (handle_ready_ok rd (set_raw r n1)) as [r' ->].
  eexists _, _. split; [done|]. by apply apply_entries_wf.
Qed.

(** ** Properties *)


(** C8: replicas agree.  Two nodes that start from the same cluster state and
    receive the same committed entries, cut into ready batches in any way and
    whatever the outcome of their storage and network, finish with the same cluster
    state: the replicated state machine run on the proposals among the entries, in
    order (empty and undecodable entries are skipped). *)
Theorem replicas_agree (n1 n2 : Node) rds1 rds2 :
  cluster n1 = cluster n2 →
  rds1 ≫= rd_committed_entries = rds2 ≫= rd_committed_entries →
  ∃ n1' n2', mfor handle_ready rds1 n1 = (Done (Ok tt), n1') ∧
    mfor handle_ready rds2 n2 = (Done (Ok tt), n2') ∧ cluster n1' = cluster n2' ∧
    same_cluster (cluster n1')
      (apply_all (cluster n1) (proposals (rds1 ≫= rd_committed_entries))).
Proof.
  intros Hc Hes. destruct (handle_readies_ok rds1 n1) as (n1' & H1' & Hc1).
  destruct (handle_readies_ok rds2 n2) as (n2' & H2' & Hc2).
  exists n1', n2'. split_and!; [done|done|congruence|].
  rewrite Hc1. apply apply_entries_proposals.
Qed.

(** A message that promises persistence is sent even when nothing could be
    persisted.  If every write of the object store fails, the node still processes
    a ready successfully, sends all its messages (the persisted ones included),
    applies its committed entries, and has recorded none of its entries. *)
Theorem unpersisted_messages_sent `{!RawNodeLaws R Store Msg} rd (n : Node) :
  (∀ d w, ∃ e, bs_put d w = (Done (Err e), w)) →
  ∃ n', handle_ready rd n = (Done (Ok tt), n') ∧
    transport n' = foldl sends (transport n) (rd_messages rd ++ rd_persisted_messages rd) ∧
    cluster n' = foldl apply_entry (cluster n) (rd_committed_entries rd) ∧
    entry_hashes (raw_store (raw_node n')) = entry_hashes (raw_store (raw_node n)).
Proof.
  intros Hfail. destruct (handle_ready_ok rd n) as [r Hr]. eexists. split; [exact Hr|].
  split_and!; [done..|]. revert Hr. unfold handle_ready.
  rewrite (bind_ok _ _ _ _ _ (send_messages_ok _ _)). set (n1 := set_transport _ n).
  assert (∀ e s, (append_entry (W := W) (C := C) e s).2 = s) as Happ.
  { intros e s. unfold append_entry, bind, with_store.
    destruct (Hfail (e_data e) (object_store s)) as [x ->]. by destruct s. }
  assert (∀ es m, ∃ r0, (mfor (λ e, ignore_err (with_storage (append_entry e))) es m :
    outcome CoreError unit * Node) = (Done (Ok tt), set_raw r0 m) ∧
    raw_store r0 = raw_store (raw_node m)) as Hes.
  { induction es as [|e es IH]; intros m; [by exists (raw_node m); destruct m|].
    cbn [mfor]. destruct (ignore_storage_ok (append_entry e) m (append_entry_no_panic e)) as (s & Hs & ->).
    rewrite (bind_ok _ _ _ _ _ Hs), Happ. edestruct IH as (r0 & -> & Hr0). exists r0.
    split; [done|]. rewrite Hr0. simpl. apply raw_store_set. }
  assert (∃ r0, (match rd_hs rd with
    | Some hs => ignore_err (with_storage (set_hard_state hs))
    | None => ret tt
    end n1 : outcome CoreError unit * Node) = (Done (Ok tt), set_raw r0 n1) ∧
    raw_store r0 = raw_store (raw_node n1)) as (r1 & Hr1 & Hst1).
  { destruct (rd_hs rd) as [hs|]; [|by exists (raw_node n1); destruct n1].
    destruct (ignore_storage_ok (set_hard_state hs) n1 (set_hard_state_no_panic hs)) as (s & -> & ->).
    eexists. split; [done|]. rewrite raw_store_set. unfold set_hard_state, bind, lift_result.
    destruct (to_vec _) as [d|]; [|done]. simpl. unfold with_store.
    destruct (Hfail d (object_store (raw_store (raw_node n)))) as [x ->].
    by destruct (raw_store (raw_node n)). }
  rewrite (bind_ok _ _ _ _ _ Hr1). destruct (Hes (rd_entries rd) (set_raw r1 n1)) as (r2 & Hr2 & Hst2).
  rewrite (bind_ok _ _ _ _ _ Hr2), (bind_ok _ _ _ _ _ (send_messages_ok _ _)). simpl.
  destruct (raw_advance rd r2) as [lr r3] eqn:Hadv. intros [= <-]. 
  pose proof (raw_store_advance rd r2) as Hr3. rewrite Hadv in Hr3. simpl in *. congruence.
Qed.

(** The entries committed by [advance] itself are lost.  Processing a ready
    succeeds, sends the messages of the ready and applies its committed entries, and
    nothing else: [advance] is called once, and whatever light ready it returns, its
    committed entries do not reach the cluster state and its messages are not sent. *)
Theorem light_ready_dropped (n : Node) rd r0 :
  raw_has_ready (raw_node n) = true → raw_ready (raw_node n) = (rd, r0) →
  ∃ r, process_ready n = (Done (Ok tt), mkRaftNode (raw_advance rd r).2
    (foldl sends (transport n) (rd_messages rd ++ rd_persisted_messages rd))
    (foldl apply_entry (cluster n) (rd_committed_entries rd))).
Proof.
  intros Hh Hrd. unfold process_ready. rewrite Hh, Hrd. apply (handle_ready_ok rd (set_raw r0 n)).
Qed.
End processing.

(** ** Concrete runs *)

Module DemoNode.
(** A message is its addressee and its bytes. *)
Definition message : Type := N * bytes.
#[export] Instance message_prost : ProstMessage message :=
  {| msg_to := fst; encode_to_vec := snd; prost_decode d := Ok (0%N, d) |}.

(** A raw node that has one ready to hand out. *)
Record Raw (S : Type) := mkRaw {
  r_store : S;
  r_ready : option (Ready message * LightReady message);
}.
Arguments mkRaw {S} _ _.
Arguments r_store {S} _.
Arguments r_ready {S} _.

Definition no_ready : Ready message := mkReady [] None [] [] [].
#[export] Instance raw (S : Type) : RawNode (Raw S) S message := {|
  raw_new _ s := Ok (mkRaw s None);
  raw_store := r_store;
  raw_set_store s r := mkRaw s (r_ready r);
  raw_tick r := r;
  raw_step _ r := (Ok tt, r);
  raw_propose _ r := (Ok tt, r);
  raw_has_ready r := match r_ready r with Some _ => true | None => false end;
  raw_ready r := (default no_ready (fst <$> r_ready r), r);
  raw_advance _ r := (default (mkLightReady [] []) (snd <$> r_ready r), mkRaw (r_store r) None);
|}.
#[export] Instance raw_laws (S : Type) : RawNodeLaws (Raw S) S message.
Proof. by split. Qed.

(** A store whose disk is full. *)
#[export] Instance full_disk : BlobStore unit :=
  {| bs_put _ := λ w, (Done (Err (StorageIo "No space left on device")), w);
     bs_get h := λ w, (Done (Err (ObjectNotFound h)), w);
     bs_exists _ := λ w, (Done (Ok false), w) |}.
#[export] Program Instance full_disk_laws : BlobStoreLaws unit :=
  {| bs_adm _ := True; bs_healthy _ := False; bs_holds _ _ _ := False |}.
Next Obligation. by intros d w []. Qed.
Next Obligation. by intros h d w []. Qed.
Next Obligation. done. Qed.
Next Obligation. by intros h d w []. Qed.
Next Obligation. by intros d w why. Qed.
Next Obligation. by intros w w' h h' d []. Qed.
Next Obligation. by intros w w' h d d' []. Qed.

#[export] Existing Instance OneSlot.lru.
#[export] Existing Instance OneSlot.lru_laws.
#[export] Existing Instance Toy.uuid_text.
#[export] Instance proposal_json : SerdeJson Proposal := countable_json Proposal.
#[export] Instance value_json : SerdeJson JsonValue := countable_json JsonValue.

Definition entry (i : N) (p : Proposal) : Entry :=
  mkEntry 0 2 i (default [] (result_ok (encode_proposal p))) [] false.
Definition e1 : Entry := entry 1 (AssignRole 7%N Execution).
Definition e2 : Entry := entry 2 (DeregisterNode 7%N).
Definition light : LightReady message := mkLightReady [(3%N, [x01])] [e2].
Definition commit (es : list Entry) : Ready message := mkReady [] None [] [] es.
Definition append : Ready message := mkReady [] None [e1] [(2%N, [x02])] [].

Definition transport0 : Transport :=
  mkTransport (mkSender [] []) [] (<[2%N := 22%N]> (<[3%N := 33%N]> ∅)).
Definition node (r : option (Ready message * LightReady message)) :
    RaftNode (R := Raw (CasRaftStorage (W := unit) (C := option (N * Entry)))) :=
  mkRaftNode (mkRaw (new_empty tt [1; 2; 3]%N) r) transport0 ClusterState_default.
End DemoNode.
Import (hints) DemoNode.

Lemma replicas_agree_witness :
  let n := DemoNode.node None in
  ∃ n1' n2', mfor handle_ready [DemoNode.commit [DemoNode.e1; DemoNode.e2]] n = (Done (Ok tt), n1') ∧
    mfor handle_ready [DemoNode.commit [DemoNode.e1]; DemoNode.commit [DemoNode.e2]] n =
      (Done (Ok tt), n2') ∧ cluster n1' = cluster n2'.
Proof.
  intros n. destruct (replicas_agree n n [DemoNode.commit [DemoNode.e1; DemoNode.e2]]
    [DemoNode.commit [DemoNode.e1]; DemoNode.commit [DemoNode.e2]] eq_refl eq_refl)
    as (n1' & n2' & H1 & H2 & Hc & _).
  exists n1', n2'. exact (conj H1 (conj H2 Hc)).
Defined.

Lemma unpersisted_messages_sent_witness :
  let n := DemoNode.node None in
  ∃ n', handle_ready DemoNode.append n = (Done (Ok tt), n') ∧
    sent (swarm_commands (transport n')) = [SendRaftMessage 22%N [x02]] ∧
    entry_hashes (raw_store (raw_node n')) = [None].
Proof.
  intros n. destruct (unpersisted_messages_sent DemoNode.append n) as (n' & H1 & H2 & _ & H3).
  - intros d w. by eexists.
  - exists n'. split; [exact H1|]. rewrite H2, H3.
    split.
    + vm_compute. reflexivity.
    + vm_compute. reflexivity.
Defined.

Lemma light_ready_dropped_witness :
  let n := DemoNode.node (Some (DemoNode.commit [DemoNode.e1], DemoNode.light)) in
  ∃ n', process_ready n = (Done (Ok tt), n') ∧ last_applied_index (cluster n') = 1%N ∧
    sent (swarm_commands (transport n')) = [].
Proof.
  intros n. destruct (light_ready_dropped n (DemoNode.commit [DemoNode.e1]) (raw_node n)) as (r & Hr).
  - reflexivity.
  - reflexivity.
  - eexists. split; [exact Hr|]. split; vm_compute; reflexivity.
Defined.

