(* ===== verification/RaftHistory.v ===== *)
(** * What the raft storage keeps (crates/node/src/raft/storage.rs, node.rs)

    Three ways the storage is used over time, on the definitions of [RaftStorage] and
    [RaftNode]: a snapshot of the log, entries that replace others, and a node that
    starts again on the store it left. *)

From S2P Require Import Prelude CoreTypes Interfaces Json BlobStore RaftStorage RaftNet RaftNode.

Section history.
Context {W C : Type} `{BlobStoreLaws W, LruLaws C, SerdeJson JsonValue}.
Local Abbreviation Store := (CasRaftStorage (W := W) (C := C)).
Implicit Types s : Store.

(** ** Snapshots *)

(** The entries of the log at some indices, each followed by a newline. *)
Definition log_lines (l : gmap N Entry) (idxs : list N) : bytes :=
  concat ((λ e, e_data e ++ [x0a]) <$> omap (λ i, l !! i) idxs).

Lemma snapshot_data_ok idxs data s l : log_ok s l →
  snapshot_data idxs data s = (Done (Ok (data ++ log_lines l idxs)), s).
Proof.
  intros Hl. revert data. unfold log_lines. induction idxs as [|i idxs IH]; intros data; simpl.
  { by rewrite app_nil_r. }
  destruct (l !! i) as [e|] eqn:He.
  - destruct (lo_hash s l Hl i e He) as (h & -> & Hh).
    unfold bind. rewrite (with_get_ok h (e_data e) s l) by done. rewrite IH. simpl.
    by rewrite <- !(assoc (++)).
  - rewrite (lo_absent s l Hl i He). apply IH.
Qed.

(** A snapshot is the whole log.  A request for an index beyond the last one is
    refused; any other gets the data of every entry up to the last index, in order,
    under the last index, and the storage is as before. *)
Theorem snapshot_is_whole_log request_index s l : log_ok s l →
  snapshot request_index s =
  if (last_index s <? request_index)%N then (Done (Err SnapshotTemporarilyUnavailable), s)
  else (Done (Ok (mkSnapshot (log_lines l (range 1 (last_index s + 1)))
          (Some (mkSnapshotMetadata (Some (rs_conf_state (initial_state s))) (last_index s) 1)))), s).
Proof.
  intros Hl. unfold snapshot, last_index. destruct (_ <? _)%N; [done|].
  by rewrite (bind_ok _ _ _ _ _ (snapshot_data_ok _ _ _ _ Hl)).
Qed.

(** Nothing in a snapshot says where an entry ends: two logs, of one entry and of
    two, have the same data. *)
Lemma snapshot_data_ambiguous (e1 e2 : Entry) :
  log_lines {[1%N := mkEntry 0 0 1 (e_data e1 ++ [x0a] ++ e_data e2) [] false]} (range 1 2) =
  log_lines {[1%N := e1; 2%N := e2]} (range 1 3).
Proof.
  change (((e_data e1 ++ [x0a] ++ e_data e2) ++ [x0a]) ++ [] = (e_data e1 ++ [x0a]) ++ (e_data e2 ++ [x0a]) ++ []).
  by rewrite <- !(assoc (++)).
Qed.

(** ** Entries that replace others *)

(** Raft drops what follows a replaced entry; the storage keeps it: the last index
    does not go back, and the later entries of the log stay. *)
Theorem conflicting_suffix_kept e s l : log_ok s l → bs_adm (e_data e) → (e_index e <= last_index s)%N →
  ∃ s', append_entry e s = (Done (Ok tt), s') ∧ last_index s' = last_index s ∧
    log_ok s' (<[e_index e := e]> l) ∧ ∀ j e', (e_index e < j)%N → l !! j = Some e' → <[e_index e := e]> l !! j = Some e'.
Proof.
  intros Hl Hadm Hi. destruct (append_entry_ok e s l Hl Hadm) as (s' & Ha & Hl' & Hlast).
  exists s'. split_and!; [done| |done|].
  - unfold last_index in *. lia.
  - intros j e' Hj Hl2. rewrite lookup_insert_ne; [done|lia].
Qed.

(** ** A node that starts again *)

(** The hard state a node has persisted, its vote in particular, and its log are
    forgotten when it starts again on its store. *)
Theorem restart_forgets_vote hs s l voters : log_ok s l →
  (∃ d, to_vec (hard_state_to_json hs) = Ok d ∧ bs_adm d) →
  ∃ s', set_hard_state hs s = (Done (Ok tt), s') ∧ rs_hard_state (initial_state s') = hs ∧
    let again : Store := new_empty (object_store s') voters in
    rs_hard_state (initial_state again) = HardState_default ∧ last_index again = 0%N ∧ log_ok again ∅.
Proof.
  intros Hl (d & Hd & Hadm).
  destruct (bs_put_ok d (object_store s) (lo_healthy s l Hl) Hadm) as (h & w' & Hput & Hw' & _).
  eexists. split.
  { unfold set_hard_state, bind, lift_result, with_store. rewrite Hd. simpl. by rewrite Hput. }
  split; [done|]. split; [done|]. split; [done|]. split; simpl; [done|..].
  - intros i e. by rewrite lookup_empty.
  - intros i e. by rewrite lookup_empty.
  - intros i _. unfold tracked_hash. simpl. destruct (N.to_nat i) as [|[|n]]; done.
  - intros i e'. by rewrite peek_new.
Qed.
End history.

(** ** Concrete runs *)

Import (hints) DemoState.

(** The leader of term 4 replaces the first entry: the second, of term 3, is still
    read after it. *)
Example stale_entry_is_read :
  let s := (append_entry (Demo.entry 1 4 "other") DemoState.state).2 in
  (entries 1 3 None s).1 = Done (Ok [Demo.entry 1 4 "other"; reloaded (Demo.entry 2 3 "second")]).
Proof. vm_compute. done. Qed.
