(* ===== verification/RuntimeLoop.v ===== *)
(** * Node registration (crates/node/src/orchestration/runtime_loop.rs)

    The choice of an executor, and the loop that proposes this node until it is in
    the replicated state. *)

From S2P Require Import Prelude CoreTypes Interfaces Channels StateMachine.

Definition REGISTER_INTERVAL : N := 2.

Section runtime_loop.
Context `{HashOrder, UuidText}.

(** [d.raft_id] of a node that may execute. *)
Definition executor_raft_id (d : NodeDescriptor) : option N :=
  match raft_id d with
  | Some rid => if bool_decide (Execution ∈ current_assigned_roles d) then Some rid else None
  | None => None
  end.

Definition pick_executor (seed : N) (state : ClusterState) (exclude : option N) : option N :=
  snd <$> list_find (λ rid, Some rid ≠ exclude)
    (omap (executor_raft_id ∘ snd) (hash_iter seed (nodes state))).

(** A node of the state has this raft id. *)
Definition is_registered (self_raft_id : N) (state : ClusterState) : bool :=
  existsb (λ x, bool_decide (raft_id x.2 = Some self_raft_id)) (map_to_list (nodes state)).

(** One turn of the loop of [spawn_register_loop], after its sleep. *)
Definition register_tick (self_raft_id : N) (self_desc : NodeDescriptor) (state : ClusterState)
    (proposal_tx : Sender Proposal) : Sender Proposal :=
  if is_registered self_raft_id state then proposal_tx
  else (chan_send (RegisterNode self_desc) proposal_tx).2.

(** [spawn_runtime] drops its arguments. *)
Definition spawn_runtime {A} (arguments : A) : unit := tt.

(** A round in which what the turn proposed, if anything, is committed and applied. *)
Definition register_round (self_raft_id : N) (self_desc : NodeDescriptor)
    (x : ClusterState * Sender Proposal) : ClusterState * Sender Proposal :=
  let tx := register_tick self_raft_id self_desc x.1 x.2 in
  (foldl (λ s p, snd (apply s p)) x.1 (drop (length (sent x.2)) (sent tx)), tx).

(** ** Lemmas *)

Lemma is_registered_spec rid s :
  is_registered rid s = true ↔ ∃ id d, nodes s !! id = Some d ∧ raft_id d = Some rid.
Proof.
  unfold is_registered. rewrite existsb_exists. split.
  - intros ([id d] & Hin & Hd). apply bool_decide_eq_true in Hd. exists id, d. split; [|done].
    by apply elem_of_map_to_list, list_elem_of_In.
  - intros (id & d & Hl & Hd). exists (id, d). split; [|by apply bool_decide_eq_true].
    by apply list_elem_of_In, elem_of_map_to_list.
Qed.

Lemma register_registers rid d s :
  raft_id d = Some rid → is_registered rid (snd (apply s (RegisterNode d))) = true.
Proof.
  intros Hd. apply is_registered_spec. exists (node_id d), d. split; [|done].
  simpl. apply lookup_insert_eq.
Qed.

Lemma round_registered rid d x :
  is_registered rid x.1 = true → register_round rid d x = x.
Proof.
  intros Hr. unfold register_round, register_tick. rewrite Hr, drop_all. by destruct x.
Qed.

Lemma rounds_registered n rid d x :
  is_registered rid x.1 = true → Nat.iter n (register_round rid d) x = x.
Proof.
  intros Hr. induction n as [|n IH]; [done|]. simpl. by rewrite IH, round_registered.
Qed.

Lemma round_unregistered rid d s tx :
  is_registered rid s = false → chan_ready tx = true →
  ∃ tx', register_round rid d (s, tx) = (snd (apply s (RegisterNode d)), tx') ∧
    sent tx' = sent tx ++ [RegisterNode d].
Proof.
  intros Hr Htx. unfold register_round, register_tick. simpl. rewrite Hr.
  destruct (chan_send_ready (RegisterNode d) tx Htx) as (tx' & -> & Hs). exists tx'.
  split; [|done]. simpl. by rewrite Hs, drop_app_length.
Qed.

(** ** Properties *)

(** [pick_executor] is sound and complete.  It returns the raft id of a
    registered node with the execution role, other than the excluded one, and
    returns nothing exactly when there is no such node. *)
Theorem pick_executor_spec `{!HashOrderLaws} seed s exclude :
  let candidate rid := (∃ id d, nodes s !! id = Some d ∧ raft_id d = Some rid ∧
    Execution ∈ current_assigned_roles d) ∧ Some rid ≠ exclude in
  (∀ rid, pick_executor seed s exclude = Some rid → candidate rid) ∧
  (pick_executor seed s exclude = None ↔ ∀ rid, ¬ candidate rid).
Proof.
  intros candidate. set (l := omap (executor_raft_id ∘ snd) (hash_iter seed (nodes s))).
  assert (∀ rid, rid ∈ l ∧ Some rid ≠ exclude ↔ candidate rid) as Hl.
  { intros rid. unfold candidate. apply and_iff_compat_r. unfold l. rewrite list_elem_of_omap. split.
    - intros ([id d] & Hin & Hd). apply elem_of_hash_iter in Hin. exists id, d. split; [done|].
      simpl in Hd. unfold executor_raft_id in Hd. destruct (raft_id d); [|done].
      case_bool_decide; by simplify_eq.
    - intros (id & d & Hin & Hr & He). exists (id, d). split; [by apply elem_of_hash_iter|]. simpl.
      unfold executor_raft_id. by rewrite Hr, bool_decide_eq_true_2. }
  unfold pick_executor. fold l. split.
  - intros rid Hf. apply Hl. destruct (list_find _ l) as [[i x]|] eqn:Hfind; simplify_eq/=.
    apply list_find_Some in Hfind as (Hi & Hne & _). split; [by eapply list_elem_of_lookup_2|done].
  - rewrite fmap_None, list_find_None, Forall_forall. split.
    + intros Hall rid [Hin Hne]%Hl. by apply (Hall rid).
    + intros Hall rid Hin Hne. apply (Hall rid). by apply Hl.
Qed.

(** Registration converges and stops.  On a channel that accepts proposals,
    whatever the number of rounds (one at least), exactly one proposal is sent if
    no node had this raft id, none otherwise, and in the end a node has it. *)
Theorem registration_converges rid d s tx n :
  raft_id d = Some rid → chan_ready tx = true →
  let '(s', tx') := Nat.iter (S n) (register_round rid d) (s, tx) in
  is_registered rid s' = true ∧
  sent tx' = sent tx ++ (if is_registered rid s then [] else [RegisterNode d]).
Proof.
  intros Hd Htx. rewrite Nat.iter_succ_r. destruct (is_registered rid s) eqn:Hr.
  - rewrite round_registered, rounds_registered by done. by rewrite app_nil_r.
  - destruct (round_unregistered rid d s tx Hr Htx) as (tx' & -> & Hs).
    pose proof (register_registers rid d s Hd) as Hreg.
    by rewrite rounds_registered.
Qed.

(** A restarted node stays under its old identity.  When the state holds a
    node with this raft id under another node id, as after a restart that drew a
    fresh node id, the loop never proposes the new descriptor: the new node id
    never enters the state. *)
Theorem stale_registration_blocks rid d old s tx n :
  nodes s !! node_id old = Some old → raft_id old = Some rid → node_id d ≠ node_id old →
  nodes s !! node_id d = None →
  let '(s', tx') := Nat.iter n (register_round rid d) (s, tx) in
  sent tx' = sent tx ∧ nodes s' !! node_id d = None.
Proof.
  intros Hold Hr Hne Hd. rewrite rounds_registered; [done|]. apply is_registered_spec. eauto.
Qed.
End runtime_loop.

(** ** Concrete runs *)

Module DemoRuntime.
Definition node (id rid : N) (roles : list Role) : NodeDescriptor :=
  {| node_id := id; node_type := Heavy; os := Linux; capabilities := Capabilities_default;
     advertised_addresses := []; current_assigned_roles := roles; started_at := 0%Z;
     raft_id := Some rid |}.
Definition state : ClusterState :=
  mkClusterState {[ 7%N := node 7 1 [Storage]; 8%N := node 8 2 [Execution] ]} ∅ 3.
End DemoRuntime.

Lemma pick_executor_spec_witness :
  let _ := Toy.hash_order in ¬ pick_executor 0 DemoRuntime.state (Some 1%N) = None.
Proof.
  intros O Hn. pose proof (proj1 (proj2 (pick_executor_spec (H1 := Toy.hash_order_laws)
    0 DemoRuntime.state (Some 1%N))) Hn 2%N) as Hc.
  apply Hc. split; [|done]. exists 8%N, (DemoRuntime.node 8 2 [Execution]).
  split; [done|]. split; [done|]. by left.
Defined.

Lemma registration_converges_witness :
  let _ := Toy.uuid_text in
  let d := DemoRuntime.node 9 3 [] in
  let x := Nat.iter 2 (register_round 3 d) (DemoRuntime.state, mkSender [] []) in
  is_registered 3 x.1 = true ∧ sent x.2 = [RegisterNode d].
Proof.
  intros U d x.
  pose proof (registration_converges 3 d DemoRuntime.state (mkSender [] []) 1 eq_refl eq_refl) as Hc.
  fold x in Hc. destruct x as [s' tx']. exact Hc.
Defined.

Lemma stale_registration_blocks_witness :
  let _ := Toy.uuid_text in
  let d := DemoRuntime.node 9 2 [] in
  let x := Nat.iter 5 (register_round 2 d) (DemoRuntime.state, mkSender [] []) in
  sent x.2 = [] ∧ nodes x.1 !! 9%N = None.
Proof.
  intros U d x.
  pose proof (stale_registration_blocks 2 d (DemoRuntime.node 8 2 [Execution]) DemoRuntime.state
    (mkSender [] []) 5 eq_refl eq_refl ltac:(discriminate) eq_refl) as Hc.
  fold x in Hc. destruct x as [s' tx']. exact Hc.
Defined.
