(* ===== verification/CasFetch.v ===== *)
(** * Fetching blobs from peers (crates/node/src/cas_fetch.rs)

    The fetcher's shared state, [ensure_blob] cut at the points where other tasks
    can run, and the delivery of a peer's answer.  Any number of fetches run beside
    the swarm loop; a oneshot channel is named by the fetch that waits on it. *)

From S2P Require Import Prelude CoreTypes Interfaces Channels BlobStore Swarm RaftNet.

(** The receiving end of a oneshot channel. *)
Inductive Oneshot :=
| Pending
| Delivered (data : bytes)
| SenderDropped.

(** Where a fetch stands in [ensure_blob]: the blob is not local; the requests are
    being sent ([rest] remain); the answer is awaited; returned. *)
Inductive Phase :=
| Missed
| Asking (peers rest : list (N * PeerId))
| Waiting (peers : list (N * PeerId))
| Finished (r : outcome CoreError bytes).

Record Fetch := mkFetch {
  f_hash : Hash;
  f_timeout_secs : N;
  f_phase : Phase;
  f_rx : Oneshot;
}.
Definition set_phase (p : Phase) (f : Fetch) : Fetch :=
  mkFetch (f_hash f) (f_timeout_secs f) p (f_rx f).
Definition set_rx (r : Oneshot) (f : Fetch) : Fetch :=
  mkFetch (f_hash f) (f_timeout_secs f) (f_phase f) r.

Definition DEFAULT_FETCH_TIMEOUT : N := 300.

Section cas_fetch.
Context {W : Type} `{BlobStore W, HashOrder}.
(** The seed of the registry's iteration order. *)
Context (seed : N).

Record BlobFetcher := mkBlobFetcher {
  store : W;
  commands : Sender SwarmCommand;
  raft_registry : RaftIdRegistry;
  waiters : gmap Hash (list N);
  fetches : gmap N Fetch;
  next_fetch : N;
}.

Definition set_store (w : W) (s : BlobFetcher) : BlobFetcher :=
  mkBlobFetcher w (commands s) (raft_registry s) (waiters s) (fetches s) (next_fetch s).
Definition set_commands (c : Sender SwarmCommand) (s : BlobFetcher) : BlobFetcher :=
  mkBlobFetcher (store s) c (raft_registry s) (waiters s) (fetches s) (next_fetch s).
Definition set_registry (r : RaftIdRegistry) (s : BlobFetcher) : BlobFetcher :=
  mkBlobFetcher (store s) (commands s) r (waiters s) (fetches s) (next_fetch s).
Definition set_waiters (m : gmap Hash (list N)) (s : BlobFetcher) : BlobFetcher :=
  mkBlobFetcher (store s) (commands s) (raft_registry s) m (fetches s) (next_fetch s).
Definition set_fetches (m : gmap N Fetch) (s : BlobFetcher) : BlobFetcher :=
  mkBlobFetcher (store s) (commands s) (raft_registry s) (waiters s) m (next_fetch s).
Definition add_fetch (f : Fetch) (s : BlobFetcher) : BlobFetcher :=
  mkBlobFetcher (store s) (commands s) (raft_registry s) (waiters s)
    (<[next_fetch s := f]> (fetches s)) (N.succ (next_fetch s)).
Definition enter (id : N) (p : Phase) (s : BlobFetcher) : BlobFetcher :=
  set_fetches (alter (set_phase p) id (fetches s)) s.

Definition fetcher_new (w : W) (tx : Sender SwarmCommand) (r : RaftIdRegistry) : BlobFetcher :=
  mkBlobFetcher w tx r ∅ ∅ 0.

(** All senders of a hash leave the map; their receivers see [r]. *)
Definition wake (hash : Hash) (r : Oneshot) (s : BlobFetcher) : BlobFetcher :=
  let ids := default [] (waiters s !! hash) in
  set_waiters (delete hash (waiters s))
    (set_fetches (foldr (alter (set_rx r)) (fetches s) ids) s).

Definition drop_waiter (hash : Hash) : BlobFetcher → BlobFetcher := wake hash SenderDropped.

Definition with_store {E A} (m : M W E A) : M BlobFetcher E A := λ s,
  let '(o, w) := m (store s) in (o, set_store w s).

Definition on_blob_received (hash : Hash) (found : bool) (data : bytes) :
    M BlobFetcher CoreError bool :=
  if negb found || bool_decide (data = []) then ret false
  else
    let! r := attempt (with_store (bs_put data)) in
    match r with
    | Err _ => ret false
    | Ok _ => λ s, (Done (Ok true), wake hash (Delivered data) s)
    end.

(** *** [ensure_blob], one await at a time *)

Definition no_peer_msg (hash : Hash) : string :=
  fmt ["blob "; hash; " is not in the local CAS and no peer is known to ask ";
       "(no descriptor exchange completed yet)"].
Definition dropped_msg (hash : Hash) : string :=
  fmt ["blob "; hash; " request was dropped before any peer answered"].
Definition timeout_msg (f : Fetch) (peers : list (N * PeerId)) : string :=
  fmt ["timed out after "; dec (f_timeout_secs f); "s waiting for blob "; f_hash f; " from ";
       dec (N.of_nat (length peers)); " peer(s); is the node that submitted the project still up?"].

(** The local lookup. *)
Definition begin_fetch (hash : Hash) (timeout_secs : N) (s : BlobFetcher) : BlobFetcher :=
  let '(o, w) := bs_get hash (store s) in
  let phase := match o with
               | Done (Ok bytes) => Finished (Done (Ok bytes))
               | Done (Err _) => Missed
               | Panic why => Finished (Panic why)
               end in
  add_fetch (mkFetch hash timeout_secs phase Pending) (set_store w s).

(** The waiter is registered, then the peers are listed. *)
Definition register (id : N) (f : Fetch) (s : BlobFetcher) : BlobFetcher :=
  let hash := f_hash f in
  let s := set_waiters (<[hash := default [] (waiters s !! hash) ++ [id]]> (waiters s)) s in
  let peers := registry_snapshot seed (raft_registry s) in
  match peers with
  | [] => enter id (Finished (Done (Err (Network (no_peer_msg hash))))) (drop_waiter hash s)
  | _ => enter id (Asking peers peers) s
  end.

(** The outcome of the oneshot, once there is one. *)
Definition receive (id : N) (f : Fetch) (s : BlobFetcher) : BlobFetcher :=
  match f_rx f with
  | Delivered bytes => enter id (Finished (Done (Ok bytes))) s
  | SenderDropped =>
      enter id (Finished (Done (Err (Network (dropped_msg (f_hash f)))))) (drop_waiter (f_hash f) s)
  | Pending => s
  end.

Definition proceed (id : N) (s : BlobFetcher) : BlobFetcher :=
  match fetches s !! id with
  | Some f =>
      match f_phase f with
      | Missed => register id f s
      | Asking peers ((_, peer_id) :: rest) =>
          let '(_, tx) := chan_send (RequestBlob peer_id (f_hash f)) (commands s) in
          enter id (Asking peers rest) (set_commands tx s)
      | Asking peers [] => enter id (Waiting peers) s
      | Waiting _ => receive id f s
      | Finished _ => s
      end
  | None => s
  end.

(** The deadline: the receiver is polled once more before the timeout wins. *)
Definition expire (id : N) (s : BlobFetcher) : BlobFetcher :=
  match fetches s !! id with
  | Some f =>
      match f_phase f, f_rx f with
      | Waiting peers, Pending =>
          enter id (Finished (Done (Err (Network (timeout_msg f peers))))) (drop_waiter (f_hash f) s)
      | Waiting _, _ => receive id f s
      | _, _ => s
      end
  | None => s
  end.

(** The interleaving of the fetches, the swarm loop's deliveries, and the peers the
    registry learns. *)
Inductive Input :=
| Begin (hash : Hash) (timeout_secs : N)
| Proceed (id : N)
| Expire (id : N)
| Received (hash : Hash) (found : bool) (data : bytes)
| Learned (raft_id : N) (peer_id : PeerId).

Definition step (i : Input) (s : BlobFetcher) : BlobFetcher :=
  match i with
  | Begin hash timeout_secs => begin_fetch hash timeout_secs s
  | Proceed id => proceed id s
  | Expire id => expire id s
  | Received hash found data => (on_blob_received hash found data s).2
  | Learned raft_id peer_id => set_registry (registry_insert raft_id peer_id (raft_registry s)) s
  end.
Definition run (s : BlobFetcher) (inputs : list Input) : BlobFetcher :=
  foldl (λ s i, step i s) s inputs.

(** ** Invariant *)

(** The fetch has registered its waiter and not returned. *)
Definition registered (f : Fetch) : bool :=
  match f_phase f with Asking _ _ | Waiting _ => true | _ => false end.
Definition finished (f : Fetch) : bool :=
  match f_phase f with Finished _ => true | _ => false end.

(** The waiters are exactly the registered fetches nobody has woken. *)
Record fetcher_wf (s : BlobFetcher) : Prop := {
  wf_waiters h ids : waiters s !! h = Some ids →
    ids ≠ [] ∧ ∀ id, id ∈ ids → ∃ f, fetches s !! id = Some f ∧
      f_hash f = h ∧ registered f = true ∧ f_rx f = Pending;
  wf_registered id f : fetches s !! id = Some f → registered f = true → f_rx f = Pending →
    ∃ ids, waiters s !! f_hash f = Some ids ∧ id ∈ ids;
  wf_missed id f : fetches s !! id = Some f → f_phase f = Missed → f_rx f = Pending;
  wf_fresh id f : fetches s !! id = Some f → (id < next_fetch s)%N;
}.

(** ** Lemmas *)

Lemma foldr_alter_lookup r ids (m : gmap N Fetch) id :
  foldr (alter (set_rx r)) m ids !! id =
  (if decide (id ∈ ids) then set_rx r else (λ f, f)) <$> m !! id.
Proof.
  induction ids as [|i ids IH].
  { rewrite decide_False by apply not_elem_of_nil. simpl. by destruct (m !! id). }
  simpl. destruct (decide (i = id)) as [->|Hne].
  - rewrite lookup_alter_eq, IH, (decide_True (P := id ∈ id :: ids)) by left.
    by case_decide; destruct (m !! id).
  - rewrite lookup_alter_ne, IH by done. destruct (decide (id ∈ ids)).
    + by rewrite decide_True by by right.
    + rewrite decide_False; [done|]. by intros [->|]%elem_of_cons.
Qed.

(** Waking the waiters of a hash. *)
Lemma wake_fetches h r s id :
  fetches (wake h r s) !! id =
  (if decide (id ∈ default [] (waiters s !! h)) then set_rx r else (λ f, f)) <$> fetches s !! id.
Proof. apply foldr_alter_lookup. Qed.

Lemma enter_fetches id p s id' :
  fetches (enter id p s) !! id' =
  (if decide (id = id') then set_phase p else (λ f, f)) <$> fetches s !! id'.
Proof.
  simpl. case_decide as Heq; [subst; by rewrite lookup_alter_eq|].
  rewrite lookup_alter_ne by done. by destruct (_ !! _).
Qed.

Lemma wake_wf h r s : r ≠ Pending → fetcher_wf s → fetcher_wf (wake h r s).
Proof.
  intros Hr [Hw Hreg Hm Hf]. split.
  - intros h' ids. simpl. intros [Hne (Hids & Hall)%Hw]%lookup_delete_Some. split; [done|].
    intros id Hid. destruct (Hall id Hid) as (f & Hl & Hh & ? & ?). exists f.
    rewrite foldr_alter_lookup, decide_False, Hl; [done|]. intros Hin.
    destruct (waiters s !! h) as [ids'|] eqn:Hl'; [|by apply not_elem_of_nil in Hin].
    destruct (Hw _ _ Hl') as [_ Hall']. destruct (Hall' id Hin) as (f' & ? & ? & _). congruence.
  - intros id f. rewrite wake_fetches. destruct (fetches s !! id) as [f0|] eqn:Hl; [|done]. simpl.
    intros [= <-] Hrf Hp. case_decide as Hin; [by destruct Hr|].
    destruct (Hreg id f0 Hl Hrf Hp) as (ids & Hids & Hid). exists ids. split; [|done].
    rewrite lookup_delete_ne; [done|]. intros ->. destruct Hin. by rewrite Hids.
  - intros id f. rewrite wake_fetches. destruct (fetches s !! id) as [f0|] eqn:Hl; [|done]. simpl.
    intros [= <-] Hph. case_decide as Hin; [|by eapply Hm].
    destruct (waiters s !! h) as [ids|] eqn:Hl'; [|by apply not_elem_of_nil in Hin].
    destruct (Hw _ _ Hl') as [_ Hall]. destruct (Hall id Hin) as (f' & Hf' & _ & Hrf & _).
    simplify_eq. unfold registered in Hrf. simpl in Hph. by rewrite Hph in Hrf.
  - intros id f. rewrite wake_fetches. destruct (fetches s !! id) as [f0|] eqn:Hl; [|done].
    intros _. by eapply Hf.
Qed.

(** A fetch that is not waiting for a wake-up may change phase. *)
Lemma enter_wf id p s f :
  fetches s !! id = Some f → p ≠ Missed →
  (registered f = true ∧ registered (set_phase p f) = true ∨
   f_rx f ≠ Pending ∨ registered f = false ∧ registered (set_phase p f) = false) →
  fetcher_wf s → fetcher_wf (enter id p s).
Proof.
  intros Hid Hnm Hcase [Hw Hreg Hm Hf]. split.
  - intros h ids (Hids & Hall)%Hw. split; [done|]. intros id' Hin.
    destruct (Hall id' Hin) as (f' & Hl & ? & ? & ?). rewrite enter_fetches, Hl.
    case_decide as Heq; [|by exists f']. subst id'. simplify_eq. eexists. split; [done|].
    destruct Hcase as [[_ ?]|[?|[? _]]]; [done|done|congruence].
  - intros id' f'. rewrite enter_fetches. destruct (fetches s !! id') as [f0|] eqn:Hl; [|done].
    case_decide as Heq; simpl; intros [= <-] Hr Hp; [|by eapply Hreg].
    subst id'. assert (f0 = f) as -> by congruence.
    destruct Hcase as [[? _]|[?|[_ ?]]]; [by apply (Hreg id f)|done|congruence].
  - intros id' f'. rewrite enter_fetches. destruct (fetches s !! id') as [f0|] eqn:Hl; [|done].
    case_decide as Heq; simpl; intros [= <-] Hph; [done|by eapply Hm].
  - intros id' f'. rewrite enter_fetches. destruct (fetches s !! id') as [f0|] eqn:Hl; [|done].
    intros _. by eapply Hf.
Qed.

(** Registering a waiter, before the peers are listed. *)
Definition add_waiter (id : N) (h : Hash) (s : BlobFetcher) : BlobFetcher :=
  set_waiters (<[h := default [] (waiters s !! h) ++ [id]]> (waiters s)) s.

Lemma add_waiter_wf id f peers s :
  fetches s !! id = Some f → f_phase f = Missed → fetcher_wf s →
  fetcher_wf (enter id (Asking peers peers) (add_waiter id (f_hash f) s)).
Proof.
  intros Hid Hph [Hw Hreg Hm Hf]. pose proof (Hm id f Hid Hph) as Hrx. split.
  - intros h ids. simpl. intros [[<- <-]|[Hne Hl]]%lookup_insert_Some.
    + split; [by destruct (default _ _)|]. intros id' Hin.
      destruct (decide (id = id')) as [<-|Hni].
      * eexists. by rewrite lookup_alter_eq, Hid.
      * rewrite lookup_alter_ne by done. apply elem_of_app in Hin as [Hin|Hin%list_elem_of_singleton];
          [|done]. destruct (waiters s !! f_hash f) as [ids|] eqn:Hl; [|by apply not_elem_of_nil in Hin].
        by apply (Hw _ _ Hl).
    + destruct (Hw _ _ Hl) as [? Hall]. split; [done|]. intros id' Hin.
      destruct (Hall id' Hin) as (f' & Hl' & ? & Hr & ?). exists f'.
      rewrite lookup_alter_ne; [done|]. intros <-. congruence.
  - intros id' f'. rewrite enter_fetches. simpl. destruct (fetches s !! id') as [f0|] eqn:Hl; [|done].
    case_decide as Heq; simpl; intros [= <-] Hr Hp.
    + subst id'. assert (f0 = f) as -> by congruence. simpl. rewrite lookup_insert_eq.
      eexists. split; [done|]. apply elem_of_app. right. by left.
    + destruct (Hreg id' f0 Hl Hr Hp) as (ids & Hids & Hin). rewrite lookup_insert.
      case_decide as Hh; [|by eauto]. eexists. split; [done|]. rewrite Hh, Hids.
      apply elem_of_app. by left.
  - intros id' f'. rewrite enter_fetches. simpl. destruct (fetches s !! id') as [f0|] eqn:Hl; [|done].
    case_decide; simpl; intros [= <-]; [done|by eapply Hm].
  - intros id' f'. rewrite enter_fetches. simpl. destruct (fetches s !! id') as [f0|] eqn:Hl; [|done].
    intros _. by eapply Hf.
Qed.

(** The last phase entered is the one that counts. *)
Lemma enter_wake_enter id p q h r s :
  enter id p (wake h r (enter id q s)) = enter id p (wake h r s).
Proof.
  unfold enter, wake, set_fetches, set_waiters. simpl. f_equal. apply map_eq. intros i.
  destruct (decide (id = i)) as [->|Hne].
  - rewrite !lookup_alter_eq, !foldr_alter_lookup, lookup_alter_eq.
    by destruct (fetches s !! i) as [f|]; simpl; [case_decide|].
  - by rewrite !lookup_alter_ne, !foldr_alter_lookup, lookup_alter_ne.
Qed.

Lemma register_wf id f s :
  fetches s !! id = Some f → f_phase f = Missed → fetcher_wf s → fetcher_wf (register id f s).
Proof.
  intros Hid Hph Hwf. unfold register. fold (add_waiter id (f_hash f) s).
  pose proof (add_waiter_wf id f (registry_snapshot seed (raft_registry s)) s Hid Hph Hwf) as Hs.
  change (raft_registry (add_waiter _ _ s)) with (raft_registry s).
  destruct (registry_snapshot seed (raft_registry s)) as [|p ps]; [|done].
  unfold drop_waiter. rewrite <- (enter_wake_enter _ _ (Asking [] [])).
  eapply enter_wf; [|done| |by apply wake_wf].
  - rewrite wake_fetches, enter_fetches, (decide_True (P := id = id)) by done.
    change (fetches (add_waiter _ _ s)) with (fetches s). by rewrite Hid.
  - right; left. simpl. rewrite lookup_insert_eq. simpl. rewrite decide_True; [done|].
    apply elem_of_app. right. by left.
Qed.

Lemma receive_wf id f s :
  fetches s !! id = Some f → registered f = true → fetcher_wf s → fetcher_wf (receive id f s).
Proof.
  intros Hid Hr Hwf. unfold receive, drop_waiter. destruct (f_rx f) as [|d|] eqn:Hrx; [done|..].
  - eapply enter_wf; [done|done| |done]. right; left. by rewrite Hrx.
  - eapply enter_wf; [|done| |by apply wake_wf].
    + by rewrite wake_fetches, Hid.
    + right; left. by case_decide; simpl; rewrite ?Hrx.
Qed.

(** What a delivery does to the state. *)
Lemma on_blob_received_state h found d s :
  let s' := (on_blob_received h found d s).2 in
  ∃ w, s' = set_store w s ∨
    s' = wake h (Delivered d) (set_store w s) ∧ found = true ∧ d ≠ [] ∧
    ∃ h', bs_put d (store s) = (Done (Ok h'), w).
Proof.
  unfold on_blob_received. destruct found; simpl; [|exists (store s); left; by destruct s].
  case_bool_decide as Hd; [exists (store s); left; by destruct s|].
  unfold bind, attempt, with_store. destruct (bs_put d (store s)) as [[[h'|e]|why] w] eqn:Hp;
    exists w; simpl; eauto 10.
Qed.

Lemma set_store_wf w s : fetcher_wf s → fetcher_wf (set_store w s).
Proof. by intros []. Qed.
Lemma set_commands_wf c s : fetcher_wf s → fetcher_wf (set_commands c s).
Proof. by intros []. Qed.
Lemma set_registry_wf r s : fetcher_wf s → fetcher_wf (set_registry r s).
Proof. by intros []. Qed.

Lemma proceed_wf id s : fetcher_wf s → fetcher_wf (proceed id s).
Proof.
  intros Hwf. unfold proceed. destruct (fetches s !! id) as [f|] eqn:Hid; [|done].
  destruct (f_phase f) as [|ps [|[r p] rest]|ps|o] eqn:Hph; [by apply register_wf| | | |done].
  - eapply enter_wf; [done|done| |done]. left. unfold registered. by rewrite Hph.
  - destruct (chan_send _ _) as [o tx]. eapply enter_wf; [exact Hid|done| |by apply set_commands_wf].
    left. unfold registered. by rewrite Hph.
  - apply receive_wf; [done| |done]. unfold registered. by rewrite Hph.
Qed.

Lemma expire_wf id s : fetcher_wf s → fetcher_wf (expire id s).
Proof.
  intros Hwf. unfold expire, drop_waiter. destruct (fetches s !! id) as [f|] eqn:Hid; [|done].
  destruct (f_phase f) as [|ps rest|ps|o] eqn:Hph; [done|done| |done].
  assert (registered f = true) as Hr by (unfold registered; by rewrite Hph).
  destruct (f_rx f) as [|d|] eqn:Hrx; [|by apply receive_wf..].
  eapply enter_wf; [by rewrite wake_fetches, Hid|done| |by apply wake_wf].
  right; left. destruct (wf_registered _ Hwf id f Hid Hr Hrx) as (ids & Hids & Hin).
  by rewrite Hids, decide_True.
Qed.

Lemma begin_wf h t s : fetcher_wf s → fetcher_wf (begin_fetch h t s).
Proof.
  intros [Hw Hreg Hm Hf]. unfold begin_fetch. destruct (bs_get h (store s)) as [o w].
  set (f := mkFetch _ _ _ _). assert (registered f = false) as Hnr by by destruct o as [[]|].
  assert (fetches s !! next_fetch s = None) as Hfresh.
  { destruct (fetches s !! next_fetch s) eqn:Hl; [|done]. apply Hf in Hl. lia. }
  split; simpl.
  - intros h' ids (? & Hall)%Hw. split; [done|]. intros id Hin. destruct (Hall id Hin) as (f' & Hl & ?).
    exists f'. split; [|done]. rewrite lookup_insert_ne; [done|]. congruence.
  - intros id f' [[<- <-]|[? ?]]%lookup_insert_Some; [congruence|by apply (Hreg id)].
  - intros id f' [[<- <-]|[? ?]]%lookup_insert_Some; [done|by apply (Hm id)].
  - intros id f' [[<- <-]|[? Hl]]%lookup_insert_Some; [lia|]. apply Hf in Hl. lia.
Qed.

Lemma step_wf i s : fetcher_wf s → fetcher_wf (step i s).
Proof.
  destruct i as [h t|id|id|h found d|r p]; simpl; intros Hwf.
  - by apply begin_wf.
  - by apply proceed_wf.
  - by apply expire_wf.
  - destruct (on_blob_received_state h found d s) as (w & [-> | [-> _]]).
    + by apply set_store_wf.
    + apply wake_wf; [done|]. by apply set_store_wf.
  - by apply set_registry_wf.
Qed.

Lemma run_wf inputs s : fetcher_wf s → fetcher_wf (run s inputs).
Proof. revert s. induction inputs as [|i l IH]; intros s Hwf; [done|]. apply IH. by apply step_wf. Qed.

Lemma new_wf w tx r : fetcher_wf (fetcher_new w tx r).
Proof. split; simpl; intros *; by rewrite lookup_empty. Qed.

(** *** Whose phase a step changes *)

Lemma wake_phase h r s id : f_phase <$> fetches (wake h r s) !! id = f_phase <$> fetches s !! id.
Proof. rewrite wake_fetches. destruct (fetches s !! id); [|done]. simpl. by case_decide. Qed.

Lemma enter_phase_ne id p s id' :
  id ≠ id' → fetches (enter id p s) !! id' = fetches s !! id'.
Proof. intros Hne. rewrite enter_fetches, decide_False by done. by destruct (_ !! _). Qed.

Lemma enter_eq id p s f :
  fetches s !! id = Some f → fetches (enter id p s) !! id = Some (set_phase p f).
Proof. intros Hid. by rewrite enter_fetches, Hid, decide_True. Qed.

(** A fetch is moved by its own steps only. *)
Definition moves (i : Input) (id : N) : bool :=
  match i with Proceed id' | Expire id' => bool_decide (id' = id) | _ => false end.

Lemma register_phase_ne id f s id' :
  id ≠ id' → f_phase <$> fetches (register id f s) !! id' = f_phase <$> fetches s !! id'.
Proof.
  intros Hne. unfold register, drop_waiter. destruct (registry_snapshot _ _).
  - by rewrite enter_phase_ne, wake_phase.
  - by rewrite enter_phase_ne.
Qed.

Lemma receive_phase_ne id f s id' :
  id ≠ id' → f_phase <$> fetches (receive id f s) !! id' = f_phase <$> fetches s !! id'.
Proof.
  intros Hne. unfold receive, drop_waiter. destruct (f_rx f); [done| |].
  - by rewrite enter_phase_ne.
  - by rewrite enter_phase_ne, wake_phase.
Qed.

Lemma step_phase_ne i s id f :
  moves i id = false → fetcher_wf s → fetches s !! id = Some f →
  f_phase <$> fetches (step i s) !! id = Some (f_phase f).
Proof.
  intros Hm Hwf Hid. transitivity (f_phase <$> fetches s !! id); [|by rewrite Hid].
  destruct i as [h t|id'|id'|h found d|r p]; simpl in *.
  - unfold begin_fetch. destruct (bs_get h (store s)) as [o w]. simpl.
    rewrite lookup_insert_ne; [done|]. apply (wf_fresh _ Hwf) in Hid. lia.
  - apply bool_decide_eq_false in Hm. unfold proceed. destruct (fetches s !! id') as [f'|]; [|done].
    destruct (f_phase f') as [|ps [|[r p] rest]|ps|o]; [by apply register_phase_ne| | | |done].
    + by rewrite enter_phase_ne.
    + destruct (chan_send _ _). by rewrite enter_phase_ne.
    + by apply receive_phase_ne.
  - apply bool_decide_eq_false in Hm. unfold expire. destruct (fetches s !! id') as [f'|]; [|done].
    destruct (f_phase f') as [|ps rest|ps|o]; [done|done| |done].
    unfold drop_waiter. destruct (f_rx f'); [|by apply receive_phase_ne..].
    by rewrite enter_phase_ne, wake_phase.
  - destruct (on_blob_received_state h found d s) as (w & [-> | [-> _]]); [done|]. by rewrite wake_phase.
  - done.
Qed.

(** *** Termination *)

(** The own steps a fetch has left before it waits, with at most [n] peers known. *)
Definition steps_left (n : nat) (p : Phase) : nat :=
  match p with
  | Missed => 2 + n
  | Asking _ rest => S (length rest)
  | Waiting _ | Finished _ => 0
  end.

Definition is_proceed (id : N) (i : Input) : bool :=
  match i with Proceed id' => bool_decide (id' = id) | _ => false end.
Definition proceeds (id : N) (inputs : list Input) : nat :=
  length (filter (λ i, is_proceed id i = true) inputs).

Lemma registry_grows i s : size (raft_registry s) ≤ size (raft_registry (step i s)).
Proof.
  assert (∀ id f s, raft_registry (receive id f s) = raft_registry s) as Hrec.
  { intros id f s0. unfold receive. by destruct (f_rx f). }
  destruct i as [h t|id|id|h found d|r p]; simpl.
  - unfold begin_fetch. by destruct (bs_get h (store s)).
  - unfold proceed. destruct (fetches s !! id) as [f|]; [|done].
    destruct (f_phase f) as [|ps [|[r p] rest]|ps|o]; [| | | |done].
    + unfold register. by destruct (registry_snapshot _ _).
    + done.
    + by destruct (chan_send _ _).
    + by rewrite Hrec.
  - unfold expire. destruct (fetches s !! id) as [f|]; [|done].
    destruct (f_phase f) as [|ps rest|ps|o]; [done|done| |done].
    destruct (f_rx f); [done|by rewrite Hrec..].
  - destruct (on_blob_received_state h found d s) as (w & [-> | [-> _]]); done.
  - unfold registry_insert. rewrite map_size_insert. destruct (raft_registry s !! r); unfold id; lia.
Qed.

Lemma run_registry_grows inputs s : size (raft_registry s) ≤ size (raft_registry (run s inputs)).
Proof.
  revert s. induction inputs as [|i l IH]; intros s; [done|].
  etrans; [apply (registry_grows i)|apply IH].
Qed.

Context `{!HashOrderLaws}.

Lemma registry_snapshot_length r : length (registry_snapshot seed r) = size r.
Proof.
  rewrite registry_snapshot_sorted. unfold btree_iter. rewrite sort_by_perm. apply length_map_to_list.
Qed.

(** One own step brings the fetch closer to its end. *)
Lemma proceed_closer id s f n :
  fetches s !! id = Some f → size (raft_registry s) ≤ n →
  ∃ f', fetches (proceed id s) !! id = Some f' ∧
    steps_left n (f_phase f') ≤ pred (steps_left n (f_phase f)).
Proof.
  intros Hid Hn. unfold proceed. rewrite Hid.
  destruct (f_phase f) as [|ps [|[r p] rest]|ps|o] eqn:Hph.
  - unfold register. pose proof (registry_snapshot_length (raft_registry s)) as Hlen. simpl.
    destruct (registry_snapshot seed (raft_registry s)) as [|x xs].
    + eexists. split; [apply enter_eq|simpl; lia]. unfold drop_waiter. rewrite wake_fetches. simpl. by rewrite Hid.
    + eexists. split; [by apply enter_eq|]. simpl in *. lia.
  - eexists. split; [by apply enter_eq|]. simpl. lia.
  - destruct (chan_send _ _) as [o tx]. eexists. split; [by apply enter_eq|]. simpl. lia.
  - unfold receive, drop_waiter. destruct (f_rx f).
    + exists f. rewrite Hph. done.
    + eexists. split; [by apply enter_eq|]. done.
    + eexists. split; [apply enter_eq; by rewrite wake_fetches, Hid|]. done.
  - exists f. rewrite Hph. done.
Qed.

Lemma expire_closer id s f n :
  fetches s !! id = Some f →
  ∃ f', fetches (expire id s) !! id = Some f' ∧
    steps_left n (f_phase f') ≤ steps_left n (f_phase f) ∧
    (steps_left n (f_phase f) = 0 → finished f' = true).
Proof.
  intros Hid. unfold expire. rewrite Hid. destruct (f_phase f) as [|ps rest|ps|o] eqn:Hph.
  - exists f. by rewrite Hph.
  - exists f. by rewrite Hph.
  - unfold receive, drop_waiter.
    destruct (f_rx f); eexists; (split; [apply enter_eq; rewrite ?wake_fetches, Hid; done|done]).
  - exists f. unfold finished. by rewrite Hph.
Qed.

Lemma step_closer i id s f n :
  fetcher_wf s → fetches s !! id = Some f → size (raft_registry s) ≤ n →
  ∃ f', fetches (step i s) !! id = Some f' ∧
    steps_left n (f_phase f') ≤ steps_left n (f_phase f) - (if is_proceed id i then 1 else 0).
Proof.
  intros Hwf Hid Hn. destruct (moves i id) eqn:Hm.
  - destruct i as [h t|id'|id'|h found d|r p]; simpl in *; try done;
      apply bool_decide_eq_true in Hm as ->.
    + rewrite bool_decide_eq_true_2 by done. destruct (proceed_closer id s f n Hid Hn) as (f' & ? & ?).
      exists f'. split; [done|lia].
    + destruct (expire_closer id s f n Hid) as (f' & ? & ? & _). exists f'. split; [done|lia].
  - pose proof (step_phase_ne i s id f Hm Hwf Hid) as Hp.
    assert (is_proceed id i = false) as -> by (by destruct i).
    destruct (fetches (step i s) !! id) as [f'|]; simplify_eq/=. exists f'. rewrite Hp. split; [done|lia].
Qed.

Lemma run_closer inputs id s f n :
  fetcher_wf s → fetches s !! id = Some f → size (raft_registry (run s inputs)) ≤ n →
  ∃ f', fetches (run s inputs) !! id = Some f' ∧
    steps_left n (f_phase f') ≤ steps_left n (f_phase f) - proceeds id inputs.
Proof.
  revert s f. induction inputs as [|i l IH]; intros s f Hwf Hid Hn.
  { exists f. unfold proceeds. simpl. split; [done|lia]. }
  destruct (step_closer i id s f n Hwf Hid) as (f1 & Hf1 & Hs1).
  { etrans; [|exact Hn]. apply (run_registry_grows (i :: l)). }
  destruct (IH (step i s) f1) as (f2 & Hf2 & Hs2); [by apply step_wf|done|done|].
  exists f2. split; [done|]. unfold proceeds in *. rewrite filter_cons.
  destruct (is_proceed id i); case_decide; simpl; done || lia.
Qed.

(** *** What was delivered stays delivered *)

Definition settled (d : bytes) (f : Fetch) : Prop :=
  f_rx f = Delivered d ∧ (registered f = true ∨ f_phase f = Finished (Done (Ok d))).

(** Waking only touches receivers that wait. *)
Lemma wake_kept h r s id f :
  fetches s !! id = Some f → f_rx f ≠ Pending →
  (∀ id' f', id' ∈ default [] (waiters s !! h) → fetches s !! id' = Some f' → f_rx f' = Pending) →
  fetches (wake h r s) !! id = Some f.
Proof.
  intros Hid Hrx Hall. rewrite wake_fetches, Hid. case_decide as Hin; [|done].
  by destruct Hrx; eapply Hall.
Qed.

Lemma wf_pending s h id f :
  fetcher_wf s → id ∈ default [] (waiters s !! h) → fetches s !! id = Some f → f_rx f = Pending.
Proof.
  intros Hwf Hin Hid. destruct (waiters s !! h) as [ids|] eqn:Hl; [|by apply not_elem_of_nil in Hin].
  destruct (wf_waiters _ Hwf _ _ Hl) as [_ Hall]. destruct (Hall id Hin) as (f' & ? & _ & _ & ?).
  congruence.
Qed.

Lemma wake_kept_wf h r s id f :
  fetcher_wf s → fetches s !! id = Some f → f_rx f ≠ Pending → fetches (wake h r s) !! id = Some f.
Proof. intros Hwf Hid Hrx. apply wake_kept; [done|done|]. intros id' f'. by apply wf_pending. Qed.

Lemma receive_settled id s d f :
  fetches s !! id = Some f → f_rx f = Delivered d →
  fetches (receive id f s) !! id = Some (set_phase (Finished (Done (Ok d))) f).
Proof. intros Hid Hrx. unfold receive. rewrite Hrx. by apply enter_eq. Qed.

Lemma other_settled i id s d f :
  moves i id = false → fetcher_wf s → fetches s !! id = Some f → settled d f →
  fetches (step i s) !! id = Some f.
Proof.
  intros Hm Hwf Hid [Hrx _]. assert (f_rx f ≠ Pending) as Hnp by by rewrite Hrx.
  assert (∀ id' f', id' ≠ id → fetches (receive id' f' s) !! id = Some f) as Hrec.
  { intros id' f' Hne. unfold receive, drop_waiter.
    destruct (f_rx f'); [done|by rewrite enter_phase_ne|].
    rewrite enter_phase_ne by done. by apply wake_kept_wf. }
  destruct i as [h t|id'|id'|h found x|r p]; simpl in *; try apply bool_decide_eq_false in Hm.
  - unfold begin_fetch. destruct (bs_get h (store s)) as [o w]. simpl.
    rewrite lookup_insert_ne; [done|]. apply (wf_fresh _ Hwf) in Hid. lia.
  - unfold proceed. destruct (fetches s !! id') as [f'|] eqn:Hid'; [|done].
    destruct (f_phase f') as [|ps [|[r p] rest]|ps|o] eqn:Hph; [| | |by apply Hrec|done].
    + unfold register, drop_waiter. destruct (registry_snapshot _ _); rewrite enter_phase_ne by done;
        [|done]. apply wake_kept; [done|done|].
      intros j g Hin Hj. simpl in Hin, Hj. rewrite lookup_insert_eq in Hin. simpl in Hin.
      apply elem_of_app in Hin as [Hin| ->%list_elem_of_singleton]; [by eapply wf_pending|].
      apply (wf_missed _ Hwf id'); congruence.
    + by rewrite enter_phase_ne.
    + destruct (chan_send _ _). by rewrite enter_phase_ne.
  - unfold expire. destruct (fetches s !! id') as [f'|]; [|done].
    destruct (f_phase f') as [|ps rest|ps|o]; [done|done| |done].
    unfold drop_waiter. destruct (f_rx f'); [|by apply Hrec..].
    rewrite enter_phase_ne by done. by apply wake_kept_wf.
  - destruct (on_blob_received_state h found x s) as (w & [-> | [-> _]]); [done|].
    apply wake_kept_wf; [by apply set_store_wf|done|done].
  - done.
Qed.

Lemma step_settled i id s d f :
  fetcher_wf s → fetches s !! id = Some f → settled d f →
  ∃ f', fetches (step i s) !! id = Some f' ∧ settled d f' ∧ f_hash f' = f_hash f.
Proof.
  intros Hwf Hid Hset. destruct (moves i id) eqn:Hm; [|exists f; by rewrite (other_settled i id s d f)].
  destruct Hset as [Hrx Hph].
  destruct i as [h t|id'|id'|h found x|r p]; simpl in *; try done; apply bool_decide_eq_true in Hm as ->.
  - unfold proceed. rewrite Hid. unfold registered in Hph.
    destruct (f_phase f) as [|ps [|[r p] rest]|ps|o] eqn:Hp.
    + by destruct Hph.
    + eexists. split; [by apply enter_eq|]. split; [|done]. split; [done|by left].
    + destruct (chan_send _ _). eexists. split; [by apply enter_eq|]. split; [|done]. split; [done|by left].
    + eexists. split; [by apply receive_settled|]. split; [|done]. split; [done|by right].
    + exists f. split; [done|]. split; [|done]. split; [done|]. right. rewrite Hp. by destruct Hph.
  - unfold expire. rewrite Hid, Hrx. unfold registered in Hph.
    destruct (f_phase f) as [|ps rest|ps|o] eqn:Hp.
    + by destruct Hph.
    + exists f. split; [done|]. split; [|done]. split; [done|]. left. unfold registered. by rewrite Hp.
    + eexists. split; [by apply receive_settled|]. split; [|done]. split; [done|by right].
    + exists f. split; [done|]. split; [|done]. split; [done|]. right. rewrite Hp. by destruct Hph.
Qed.

Lemma run_settled inputs id s d f :
  fetcher_wf s → fetches s !! id = Some f → settled d f →
  ∃ f', fetches (run s inputs) !! id = Some f' ∧ settled d f' ∧ f_hash f' = f_hash f.
Proof.
  revert s f. induction inputs as [|i l IH]; intros s f Hwf Hid Hset; [by exists f|].
  destruct (step_settled i id s d f Hwf Hid Hset) as (f1 & Hf1 & Hs1 & Hh).
  destruct (IH (step i s) f1) as (f2 & ? & ? & ?); [by apply step_wf|done|done|].
  exists f2. split_and!; [done..|congruence].
Qed.

(** *** Where a delivered blob comes from *)

(** In [s], fetch [id] asks for [h] and was given [d]. *)
Definition given (s : BlobFetcher) (id : N) (h : Hash) (d : bytes) : Prop :=
  ∃ f, fetches s !! id = Some f ∧ f_hash f = h ∧ f_rx f = Delivered d.

Lemma enter_given i p s id h d : given (enter i p s) id h d → given s id h d.
Proof.
  intros (f & Hf & Hh & Hrx). rewrite enter_fetches in Hf.
  destruct (fetches s !! id) as [f0|] eqn:Hl; [|done].
  exists f0. by case_decide; simplify_eq/=.
Qed.

Lemma drop_given h' s id h d : given (drop_waiter h' s) id h d → given s id h d.
Proof.
  intros (f & Hf & Hh & Hrx). unfold drop_waiter in Hf. rewrite wake_fetches in Hf.
  destruct (fetches s !! id) as [f0|] eqn:Hl; [|done].
  exists f0. by case_decide; simplify_eq/=.
Qed.

Lemma receive_given i f s id h d : given (receive i f s) id h d → given s id h d.
Proof.
  unfold receive. destruct (f_rx f); [done| |]; intros Hg%enter_given; [done|by apply drop_given in Hg].
Qed.

Lemma step_given i s id h d :
  fetcher_wf s → given (step i s) id h d →
  given s id h d ∨ i = Received h true d ∧ d ≠ [] ∧
    ∃ h', bs_put d (store s) = (Done (Ok h'), store (step i s)).
Proof.
  intros Hwf. destruct i as [h1 t|j|j|h1 found x|r p]; simpl.
  - unfold begin_fetch. destruct (bs_get h1 (store s)) as [o w]. intros (f & Hf & Hh & Hrx).
    simpl in Hf. apply lookup_insert_Some in Hf as [[<- <-]|[_ Hf]]; [done|]. left. by exists f.
  - intros Hg. left. revert Hg. unfold proceed. destruct (fetches s !! j) as [f|]; [|done].
    destruct (f_phase f) as [|ps [|[r p] rest]|ps|o]; [| | | |done].
    + unfold register. destruct (registry_snapshot _ _); intros Hg%enter_given; [|done].
      by apply drop_given in Hg.
    + by intros Hg%enter_given.
    + destruct (chan_send _ _). by intros Hg%enter_given.
    + apply receive_given.
  - intros Hg. left. revert Hg. unfold expire. destruct (fetches s !! j) as [f|]; [|done].
    destruct (f_phase f) as [|ps rest|ps|o]; [done|done| |done].
    destruct (f_rx f); [|apply receive_given..]. intros Hg%enter_given. by apply drop_given in Hg.
  - destruct (on_blob_received_state h1 found x s) as (w & [-> | (-> & -> & Hx & h' & Hput)]);
      [by left|]. intros (f & Hf & Hh & Hrx). rewrite wake_fetches in Hf. simpl in Hf.
    destruct (fetches s !! id) as [f0|] eqn:Hl; [|done].
    case_decide as Hin; simplify_eq/=; [|left; by exists f]. right.
    destruct (waiters s !! h1) as [ids|] eqn:Hw; [|by apply not_elem_of_nil in Hin].
    destruct (wf_waiters _ Hwf _ _ Hw) as [_ Hall]. destruct (Hall id Hin) as (f' & Hl' & <- & _).
    simplify_eq. eauto.
  - intros Hg. by left.
Qed.

(** *** What a fetch returns *)

(** In [s], fetch [id] of [h] has returned [d]. *)
Definition returned (s : BlobFetcher) (id : N) (h : Hash) (d : bytes) : Prop :=
  ∃ f, fetches s !! id = Some f ∧ f_hash f = h ∧ f_phase f = Finished (Done (Ok d)).

Lemma enter_returned j p s id h d : returned (enter j p s) id h d →
  returned s id h d ∨ p = Finished (Done (Ok d)) ∧ j = id ∧ ∃ f, fetches s !! id = Some f ∧ f_hash f = h.
Proof.
  intros (f & Hf & Hh & Hph). rewrite enter_fetches in Hf. destruct (fetches s !! id) as [f0|] eqn:Hl; [|done].
  case_decide as Hj; simplify_eq/=; [right|left]; eauto 10. by exists f.
Qed.

Lemma wake_returned h' r s id h d : returned (wake h' r s) id h d → returned s id h d.
Proof.
  intros (f & Hf & Hh & Hph). rewrite wake_fetches in Hf. destruct (fetches s !! id) as [f0|] eqn:Hl; [|done].
  exists f0. by case_decide; simplify_eq/=.
Qed.

Lemma receive_returned j f s id h d : fetches s !! j = Some f → returned (receive j f s) id h d →
  returned s id h d ∨ given s id h d.
Proof.
  intros Hj. unfold receive, drop_waiter. destruct (f_rx f) as [|x|] eqn:Hrx; [by left|..]; intros Hr%enter_returned.
  - destruct Hr as [?|([= ->] & -> & f' & Hf & Hh)]; [by left|]. right. exists f. by simplify_eq.
  - destruct Hr as [?%wake_returned|[? _]]; [by left|done].
Qed.

Lemma step_returned i s id h d : returned (step i s) id h d →
  returned s id h d ∨ given s id h d ∨ ∃ t, i = Begin h t ∧ (bs_get h (store s)).1 = Done (Ok d).
Proof.
  assert (returned s id h d ∨ given s id h d → returned s id h d ∨ given s id h d ∨
    ∃ t, i = Begin h t ∧ (bs_get h (store s)).1 = Done (Ok d)) as Hor by tauto.
  destruct i as [h1 t|j|j|h1 found x|r p]; simpl.
  - unfold begin_fetch. destruct (bs_get h1 (store s)) as [o w] eqn:Hg. intros (f & Hf & Hh & Hph). simpl in Hf.
    apply lookup_insert_Some in Hf as [[<- <-]|[_ Hf]]; [|left; by exists f]. simpl in Hh, Hph. subst h1.
    right; right. exists t. split; [done|]. rewrite Hg. by destruct o as [[]|]; simplify_eq/=.
  - intros Hr. apply Hor. revert Hr. unfold proceed. destruct (fetches s !! j) as [f|] eqn:Hj; [|by left].
    destruct (f_phase f) as [|ps [|[r p] rest]|ps|o]; [| | | |by left].
    + unfold register, drop_waiter. destruct (registry_snapshot _ _); intros [Hr|[? _]]%enter_returned; try done; left;
        [by apply wake_returned in Hr|done].
    + intros [?|[? _]]%enter_returned; [by left|done].
    + destruct (chan_send _ _). intros [?|[? _]]%enter_returned; [by left|done].
    + by apply receive_returned.
  - intros Hr. apply Hor. revert Hr. unfold expire. destruct (fetches s !! j) as [f|] eqn:Hj; [|by left].
    destruct (f_phase f) as [|ps rest|ps|o]; [by left|by left| |by left].
    destruct (f_rx f); [|by apply receive_returned..]. unfold drop_waiter.
    intros [?%wake_returned|[? _]]%enter_returned; [by left|done].
  - intros Hr. left. revert Hr. destruct (on_blob_received_state h1 found x s) as (w & [-> | (-> & _)]); [done|].
    by intros ?%wake_returned.
  - by left.
Qed.

(** *** What is asked for *)

(** In [s], fetch [id] is one of [h]. *)
Definition asked (s : BlobFetcher) (id : N) (h : Hash) : Prop := ∃ f, fetches s !! id = Some f ∧ f_hash f = h.

Lemma enter_asked j p s id h : asked (enter j p s) id h → asked s id h.
Proof.
  intros (f & Hf & Hh). rewrite enter_fetches in Hf. destruct (fetches s !! id) as [f0|] eqn:Hl; [|done].
  exists f0. by case_decide; simplify_eq/=.
Qed.
Lemma wake_asked h' r s id h : asked (wake h' r s) id h → asked s id h.
Proof.
  intros (f & Hf & Hh). rewrite wake_fetches in Hf. destruct (fetches s !! id) as [f0|] eqn:Hl; [|done].
  exists f0. by case_decide; simplify_eq/=.
Qed.
Lemma receive_asked j f s id h : asked (receive j f s) id h → asked s id h.
Proof.
  unfold receive, drop_waiter. destruct (f_rx f); [done|..]; intros Ha%enter_asked; [done|].
  by apply wake_asked in Ha.
Qed.

Lemma step_asked i s id h : asked (step i s) id h → asked s id h ∨ ∃ t, i = Begin h t.
Proof.
  destruct i as [h1 t|j|j|h1 found x|r p]; simpl.
  - unfold begin_fetch. destruct (bs_get h1 (store s)) as [o w]. intros (f & Hf & Hh). simpl in Hf.
    apply lookup_insert_Some in Hf as [[<- <-]|[_ Hf]]; [right|left; by exists f]. exists t. by rewrite <- Hh.
  - intros Ha. left. revert Ha. unfold proceed. destruct (fetches s !! j) as [f|]; [|done].
    destruct (f_phase f) as [|ps [|[r p] rest]|ps|o]; [| | |by apply receive_asked|done].
    + unfold register, drop_waiter. destruct (registry_snapshot _ _); intros Ha%enter_asked; [|done].
      by apply wake_asked in Ha.
    + by intros Ha%enter_asked.
    + destruct (chan_send _ _). by intros Ha%enter_asked.
  - intros Ha. left. revert Ha. unfold expire, drop_waiter. destruct (fetches s !! j) as [f|]; [|done].
    destruct (f_phase f) as [|ps rest|ps|o]; [done|done| |done].
    destruct (f_rx f); [|by apply receive_asked..]. intros Ha%enter_asked. by apply wake_asked in Ha.
  - intros Ha. left. destruct (on_blob_received_state h1 found x s) as (w & [Heq | (Heq & _)]); rewrite Heq in Ha;
      [done|by apply wake_asked in Ha].
  - by left.
Qed.

Section honest.
Context `{!BlobStoreLaws W}.

(** An answer whose bytes have the hash they were asked under. *)
Definition honest (i : Input) : Prop :=
  match i with
  | Received h true d =>
      d ≠ [] → bs_adm d ∧ ∀ w h' w', bs_put d w = (Done (Ok h'), w') → h' = h
  | _ => True
  end.

Definition all_held (s : BlobFetcher) : Prop :=
  bs_healthy (store s) ∧ ∀ id h d, given s id h d → bs_holds (store s) h d.

(** The store a step leaves. *)
Lemma step_store i s :
  bs_healthy (store s) →
  store (step i s) = store s ∨ ∃ h d, i = Received h true d ∧ d ≠ [] ∧
    store (step i s) = (bs_put d (store s)).2.
Proof.
  intros Hs. assert (∀ id f s, store (receive id f s) = store s) as Hrec.
  { intros id f s0. unfold receive. by destruct (f_rx f). }
  destruct i as [h t|id|id|h found d|r p]; simpl.
  - left. unfold begin_fetch. pose proof (bs_get_pure h (store s) Hs) as Hg.
    by destruct (bs_get h (store s)) as [o w].
  - left. unfold proceed. destruct (fetches s !! id) as [f|]; [|done].
    destruct (f_phase f) as [|ps [|[r p] rest]|ps|o]; [| | |by rewrite Hrec|done].
    + unfold register. by destruct (registry_snapshot _ _).
    + done.
    + by destruct (chan_send _ _).
  - left. unfold expire. destruct (fetches s !! id) as [f|]; [|done].
    destruct (f_phase f) as [|ps rest|ps|o]; [done|done| |done].
    destruct (f_rx f); [done|by rewrite Hrec..].
  - unfold on_blob_received. destruct found; simpl; [|by left]. case_bool_decide as Hd; [by left|].
    right. exists h, d. split_and!; [done..|]. unfold bind, attempt, with_store.
    by destruct (bs_put d (store s)) as [[[h'|e]|why] w].
  - by left.
Qed.

Lemma step_held i s : fetcher_wf s → honest i → all_held s → all_held (step i s).
Proof.
  intros Hwf Hi [Hs Hall]. destruct (step_store i s Hs) as [Hst|(h0 & d0 & -> & Hd0 & Hst)].
  - split; [by rewrite Hst|]. intros id h d Hg. rewrite Hst.
    apply step_given in Hg as [Hg|(-> & Hd & h' & Hput)]; [by eapply Hall| |done].
    destruct (Hi Hd) as [Hadm Hh]. destruct (bs_put_ok d _ Hs Hadm) as (h1 & w & Hp & _ & Hw & _).
    rewrite Hp in Hput. simplify_eq. rewrite (Hh _ _ _ Hp) in Hw. congruence.
  - destruct (Hi Hd0) as [Hadm Hh]. destruct (bs_put_ok d0 _ Hs Hadm) as (h1 & w & Hp & Hhw & Hw & Hk).
    rewrite Hp in Hst. pose proof (Hh _ _ _ Hp) as ->. split; [by rewrite Hst|].
    intros id h d Hg. rewrite Hst. apply step_given in Hg as [Hg|([= -> ->] & _)]; [|done|done].
    by eapply Hk, Hall.
Qed.

Lemma run_held inputs s : fetcher_wf s → Forall honest inputs → all_held s → all_held (run s inputs).
Proof.
  revert s. induction inputs as [|i l IH]; intros s Hwf Hh Hs; [done|].
  apply Forall_cons in Hh as [? ?]. apply IH; [by apply step_wf|done|]. by apply step_held.
Qed.
End honest.

(** ** Properties *)

(** C29: no fetch leaks a waiter.  In every reachable state a waiter belongs to a
    fetch of that hash that has asked for it and has not returned; so when every
    fetch has returned, the map of waiters is empty. *)
Theorem fetch_no_leak w tx r inputs :
  let s := run (fetcher_new w tx r) inputs in
  (∀ h ids id, waiters s !! h = Some ids → id ∈ ids → ∃ f, fetches s !! id = Some f ∧
     f_hash f = h ∧ finished f = false ∧ f_rx f = Pending) ∧
  ((∀ id f, fetches s !! id = Some f → finished f = true) → waiters s = ∅).
Proof.
  intros s. pose proof (run_wf inputs _ (new_wf w tx r)) as Hwf. fold s in Hwf.
  assert (∀ h ids id, waiters s !! h = Some ids → id ∈ ids → ∃ f, fetches s !! id = Some f ∧
     f_hash f = h ∧ finished f = false ∧ f_rx f = Pending) as Hall.
  { intros h ids id Hids Hin. destruct (wf_waiters _ Hwf _ _ Hids) as [_ Hf].
    destruct (Hf id Hin) as (f & ? & ? & Hr & ?). exists f. split_and!; [done..| |done].
    unfold registered, finished in *. by destruct (f_phase f). }
  split; [done|]. intros Hfin. apply map_empty. intros h.
  destruct (waiters s !! h) as [ids|] eqn:Hids; [|done].
  destruct (wf_waiters _ Hwf _ _ Hids) as [Hne _]. destruct ids as [|id ids]; [done|].
  destruct (Hall h _ id Hids) as (f & Hf & _ & Hnf & _); [left|]. apply Hfin in Hf. congruence.
Qed.



(** A fetched blob is in the store.  If every answer has the hash it was asked
    under, then at any time every fetch that was given bytes by a peer has the
    blob of its hash: the store holds those bytes under it, and a get, as the
    snapshot extractor does, returns them. *)
Theorem fetched_blob_held `{!BlobStoreLaws W} w tx r inputs id f d :
  let s := run (fetcher_new w tx r) inputs in
  bs_healthy w → Forall honest inputs →
  fetches s !! id = Some f → f_rx f = Delivered d →
  bs_holds (store s) (f_hash f) d ∧ bs_get (f_hash f) (store s) = (Done (Ok d), store s).
Proof.
  intros s Hw Hh Hf Hd. destruct (run_held inputs (fetcher_new w tx r)) as [Hs Hall].
  - apply new_wf.
  - done.
  - split; [done|]. intros ??? (f' & Hl & _). simpl in Hl. by rewrite lookup_empty in Hl.
  - assert (bs_holds (store s) (f_hash f) d) as Hhold by (eapply Hall; by exists f).
    split; [done|]. by apply bs_get_ok.
Qed.

(** A timeout cancels the other fetches of the same hash.  When one of two
    waiting fetches of a hash reaches its deadline, the other, whose deadline has
    not come, fails as soon as it is polled, and an answer that arrives in between
    does not reach it. *)
Theorem timeout_cancels_others s h id1 f1 ps1 id2 f2 ps2 d :
  fetcher_wf s → id1 ≠ id2 →
  fetches s !! id1 = Some f1 → f_hash f1 = h → f_phase f1 = Waiting ps1 → f_rx f1 = Pending →
  fetches s !! id2 = Some f2 → f_hash f2 = h → f_phase f2 = Waiting ps2 → f_rx f2 = Pending →
  ∃ f2', fetches (run s [Expire id1; Received h true d; Proceed id2]) !! id2 = Some f2' ∧
    f_phase f2' = Finished (Done (Err (Network (dropped_msg h)))).
Proof.
  intros Hwf Hne Hl1 Hh1 Hp1 Hr1 Hl2 Hh2 Hp2 Hr2. unfold run. cbn [foldl step].
  destruct (wf_registered _ Hwf id2 f2 Hl2) as (ids & Hids & Hin); [unfold registered; by rewrite Hp2|done|].
  assert (expire id1 s = enter id1 (Finished (Done (Err (Network (timeout_msg f1 ps1)))))
    (drop_waiter h s)) as Hexp.
  { unfold expire. by rewrite Hl1, Hp1, Hr1, Hh1. }
  set (s1 := expire id1 s) in *. assert (fetcher_wf s1) as Hwf1 by by apply expire_wf.
  assert (fetches s1 !! id2 = Some (set_rx SenderDropped f2)) as Hf1.
  { rewrite Hexp, enter_phase_ne by done. unfold drop_waiter. rewrite wake_fetches, Hl2, <- Hh2, Hids.
    by rewrite decide_True. }
  assert (fetches (on_blob_received h true d s1).2 !! id2 = Some (set_rx SenderDropped f2)) as Hf2.
  { destruct (on_blob_received_state h true d s1) as (w & [-> | [-> _]]); [done|].
    by apply wake_kept_wf; [apply set_store_wf| |]. }
  set (s2 := (on_blob_received h true d s1).2) in *.
  unfold proceed. rewrite Hf2. cbn [set_rx f_phase]. rewrite Hp2. unfold receive. cbn [set_rx f_rx].
  eexists. split; [apply enter_eq; unfold drop_waiter; by rewrite wake_fetches, Hf2|].
  cbn [set_phase f_phase set_rx f_hash]. by rewrite Hh2.
Qed.
End cas_fetch.

(** ** Concrete runs *)

Module DemoFetch.
#[export] Existing Instance MemStore.mem_store.
#[export] Existing Instance MemStore.mem_store_laws.
#[export] Existing Instance Toy.hash_order.
#[export] Existing Instance Toy.hash_order_laws.

Definition hash : Hash := String.string_of_list_byte [x61].
Definition start : BlobFetcher (W := gmap Hash bytes) :=
  fetcher_new ∅ (mkSender [] []) (<[1%N := 11%N]> ∅).

(** Two fetches of the same blob, both waiting. *)
Definition two_waiting : list Input :=
  [Begin hash 300; Begin hash 5; Proceed 0; Proceed 1; Proceed 0; Proceed 1; Proceed 0; Proceed 1].
Definition waiting : BlobFetcher := run 0 start two_waiting.
Definition fetch (secs : N) (r : Oneshot) : Fetch :=
  mkFetch hash secs (Waiting [(1%N, 11%N)]) r.
End DemoFetch.
Import (hints) DemoFetch.



Lemma fetched_blob_held_witness :
  let s := run 0 DemoFetch.start (DemoFetch.two_waiting ++ [Received DemoFetch.hash true [x61]]) in
  bs_get DemoFetch.hash (store s) = (Done (Ok [x61]), store s).
Proof.
  intros s.
  refine (proj2 (fetched_blob_held 0 ∅ (mkSender [] []) (<[1%N := 11%N]> ∅)
    (DemoFetch.two_waiting ++ [Received DemoFetch.hash true [x61]]) 0
    (DemoFetch.fetch 300 (Delivered [x61])) [x61] _ _ _ _)).
  - intros h d. by rewrite lookup_empty.
  - repeat constructor; try discriminate. intros w h' w' [= <- _]. reflexivity.
  - vm_compute. reflexivity.
  - reflexivity.
Defined.

Lemma timeout_cancels_others_witness :
  ∃ f2', fetches (run 0 DemoFetch.waiting
      [Expire 1; Received DemoFetch.hash true [x61]; Proceed 0]) !! 0%N = Some f2' ∧
    f_phase f2' = Finished (Done (Err (Network (dropped_msg DemoFetch.hash)))).
Proof.
  apply (timeout_cancels_others 0 DemoFetch.waiting DemoFetch.hash 1 (DemoFetch.fetch 5 Pending)
    [(1%N, 11%N)] 0 (DemoFetch.fetch 300 Pending) [(1%N, 11%N)] [x61]).
  - apply run_wf, new_wf.
  - discriminate.
  - vm_compute. reflexivity.
  - reflexivity.
  - reflexivity.
  - reflexivity.
  - vm_compute. reflexivity.
  - reflexivity.
  - reflexivity.
  - reflexivity.
Defined.
