(* ===== verification/Project.v ===== *)
(** * Project snapshots, their execution and their submission

    Packing and extracting a snapshot (crates/node/src/project_snapshot.rs), the
    executor's side of a task (project_executor.rs) and the master's side
    (project_client.rs). *)

From S2P Require Import Prelude CoreTypes Interfaces Channels StateMachine FileSys BlobStore Swarm RaftNet.

(** The tar crate: building an archive of a directory, finishing it, and unpacking
    one over a directory.  [T] is the content of a directory. *)
Class Tar (T : Type) := {
  tar_builder : Type;
  append_dir_all : option T → result string tar_builder;
  into_inner : tar_builder → result string bytes;
  unpack : bytes → T → result string T;
  empty_dir : T;
}.
(** Unpacking what was packed, over an empty directory, gives the packed content; a
    directory that is not there cannot be packed. *)
Class TarLaws (T : Type) `{Tar T} := {
  unpack_pack t b d : append_dir_all (Some t) = Ok b → into_inner b = Ok d → unpack d empty_dir = Ok t;
  pack_not_empty b d : into_inner b = Ok d → d ≠ [];
  pack_missing : ∃ e, append_dir_all None = Err e;
}.

(** The node's store and the directories it reads and writes. *)
Record Disk (W T : Type) := mkDisk { cas : W; dirs : gmap string T }.
Arguments mkDisk {W T} _ _.
Arguments cas {W T} _.
Arguments dirs {W T} _.

Section snapshot.
Context {W T : Type} `{BlobStore W, Tar T, UuidText}.

Definition with_cas {E A} (m : M W E A) : M (Disk W T) E A := λ s,
  let '(o, w) := m (cas s) in (o, mkDisk w (dirs s)).

Definition pack_directory (dir : string) : M (Disk W T) CoreError bytes := λ s,
  (let! tar := lift_result (result_map_err (λ e, Internal (fmt ["tar pack "; dir; ": "; e]))
                 (append_dir_all (dirs s !! dir))) in
   lift_result (result_map_err (λ e, Internal (fmt ["tar finish: "; e])) (into_inner tar))) s.

(** [create_dir_all] keeps a directory that is there. *)
Definition unpack_tar (data : bytes) (dest : string) : M (Disk W T) CoreError unit := λ s,
  let content := default empty_dir (dirs s !! dest) in
  match unpack data content with
  | Ok t => (Done (Ok tt), mkDisk (cas s) (<[dest := t]> (dirs s)))
  | Err e => (Done (Err (Internal (fmt ["untar: "; e]))), mkDisk (cas s) (<[dest := content]> (dirs s)))
  end.

Definition snapshot_from_dir (dir : string) : M (Disk W T) CoreError ProjectSnapshot :=
  let! tar_bytes := pack_directory dir in
  let! hash := with_cas (bs_put tar_bytes) in
  ret (from_hash hash).

Definition missing_msg (hash : Hash) (e : CoreError) : string :=
  fmt ["snapshot "; hash; " is neither inline nor in the local CAS: "; CoreError_to_string e].

Definition extract_snapshot (snapshot : ProjectSnapshot) (dest : string) :
    M (Disk W T) CoreError unit :=
  let! data :=
    match tar_bytes snapshot with
    | [] => map_err (λ e, Internal (missing_msg (snapshot_hash snapshot) e))
              (with_cas (bs_get (snapshot_hash snapshot)))
    | _ => ret (tar_bytes snapshot)
    end in
  unpack_tar data dest.

(** ** The executor

    [fetched] is what [ensure_blob] returned, [tmp] the fresh temporary directory,
    [run_project] the sandbox and [join_text] the text of its join error when it panics (project_executor.rs). *)

(** The directory of the snapshot has the name of the work directory. *)
Definition project_dir (tmp work_dir : string) : string := join tmp (default "project" (file_name work_dir)).

(** What the sandbox is asked to do for a task whose snapshot is in [project_dir]. *)
Definition spec_of (task : ProjectTask) (project_dir : string) : ProjectSpec := {|
  ps_snapshot_hash := snapshot_hash (pt_snapshot task);
  ps_local_project_dir := Some project_dir;
  ps_work_dir := pt_work_dir task;
  ps_build_cmd := pt_build_cmd task;
  ps_run_cmd := pt_run_cmd task;
  ps_timeout_ms := pt_timeout_ms task;
  ps_resource_limits := pt_resource_limits task |}.

Definition executor_run (self_node_id : NodeId) (run_project : ProjectSpec → outcome CoreError ExecutionResult)
    (join_text : string → string) (fetched : result CoreError bytes) (tmp : result string string)
    (task : ProjectTask) : M (Disk W T) string ProjectResult :=
  let! _ := lift_result (result_map_err
              (λ e, fmt ["snapshot "; snapshot_hash (pt_snapshot task); " unavailable: ";
                         CoreError_to_string e]) fetched) in
  let! tmp := lift_result tmp in
  let project_dir := project_dir tmp (pt_work_dir task) in
  let! _ := map_err (λ e, "extract snapshot: " +:+ CoreError_to_string e)
              (extract_snapshot (pt_snapshot task) project_dir) in
  let! er := lift_result
    (match run_project (spec_of task project_dir) with
     | Done r => result_map_err (λ e, "qlean run_project: " +:+ CoreError_to_string e) r
     | Panic why => Err ("join: " +:+ join_text why)
     end) in
  ret {| pr_task_id := pt_task_id task; pr_exit_code := er_exit_code er; pr_stdout := er_stdout er;
         pr_stderr := er_stderr er; pr_execution_time_ms := er_execution_time_ms er;
         pr_executed_on := self_node_id |}.
End snapshot.

(** ** The client (project_client.rs) *)

(** Durations and instants in nanoseconds. *)
Definition from_secs (n : N) : N := n * 1000000000.
Definition as_secs (n : N) : N := n / 1000000000.
Definition RESULT_GRACE : N := from_secs 1920.

Inductive TaskState :=
| Dispatched
| Failed (why : string)
| TaskDone.

Inductive Catalog :=
| CatalogRaft (state : ClusterState) (registry : RaftIdRegistry)
| CatalogPeers (peers : gmap PeerId NodeDescriptor).

Record ProjectClient (W T : Type) := mkProjectClient {
  swarm_commands : Sender SwarmCommand;
  catalog : Catalog;
  results : gmap TaskId ProjectResult;
  store : Disk W T;
  tasks : gmap TaskId (TaskState * N);
  self_node_id : NodeId;
}.
Arguments mkProjectClient {W T} _ _ _ _ _ _.
Arguments swarm_commands {W T} _.
Arguments catalog {W T} _.
Arguments results {W T} _.
Arguments store {W T} _.
Arguments tasks {W T} _.
Arguments self_node_id {W T} _.

Section client.
Context {W T : Type} `{BlobStore W, Tar T, UuidText, HashOrder}.
(** The seed of the iteration order of the maps searched. *)
Context (seed : N).

Definition set_client_store (d : Disk W T) (c : ProjectClient W T) : ProjectClient W T :=
  mkProjectClient (swarm_commands c) (catalog c) (results c) d (tasks c) (self_node_id c).
Definition set_client_commands (tx : Sender SwarmCommand) (c : ProjectClient W T) : ProjectClient W T :=
  mkProjectClient tx (catalog c) (results c) (store c) (tasks c) (self_node_id c).
Definition set_tasks (f : gmap TaskId (TaskState * N) → gmap TaskId (TaskState * N))
    (c : ProjectClient W T) : ProjectClient W T :=
  mkProjectClient (swarm_commands c) (catalog c) (results c) (store c) (f (tasks c)) (self_node_id c).
Definition set_results (f : gmap TaskId ProjectResult → gmap TaskId ProjectResult)
    (c : ProjectClient W T) : ProjectClient W T :=
  mkProjectClient (swarm_commands c) (catalog c) (f (results c)) (store c) (tasks c) (self_node_id c).

Definition client_new (tx : Sender SwarmCommand) (catalog : Catalog)
    (results : gmap TaskId ProjectResult) (store : Disk W T) (self_node_id : NodeId) :
    ProjectClient W T :=
  mkProjectClient tx catalog results store ∅ self_node_id.

(** A remote node that can run projects. *)
Definition capable (self_id : NodeId) (d : NodeDescriptor) : bool :=
  project_sandbox (capabilities d) && negb (bool_decide (node_id d = self_id)).

(** The capable nodes of a map, by raft id ([None] first). *)
Definition candidates {K} `{Countable K} (self_id : NodeId) (m : gmap K NodeDescriptor) :
    list (K * NodeDescriptor) :=
  sort_by (λ x, raft_id x.2) (filter (λ x, capable self_id x.2 = true) (hash_iter seed m)).

Definition resolve_peer (target : option NodeId) (c : ProjectClient W T) : result CoreError PeerId :=
  let self_id := self_node_id c in
  match catalog c with
  | CatalogRaft state registry =>
      let? node :=
        match target with
        | Some id => ok_or (InvalidState (fmt ["unknown target node "; uuid_to_string id]))
                       (nodes state !! id)
        | None => ok_or (InvalidState "no remote node with project_sandbox capability")
                    (snd <$> head (candidates self_id (nodes state)))
        end in
      let? rid := ok_or (InvalidState "target node has no raft_id") (raft_id node) in
      ok_or (Network (fmt ["no PeerId for raft id "; dec rid; " (node ";
               uuid_to_string (node_id node); ")"]))
        (registry_get rid registry)
  | CatalogPeers peers =>
      ok_or (InvalidState "no reachable node with project_sandbox capability")
        (match target with
         | Some id => (fst ∘ snd) <$> list_find (λ x, node_id x.2 = id) (hash_iter seed peers)
         | None => fst <$> head (candidates self_id peers)
         end)
  end.

Definition with_disk {E A} (m : M (Disk W T) E A) : M (ProjectClient W T) E A := λ c,
  let '(o, d) := m (store c) in (o, set_client_store d c).
Definition send_command {E A} (m : M (Sender SwarmCommand) E A) : M (ProjectClient W T) E A := λ c,
  let '(o, tx) := m (swarm_commands c) in (o, set_client_commands tx c).

Definition refuse_msg (hash : Hash) : string :=
  fmt ["packed snapshot "; hash; " is missing from the local CAS; refusing to dispatch a ";
       "task the executor cannot fetch"].

(** The task sent for a packed workspace. *)
Definition task_of (task_id : TaskId) (snapshot : ProjectSnapshot) (work_dir : string)
    (build_cmd run_cmd : list string) (timeout_ms : N) (target : option NodeId) : ProjectTask := {|
  pt_task_id := task_id; pt_snapshot := snapshot; pt_work_dir := work_dir;
  pt_build_cmd := build_cmd; pt_run_cmd := run_cmd; pt_timeout_ms := timeout_ms;
  pt_resource_limits := ResourceLimits_default; pt_pinned_node := target |}.

(** [submit_local_project] up to and including the send, after which other tasks
    run; [task_id] is the fresh uuid it draws. *)
Definition submit_send (task_id : TaskId) (local_dir work_dir : string) (build_cmd run_cmd : list string)
    (timeout_ms : N) (target : option NodeId) : M (ProjectClient W T) CoreError TaskId :=
  let! snapshot := with_disk (snapshot_from_dir local_dir) in
  let! _ := attempt (with_disk (with_cas (bs_get (snapshot_hash snapshot)))) : M _ CoreError _ in
  let! there := with_disk (with_cas (bs_exists (snapshot_hash snapshot))) in
  if negb there then raise (Internal (refuse_msg (snapshot_hash snapshot)))
  else
    let! peer_id := λ c, (Done (resolve_peer target c), c) in
    let task := task_of task_id snapshot work_dir build_cmd run_cmd timeout_ms target in
    let! _ := map_err (λ e, Network (fmt ["send project task: "; e]))
                (send_command (chan_send (SendProjectTask peer_id task))) in
    ret task_id.

(** Its end: the task is tracked. *)
Definition submit_track (task_id : TaskId) (now : N) : ProjectClient W T → ProjectClient W T :=
  set_tasks (<[task_id := (Dispatched, now)]>).

Definition submit_local_project (task_id : TaskId) (now : N) (local_dir work_dir : string)
    (build_cmd run_cmd : list string) (timeout_ms : N) (target : option NodeId) :
    M (ProjectClient W T) CoreError TaskId :=
  let! id := submit_send task_id local_dir work_dir build_cmd run_cmd timeout_ms target in
  λ c, (Done (Ok id), submit_track id now c).

Definition record_result (now : N) (r : ProjectResult) (c : ProjectClient W T) : ProjectClient W T :=
  set_results (<[pr_task_id r := r]>) (set_tasks (<[pr_task_id r := (TaskDone, now)]>) c).

Definition get_result (task_id : TaskId) (c : ProjectClient W T) : option ProjectResult :=
  results c !! task_id.

Definition grace_msg : string :=
  fmt ["no result within "; dec (as_secs RESULT_GRACE); "s (executor did not answer: check the execution node's ";
       "logs and whether its project executor is reachable)"].

Definition task_status (task_id : TaskId) (now : N) (c : ProjectClient W T) : TaskState :=
  match tasks c !! task_id with
  | None => Failed (fmt ["unknown task_id "; uuid_to_string task_id])
  | Some (Dispatched, dispatched_at) =>
      if (RESULT_GRACE <? now - dispatched_at)%N then Failed grace_msg else Dispatched
  | Some (other, _) => other
  end.

Definition tracked_tasks (c : ProjectClient W T) : nat := size (tasks c).
End client.

(** ** Lemmas *)

Section lemmas.
Context {W T : Type} `{BlobStoreLaws W, TarLaws T, UuidText, HashOrderLaws}.

Lemma pack_directory_ok dir t b d (s : Disk W T) :
  dirs s !! dir = Some t → append_dir_all (Some t) = Ok b → into_inner b = Ok d →
  pack_directory dir s = (Done (Ok d), s).
Proof.
  intros Hd Ha Hi. unfold pack_directory, bind, lift_result. rewrite Hd, Ha. simpl. by rewrite Hi.
Qed.

Lemma snapshot_from_dir_ok dir t b d (s : Disk W T) :
  dirs s !! dir = Some t → append_dir_all (Some t) = Ok b → into_inner b = Ok d →
  bs_healthy (cas s) → bs_adm d →
  ∃ h w, snapshot_from_dir dir s = (Done (Ok (from_hash h)), mkDisk w (dirs s)) ∧
    bs_healthy w ∧ bs_holds w h d ∧ ∀ h' d', bs_holds (cas s) h' d' → bs_holds w h' d'.
Proof.
  intros Hd Ha Hi Hs Hadm. destruct (bs_put_ok d (cas s) Hs Hadm) as (h & w & Hp & Hw & Hh & Hk).
  exists h, w. split; [|done]. unfold snapshot_from_dir.
  rewrite (bind_ok _ _ _ _ _ (pack_directory_ok dir t b d s Hd Ha Hi)).
  unfold bind, with_cas. by rewrite Hp.
Qed.

Lemma with_cas_get h d (s : Disk W T) :
  bs_healthy (cas s) → bs_holds (cas s) h d →
  with_cas (bs_get h) s = (Done (Ok d), s).
Proof. intros Hs Hh. unfold with_cas. rewrite (bs_get_ok h d) by done. by destruct s. Qed.

Lemma with_cas_exists h d (s : Disk W T) :
  bs_healthy (cas s) → bs_holds (cas s) h d →
  with_cas (bs_exists h) s = (Done (Ok true), s).
Proof. intros Hs Hh. unfold with_cas. rewrite (bs_exists_ok h d) by done. by destruct s. Qed.

(** The candidates of a map are its capable nodes, the least raft id first. *)
Lemma candidates_head {K} `{Countable K} seed self (m : gmap K NodeDescriptor) :
  match head (candidates seed self m) with
  | Some (k, d) => (m !! k = Some d ∧ capable self d = true) ∧
      ∀ k' d', m !! k' = Some d' → capable self d' = true → leb (raft_id d) (raft_id d') = true
  | None => ∀ k d, m !! k = Some d → capable self d = false
  end.
Proof.
  unfold candidates. set (l := filter _ _).
  assert (∀ k d, (k, d) ∈ l ↔ m !! k = Some d ∧ capable self d = true) as Hl.
  { intros k d. unfold l. rewrite list_elem_of_filter, elem_of_hash_iter. simpl. tauto. }
  destruct (sort_by _ l) as [|[k d] rest] eqn:Hs; simpl.
  - apply sort_by_nil in Hs. intros k d Hk. destruct (capable self d) eqn:Hc; [|done].
    assert ((k, d) ∈ l) as Hin by by apply Hl. rewrite Hs in Hin. by apply not_elem_of_nil in Hin.
  - apply sort_by_head_least in Hs as [Hin Hle]. split; [by apply Hl|].
    intros k' d' Hk Hc. apply (Hle (k', d')). by apply Hl.
Qed.

(** What has been tracked decides the status. *)
Lemma task_status_track id now now' (c : ProjectClient W T) :
  task_status id now' (submit_track id now c) =
  if (RESULT_GRACE <? now' - now)%N then Failed grace_msg else Dispatched.
Proof. unfold task_status, submit_track. simpl. by rewrite lookup_insert_eq. Qed.

Lemma task_status_record now now' r (c : ProjectClient W T) :
  task_status (pr_task_id r) now' (record_result now r c) = TaskDone ∧
  get_result (pr_task_id r) (record_result now r c) = Some r.
Proof.
  unfold task_status, get_result, record_result. simpl. by rewrite !lookup_insert_eq.
Qed.

(** A submission records no result. *)
Lemma submit_results seed task_id now dir work build run_cmd timeout target (c : ProjectClient W T) :
  results (submit_local_project seed task_id now dir work build run_cmd timeout target c).2 = results c.
Proof.
  assert (∀ E A (m : M (Disk W T) E A) (c : ProjectClient W T), results (with_disk m c).2 = results c) as Hd.
  { intros E A m c0. unfold with_disk. by destruct (m (store c0)). }
  unfold submit_local_project, submit_send. unfold bind at 1 2.
  specialize (Hd _ _ (snapshot_from_dir dir) c) as H1s.
  destruct (with_disk (snapshot_from_dir dir) c) as [[[sn|e]|y] c1]; [|done..].
  unfold bind at 1, attempt. specialize (Hd _ _ (with_cas (bs_get (snapshot_hash sn))) c1) as H2s.
  destruct (with_disk (with_cas (bs_get (snapshot_hash sn))) c1) as [[g|y] c2]; [|simpl in *; congruence].
  unfold bind at 1. specialize (Hd _ _ (with_cas (bs_exists (snapshot_hash sn))) c2) as H3s.
  destruct (with_disk (with_cas (bs_exists (snapshot_hash sn))) c2) as [[[ex|e]|y] c3]; simpl in *;
    [|congruence..].
  destruct ex; simpl; [|congruence]. unfold bind at 1. destruct (resolve_peer seed target c3); [|simpl; congruence].
  unfold bind, map_err, send_command. destruct (chan_send _ _) as [[[u|e]|y] tx]; simpl; congruence.
Qed.

(** What a successful submission does. *)
Lemma submit_ok seed task_id now dir work build run_cmd timeout target t b d peer
    (c : ProjectClient W T) :
  dirs (store c) !! dir = Some t → append_dir_all (Some t) = Ok b → into_inner b = Ok d →
  bs_healthy (cas (store c)) → bs_adm d → resolve_peer seed target c = Ok peer →
  chan_ready (swarm_commands c) = true →
  ∃ c' h, submit_local_project seed task_id now dir work build run_cmd timeout target c =
      (Done (Ok task_id), submit_track task_id now c') ∧
    sent (swarm_commands c') = sent (swarm_commands c) ++
      [SendProjectTask peer (task_of task_id (from_hash h) work build run_cmd timeout target)] ∧
    bs_holds (cas (store c')) h d ∧ bs_healthy (cas (store c')).
Proof.
  intros Hd Ha Hi Hs Hadm Hres Htx.
  destruct (snapshot_from_dir_ok dir t b d (store c)) as (h & w & Hsnap & Hw & Hh & _); [done..|].
  set (c1 := set_client_store (mkDisk w (dirs (store c))) c).
  assert (with_disk (snapshot_from_dir dir) c = (Done (Ok (from_hash h)), c1)) as Hs1.
  { unfold with_disk. by rewrite Hsnap. }
  assert ((attempt (with_disk (with_cas (bs_get h))) : M _ CoreError (result CoreError _)) c1 =
    (Done (Ok (Ok d)), c1)) as Hs2.
  { unfold attempt, with_disk. by rewrite (with_cas_get h d). }
  assert ((with_disk (with_cas (bs_exists h)) : M _ CoreError _) c1 = (Done (Ok true), c1)) as Hs3.
  { unfold with_disk. by rewrite (with_cas_exists h d). }
  set (task := task_of task_id (from_hash h) work build run_cmd timeout target).
  destruct (chan_send_ready (SendProjectTask peer task) (swarm_commands c) Htx) as (tx' & Hsend & Hsent).
  assert (submit_send seed task_id dir work build run_cmd timeout target c =
    (Done (Ok task_id), set_client_commands tx' c1)) as Hsub.
  { unfold submit_send. rewrite (bind_ok _ _ _ _ _ Hs1). cbn [from_hash snapshot_hash].
    rewrite (bind_ok _ _ _ _ _ Hs2), (bind_ok _ _ _ _ _ Hs3). cbn [negb].
    assert (resolve_peer seed target c1 = Ok peer) as Hres1 by exact Hres.
    unfold bind at 1. rewrite Hres1. fold (from_hash h). fold task.
    unfold bind, map_err, send_command. change (swarm_commands c1) with (swarm_commands c).
    by rewrite Hsend. }
  exists (set_client_commands tx' c1), h.
  split; [unfold submit_local_project; by rewrite (bind_ok _ _ _ _ _ Hsub)|]. by split_and!.
Qed.

(** ** Properties *)


(** No build in an empty directory.  When the executor returns a result, it is
    the sandbox's, under the task's id and this node's, and the sandbox ran the
    task's commands in a directory into which the snapshot's bytes were unpacked:
    the inline ones, or, when there are none, those the store returned for its hash. *)
Lemma executor_runs_snapshot self run_project join_text fetched tmp task (x x' : Disk W T) res :
  executor_run self run_project join_text fetched tmp task x = (Done (Ok res), x') →
  ∃ data x1 tp t er,
    (tar_bytes (pt_snapshot task) = data ∧ data ≠ [] ∧ x1 = x ∨
     tar_bytes (pt_snapshot task) = [] ∧
       with_cas (bs_get (snapshot_hash (pt_snapshot task))) x = (Done (Ok data), x1)) ∧ tmp = Ok tp ∧
    let dir := project_dir tp (pt_work_dir task) in
    unpack data (default empty_dir (dirs x1 !! dir)) = Ok t ∧ dirs x' !! dir = Some t ∧
    run_project (spec_of task dir) = Done (Ok er) ∧
    res = mkProjectResult (pt_task_id task) (er_exit_code er) (er_stdout er) (er_stderr er)
            (er_execution_time_ms er) self.
Proof.
  intros (? & ? & Hf & (tp & ? & Ht & (? & x2 & Hx%map_err_ok_inv & Hr)%bind_ok_inv)%bind_ok_inv)%bind_ok_inv.
  unfold lift_result in Hf, Ht. simplify_eq. apply bind_ok_inv in Hr as (er & ? & Her & Hret).
  injection Her as Her ->. injection Hret as <- <-. set (dir := project_dir tp _) in *. unfold extract_snapshot in Hx.
  apply bind_ok_inv in Hx as (data & x1 & Hdata & Hun). unfold unpack_tar in Hun.
  destruct (unpack data _) as [t|e] eqn:Hu; simplify_eq.
  change (run_project (spec_of task _)) with (run_project (spec_of task dir)) in Her.
  destruct (run_project (spec_of task dir)) as [[er0|e]|why] eqn:Hrun; simplify_eq/=.
  exists data, x1, tp, t, er. split_and!; try done.
  - destruct (tar_bytes (pt_snapshot task)) as [|y ys] eqn:Htb.
    + right. split; [done|]. by apply map_err_ok_inv in Hdata.
    + left. unfold ret in Hdata. by simplify_eq.
  - simpl. apply lookup_insert_eq.
Qed.

(** A snapshot uploaded by name lands on the work directory.  When the work directory
    has a name, copying the snapshot's directory under its own name into the parent
    of the work directory, as the sandbox does, makes it the work directory. *)
Theorem upload_lands_on_work_dir work name :
  file_name work = Some name →
  ∃ q, parent work = Some q ∧
    ∀ tmp, project_dir tmp work = join tmp name ∧ resolve (join q name) = resolve work.
Proof.
  intros Hn. destruct (parent_file_name work name Hn) as (q & Hq & Hr). exists q. split; [done|].
  intros tmp. split; [|done]. unfold project_dir. by rewrite Hn.
Qed.

(** C31: the executor chosen is the least.  Without a target, the master resolves to
    the peer registered under the least raft id among the remote nodes that can run
    projects, whatever the iteration order of the map; it fails exactly when there
    is no such node, when one of them has no raft id (which hides all others), or
    when no peer is registered under the least raft id. *)
Theorem resolve_peer_least seed (c : ProjectClient W T) state registry :
  catalog c = CatalogRaft state registry →
  let remote d := ∃ id, nodes state !! id = Some d ∧ capable (self_node_id c) d = true in
  let least rid := ∃ d, remote d ∧ raft_id d = Some rid ∧
    ∀ d', remote d' → ∃ rid', raft_id d' = Some rid' ∧ (rid ≤ rid')%N in
  match resolve_peer seed None c with
  | Ok p => ∃ rid, least rid ∧ registry !! rid = Some p
  | Err e =>
      e = InvalidState "no remote node with project_sandbox capability" ∧ (∀ d, ¬ remote d) ∨
      e = InvalidState "target node has no raft_id" ∧ (∃ d, remote d ∧ raft_id d = None) ∨
      (∃ m, e = Network m) ∧ ∃ rid, least rid ∧ registry !! rid = None
  end.
Proof.
  intros Hcat remote least. unfold resolve_peer. rewrite Hcat.
  pose proof (candidates_head seed (self_node_id c) (nodes state)) as Hh.
  destruct (head (candidates _ _ _)) as [[id d]|]; simpl.
  - destruct Hh as [[Hid Hc] Hle]. assert (remote d) as Hrem by by exists id.
    destruct (raft_id d) as [rid|] eqn:Hrid; simpl; [|right; left; eauto].
    assert (least rid) as Hleast.
    { exists d. split_and!; [done..|]. intros d' (id' & Hid' & Hc').
      specialize (Hle id' d' Hid' Hc'). simpl in Hle. destruct (raft_id d') as [rid'|]; [|done].
      exists rid'. split; [done|]. by apply N.leb_le. }
    unfold registry_get. destruct (registry !! rid) as [p|] eqn:Hreg; simpl; [by eauto|].
    right; right. eauto.
  - left. split; [done|]. intros d (id & Hid & Hc). apply Hh in Hid. congruence.
Qed.

(** A submitted project can be fetched and is tracked.  When the directory can be
    packed, the store is healthy, a peer resolves and the command channel accepts,
    submission returns its task id after sending exactly one task to that peer: a
    hash-only snapshot whose bytes the store holds.  Its status is dispatched until
    the grace period is over and failed from then on, unless a result is recorded. *)
Theorem submit_dispatches seed task_id now dir work build run_cmd timeout target t b d peer
    (c : ProjectClient W T) :
  dirs (store c) !! dir = Some t → append_dir_all (Some t) = Ok b → into_inner b = Ok d →
  bs_healthy (cas (store c)) → bs_adm d → resolve_peer seed target c = Ok peer →
  chan_ready (swarm_commands c) = true →
  ∃ c' task, submit_local_project seed task_id now dir work build run_cmd timeout target c =
      (Done (Ok task_id), c') ∧
    sent (swarm_commands c') = sent (swarm_commands c) ++ [SendProjectTask peer task] ∧
    pt_task_id task = task_id ∧ tar_bytes (pt_snapshot task) = [] ∧
    bs_holds (cas (store c')) (snapshot_hash (pt_snapshot task)) d ∧
    (∀ now', task_status task_id now' c' =
      if (RESULT_GRACE <? now' - now)%N then Failed grace_msg else Dispatched) ∧
    ∀ now1 now2 r, pr_task_id r = task_id →
      task_status task_id now2 (record_result now1 r c') = TaskDone ∧
      get_result task_id (record_result now1 r c') = Some r.
Proof.
  intros Hd Ha Hi Hs Hadm Hres Htx.
  destruct (submit_ok seed task_id now dir work build run_cmd timeout target t b d peer c)
    as (c' & h & Hsub & Hsent & Hh & _); [done..|].
  eexists (submit_track task_id now c'), _. split_and!; [done|exact Hsent|done|done|done| |].
  - intros now'. apply task_status_track.
  - intros now1 now2 r <-. apply task_status_record.
Qed.

(** A result that comes too early turns into a failure.  If the result of a
    task is recorded between the sending of the task and its tracking, the status
    says dispatched, then failed once the grace period is over, although the result
    is there. *)
Theorem early_result_fails (c : ProjectClient W T) r now1 now2 now3 :
  (now2 + RESULT_GRACE < now3)%N →
  let c' := submit_track (pr_task_id r) now2 (record_result now1 r c) in
  get_result (pr_task_id r) c' = Some r ∧
  task_status (pr_task_id r) now2 c' = Dispatched ∧
  task_status (pr_task_id r) now3 c' = Failed grace_msg.
Proof.
  intros Hlt c'. split; [apply (task_status_record now1 now2 r c)|]. unfold c'.
  rewrite !task_status_track. rewrite N.sub_diag.
  split; [done|]. destruct (N.ltb_spec RESULT_GRACE (now3 - now2)); [done|lia].
Qed.
End lemmas.

(** ** Concrete runs *)

Module DemoProject.
#[export] Existing Instance MemStore.mem_store.
#[export] Existing Instance MemStore.mem_store_laws.
#[export] Existing Instance Toy.hash_order.
#[export] Existing Instance Toy.hash_order_laws.
#[export] Existing Instance Toy.uuid_text.

(** A directory is one file; an archive is a byte in front of it. *)
#[export] Instance tar : Tar bytes := {|
  tar_builder := bytes;
  append_dir_all d := ok_or "No such file or directory" d;
  into_inner b := Ok (x75 :: b);
  unpack d _ := match d with x75 :: t => Ok t | _ => Err "not an archive" end;
  empty_dir := [];
|}.
#[export] Instance tar_laws : TarLaws bytes.
Proof. split; [by intros t b d [= <-] [= <-]|by intros b d [= <-]|by eexists]. Qed.

Definition disk : Disk (gmap Hash bytes) bytes := mkDisk ∅ {[ "/src" := [x61] ]}.
Definition archive : bytes := [x75; x61].
Definition hash : Hash := String.string_of_list_byte archive.
Definition remote : Disk (gmap Hash bytes) bytes := mkDisk {[ hash := archive ]} ∅.

Definition node (id : NodeId) (rid : option N) : NodeDescriptor :=
  {| node_id := id; node_type := Heavy; os := Linux;
     capabilities := mkCapabilities true false [] 1024 4 true;
     advertised_addresses := []; current_assigned_roles := []; started_at := 0%Z; raft_id := rid |}.
Definition state : ClusterState :=
  mkClusterState {[ 7%N := node 7%N (Some 9%N); 8%N := node 8%N (Some 2%N) ]} ∅ 3.
Definition registry : RaftIdRegistry := {[ 2%N := 22%N; 9%N := 99%N ]}.
Definition client : ProjectClient (gmap Hash bytes) bytes :=
  client_new (mkSender [] []) (CatalogRaft state registry) ∅ disk 1%N.

Definition task : ProjectTask :=
  {| pt_task_id := 11%N; pt_snapshot := from_hash hash; pt_work_dir := "/root/project";
     pt_build_cmd := ["make"]; pt_run_cmd := []; pt_timeout_ms := 1000;
     pt_resource_limits := ResourceLimits_default; pt_pinned_node := None |}.
Definition sandbox (spec : ProjectSpec) : outcome CoreError ExecutionResult :=
  Done (Ok (mkExecutionResult 0 [x6f] [] 5 0 None)).
Definition ran : outcome string ProjectResult * Disk (gmap Hash bytes) bytes :=
  executor_run 3%N sandbox (λ s, s) (Ok archive) (Ok "/tmp/x") task remote.
Definition result : ProjectResult :=
  {| pr_task_id := 11%N; pr_exit_code := 0; pr_stdout := [x6f]; pr_stderr := [];
     pr_execution_time_ms := 5; pr_executed_on := 3%N |}.
End DemoProject.
Import (hints) DemoProject.


Lemma resolve_peer_least_witness :
  resolve_peer 0 None DemoProject.client = Ok 22%N ∧
  match resolve_peer 0 None DemoProject.client with
  | Ok p => ∃ rid, DemoProject.registry !! rid = Some p
  | Err e => True
  end.
Proof.
  pose proof (resolve_peer_least 0 DemoProject.client DemoProject.state DemoProject.registry eq_refl) as Hl.
  assert (resolve_peer 0 None DemoProject.client = Ok 22%N) as Hr by (vm_compute; reflexivity).
  split; [exact Hr|]. cbv zeta in Hl. rewrite Hr in *. destruct Hl as (rid & _ & Hreg).
  exists rid. exact Hreg.
Defined.

Lemma submit_dispatches_witness :
  ∃ c' task, submit_local_project 0 11%N 100 "/src" "/root/project" ["make"] [] 1000 None
      DemoProject.client = (Done (Ok 11%N), c') ∧
    sent (swarm_commands c') = [SendProjectTask 22%N task].
Proof.
  destruct (submit_dispatches (T := bytes) (H1 := DemoProject.tar) 0 11%N 100 "/src" "/root/project" ["make"] [] 1000 None [x61] [x61]
    DemoProject.archive 22%N DemoProject.client) as (c' & task & Hs & Ht & _).
  - reflexivity.
  - reflexivity.
  - reflexivity.
  - intros h d Hd. discriminate Hd.
  - exact I.
  - vm_compute. reflexivity.
  - reflexivity.
  - exists c', task. exact (conj Hs Ht).
Defined.

Lemma early_result_fails_witness :
  let c' := submit_track 11%N 0 (record_result 0 DemoProject.result DemoProject.client) in
  get_result 11%N c' = Some DemoProject.result ∧
  task_status 11%N (RESULT_GRACE + 1) c' = Failed grace_msg.
Proof.
  intros c'. destruct (early_result_fails DemoProject.client DemoProject.result 0 0 (RESULT_GRACE + 1))
    as (Hr & _ & Hf).
  - reflexivity.
  - exact (conj Hr Hf).
Defined.
