(* ===== verification/Sandbox.v ===== *)
(** * The project sandbox (crates/sandbox/src/pool.rs, qlean.rs)

    The pool policy, the parsing of the sandbox settings, and the worker that owns
    at most one virtual machine and runs the jobs it receives one after the other. *)

From S2P Require Import Prelude CoreTypes Interfaces Text FileSys.

(** ** The pool policy (pool.rs) *)

Inductive PoolAction := Keep | Discard | Refill (target : N).
Record PoolPlan := mkPoolPlan { reuse : bool; target : N }.
Definition MAX_POOL_TARGET : N := 8.

Definition plan_new (reuse : bool) (configured_size : N) : PoolPlan :=
  mkPoolPlan reuse (if reuse then 0 else N.min configured_size MAX_POOL_TARGET).
Definition after_job (p : PoolPlan) : list PoolAction :=
  if reuse p then [Keep]
  else if (target p =? 0)%N then [Discard]
  else [Discard; Refill (target p)].
Definition boots_needed (p : PoolPlan) (idle : N) : N := target p - idle.
Definition take_from_pool_when_available (p : PoolPlan) : bool := negb (reuse p) && (0 <? target p)%N.

(** ** Settings (qlean.rs) *)

Inductive VmMode := Reuse | Fresh.
#[export] Instance VmMode_eq_dec : EqDecision VmMode.
Proof. solve_decision. Defined.

Definition vm_mode_parse (raw : string) : result CoreError VmMode :=
  let s := to_ascii_lowercase (trim raw) in
  if bool_decide (s ∈ [""; "reuse"; "warm"]) then Ok Reuse
  else if bool_decide (s ∈ ["fresh"; "per-task"; "isolated"]) then Ok Fresh
  else Err (Configuration (fmt ["unknown project sandbox vm_mode '"; s;
         "' (expected 'reuse' or 'fresh')"])).

Definition allows_reuse (m : VmMode) : bool := match m with Reuse => true | Fresh => false end.

Record ImageTemplate := mkImageTemplate { it_source : string; it_digest : string }.

Definition some_text (o : option string) : option string :=
  match trim <$> o with
  | Some EmptyString | None => None
  | Some s => Some s
  end.

Definition digest_ok (digest : string) : bool :=
  match split_once_colon digest with
  | None => false
  | Some (_, hex) => negb (String.length hex <? 32) && forallb is_ascii_hexdigit (chars hex)
  end.

Definition template_from_config (source digest : option string) : result CoreError (option ImageTemplate) :=
  match some_text source, some_text digest with
  | None, None => Ok None
  | Some _, None => Err (Configuration (fmt ["sandbox image template needs both source and digest: ";
      "qlean verifies the downloaded image against the digest, and guessing it would silently disable ";
      "that check"]))
  | None, Some _ => Err (Configuration "sandbox image template digest given without a source")
  | Some source, Some digest =>
      if digest_ok digest then Ok (Some (mkImageTemplate source digest))
      else Err (Configuration (fmt ["sandbox image digest '"; digest; "' must look like 'sha256:<hex>'"]))
  end.

(** ** Time budgets, in nanoseconds *)

Definition secs (n : N) : N := n * 1000000000.
Definition millis (n : N) : N := n * 1000000.
Definition IMAGE_PREPARE_TIMEOUT : N := secs 300.
Definition BOOT_TIMEOUT : N := secs 600.
Definition UPLOAD_TIMEOUT : N := secs 300.

Inductive PhaseBudget := PhImage | PhBoot | PhUpload | PhBuild | PhRun.

Definition phase_budget (deadline : N) (phase : PhaseBudget) (now : N) : N :=
  let remaining := (deadline - now)%N in
  let share := match phase with
               | PhImage => (remaining / 3)%N
               | PhBoot => (remaining / 2)%N
               | PhUpload | PhBuild => remaining
               | PhRun => (remaining - secs 5)%N
               end in
  let cap := match phase with
             | PhImage => IMAGE_PREPARE_TIMEOUT
             | PhBoot => BOOT_TIMEOUT
             | PhUpload => UPLOAD_TIMEOUT
             | PhBuild | PhRun => secs 1800
             end in
  N.max (N.min share cap) (secs 1).

(** The exit status of a guest command: a code, or the signal that ended it. *)
Inductive ExitStatus := Exited (code : Z) | Signaled (signal : N) | OtherStatus.
Definition success (s : ExitStatus) : bool :=
  match s with Exited c => bool_decide (c = 0%Z) | _ => false end.
Definition exit_code_of (s : ExitStatus) : Z :=
  match s with Exited c => c | Signaled sig => (128 + Z.of_N sig)%Z | OtherStatus => 1 end.

(** ** The machines (qlean) *)

(** A call under a timeout. *)
Inductive timed (A : Type) := Finished (r : result string A) | Elapsed.
Arguments Finished {A} _.
Arguments Elapsed {A}.

Record ExecOutput := mkExecOutput { ex_status : ExitStatus; ex_stdout : bytes; ex_stderr : bytes }.

Definition MachineId : Type := N.
#[export] Instance MachineId_eq_dec : EqDecision MachineId := _ : EqDecision N.
#[export] Instance MachineId_countable : Countable MachineId := _ : Countable N.

(** qlean's operations on a host of images and machines, the host's clock and
    directories; a timeout is in nanoseconds. *)
Class QleanHost (H I : Type) := {
  now : H → N;
  is_dir : string → H → bool;
  image_new : option ImageTemplate → N → H → timed I * H;
  machine_new : N → I → H → timed MachineId * H;
  machine_init : N → MachineId → H → timed unit * H;
  is_running : MachineId → H → result string bool * H;
  vm_exec : option N → MachineId → string → H → timed ExecOutput * H;
  vm_upload : N → MachineId → string → string → H → timed unit * H;
  vm_shutdown : MachineId → H → result string unit * H;
}.

(** A new machine is none of those the host created before. *)
Class QleanHostLaws (H I : Type) `{QleanHost H I} := {
  issued : H → gset MachineId;
  machine_new_issued b i h m h' : machine_new b i h = (Finished (Ok m), h') →
    (m ∉ issued h) ∧ (m ∈ issued h') ∧ (issued h ⊆ issued h');
  machine_new_mono b i h : issued h ⊆ issued (machine_new b i h).2;
  image_new_mono t b h : issued h ⊆ issued (image_new t b h).2;
  machine_init_mono b m h : issued h ⊆ issued (machine_init b m h).2;
  is_running_mono m h : issued h ⊆ issued (is_running m h).2;
  vm_exec_mono b m c h : issued h ⊆ issued (vm_exec b m c h).2;
  vm_upload_mono b m d p h : issued h ⊆ issued (vm_upload b m d p h).2;
  vm_shutdown_mono m h : issued h ⊆ issued (vm_shutdown m h).2;
}.

(** ** The worker *)

Record WorkerConfig := mkWorkerConfig {
  wc_mode : VmMode;
  wc_pool_size : N;
  wc_template : option ImageTemplate;
}.

Record Job := mkJob { job_spec : ProjectSpec; job_deadline : N }.

(** What an observer sees: a machine becoming ready, a job ending on a machine, a
    machine shut down, a reply. *)
Inductive WorkerEvent :=
| Booted (m : MachineId)
| Ran (m : MachineId) (r : result CoreError ExecutionResult)
| ShutDown (m : MachineId)
| Replied (r : result CoreError ExecutionResult).

Section worker.
Context {H I : Type} `{QleanHost H I}.

Record Worker := mkWorker {
  host : H;
  image : option I;
  machine : option MachineId;
  trace : list WorkerEvent;
}.
Definition set_host (h : H) (w : Worker) : Worker := mkWorker h (image w) (machine w) (trace w).
Definition set_image (i : option I) (w : Worker) : Worker := mkWorker (host w) i (machine w) (trace w).
Definition set_machine (m : option MachineId) (w : Worker) : Worker :=
  mkWorker (host w) (image w) m (trace w).
Definition emit (e : WorkerEvent) (w : Worker) : Worker :=
  mkWorker (host w) (image w) (machine w) (trace w ++ [e]).

(** A host call under a timeout, with the messages of its two failures. *)
Definition call {A} (f : H → timed A * H) (failed : string → string) (elapsed : string) :
    M Worker CoreError A := λ w,
  let '(r, h) := f (host w) in
  (match r with
   | Finished (Ok a) => Done (Ok a)
   | Finished (Err e) => Done (Err (SandboxExecution (failed e)))
   | Elapsed => Done (Err (SandboxExecution elapsed))
   end, set_host h w).

Definition budget_secs (b : N) : string := dec (b / secs 1).

Definition ensure_image (template : option ImageTemplate) (deadline : N) : M Worker CoreError unit := λ w,
  match image w with
  | Some _ => (Done (Ok tt), w)
  | None =>
      let budget := phase_budget deadline PhImage (now (host w)) in
      (let! img := call (image_new template budget) (λ e, "image: " +:+ e)
         (fmt ["image preparation timed out after "; budget_secs budget;
               "s (image download/cache unavailable?)"]) in
       λ w, (Done (Ok tt), set_image (Some img) w)) w
  end.

Definition boot_machine (img : I) (budget : N) : M Worker CoreError MachineId :=
  let! m := call (machine_new budget img) (λ e, "machine: " +:+ e)
    (fmt ["machine creation timed out after "; budget_secs budget; "s"]) in
  let! _ := call (machine_init budget m) (λ e, "boot: " +:+ e)
    (fmt ["VM boot timed out after "; budget_secs budget; "s (cloud-init stuck? check /dev/kvm and ";
          "qemu-bridge-helper permissions)"]) in
  λ w, (Done (Ok m), emit (Booted m) w).

(** [machine.is_running().unwrap_or(false)]. *)
Definition machine_runs : M Worker CoreError bool := λ w,
  match machine w with
  | Some m => let '(r, h) := is_running m (host w) in
              (Done (Ok (match r with Ok b => b | Err _ => false end)), set_host h w)
  | None => (Done (Ok false), w)
  end.

(** The [prepared] closure. *)
Definition prepare (template : option ImageTemplate) (deadline : N) : M Worker CoreError unit :=
  let! _ := ensure_image template deadline in
  let! running := machine_runs in
  if running then ret tt
  else λ w,
    match image w with
    | None => (Panic "image ensured above", w)
    | Some img =>
        (let! booted := boot_machine img (phase_budget deadline PhBoot (now (host w))) in
         λ w, (Done (Ok tt), set_machine (Some booted) w)) w
    end.

(** The command of a phase, [cd {work} && ..]. *)
Fixpoint join_words (l : list string) : string :=
  match l with
  | [] => ""
  | [x] => x
  | x :: l => fmt [x; " "; join_words l]
  end.
Definition in_dir (work : string) (cmd : list string) : string := fmt ["cd "; work; " && "; join_words cmd].

Definition upload_project (m : MachineId) (spec : ProjectSpec) (deadline : N) : M Worker CoreError unit :=
  λ w,
  match ps_local_project_dir spec with
  | Some dir =>
      if is_dir dir (host w) then
        let parent := default "/root" (parent (ps_work_dir spec)) in
        let budget := phase_budget deadline PhUpload (now (host w)) in
        call (vm_upload budget m dir parent) (λ e, "upload: " +:+ e)
          (fmt ["upload timed out after "; budget_secs budget;
                "s (guest unreachable or snapshot too large)"]) w
      else (Done (Ok tt), w)
  | None => (Done (Ok tt), w)
  end.

(** One guest command under the budget of its phase. *)
Definition phase_exec (m : MachineId) (phase : PhaseBudget) (deadline : N) (cmd : string)
    (failed elapsed_before elapsed_after : string) : M Worker CoreError ExecOutput := λ w,
  let budget := phase_budget deadline phase (now (host w)) in
  call (vm_exec (Some budget) m cmd) (λ e, failed +:+ e)
    (fmt [elapsed_before; budget_secs budget; elapsed_after]) w.

Definition get_now : M Worker CoreError N := λ w, (Done (Ok (now (host w))), w).
Definition as_millis (n : N) : N := n / millis 1.

Definition run_phase (m : MachineId) (spec : ProjectSpec) (deadline start : N) (build : ExecOutput) :
    M Worker CoreError ExecutionResult :=
  let! r := phase_exec m PhRun deadline (in_dir (ps_work_dir spec) (ps_run_cmd spec)) "run: "
    "run timed out after "
    "s (guest command did not return; no hard kill is available for a single in-guest command)" in
  let! t := get_now in
  ret (mkExecutionResult (exit_code_of (ex_status r)) (ex_stdout build ++ ex_stdout r)
         (ex_stderr build ++ ex_stderr r) (as_millis (t - start)) 0 None).

Definition execute_on_vm (m : MachineId) (spec : ProjectSpec) (deadline : N) :
    M Worker CoreError ExecutionResult :=
  let! start := get_now in
  let! _ := λ w, (Done (Ok tt), set_host (vm_exec None m ("rm -rf " +:+ ps_work_dir spec) (host w)).2 w) in
  let! _ := upload_project m spec deadline in
  match ps_build_cmd spec with
  | [] => run_phase m spec deadline start (mkExecOutput (Exited 0) [] [])
  | build_cmd =>
      let! b := phase_exec m PhBuild deadline (in_dir (ps_work_dir spec) build_cmd) "build: "
        "build timed out after "
        "s (command did not return; the VM may be rebooting or apt-get may be stuck)" in
      if success (ex_status b) then run_phase m spec deadline start b
      else
        let! t := get_now in
        ret (mkExecutionResult (exit_code_of (ex_status b)) (ex_stdout b) (ex_stderr b)
               (as_millis (t - start)) 0 None)
  end.

Definition pool_action (a : PoolAction) : M Worker CoreError unit := λ w,
  match a with
  | Keep => (Done (Ok tt), w)
  | Discard =>
      match machine w with
      | Some m => (Done (Ok tt), emit (ShutDown m)
                    (set_machine None (set_host (vm_shutdown m (host w)).2 w)))
      | None => (Done (Ok tt), w)
      end
  | Refill _ =>
      match image w with
      | None => (Done (Ok tt), w)
      | Some img =>
          (let! r := attempt (boot_machine img BOOT_TIMEOUT) in
           match r with
           | Ok ready => λ w, (Done (Ok tt), set_machine (Some ready) w)
           | Err _ => ret tt
           end) w
      end
  end.

(** The run of the prepared job; a machine on which it failed is dropped. *)
Definition run_job (cfg : WorkerConfig) (job : Job) : M Worker CoreError (result CoreError ExecutionResult) :=
  let! prepared := attempt (prepare (wc_template cfg) (job_deadline job)) in
  let! outcome :=
    match prepared with
    | Ok _ => λ w,
        match machine w with
        | None => (Panic "machine booted above", w)
        | Some m =>
            (let! r := attempt (execute_on_vm m (job_spec job) (job_deadline job)) in
             λ w, (Done (Ok r), emit (Ran m r) w)) w
        end
    | Err e => ret (Err e)
    end in
  match outcome with
  | Ok _ => ret outcome
  | Err _ => λ w, (Done (Ok outcome), set_machine None w)
  end.

(** The body of the worker's loop. *)
Definition worker_job (cfg : WorkerConfig) (job : Job) : M Worker CoreError unit :=
  let plan := plan_new (allows_reuse (wc_mode cfg)) (wc_pool_size cfg) in
  let! outcome := run_job cfg job in
  let! _ := mfor pool_action (after_job plan) in
  λ w, (Done (Ok tt), emit (Replied outcome) w).

Definition worker_start (h : H) : Worker := mkWorker h None None [].
Definition worker (cfg : WorkerConfig) (jobs : list Job) : M Worker CoreError unit :=
  mfor (worker_job cfg) jobs.

(** The deadline [run_project] gives a job. *)
Definition deadline_of (spec : ProjectSpec) (t : N) : N := (t + millis (N.max (ps_timeout_ms spec) 1000))%N.
End worker.
Arguments Worker : clear implicits.

(** ** Lemmas *)

(** What of a trace concerns jobs: their runs and the replies. *)
Definition visible (t : list WorkerEvent) : list WorkerEvent :=
  filter (λ e, match e with Ran _ _ | Replied _ => true | _ => false end = true) t.
(** The runs of a trace: the machine, and whether the job did not fail. *)
Definition runs (t : list WorkerEvent) : list (MachineId * bool) :=
  omap (λ e, match e with Ran m r => Some (m, is_ok r) | _ => None end) t.

Lemma visible_app t u : visible (t ++ u) = visible t ++ visible u.
Proof. apply filter_app. Qed.

Lemma runs_visible t : runs (visible t) = runs t.
Proof.
  induction t as [|e t IH]; [done|]. unfold visible. rewrite filter_cons.
  destruct e; case_decide; try done; simpl; by rewrite <- IH.
Qed.

Section lemmas.
Context {H I : Type} `{QleanHostLaws H I}.
Local Abbreviation Worker := (Worker H I).

(** A step that runs no job and changes no machine, and what it may do to the host. *)
Definition quiet (w w' : Worker) : Prop :=
  (issued (host w) ⊆ issued (host w')) ∧ machine w' = machine w ∧
  visible (trace w') = visible (trace w) ∧ (is_Some (image w) → is_Some (image w')).

#[export] Instance quiet_preorder : PreOrder quiet.
Proof.
  split; [by intros w|]. intros w1 w2 w3 (?&?&?&?) (?&?&?&?). split_and!; [set_solver|congruence..|auto].
Qed.

Definition quiet_m {E A} (m : M Worker E A) : Prop :=
  ∀ w, quiet w (m w).2 ∧ ∀ s, (m w).1 ≠ Panic s.

Lemma quiet_bind {E A B} (m : M Worker E A) (k : A → M Worker E B) :
  quiet_m m → (∀ a, quiet_m (k a)) → quiet_m (bind m k).
Proof.
  intros Hm Hk w. unfold bind. destruct (Hm w) as [Hq Hp]. destruct (m w) as [[[a|e]|s] w'].
  - destruct (Hk a w') as [Hq' Hp']. split; [by etrans|done].
  - done.
  - by destruct (Hp s).
Qed.

Lemma quiet_ret {E A} (a : A) : quiet_m (ret a : M Worker E A).
Proof. by intros w. Qed.

Lemma quiet_attempt {E E' A} (m : M Worker E A) : quiet_m m → quiet_m (attempt m : M Worker E' _).
Proof.
  intros Hm w. unfold attempt. destruct (Hm w) as [Hq Hp]. destruct (m w) as [[r|s] w']; [done|].
  by destruct (Hp s).
Qed.

Lemma quiet_call {A} (f : H → timed A * H) failed elapsed :
  (∀ h, issued h ⊆ issued (f h).2) → quiet_m (call f failed elapsed).
Proof.
  intros Hf w. unfold call. specialize (Hf (host w)). destruct (f (host w)) as [r h].
  split; [unfold quiet; by split_and!|]. by destruct r as [[]|].
Qed.

Lemma quiet_set_image i w : is_Some i → quiet w (set_image i w).
Proof. intros Hi. unfold quiet. by split_and!. Qed.

Lemma quiet_emit e w : visible [e] = [] → quiet w (emit e w).
Proof. intros He. unfold quiet. split_and!; [done..| |done]. simpl. by rewrite visible_app, He, app_nil_r. Qed.

Lemma quiet_set_host h w : issued (host w) ⊆ issued h → quiet w (set_host h w).
Proof. intros Hi. unfold quiet. by split_and!. Qed.

Lemma quiet_ensure_image t d : quiet_m (ensure_image (H := H) (I := I) t d).
Proof.
  intros w. unfold ensure_image. destruct (image w) as [i|] eqn:Hi; [done|].
  apply (quiet_bind (call _ _ _)); [apply quiet_call, image_new_mono|].
  intros i w'. split; [by apply quiet_set_image|done].
Qed.

Lemma ensure_image_ok t d (w : Worker) w' :
  ensure_image t d w = (Done (Ok tt), w') → is_Some (image w').
Proof.
  unfold ensure_image. destruct (image w) as [i|] eqn:Hi; [intros; simplify_eq; eauto|].
  intros (i & w1 & _ & Hw)%bind_ok_inv. simplify_eq. by eexists.
Qed.

Lemma quiet_boot i b : quiet_m (boot_machine (H := H) i b).
Proof.
  apply quiet_bind; [apply quiet_call, machine_new_mono|]. intros m.
  apply quiet_bind; [apply quiet_call, machine_init_mono|]. intros _ w.
  split; [by apply quiet_emit|done].
Qed.

(** A machine that has just booted is new. *)
Lemma boot_fresh i b (w : Worker) m w' :
  boot_machine i b w = (Done (Ok m), w') → (m ∉ issued (host w)) ∧ (m ∈ issued (host w')).
Proof.
  intros (m1 & w1 & Hnew & ([] & w2 & Hinit & Hret)%bind_ok_inv)%bind_ok_inv.
  injection Hret as -> <-. unfold call in Hnew.
  destruct (machine_new b i (host w)) as [[[m2|e]|] h] eqn:Hm; simplify_eq.
  apply machine_new_issued in Hm as (Hn & Hin & _). split; [done|]. simpl.
  destruct (quiet_call (machine_init b m) (λ e, "boot: " +:+ e)
    (fmt ["VM boot timed out after "; budget_secs b; "s (cloud-init stuck? check /dev/kvm and ";
          "qemu-bridge-helper permissions)"]) (machine_init_mono b m) (set_host h w)) as [(Hsub & _) _].
  rewrite Hinit in Hsub. simpl in Hsub. set_solver.
Qed.

Lemma quiet_machine_runs : quiet_m (machine_runs (H := H) (I := I)).
Proof.
  intros w. unfold machine_runs. destruct (machine w) as [m|]; [|done].
  pose proof (is_running_mono m (host w)). destruct (is_running m (host w)) as [r h].
  split; [by apply quiet_set_host|done].
Qed.

Lemma machine_runs_true (w w' : Worker) :
  machine_runs w = (Done (Ok true), w') → is_Some (machine w').
Proof.
  unfold machine_runs. destruct (machine w) as [m|] eqn:Hm; [|by intros; simplify_eq].
  destruct (is_running m (host w)) as [r h]. intros. simplify_eq/=. rewrite Hm. eauto.
Qed.

(** *** The jobs on a machine *)

(** The machine that is kept is one the host issued, as are those that have run,
    and it has run only in reuse mode, without failure. *)
Record worker_ok (cfg : WorkerConfig) (w : Worker) : Prop := {
  wo_issued m ok : (m, ok) ∈ runs (trace w) → m ∈ issued (host w);
  wo_machine m : machine w = Some m → m ∈ issued (host w);
  wo_kept m ok : machine w = Some m → (m, ok) ∈ runs (trace w) → wc_mode cfg = Reuse ∧ ok = true;
  wo_again i j m ok ok' : i < j → runs (trace w) !! i = Some (m, ok) →
    runs (trace w) !! j = Some (m, ok') → wc_mode cfg = Reuse ∧ ok = true;
}.

Lemma quiet_ok cfg w w' : quiet w w' → worker_ok cfg w → worker_ok cfg w'.
Proof.
  intros (Hi & Hm & Ht & _) [H1' H2' H3' H4'].
  assert (runs (trace w') = runs (trace w)) as Hr by (by rewrite <- runs_visible, Ht, runs_visible).
  split.
  - intros m ok. rewrite Hr. intros Hin. by eapply Hi, H1'.
  - intros m. rewrite Hm. intros Hk. by apply Hi, H2'.
  - intros m ok. rewrite Hm, Hr. apply H3'.
  - intros i j m ok ok'. rewrite Hr. apply H4'.
Qed.

Lemma no_machine_ok cfg w : worker_ok cfg w → worker_ok cfg (set_machine None w).
Proof. by intros []. Qed.

(** Keeping a machine that has just booted. *)
Lemma booted_ok cfg i b w m w' :
  boot_machine i b w = (Done (Ok m), w') → worker_ok cfg w → worker_ok cfg (set_machine (Some m) w').
Proof.
  intros Hb Hok. destruct (boot_fresh _ _ _ _ _ Hb) as [Hn Hin].
  destruct (quiet_boot i b w) as [Hq _]. rewrite Hb in Hq. simpl in Hq.
  pose proof Hq as (_ & _ & Hvis & _).
  assert (runs (trace w') = runs (trace w)) as Hr by (by rewrite <- runs_visible, Hvis, runs_visible).
  destruct (quiet_ok cfg w w' Hq Hok) as [H1' _ _ H4']. split; simpl.
  - done.
  - by intros ? [= <-].
  - intros ? ok [= <-]. rewrite Hr. intros Hrun%(wo_issued _ _ Hok). done.
  - done.
Qed.

Lemma prepare_ok cfg t d w o w' :
  prepare t d w = (o, w') → worker_ok cfg w →
  worker_ok cfg w' ∧ visible (trace w') = visible (trace w) ∧
  match o with
  | Done (Ok _) => is_Some (machine w')
  | Done (Err _) => True
  | Panic _ => False
  end.
Proof.
  unfold prepare. intros Hp Hok. destruct (quiet_ensure_image t d w) as [Hq Hnp].
  unfold bind at 1 in Hp. destruct (ensure_image t d w) as [[[[]|e]|s] w1] eqn:Hi; simpl in *;
    [| |by destruct (Hnp s)].
  2: { injection Hp as <- <-. pose proof Hq as (_ & _ & Hv & _).
       split_and!; [by eapply quiet_ok|done|done]. }
  apply ensure_image_ok in Hi. unfold bind at 1 in Hp.
  destruct (quiet_machine_runs w1) as [Hq1 Hnp1].
  destruct (machine_runs w1) as [[[[]|e]|s] w2] eqn:Hr; simpl in *.
  - injection Hp as <- <-. apply machine_runs_true in Hr.
    pose proof (transitivity Hq Hq1) as Hq2. pose proof Hq2 as (_ & _ & Hv & _).
    split_and!; [by eapply quiet_ok|done|done].
  - pose proof (transitivity Hq Hq1) as Hq2. pose proof Hq2 as (_ & _ & Hv & _).
    destruct Hq1 as (_ & _ & _ & Him). destruct (Him Hi) as [img Himg]. rewrite Himg in Hp.
    unfold bind at 1 in Hp. set (b := phase_budget _ _ _) in Hp.
    pose proof (quiet_ok cfg w w2 Hq2 Hok) as Hok2.
    destruct (quiet_boot img b w2) as [Hq3 Hnp3]. pose proof Hq3 as (_ & _ & Hv3 & _).
    destruct (boot_machine img b w2) as [[[m|e]|s] w3] eqn:Hb; simpl in *; [| |by destruct (Hnp3 s)];
      injection Hp as <- <-.
    + split_and!; [by eapply booted_ok|by rewrite <- Hv, <- Hv3|by eexists].
    + split_and!; [by eapply quiet_ok|by rewrite Hv3|done].
  - simplify_eq. pose proof (transitivity Hq Hq1) as Hq2. pose proof Hq2 as (_ & _ & Hv & _).
    split_and!; [by eapply quiet_ok|done|done].
  - by destruct (Hnp1 s).
Qed.

Lemma quiet_phase_exec m p d c f b a : quiet_m (phase_exec (H := H) (I := I) m p d c f b a).
Proof. intros w. unfold phase_exec. apply quiet_call. intros h. apply vm_exec_mono. Qed.

Lemma quiet_run_phase m spec d t b : quiet_m (run_phase (H := H) (I := I) m spec d t b).
Proof.
  apply quiet_bind; [apply quiet_phase_exec|]. intros r. apply quiet_bind; [by intros w|].
  intros t'. apply quiet_ret.
Qed.

Lemma quiet_execute m spec d : quiet_m (execute_on_vm (H := H) (I := I) m spec d).
Proof.
  apply quiet_bind; [by intros w|]. intros t. apply quiet_bind.
  { intros w. split; [|done]. apply quiet_set_host, vm_exec_mono. }
  intros _. apply quiet_bind.
  { intros w. unfold upload_project. destruct (ps_local_project_dir spec) as [dir|]; [|done].
    destruct (is_dir dir (host w)); [|done]. apply quiet_call. intros h. apply vm_upload_mono. }
  intros _. destruct (ps_build_cmd spec); [apply quiet_run_phase|].
  apply quiet_bind; [apply quiet_phase_exec|]. intros b'.
  destruct (success (ex_status b')); [apply quiet_run_phase|].
  apply quiet_bind; [by intros w|]. intros t'. apply quiet_ret.
Qed.

(** The visible trace of one job: its run and its reply, or, when no machine could
    be prepared, the reply alone. *)
Definition job_segment (s : list WorkerEvent) : Prop :=
  (∃ m r, s = [Ran m r; Replied r]) ∨ ∃ e, s = [Replied (Err e)].

Lemma runs_app t u : runs (t ++ u) = runs t ++ runs u.
Proof. apply omap_app. Qed.

Lemma ran_ok cfg m r w k :
  machine w = Some m → worker_ok cfg w →
  k = None ∨ k = Some m ∧ wc_mode cfg = Reuse ∧ is_ok r = true →
  worker_ok cfg (set_machine k (emit (Ran m r) w)).
Proof.
  intros Hm [H1' H2' H3' H4'] Hk.
  assert (runs (trace w ++ [Ran m r]) = runs (trace w) ++ [(m, is_ok r)]) as Hr by apply runs_app.
  split; simpl; rewrite ?Hr.
  - intros m' ok [Hin|[= -> ->]%list_elem_of_singleton]%elem_of_app; [by eapply H1'|by apply H2'].
  - intros m' ->. destruct Hk as [|([= ->] & _)]; [done|by apply H2'].
  - intros m' ok -> Hin. destruct Hk as [|([= ->] & Hmode & Hok)]; [done|].
    apply elem_of_app in Hin as [Hin|[= ->]%list_elem_of_singleton]; [by eapply H3'|by split].
  - intros i j m' ok ok' Hij Hi Hj. assert (j < length (runs (trace w)) ∨ j = length (runs (trace w))) as Hlt.
    { apply lookup_lt_Some in Hj. rewrite length_app in Hj. simpl in Hj. lia. }
    destruct Hlt as [Hlt| ->].
    + rewrite lookup_app_l in Hi by lia. rewrite lookup_app_l in Hj by done. by apply (H4' i j m' ok ok').
    + rewrite lookup_app_l in Hi by lia. rewrite lookup_app_r, Nat.sub_diag in Hj by lia.
      simpl in Hj. simplify_eq. eapply H3'; [exact Hm|]. by eapply list_elem_of_lookup_2.
Qed.

(** After the run of a job the machine may have run this job, until the pool plan
    is followed; only a fresh machine or, in reuse mode, a good one is then kept. *)
Lemma run_job_ok cfg job w :
  worker_ok cfg w →
  ∃ r w', run_job cfg job w = (Done (Ok r), w') ∧
    worker_ok cfg (set_machine None w') ∧
    (wc_mode cfg = Reuse → worker_ok cfg w') ∧ (is_ok r = false → machine w' = None) ∧
    ∃ seg, visible (trace w') = visible (trace w) ++ seg ∧ job_segment (seg ++ [Replied r]).
Proof.
  intros Hok. unfold run_job. unfold bind at 1, attempt at 1.
  destruct (prepare (wc_template cfg) (job_deadline job) w) as [[[[]|e]|s] w1] eqn:Hp;
    destruct (prepare_ok cfg _ _ _ _ _ Hp Hok) as (Hok1 & Hv & Ho); [| |done].
  - destruct Ho as [m Hm]. unfold bind at 1. rewrite Hm. unfold bind at 1, attempt at 1.
    destruct (quiet_execute m (job_spec job) (job_deadline job) w1) as [Hq Hnp].
    destruct (execute_on_vm m (job_spec job) (job_deadline job) w1) as [[r|s] w2]; [|by destruct (Hnp s)].
    simpl in Hq. pose proof (quiet_ok cfg w1 w2 Hq Hok1) as Hok2. destruct Hq as (_ & Hm2 & Hv2 & _).
    rewrite Hm in Hm2.
    assert (visible (trace w2 ++ [Ran m r]) = visible (trace w) ++ [Ran m r]) as Hvis.
    { by rewrite visible_app, Hv2, Hv. }
    assert (job_segment ([Ran m r] ++ [Replied r])) as Hseg by (left; eauto).
    destruct r as [x|x].
    + exists (Ok x), (emit (Ran m (Ok x)) w2). split; [done|].
      split; [apply ran_ok; auto|]. split; [|split; [done|by eexists]].
      intros Hmode. assert (worker_ok cfg (set_machine (Some m) (emit (Ran m (Ok x)) w2))) as Hk.
      { apply ran_ok; auto. }
      unfold set_machine, emit in Hk |- *. simpl in Hk. by rewrite Hm2.
    + exists (Err x), (set_machine None (emit (Ran m (Err x)) w2)). split; [done|].
      assert (worker_ok cfg (set_machine None (emit (Ran m (Err x)) w2))) as Hk.
      { apply ran_ok; auto. }
      split; [exact Hk|]. split; [done|]. split; [done|]. by eexists.
  - pose proof (no_machine_ok cfg w1 Hok1) as Hn. exists (Err e), (set_machine None w1).
    split; [done|]. split; [exact Hn|]. split; [intros _; exact Hn|]. split; [done|].
    exists []. split; [by rewrite app_nil_r|]. right. eauto.
Qed.

Lemma discard_ok cfg w :
  worker_ok cfg (set_machine None w) →
  ∃ w', pool_action Discard w = (Done (Ok tt), w') ∧ worker_ok cfg w' ∧ visible (trace w') = visible (trace w).
Proof.
  intros Hok. simpl. destruct (machine w) as [m|] eqn:Hm.
  - eexists. split; [done|]. split; [|simpl; by rewrite visible_app, app_nil_r].
    eapply (quiet_ok cfg (set_machine None w)); [|done]. unfold quiet. simpl.
    split_and!; [apply vm_shutdown_mono|done|by rewrite visible_app, app_nil_r|done].
  - exists w. split; [done|]. split; [|done]. unfold set_machine in Hok. destruct w; simpl in *. by subst.
Qed.

Lemma refill_ok cfg n w :
  worker_ok cfg w →
  ∃ w', pool_action (Refill n) w = (Done (Ok tt), w') ∧ worker_ok cfg w' ∧ visible (trace w') = visible (trace w).
Proof.
  intros Hok. simpl. destruct (image w) as [img|]; [|by exists w].
  unfold bind, attempt. destruct (quiet_boot img BOOT_TIMEOUT w) as [Hq Hnp].
  destruct (boot_machine img BOOT_TIMEOUT w) as [[[m|e]|s] w'] eqn:Hb; simpl in *; [| |by destruct (Hnp s)].
  - eexists. split; [done|]. split; [by eapply booted_ok|]. by destruct Hq as (_ & _ & ? & _).
  - exists w'. split; [done|]. split; [by eapply quiet_ok|]. by destruct Hq as (_ & _ & ? & _).
Qed.

Lemma worker_job_ok cfg job w :
  worker_ok cfg w →
  ∃ w' seg, worker_job cfg job w = (Done (Ok tt), w') ∧ worker_ok cfg w' ∧
    visible (trace w') = visible (trace w) ++ seg ∧ job_segment seg.
Proof.
  intros Hok. destruct (run_job_ok cfg job w Hok) as (r & w1 & Hrun & Hnone & Hreuse & _ & seg & Hv & Hseg).
  unfold worker_job. rewrite (bind_ok _ _ _ _ _ Hrun).
  assert (∃ w2, mfor pool_action (after_job (plan_new (allows_reuse (wc_mode cfg)) (wc_pool_size cfg))) w1 =
    (Done (Ok tt), w2) ∧ worker_ok cfg w2 ∧ visible (trace w2) = visible (trace w1)) as (w2 & Hpool & Hok2 & Hv2).
  { unfold after_job, plan_new. destruct (wc_mode cfg) eqn:Hmode; simpl; [exists w1; by auto|].
    destruct (discard_ok cfg w1 Hnone) as (w2 & Hd & Hok2 & Hv2).
    destruct (_ =? 0)%N.
    - cbn [mfor]. rewrite (bind_ok _ _ _ _ _ Hd). by exists w2.
    - cbn [mfor]. rewrite (bind_ok _ _ _ _ _ Hd).
      destruct (refill_ok cfg (N.min (wc_pool_size cfg) MAX_POOL_TARGET) w2 Hok2) as (w3 & Hr & Hok3 & Hv3).
      rewrite (bind_ok _ _ _ _ _ Hr). exists w3. split_and!; [done..|congruence]. }
  rewrite (bind_ok _ _ _ _ _ Hpool). exists (emit (Replied r) w2), (seg ++ [Replied r]).
  split; [done|]. assert (visible (trace w2 ++ [Replied r]) = visible (trace w) ++ seg ++ [Replied r]) as Hvis.
  { by rewrite visible_app, Hv2, Hv, <- (assoc_L (++)). }
  split; [|split; [exact Hvis|done]].
  destruct Hok2 as [H1' H2' H3' H4'].
  assert (runs (trace w2 ++ [Replied r]) = runs (trace w2)) as Hr by (by rewrite runs_app, app_nil_r).
  split; simpl; intros *; rewrite ?Hr; eauto.
Qed.

Lemma worker_jobs_ok cfg jobs w :
  worker_ok cfg w →
  ∃ w' segs, worker cfg jobs w = (Done (Ok tt), w') ∧ worker_ok cfg w' ∧
    visible (trace w') = visible (trace w) ++ concat segs ∧ Forall job_segment segs ∧
    length segs = length jobs.
Proof.
  revert w. induction jobs as [|job jobs IH]; intros w Hok.
  - exists w, []. split_and!; [done..|by rewrite app_nil_r|done|done].
  - destruct (worker_job_ok cfg job w Hok) as (w1 & seg & Hj & Hok1 & Hv1 & Hseg).
    destruct (IH w1 Hok1) as (w2 & segs & Hw & Hok2 & Hv2 & Hsegs & Hlen).
    exists w2, (seg :: segs). unfold worker in *. cbn [mfor]. rewrite (bind_ok _ _ _ _ _ Hj).
    split_and!; [done..| |by constructor|by simpl; rewrite Hlen].
    simpl. by rewrite Hv2, Hv1, (assoc_L (++)).
Qed.

Lemma start_ok cfg h : worker_ok cfg (worker_start h).
Proof.
  split; simpl.
  - by intros m ok ?%not_elem_of_nil.
  - done.
  - done.
  - by intros i j m ok ok' _ Hi.
Qed.

(** ** Properties *)

(** C32: tasks are isolated as configured.  Over the whole life of a worker, a
    machine on which a task has run gets another task only in reuse mode, and only
    if the earlier task did not fail: in fresh mode every task has a machine of its
    own. *)
Theorem machines_isolate_tasks cfg h jobs :
  let w := (worker cfg jobs (worker_start h)).2 in
  ∀ i j m ok ok', i < j → runs (trace w) !! i = Some (m, ok) → runs (trace w) !! j = Some (m, ok') →
    wc_mode cfg = Reuse ∧ ok = true.
Proof.
  intros w. destruct (worker_jobs_ok cfg jobs (worker_start h) (start_ok cfg h)) as (w' & segs & Hw & Hok & _).
  unfold w. rewrite Hw. apply (wo_again _ _ Hok).
Qed.

End lemmas.

(** Budgets are bounded.  Whatever the deadline and the clock, a phase gets at
    least a second and at most its cap (at most half an hour), and otherwise no more
    than what is left until the deadline. *)
Theorem phase_budget_bounds deadline phase now :
  (secs 1 ≤ phase_budget deadline phase now ≤ secs 1800)%N ∧
  (phase_budget deadline phase now ≤ N.max (secs 1) (deadline - now))%N.
Proof.
  unfold phase_budget, IMAGE_PREPARE_TIMEOUT, BOOT_TIMEOUT, UPLOAD_TIMEOUT, secs.
  assert ((deadline - now) / 3 ≤ deadline - now)%N by (apply N.Div0.div_le_upper_bound; lia).
  assert ((deadline - now) / 2 ≤ deadline - now)%N by (apply N.Div0.div_le_upper_bound; lia).
  destruct phase; lia.
Qed.

Section exit.
Context {H I : Type} `{QleanHost H I}.

(** The guest ran a command in the work directory under some timeout and it exited
    with 0, with the output [out]. *)
Definition guest_ran (m : MachineId) (work : string) (cmd : list string) (out : ExecOutput) (h h' : H) : Prop :=
  (∃ budget, vm_exec (Some budget) m (in_dir work cmd) h = (Finished (Ok out), h')) ∧ ex_status out = Exited 0.

(** What a machine has done when a project succeeds on it, call by call: the work
    directory was removed; the project's directory, if it is one, was uploaded to
    its parent; the build command, if there is one, and the run command exited with
    0; and the project's output is theirs. *)
Definition guest_success (m : MachineId) (spec : ProjectSpec) (r : ExecutionResult) (h h' : H) : Prop :=
  let h1 := (vm_exec None m ("rm -rf " +:+ ps_work_dir spec) h).2 in
  ∃ b o h2 h3,
    match ps_local_project_dir spec with
    | Some dir =>
        if is_dir dir h1 then
          ∃ budget, vm_upload budget m dir (default "/root" (parent (ps_work_dir spec))) h1 = (Finished (Ok tt), h2)
        else h2 = h1
    | None => h2 = h1
    end ∧
    match ps_build_cmd spec with
    | [] => b = mkExecOutput (Exited 0) [] [] ∧ h3 = h2
    | build => guest_ran m (ps_work_dir spec) build b h2 h3
    end ∧
    guest_ran m (ps_work_dir spec) (ps_run_cmd spec) o h3 h' ∧
    er_stdout r = ex_stdout b ++ ex_stdout o ∧ er_stderr r = ex_stderr b ++ ex_stderr o.

Lemma call_inv {A} (f : H → timed A * H) failed elapsed (w : Worker H I) a w' :
  call f failed elapsed w = (Done (Ok a), w') → f (host w) = (Finished (Ok a), host w').
Proof. unfold call. destruct (f (host w)) as [[[x|e]|] h]; by intros ?; simplify_eq. Qed.

Lemma phase_exec_inv m p d c f b a (w : Worker H I) out w' :
  phase_exec m p d c f b a w = (Done (Ok out), w') →
  ∃ budget, vm_exec (Some budget) m c (host w) = (Finished (Ok out), host w').
Proof. intros Hc%call_inv. eauto. Qed.

Lemma exit_code_zero s : exit_code_of s = 0%Z → s = Exited 0.
Proof. destruct s; simpl; intros; [congruence|lia|done]. Qed.

Lemma get_now_inv (w : Worker H I) t w' : get_now w = (Done (Ok t), w') → w' = w.
Proof. by intros [= _ ->]. Qed.

Lemma run_phase_zero m spec d t b (w : Worker H I) r w' :
  run_phase m spec d t b w = (Done (Ok r), w') → er_exit_code r = 0%Z →
  ∃ o, guest_ran m (ps_work_dir spec) (ps_run_cmd spec) o (host w) (host w') ∧
    er_stdout r = ex_stdout b ++ ex_stdout o ∧ er_stderr r = ex_stderr b ++ ex_stderr o.
Proof.
  intros (out & w1 & Hx%phase_exec_inv & (t' & w2 & ->%get_now_inv & Hret)%bind_ok_inv)%bind_ok_inv Hz.
  injection Hret as <- <-. exists out. split; [|done]. split; [done|]. by apply exit_code_zero.
Qed.

Lemma upload_inv m spec d (w : Worker H I) u w' : upload_project m spec d w = (Done (Ok u), w') →
  match ps_local_project_dir spec with
  | Some dir =>
      if is_dir dir (host w) then
        ∃ budget, vm_upload budget m dir (default "/root" (parent (ps_work_dir spec))) (host w) =
          (Finished (Ok tt), host w')
      else host w' = host w
  | None => host w' = host w
  end.
Proof.
  unfold upload_project. destruct (ps_local_project_dir spec) as [dir|]; [|by intros [= <- <-]].
  destruct (is_dir dir (host w)); [|by intros [= <- <-]]. intros Hc%call_inv. destruct u. eauto.
Qed.

(** Exit code 0 is never invented.  When a job reports exit code 0, the machine has
    done all of it, in order: a signal, a failed build or an unknown status is never
    reported as success. *)
Lemma exit_zero_is_success m spec d (w : Worker H I) r w' :
  execute_on_vm m spec d w = (Done (Ok r), w') → er_exit_code r = 0%Z →
  guest_success m spec r (host w) (host w').
Proof.
  intros (start & ? & ->%get_now_inv & (? & w2 & Hrm & (? & w3 & Hup%upload_inv & He)%bind_ok_inv)%bind_ok_inv)%bind_ok_inv Hz.
  injection Hrm as _ <-. unfold guest_success. destruct (ps_build_cmd spec) as [|c cs] eqn:Hb.
  - apply run_phase_zero in He as (o & Ho); [|done]. by exists (mkExecOutput (Exited 0) [] []), o, (host w3), (host w3).
  - apply bind_ok_inv in He as (b & w4 & Hx%phase_exec_inv & He). destruct (success (ex_status b)) eqn:Hs.
    + apply run_phase_zero in He as (o & Ho); [|done]. exists b, o, (host w3), (host w4).
      split; [done|]. split; [|done]. split; [done|].
      unfold success in Hs. destruct (ex_status b); try done. apply bool_decide_eq_true in Hs. congruence.
    + apply bind_ok_inv in He as (t & w5 & _ & Hret). injection Hret as <- <-.
      apply exit_code_zero in Hz. unfold success in Hs. by rewrite Hz in Hs.
Qed.
End exit.

(** ** Concrete runs *)

Module DemoSandbox.
(** A host whose commands take a second and succeed, unless they contain [false]. *)
Record Host := mkHost { clock : N; next_machine : N }.
Definition tick (h : Host) : Host := mkHost (clock h + secs 1) (next_machine h).
#[export] Instance host : QleanHost Host unit := {|
  now := clock;
  is_dir _ _ := true;
  image_new _ _ h := (Finished (Ok tt), tick h);
  machine_new _ _ h := (Finished (Ok (next_machine h)), mkHost (clock h) (N.succ (next_machine h)));
  machine_init _ _ h := (Finished (Ok tt), tick h);
  is_running _ h := (Ok true, h);
  vm_exec _ _ c h :=
    (if decide (c = "cd /w && hang") then Elapsed
     else Finished (Ok (mkExecOutput (Exited 0) [] [])), tick h);
  vm_upload _ _ _ _ h := (Finished (Ok tt), tick h);
  vm_shutdown _ h := (Ok tt, h);
|}.
Definition below (n : N) : gset N := list_to_set (N.of_nat <$> seq 0 (N.to_nat n)).
Lemma elem_of_below x n : x ∈ below n ↔ (x < n)%N.
Proof.
  unfold below. rewrite elem_of_list_to_set, list_elem_of_fmap. setoid_rewrite elem_of_seq. split.
  - intros (y & -> & ?). lia.
  - intros Hx. exists (N.to_nat x). lia.
Qed.

#[export] Program Instance host_laws : QleanHostLaws Host unit := {| issued h := below (next_machine h) |}.
Next Obligation.
  intros b i h m h'. simpl. intros [= <- <-]. simpl. rewrite !elem_of_below.
  split; [lia|]. split; [lia|]. intros x. rewrite !elem_of_below. lia.
Qed.
Next Obligation. intros b i h x. simpl. rewrite !elem_of_below. lia. Qed.
Solve Obligations with done.

Definition spec (run_cmd : list string) : ProjectSpec :=
  {| ps_snapshot_hash := "h"; ps_local_project_dir := Some "/tmp/p"; ps_work_dir := "/w";
     ps_build_cmd := ["make"]; ps_run_cmd := run_cmd; ps_timeout_ms := 1000;
     ps_resource_limits := ResourceLimits_default |}.
Definition job (run_cmd : list string) : Job := mkJob (spec run_cmd) (secs 100).
Definition config (mode : VmMode) : WorkerConfig := mkWorkerConfig mode 2 None.
Definition start : Worker Host unit := worker_start (mkHost 0 0).
Definition done_in (ms : N) : result CoreError ExecutionResult := Ok (mkExecutionResult 0 [] [] ms 0 None).
End DemoSandbox.
Import (hints) DemoSandbox.

(** In fresh mode a job is answered only after the replacement of its machine has
    booted. *)
Lemma reply_waits_for_refill :
  trace (worker (DemoSandbox.config Fresh) [DemoSandbox.job ["./app"]] DemoSandbox.start).2 =
  [Booted 0%N; Ran 0%N (DemoSandbox.done_in 4000); ShutDown 0%N; Booted 1%N;
   Replied (DemoSandbox.done_in 4000)].
Proof. vm_compute. reflexivity. Qed.

Lemma machines_isolate_tasks_witness :
  let w := (worker (DemoSandbox.config Reuse) [DemoSandbox.job ["./app"]; DemoSandbox.job ["./app"]]
              DemoSandbox.start).2 in
  runs (trace w) = [(0%N, true); (0%N, true)] ∧ wc_mode (DemoSandbox.config Reuse) = Reuse.
Proof.
  split; [vm_compute; reflexivity|].
  refine (proj1 (machines_isolate_tasks (DemoSandbox.config Reuse) (DemoSandbox.mkHost 0 0)
    [DemoSandbox.job ["./app"]; DemoSandbox.job ["./app"]] 0 1 0%N true true _ _ _)).
  - lia.
  - vm_compute. reflexivity.
  - vm_compute. reflexivity.
Defined.

