(* ===== verification/SandboxRun.v ===== *)
(** * Running a project in the sandbox (crates/sandbox/src/qlean.rs, [QleanSandbox])

    The caller's side of the worker thread: a job is sent to it and its reply is
    awaited.  The thread is [None] once it has died. *)

From S2P Require Import Prelude CoreTypes Interfaces Sandbox.

(** ** Creating a sandbox

    The handle stands for the channel to the worker thread, which was spawned with
    this configuration; [thread] is the outcome of spawning it. *)

Record QleanSandbox := mkQleanSandbox { qs_worker : WorkerConfig }.

Definition with_worker_config (thread : result string unit) (config : WorkerConfig) : result CoreError QleanSandbox :=
  match thread with
  | Ok _ => Ok (mkQleanSandbox config)
  | Err e => Err (Internal (fmt ["spawn qlean worker: "; e]))
  end.
Definition with_template thread (mode : VmMode) (pool_size : N) (template : option ImageTemplate) :
    result CoreError QleanSandbox :=
  with_worker_config thread (mkWorkerConfig mode pool_size template).
Definition with_policy thread (mode : VmMode) (pool_size : N) : result CoreError QleanSandbox :=
  with_worker_config thread (mkWorkerConfig mode pool_size None).
Definition with_mode thread (mode : VmMode) : result CoreError QleanSandbox := with_policy thread mode 0.
Definition sandbox_new thread : result CoreError QleanSandbox := with_mode thread Reuse.

(** Without a policy of its own, a sandbox keeps one machine and boots none ahead. *)
Lemma default_sandbox_boots_nothing thread s : sandbox_new thread = Ok s →
  after_job (plan_new (allows_reuse (wc_mode (qs_worker s))) (wc_pool_size (qs_worker s))) = [Keep].
Proof. unfold sandbox_new, with_mode, with_policy, with_worker_config. by destruct thread; intros [= <-]. Qed.

Section run_project.
Context {H I : Type} `{QleanHost H I}.
Context (cfg : WorkerConfig).

Definition reply_of (e : WorkerEvent) : option (result CoreError ExecutionResult) :=
  match e with Replied r => Some r | _ => None end.

Definition worker_gone : CoreError := Internal "qlean worker gone".
Definition reply_dropped : CoreError :=
  Internal "qlean worker dropped the reply (worker thread died; see node logs)".

(** [QleanSandbox::run_project], for a caller that finds the worker idle. *)
Definition run_project (spec : ProjectSpec) : M (option (Worker H I)) CoreError ExecutionResult := λ s,
  match s with
  | None => (Done (Err worker_gone), None)
  | Some w =>
      let deadline := deadline_of spec (now (host w)) in
      match worker_job cfg (mkJob spec deadline) w with
      | (Panic _, _) => (Done (Err reply_dropped), None)
      | (Done _, w') => (Done (default (Err reply_dropped) (last (omap reply_of (trace w')))), Some w')
      end
  end.

(** The projects a caller runs one after the other. *)
Definition run_projects (specs : list ProjectSpec) (s : option (Worker H I)) : option (Worker H I) :=
  foldl (λ s spec, (run_project spec s).2) s specs.

(** ** Lemmas *)

Lemma run_job_inv job (w : Worker H I) r w' : run_job cfg job w = (Done (Ok (Ok r)), w') →
  ∃ m w1 w2, execute_on_vm m (job_spec job) (job_deadline job) w1 = (Done (Ok r), w2).
Proof.
  intros (p & w1 & _ & (o & w2 & Ho & Hr)%bind_ok_inv)%bind_ok_inv.
  assert (o = Ok r) as -> by (destruct o; unfold ret in Hr; simpl in Hr; by simplify_eq). clear Hr.
  destruct p as [u|e]; [|unfold ret in Ho; by simplify_eq].
  destruct (machine w1) as [m|]; [|done]. apply bind_ok_inv in Ho as (r' & w3 & Hx & Hret).
  injection Hret as -> _. unfold attempt in Hx.
  destruct (execute_on_vm m (job_spec job) (job_deadline job) w1) as [[x|why] w4] eqn:He; [|done].
  injection Hx as -> _. eauto.
Qed.

Lemma worker_job_inv job (w : Worker H I) u w' : worker_job cfg job w = (Done (Ok u), w') →
  ∃ outcome w1, run_job cfg job w = (Done (Ok outcome), w1) ∧
    last (omap reply_of (trace w')) = Some outcome.
Proof.
  intros (outcome & w1 & Hrun & (? & w2 & _ & Hret)%bind_ok_inv)%bind_ok_inv. injection Hret as _ <-.
  exists outcome, w1. split; [done|]. cbn [trace emit]. rewrite omap_app. apply last_snoc.
Qed.
End run_project.

Section properties.
Context {H I : Type} `{QleanHostLaws H I}.
Context (cfg : WorkerConfig).

Lemma run_project_ok spec w : worker_ok cfg w →
  ∃ r w' w1, run_project cfg spec (Some w) = (Done r, Some w') ∧ worker_ok cfg w' ∧
    run_job cfg (mkJob spec (deadline_of spec (now (host w)))) w = (Done (Ok r), w1).
Proof.
  intros Hok. destruct (worker_job_ok cfg (mkJob spec (deadline_of spec (now (host w)))) w Hok)
    as (w' & seg & Hj & Hok' & _). destruct (worker_job_inv _ _ _ _ _ Hj) as (outcome & w1 & Hr & Hlast).
  exists outcome, w', w1. split_and!; try done. unfold run_project. by rewrite Hj, Hlast.
Qed.

Lemma run_projects_ok specs w : worker_ok cfg w →
  ∃ w', run_projects cfg specs (Some w) = Some w' ∧ worker_ok cfg w'.
Proof.
  revert w. induction specs as [|spec specs IH]; intros w Hok; [by exists w|]. unfold run_projects in *. cbn [foldl].
  destruct (run_project_ok spec w Hok) as (r & w' & w1 & -> & Hok' & _). by apply IH.
Qed.

End properties.

Import (hints) DemoSandbox.

(** ** A concrete run *)

