(* ===== verification/Ipc.v ===== *)
(** * The JSON-RPC server (crates/node/src/ipc)

    The method dispatch of handler.rs, over the project client, and the handling of
    one connection of server.rs. *)

From S2P Require Import Prelude CoreTypes Interfaces Json Text Channels StateMachine BlobStore.
From S2P Require Import Swarm RaftNet Project.

(** ** Wire types *)

Record JsonRpcRequest := mkJsonRpcRequest {
  rq_jsonrpc : string;
  rq_method : string;
  rq_params : JsonValue;
  rq_id : JsonValue;
}.
Record JsonRpcErrorPayload := mkJsonRpcErrorPayload { err_code : Z; err_message : string }.
Record JsonRpcResponse := mkJsonRpcResponse {
  rs_jsonrpc : string;
  rs_result : option JsonValue;
  rs_error : option JsonRpcErrorPayload;
  rs_id : JsonValue;
}.

(** [serde_json::from_value] of the derived parameter types. *)
Class FromValue (A : Type) := { from_value : JsonValue → result string A }.

Definition default_timeout : N := 30000.
Definition default_project_work_dir : string := "/root/project".

(** The derived deserialiser fills in the defaults above. *)
Record SubmitProjectParams := mkSubmitProjectParams {
  sp_project_dir : string;
  sp_work_dir : string;
  sp_build_cmd : list string;
  sp_run_cmd : list string;
  sp_timeout_ms : N;
  sp_target_node : option string;
}.
Record FetchProjectParams := mkFetchProjectParams { fp_task_id : string }.

(** A derived struct is read from the object of its fields. *)
Class FetchProjectParamsLaws `{FromValue FetchProjectParams} := {
  from_value_fetch s : from_value (json_object [("task_id", JString s)]) = Ok (mkFetchProjectParams s);
}.

(** ** The handler *)

Record JsonRpcHandler (W T : Type) := mkJsonRpcHandler {
  raft_proposal_tx : Sender Proposal;
  tasks_completed : N;
  project_client : option (ProjectClient W T);
}.
Arguments mkJsonRpcHandler {W T} _ _ _.
Arguments raft_proposal_tx {W T} _.
Arguments tasks_completed {W T} _.
Arguments project_client {W T} _.

Section ipc.
Context {W T : Type} `{BlobStore W, Tar T, UuidText, HashOrder, FromValue SubmitProjectParams,
  FromValue FetchProjectParams, Base64}.
Context (seed : N).

Definition handler_new (tx : Sender Proposal) (client : option (ProjectClient W T)) : JsonRpcHandler W T :=
  mkJsonRpcHandler tx 0 client.

Definition json_rpc_error (code : Z) (message : string) : JsonRpcErrorPayload :=
  mkJsonRpcErrorPayload code message.

(** Calls on the client the handler holds. *)
Definition with_client {E A} (c : ProjectClient W T) (m : M (ProjectClient W T) E A) :
    M (JsonRpcHandler W T) E A := λ s,
  let '(o, c) := m c in (o, mkJsonRpcHandler (raft_proposal_tx s) (tasks_completed s) (Some c)).

Definition get_cluster_topology : M (JsonRpcHandler W T) JsonRpcErrorPayload JsonValue := λ s,
  (Done (Ok (json_object [("nodes", json_array []); ("role_assignments", json_object []);
     ("tasks_pending", JNumber 0); ("tasks_completed", JNumber (tasks_completed s))])), s).

Definition invalid_params (e : string) : JsonRpcErrorPayload :=
  json_rpc_error (-32602) (fmt ["Invalid params: "; e]).

(** [now] is the clock, [task_id] the uuid a submission draws. *)
Definition submit_project (now : N) (task_id : TaskId) (params : JsonValue) :
    M (JsonRpcHandler W T) JsonRpcErrorPayload JsonValue := λ s,
  (let! p := lift_result (result_map_err invalid_params (from_value params)) in
   let! client := lift_result (ok_or
     (json_rpc_error (-32010) "node has no cluster state; cannot submit projects") (project_client s)) in
   let! target := lift_result (A := option NodeId)
     (match sp_target_node p with
      | Some t => result_map_err (λ e, json_rpc_error (-32602) (fmt ["invalid target_node: "; e]))
                    (match uuid_parse t with Ok u => Ok (Some u) | Err e => Err e end)
      | None => Ok None
      end) in
   let! id := map_err (λ e, json_rpc_error (-32011) (fmt ["submit project failed: "; CoreError_to_string e]))
     (with_client client (submit_local_project seed task_id now (sp_project_dir p) (sp_work_dir p)
        (sp_build_cmd p) (sp_run_cmd p) (sp_timeout_ms p) target)) in
   ret (json_object [("task_id", JString (uuid_to_string id))])) s.

Definition completed (r : ProjectResult) : JsonValue :=
  json_object [("status", JString "completed"); ("exit_code", json_int (pr_exit_code r));
    ("stdout", JString (base64_encode (pr_stdout r))); ("stderr", JString (base64_encode (pr_stderr r)));
    ("execution_time_ms", JNumber (pr_execution_time_ms r));
    ("executed_on", JString (uuid_to_string (pr_executed_on r)))].
Definition pending : JsonValue := json_object [("status", JString "pending")].
Definition failed (msg : string) : JsonValue :=
  json_object [("status", JString "failed"); ("error", JString msg)].

Definition fetch_project_result (now : N) (params : JsonValue) :
    M (JsonRpcHandler W T) JsonRpcErrorPayload JsonValue := λ s,
  (let! p := lift_result (result_map_err invalid_params (from_value params)) in
   let! client := lift_result (ok_or (json_rpc_error (-32010) "node has no cluster state") (project_client s)) in
   let! task_id := lift_result (result_map_err
     (λ e, json_rpc_error (-32602) (fmt ["invalid task_id: "; e])) (uuid_parse (fp_task_id p))) in
   match task_status task_id now client with
   | Failed msg => ret (failed msg)
   | TaskDone | Dispatched =>
       match get_result task_id client with
       | Some r => ret (completed r)
       | None => ret pending
       end
   end) s.

Definition dispatch (now : N) (task_id : TaskId) (request : JsonRpcRequest) :
    M (JsonRpcHandler W T) JsonRpcErrorPayload JsonValue :=
  if decide (rq_method request = "get_cluster_topology") then get_cluster_topology
  else if decide (rq_method request = "submit_project") then submit_project now task_id (rq_params request)
  else if decide (rq_method request = "fetch_project_result") then fetch_project_result now (rq_params request)
  else raise (json_rpc_error (-32601) (fmt ["Method not found: "; rq_method request])).

Definition handle (now : N) (task_id : TaskId) (request : JsonRpcRequest) :
    M (JsonRpcHandler W T) CoreError JsonRpcResponse :=
  let! r := attempt (dispatch now task_id request) in
  ret (match r with
       | Ok value => mkJsonRpcResponse "2.0" (Some value) None (rq_id request)
       | Err error => mkJsonRpcResponse "2.0" None (Some error) (rq_id request)
       end).

(** ** The server *)

(** [read] is the outcome of reading a line (empty at the end of the stream); what
    is written goes to a channel, whose failures are the writer's. *)
Definition handle_connection `{SerdeJson JsonRpcRequest, SerdeJson JsonRpcResponse} (now : N)
    (task_id : TaskId) (read : result string string) (shutdown : result string unit) :
    M (JsonRpcHandler W T * Sender bytes) CoreError unit :=
  let! line := lift_result (result_map_err (λ e, Network (fmt ["IPC read error: "; e])) read) in
  match line with
  | EmptyString => ret tt
  | _ =>
      let! request := lift_result (result_map_err
        (λ e, Serialization (fmt ["invalid JSON-RPC request: "; e])) (from_slice (as_bytes (trim line)))) in
      let! response := λ s, let '(o, h) := handle now task_id request s.1 in (o, (h, s.2)) in
      let! response_json := lift_result (result_map_err
        (λ e, Serialization (fmt ["failed to serialize response: "; e])) (to_vec response)) in
      let! _ := λ s, let '(o, w) := map_err (λ e, Network (fmt ["IPC write error: "; e]))
                       (chan_send (response_json ++ [x0a])) s.2 in (o, (s.1, w)) in
      lift_result (result_map_err (λ e, Network (fmt ["IPC shutdown error: "; e])) shutdown)
  end.
End ipc.

(** ** Lemmas *)

Section lemmas.
Context {W T : Type} `{BlobStoreLaws W, TarLaws T, UuidTextLaws, HashOrder,
  FromValue SubmitProjectParams, FetchProjectParamsLaws, Base64}.
Context (seed : N).

Definition fetch_request (task_id : TaskId) (id : JsonValue) : JsonRpcRequest :=
  mkJsonRpcRequest "2.0" "fetch_project_result"
    (json_object [("task_id", JString (uuid_to_string task_id))]) id.

(** What a fetch by task id answers. *)
Definition answer (task_id : TaskId) (now : N) (c : ProjectClient W T) : JsonValue :=
  match task_status task_id now c, get_result task_id c with
  | Failed msg, _ => failed msg
  | _, Some r => completed r
  | _, None => pending
  end.

Lemma handle_fetch now tid task_id id (s : JsonRpcHandler W T) c :
  project_client s = Some c →
  handle seed now tid (fetch_request task_id id) s =
  (Done (Ok (mkJsonRpcResponse "2.0" (Some (answer task_id now c)) None id)), s).
Proof.
  intros Hc. unfold handle, dispatch, fetch_request. cbn [rq_method rq_params rq_id].
  rewrite decide_False, decide_False, decide_True by done.
  unfold bind, attempt, fetch_project_result, bind, lift_result.
  rewrite from_value_fetch. cbn [result_map_err fp_task_id]. rewrite Hc. cbn [ok_or].
  rewrite uuid_parse_to_string. cbn [result_map_err]. unfold answer.
  by destruct (task_status task_id now c), (get_result task_id c).
Qed.

Lemma fetch_no_panic now params : no_panic (fetch_project_result (W := W) (T := T) now params).
Proof.
  intros s why. unfold fetch_project_result, bind, lift_result.
  destruct (from_value params) as [p|]; [|done]. simpl. destruct (project_client s) as [c|]; [|done]. simpl.
  destruct (uuid_parse (fp_task_id p)) as [t|]; [|done]. simpl.
  by destruct (task_status t now c), (get_result t c).
Qed.

(** What a submission that goes through does. *)
Lemma handle_submit now task_id request p (target : option NodeId) t b d peer (s : JsonRpcHandler W T) c :
  rq_method request = "submit_project" → from_value (rq_params request) = Ok p →
  match sp_target_node p with
  | Some text => ∃ u, uuid_parse text = Ok u ∧ target = Some u
  | None => target = None
  end →
  project_client s = Some c → results c !! task_id = None →
  dirs (store c) !! sp_project_dir p = Some t → append_dir_all (Some t) = Ok b → into_inner b = Ok d →
  bs_healthy (cas (store c)) → bs_adm d → resolve_peer seed target c = Ok peer →
  chan_ready (swarm_commands c) = true →
  ∃ s' c' h, handle seed now task_id request s = (Done (Ok (mkJsonRpcResponse "2.0"
      (Some (json_object [("task_id", JString (uuid_to_string task_id))])) None (rq_id request))), s') ∧
    project_client s' = Some (submit_track task_id now c') ∧ results c' !! task_id = None ∧
    sent (swarm_commands c') = sent (swarm_commands c) ++ [SendProjectTask peer (task_of task_id (from_hash h)
      (sp_work_dir p) (sp_build_cmd p) (sp_run_cmd p) (sp_timeout_ms p) target)] ∧
    bs_holds (cas (store c')) h d ∧ bs_healthy (cas (store c')).
Proof.
  intros Hm Hp Ht Hc Hres Hdir Ha Hi Hs Hadm Hpeer Htx.
  destruct (submit_ok seed task_id now (sp_project_dir p) (sp_work_dir p) (sp_build_cmd p) (sp_run_cmd p)
    (sp_timeout_ms p) target t b d peer c) as (c0 & h & Hsub & Hsent & Hh & Hw); [done..|].
  exists (mkJsonRpcHandler (raft_proposal_tx s) (tasks_completed s) (Some (submit_track task_id now c0))), c0, h.
  split; [|split; [reflexivity|split; [|by split_and!]]].
  - unfold handle, dispatch. rewrite Hm, decide_False, decide_True by done.
    unfold bind at 1, attempt, submit_project, bind at 1, lift_result at 1. rewrite Hp. cbn [result_map_err].
    unfold bind at 1, lift_result at 1. rewrite Hc. cbn [ok_or].
    unfold bind at 1, lift_result at 1.
    destruct (sp_target_node p) as [text|]; [destruct Ht as (u & Hu & ->); rewrite Hu|subst target];
      cbn [result_map_err]; unfold bind, map_err, with_client; by rewrite Hsub.
  - pose proof (submit_results seed task_id now (sp_project_dir p) (sp_work_dir p) (sp_build_cmd p)
      (sp_run_cmd p) (sp_timeout_ms p) target c) as Hr. rewrite Hsub in Hr. simpl in Hr. by rewrite Hr.
Qed.

Definition known_methods : list string := ["get_cluster_topology"; "submit_project"; "fetch_project_result"].

(** ** Properties *)

(** Every request is answered as JSON-RPC asks.  Handling a request ends with a
    response under the request's id that holds either a result or an error, never
    both; an unknown method gets error -32601 and changes nothing; only a submission
    can panic, and only inside the object store. *)
Theorem handle_answers now task_id request (s : JsonRpcHandler W T) :
  match handle seed now task_id request s with
  | (Done (Ok r), s') => rs_id r = rq_id request ∧ rs_jsonrpc r = "2.0" ∧
      (is_Some (rs_result r) ↔ rs_error r = None) ∧
      (rq_method request ∉ known_methods → s' = s ∧ rs_error r =
        Some (json_rpc_error (-32601) (fmt ["Method not found: "; rq_method request])))
  | (Done (Err _), _) => False
  | (Panic why, _) => rq_method request = "submit_project"
  end.
Proof.
  unfold handle, bind, attempt. destruct (dispatch seed now task_id request s) as [[r|why] s'] eqn:Hd.
  - assert (rq_method request ∉ known_methods → s' = s ∧ r =
      Err (json_rpc_error (-32601) (fmt ["Method not found: "; rq_method request]))) as Hu.
    { unfold known_methods. rewrite !not_elem_of_cons. intros (? & ? & ? & _). unfold dispatch in Hd.
      rewrite !decide_False in Hd by done. unfold raise in Hd. by simplify_eq. }
    destruct r as [v|e]; simpl; (split; [done|]); (split; [done|]); split.
    + split; [done|by eexists].
    + intros Hm. by destruct (Hu Hm).
    + split; [by intros []|done].
    + intros Hm. destruct (Hu Hm) as [? [= ->]]. done.
  - simpl. unfold dispatch in Hd. destruct (decide (rq_method request = "get_cluster_topology")); [done|].
    destruct (decide (rq_method request = "submit_project")); [done|].
    destruct (decide (rq_method request = "fetch_project_result")); [|done].
    exfalso. apply (fetch_no_panic now (rq_params request) s why). by rewrite Hd.
Qed.

(** C35: the life of a project over JSON-RPC.  When a directory can be packed on a
    healthy store, a peer resolves and the command channel accepts, a submission
    returns a task id; fetching it answers pending until the grace period is over
    and failed from then on, as long as no result is recorded; once one is, it
    answers completed with exactly that result. *)
Theorem project_lifecycle now task_id request p t b d peer (s : JsonRpcHandler W T) c :
  rq_method request = "submit_project" → from_value (rq_params request) = Ok p →
  sp_target_node p = None → project_client s = Some c → results c !! task_id = None →
  dirs (store c) !! sp_project_dir p = Some t → append_dir_all (Some t) = Ok b → into_inner b = Ok d →
  bs_healthy (cas (store c)) → bs_adm d → resolve_peer seed None c = Ok peer →
  chan_ready (swarm_commands c) = true →
  ∃ s' c', handle seed now task_id request s = (Done (Ok (mkJsonRpcResponse "2.0"
      (Some (json_object [("task_id", JString (uuid_to_string task_id))])) None (rq_id request))), s') ∧
    project_client s' = Some c' ∧
    (∀ now' tid id, handle seed now' tid (fetch_request task_id id) s' =
      (Done (Ok (mkJsonRpcResponse "2.0"
        (Some (if (RESULT_GRACE <? now' - now)%N then failed grace_msg else pending)) None id)), s')) ∧
    ∀ r now1 now2 tid id s2, pr_task_id r = task_id → project_client s2 = Some (record_result now1 r c') →
      handle seed now2 tid (fetch_request task_id id) s2 =
      (Done (Ok (mkJsonRpcResponse "2.0" (Some (completed r)) None id)), s2).
Proof.
  intros Hm Hp Ht Hc Hres Hdir Ha Hi Hs Hadm Hpeer Htx.
  destruct (handle_submit now task_id request p None t b d peer s c) as (s' & c0 & h & Hh & Hc' & Hr & _); try done.
  { by rewrite Ht. }
  set (c' := submit_track task_id now c0) in *. exists s', c'. split; [done|]. split; [done|]. split.
  - intros now' tid id. rewrite (handle_fetch _ _ _ _ _ _ Hc'). unfold answer, get_result.
    unfold c'. rewrite task_status_track. change (results (submit_track task_id now c0)) with (results c0).
    rewrite Hr. by destruct (_ <? _)%N.
  - intros r now1 now2 tid id s2 <- Hs2. rewrite (handle_fetch _ _ _ _ _ _ Hs2). unfold answer.
    destruct (task_status_record now1 now2 r c') as [-> ->]. done.
Qed.
End lemmas.

(** ** Concrete runs *)

Module DemoIpc.
#[export] Existing Instance MemStore.mem_store.
#[export] Existing Instance MemStore.mem_store_laws.
#[export] Existing Instance Toy.hash_order.
#[export] Existing Instance Toy.uuid_text.
#[export] Existing Instance Toy.uuid_text_laws.
#[export] Existing Instance DemoProject.tar.
#[export] Existing Instance DemoProject.tar_laws.

Definition text (v : JsonValue) : result string string := ok_or "missing field" (as_str v).
#[export] Instance submit_params : FromValue SubmitProjectParams := {|
  from_value v := let? dir := text (json_member "project_dir" v) in
    Ok (mkSubmitProjectParams dir default_project_work_dir [] [] default_timeout None) |}.
#[export] Instance fetch_params : FromValue FetchProjectParams := {|
  from_value v := let? id := text (json_member "task_id" v) in Ok (mkFetchProjectParams id) |}.
#[export] Instance fetch_params_laws : FetchProjectParamsLaws.
Proof. by split. Qed.
#[export] Instance base64 : Base64 := {|
  base64_encode := String.string_of_list_byte; base64_decode b := Ok b |}.

Definition request : JsonRpcRequest :=
  mkJsonRpcRequest "2.0" "submit_project" (json_object [("project_dir", JString "/src")]) (JNumber 1).
Definition handler : JsonRpcHandler (gmap Hash bytes) bytes :=
  handler_new (mkSender [] []) (Some DemoProject.client).
End DemoIpc.
Import (hints) DemoIpc.

Lemma project_lifecycle_witness :
  ∃ s' c', handle 0 0 11%N DemoIpc.request DemoIpc.handler = (Done (Ok (mkJsonRpcResponse "2.0"
      (Some (json_object [("task_id", JString (uuid_to_string 11%N))])) None (JNumber 1))), s') ∧
    project_client s' = Some c'.
Proof.
  destruct (project_lifecycle (T := bytes) (H1 := DemoProject.tar) 0 0 11%N DemoIpc.request
    (mkSubmitProjectParams "/src" default_project_work_dir [] [] default_timeout None)
    [x61] [x61] DemoProject.archive 22%N DemoIpc.handler DemoProject.client) as (s' & c' & Hs & Hc & _).
  - reflexivity.
  - reflexivity.
  - reflexivity.
  - reflexivity.
  - reflexivity.
  - reflexivity.
  - reflexivity.
  - reflexivity.
  - intros h d Hd. discriminate Hd.
  - exact I.
  - vm_compute. reflexivity.
  - reflexivity.
  - exists s', c'. exact (conj Hs Hc).
Defined.
Lemma handle_answers_witness :
  match handle 0 0 11%N (mkJsonRpcRequest "2.0" "ping" JNull (JNumber 2)) DemoIpc.handler with
  | (Done (Ok r), s') => rs_id r = JNumber 2
  | _ => False
  end.
Proof.
  pose proof (handle_answers 0 0 11%N (mkJsonRpcRequest "2.0" "ping" JNull (JNumber 2)) DemoIpc.handler) as Ha.
  destruct (handle 0 0 11%N (mkJsonRpcRequest "2.0" "ping" JNull (JNumber 2)) DemoIpc.handler)
    as [[[r|e]|why] s'].
  - exact (proj1 Ha).
  - exact Ha.
  - discriminate Ha.
Defined.
