(* ===== verification/IpcServer.v ===== *)
(** * The IPC server (crates/node/src/ipc/server.rs)

    Taking possession of the socket, and the accept loop around the connections of
    [Ipc].  A connection is served from its request to its reply before the next one
    is looked at. *)

From S2P Require Import Prelude CoreTypes Interfaces Text Json FileSys Channels BlobStore StateMachine.
From S2P Require Import Swarm RaftNet Project Ipc.

(** [run] up to the loop. *)
Definition ipc_listen (socket_path : string) : M World CoreError unit :=
  let! _ := match parent socket_path with
            | Some parent => map_err (λ e, Configuration (fmt ["cannot create socket directory "; parent; ": "; e]))
                               (create_dir_all parent)
            | None => ret tt
            end in
  let! _ := λ w, if path_exists socket_path w
                 then map_err (λ e, Configuration (fmt ["cannot remove stale socket "; socket_path; ": "; e]))
                        (remove_file socket_path) w
                 else ret tt w in
  map_err (λ e, Network (fmt ["cannot bind to "; socket_path; ": "; e])) (unix_bind socket_path).

(** An accepted connection: when it is served and the uuid it may draw, what reading
    its line gives, the outcomes of its writes, and that of the shutdown. *)
Record Connection := mkConnection {
  cn_now : N;
  cn_task_id : TaskId;
  cn_read : result string string;
  cn_writes : list (option string);
  cn_shutdown : result string unit;
}.

(** The arms of the accept loop. *)
Inductive ServerEvent :=
| Accepted (c : Connection)
| AcceptFailed (e : string)
| ShutdownSignalled.

Section server.
Context {W T : Type} `{BlobStore W, Tar T, UuidText, HashOrder, FromValue SubmitProjectParams,
  FromValue FetchProjectParams, Base64, SerdeJson JsonRpcRequest, SerdeJson JsonRpcResponse}.
Context (seed : N).
Local Abbreviation Handler := (JsonRpcHandler W T).

(** The spawned task of a connection: its error is logged; what it wrote. *)
Definition serve_connection (c : Connection) (h : Handler) : list bytes * Handler :=
  let '(_, (h, out)) := handle_connection seed (cn_now c) (cn_task_id c) (cn_read c) (cn_shutdown c)
                          (h, mkSender [] (cn_writes c)) in
  (sent out, h).

Fixpoint accept_loop (es : list ServerEvent) (h : Handler) : list (list bytes) * Handler :=
  match es with
  | [] => ([], h)
  | Accepted c :: es =>
      let '(out, h) := serve_connection c h in
      let '(outs, h) := accept_loop es h in (out :: outs, h)
  | AcceptFailed _ :: es => accept_loop es h
  | ShutdownSignalled :: _ => ([], h)
  end.

(** [run]: the socket is removed when the loop is told to stop. *)
Definition ipc_run (socket_path : string) (es : list ServerEvent) (h : Handler) :
    M World CoreError (list (list bytes) * Handler) :=
  let! _ := ipc_listen socket_path in
  let! _ := if existsb (λ e, match e with ShutdownSignalled => true | _ => false end) es
            then ignore_err (remove_file socket_path) else ret tt in
  ret (accept_loop es h).

(** ** Lemmas *)

(** A request other than a submission is always answered. *)
Lemma handle_total now tid request (h : Handler) : rq_method request ≠ "submit_project" →
  ∃ r, handle seed now tid request h = (Done (Ok r), (handle seed now tid request h).2) ∧ rs_id r = rq_id request.
Proof.
  intros Hm. unfold handle, bind, attempt.
  destruct (dispatch seed now tid request h) as [[r|why] h'] eqn:Hd.
  - destruct r; eexists; by split.
  - exfalso. unfold dispatch in Hd. destruct (decide _); [done|]. rewrite decide_False in Hd by done.
    destruct (decide _); [|done]. apply (fetch_no_panic now (rq_params request) h why). by rewrite Hd.
Qed.

(** The connections accepted before the shutdown. *)
Fixpoint accepted (es : list ServerEvent) : list Connection :=
  match es with
  | Accepted c :: es => c :: accepted es
  | AcceptFailed _ :: es => accepted es
  | ShutdownSignalled :: _ | [] => []
  end.

Lemma accept_loop_lookup es h i c : accepted es !! i = Some c →
  ∃ h', (accept_loop es h).1 !! i = Some (serve_connection c h').1.
Proof.
  revert h i. induction es as [|[c'|e|] es IH]; intros h i Hc; [done| |by apply IH|done].
  simpl in *. destruct (serve_connection c' h) as [out h1] eqn:Hs.
  pose proof (IH h1) as IH1. destruct (accept_loop es h1) as [outs h2]. destruct i as [|i]; simpl in *.
  - exists h. injection Hc as ->. by rewrite Hs.
  - by apply IH1.
Qed.
Lemma accept_loop_length es h : length (accept_loop es h).1 = length (accepted es).
Proof.
  revert h. induction es as [|[c'|e|] es IH]; intros h; simpl; [done| |done|done].
  destruct (serve_connection c' h) as [out h1]. specialize (IH h1). destruct (accept_loop es h1). simpl in *. lia.
Qed.

Lemma serve_answers c h line request : cn_read c = Ok line → line ≠ "" →
  from_slice (as_bytes (trim line)) = Ok request → rq_method request ≠ "submit_project" →
  (∀ r : JsonRpcResponse, ∃ b, to_vec r = Ok b) → cn_writes c = [] →
  ∃ r b, to_vec r = Ok b ∧ rs_id r = rq_id request ∧ (serve_connection c h).1 = [b ++ [x0a]].
Proof.
  intros Hr Hl Hq Hm Hser Hw. destruct (handle_total (cn_now c) (cn_task_id c) request h Hm) as (r & Hh & Hid).
  destruct (Hser r) as [b Hb]. exists r, b. split; [done|]. split; [done|].
  unfold serve_connection, handle_connection, bind, lift_result. rewrite Hr. cbn [result_map_err].
  destruct line as [|a s]; [done|]. rewrite Hq. cbn [result_map_err fst snd]. rewrite Hh, Hb.
  cbn [result_map_err]. rewrite Hw. simpl. by destruct (cn_shutdown c).
Qed.

(** Taking the socket on a disk that does not fail. *)
Lemma stale_socket_removed s w E' (f : string → E') :
  faults w = [] → fs_lookup w (resolve s) ≠ Some Dir →
  ∃ w', (if path_exists s w then map_err f (remove_file s) w else ret tt w) = (Done (Ok tt), w') ∧
    faults w' = [] ∧ fs_lookup w' (resolve s) = None ∧ ∀ p, p ≠ resolve s → fs_lookup w' p = fs_lookup w p.
Proof.
  intros Hf Hd. unfold path_exists. destruct (fs_lookup w (resolve s)) as [[d|]|] eqn:Hs; [|done|].
  - destruct (remove_file_ok s w d Hf Hs) as [Hrm Hgone]. exists (set_files (delete (resolve s)) w).
    rewrite bool_decide_eq_true_2 by done. split_and!; [by apply map_err_ok|done|done|].
    intros p Hp. by apply fs_lookup_delete_ne.
  - exists w. rewrite bool_decide_eq_false_2 by (intros [? ?]; done). by split_and!.
Qed.

(** A disk that does not fail, on which nothing in the path of the socket's directory
    is a file and the socket's path is not a directory. *)
Definition socket_ready (q c : string) (w : World) : Prop :=
  faults w = [] ∧ (∀ p d, p `prefix_of` resolve q → fs_lookup w p ≠ Some (File d)) ∧
  fs_lookup w (resolve (join q c)) ≠ Some Dir.

(** No new file but the socket. *)
Lemma socket_ready_mono q c w w' : plain c → socket_ready q c w → faults w' = [] →
  (∀ p d, fs_lookup w' p = Some (File d) → p = resolve (join q c) ∨ fs_lookup w p = Some (File d)) →
  fs_lookup w' (resolve (join q c)) ≠ Some Dir → socket_ready q c w'.
Proof.
  intros Hc (Hf & Hfiles & Hd) Hf' Hnew Hd'. split; [done|]. split; [|done].
  intros p d Hp Hl. apply Hnew in Hl as [->|Hl]; [|by apply (Hfiles p d)].
  rewrite resolve_join in Hp by done. destruct Hp as [k Hk]. apply (f_equal length) in Hk.
  rewrite !length_app in Hk. simpl in Hk. lia.
Qed.

Lemma socket_removed q c w d : plain c → socket_ready q c w → fs_lookup w (resolve (join q c)) = Some (File d) →
  ∃ w', remove_file (join q c) w = (Done (Ok tt), w') ∧ fs_lookup w' (resolve (join q c)) = None ∧ socket_ready q c w'.
Proof.
  intros Hc Hw Hs. destruct (remove_file_ok (join q c) w d (proj1 Hw) Hs) as [Hrm Hgone].
  eexists. split; [exact Hrm|]. split; [done|].
  apply (socket_ready_mono q c w); [done|done|by destruct Hw| |by rewrite Hgone].
  intros p d' Hp. right. destruct (decide (p = resolve (join q c))) as [->|Hne]; [congruence|].
  by rewrite fs_lookup_delete_ne in Hp.
Qed.

Lemma ipc_listen_ok q c w :
  plain (last_comp q) → plain c → socket_ready q c w →
  ∃ w', ipc_listen (join q c) w = (Done (Ok tt), w') ∧ socket_ready q c w' ∧
    fs_lookup w' (resolve (join q c)) = Some (File []).
Proof.
  intros Hq0 Hc Hready. pose proof Hready as (Hf & Hfiles & Hdir). pose proof (resolve_join q c Hc) as Hres.
  destruct (create_dir_all_ok q w [] (or_introl (conj Hf eq_refl)) Hfiles) as (w1 & Hmk & Hf1 & Hadd & Hq).
  set (s := join q c) in *.
  assert (fs_lookup w1 (resolve s) = fs_lookup w (resolve s)) as Heq.
  { apply (create_dir_all_frame q w _ w1 _ Hmk). rewrite Hres. intros [k Hk].
    apply (f_equal length) in Hk. rewrite !length_app in Hk. simpl in Hk. lia. }
  destruct (stale_socket_removed s w1 CoreError (λ e, Configuration (fmt ["cannot remove stale socket "; s; ": "; e])))
    as (w2 & Hrm & Hf2 & Hn & Hothers); [done|by rewrite Heq|].
  assert (fs_lookup w2 (removelast (resolve s)) = Some Dir) as Hq2.
  { rewrite Hres, removelast_last, Hothers; [done|]. rewrite Hres. intros Hk.
    apply (f_equal length) in Hk. rewrite length_app in Hk. simpl in Hk. lia. }
  destruct (unix_bind_ok s w2 Hf2 Hn Hq2) as [Hb Hs]. eexists. split; [|split; [|exact Hs]].
  2:{ apply (socket_ready_mono q c w); [done|done|done| |change (join q c) with s; by rewrite Hs]. intros p d Hp.
      destruct (decide (p = resolve s)) as [->|Hne]; [by left|]. right.
      rewrite fs_lookup_insert_ne, Hothers in Hp by done. destruct (Hadd p) as [He|[_ He]]; congruence. }
  unfold ipc_listen. unfold s at 1. rewrite (parent_join q c Hq0 Hc).
  rewrite (bind_ok _ _ _ _ _ (map_err_ok _ _ _ _ _ Hmk)). fold s.
  unfold bind. rewrite Hrm. by apply map_err_ok.
Qed.

(** ** Properties *)

(** The server takes its socket.  When nothing in the path of its directory is a
    file and the socket's path is not a directory, on a disk that does not fail, the
    server listens: a stale socket from an earlier run is replaced and a missing
    directory is created, and when it is told to stop the socket is gone, whatever
    happened on its connections. *)
Theorem server_takes_socket q c es (h : Handler) w :
  plain (last_comp q) → plain c → socket_ready q c w →
  (∃ w1, ipc_listen (join q c) w = (Done (Ok tt), w1) ∧ fs_lookup w1 (resolve (join q c)) = Some (File [])) ∧
  (ShutdownSignalled ∈ es →
   ∃ w2, ipc_run (join q c) es h w = (Done (Ok (accept_loop es h)), w2) ∧ fs_lookup w2 (resolve (join q c)) = None).
Proof.
  intros Hq0 Hc Hready.
  destruct (ipc_listen_ok q c w) as (w1 & Hl & Hr1 & Hs); [done..|]. split; [by exists w1|].
  intros Hstop. destruct (socket_removed q c w1 [] Hc Hr1 Hs) as (w2 & Hrm & Hgone & _).
  exists w2. split; [|exact Hgone]. unfold ipc_run. rewrite (bind_ok _ _ _ _ _ Hl).
  assert (existsb (λ e, match e with ShutdownSignalled => true | _ => false end) es = true) as ->.
  { apply existsb_exists. exists ShutdownSignalled. split; [by apply list_elem_of_In|done]. }
  unfold bind, ignore_err. by rewrite Hrm.
Qed.

(** One bad connection does not hurt the others.  Whatever the connections before
    and after it sent, and however they broke off, a connection accepted before the
    shutdown on which a request other than a submission can be read and whose writes
    go through gets exactly one line, the response to that request. *)
Theorem connections_are_isolated es (h : Handler) :
  (∀ r : JsonRpcResponse, ∃ b, to_vec r = Ok b) →
  length (accept_loop es h).1 = length (accepted es) ∧
  ∀ i c line request, accepted es !! i = Some c → cn_read c = Ok line → line ≠ "" → cn_writes c = [] →
    from_slice (as_bytes (trim line)) = Ok request → rq_method request ≠ "submit_project" →
    ∃ r b, to_vec r = Ok b ∧ rs_id r = rq_id request ∧ (accept_loop es h).1 !! i = Some [b ++ [x0a]].
Proof.
  intros Hser. split; [apply accept_loop_length|]. intros i c line request Hi Hr Hl Hw Hq Hm.
  destruct (accept_loop_lookup es h i c Hi) as [h' ->].
  destruct (serve_answers c h' line request Hr Hl Hq Hm Hser Hw) as (r & b & Hb & Hid & ->). by exists r, b.
Qed.
End server.

(** ** Concrete runs *)

Module DemoServer.
Import (hints) DemoIpc.
(** Only the request for the topology can be read. *)
#[export] Instance request_json : SerdeJson JsonRpcRequest := {|
  to_vec _ := Err "not written";
  from_slice b := match b with
                  | [x7b] => Ok (mkJsonRpcRequest "2.0" "get_cluster_topology" JNull (JNumber 3))
                  | _ => Err "expected value"
                  end |}.
#[export] Instance response_json : SerdeJson JsonRpcResponse := {|
  to_vec _ := Ok [x7b]; from_slice _ := Err "not read" |}.

Definition connection (line : result string string) : Connection := mkConnection 0 11%N line [] (Ok tt).
Definition events : list ServerEvent := [
  Accepted (connection (Ok "garbage")); AcceptFailed "too many open files"; Accepted (connection (Err "reset"));
  Accepted (connection (Ok ("{" +:+ nl))); ShutdownSignalled ].
(** A socket file has been left behind. *)
Definition disk : World := mkWorld {[ ["/"; "run"] := Dir; ["/"; "run"; "eo.sock"] := File [] ]} [].
End DemoServer.
Import (hints) DemoIpc DemoServer.

Lemma server_takes_socket_witness : ∃ w2,
  ipc_run 0 (join "/run" "eo.sock") DemoServer.events DemoIpc.handler DemoServer.disk =
    (Done (Ok (accept_loop 0 DemoServer.events DemoIpc.handler)), w2) ∧
  fs_lookup w2 ["/"; "run"; "eo.sock"] = None.
Proof.
  destruct (server_takes_socket (T := bytes) (H0 := DemoProject.tar) 0 "/run" "eo.sock" DemoServer.events DemoIpc.handler DemoServer.disk)
    as [_ Hs].
  - vm_compute. repeat split; discriminate.
  - vm_compute. repeat split; discriminate.
  - split; [reflexivity|]. split; [|discriminate]. intros p d [k Hk]. change (["/"; "run"] = p ++ k) in Hk.
    destruct p as [|c1 [|c2 [|c3 p]]].
    + discriminate.
    + injection Hk as <- _. discriminate.
    + injection Hk as <- <- _. discriminate.
    + discriminate Hk.
  - destruct Hs as (w2 & Hr & Hn).
    + right. right. right. right. left.
    + exists w2. exact (conj Hr Hn).
Defined.

Lemma connections_are_isolated_witness :
  (accept_loop 0 DemoServer.events DemoIpc.handler).1 = [[]; []; [[x7b; x0a]]] ∧
  ∃ r b, to_vec r = Ok b ∧ rs_id r = JNumber 3 ∧ Some [[x7b; x0a]] = Some [b ++ [x0a]].
Proof.
  destruct (connections_are_isolated (T := bytes) (H0 := DemoProject.tar) 0 DemoServer.events DemoIpc.handler)
    as [_ Hc].
  - intros r. exists [x7b]. reflexivity.
  - split; [vm_compute; reflexivity|].
    destruct (Hc 2 (DemoServer.connection (Ok ("{" +:+ nl))) ("{" +:+ nl)
      (mkJsonRpcRequest "2.0" "get_cluster_topology" JNull (JNumber 3))) as (r & b & Hb & Hid & Hout).
    + reflexivity.
    + reflexivity.
    + discriminate.
    + reflexivity.
    + vm_compute. reflexivity.
    + discriminate.
    + exists r, b. split; [exact Hb|]. split; [exact Hid|]. rewrite <- Hout. vm_compute. reflexivity.
Defined.
