(* ===== verification/Config.v ===== *)
(** * Node configuration (crates/node/src/config.rs)

    The settings file, its validation, and the descriptor and sandbox policy the
    node derives from it.  An error of anyhow is its outermost message. *)

From S2P Require Import Prelude CoreTypes Interfaces Text FileSys Sandbox.

Record CapabilitiesConfig := mkCapabilitiesConfig {
  cc_storage : bool;
  cc_gpu_acceleration : bool;
  cc_runtimes : list string;
  cc_max_memory_mb : N;
  cc_cpu_cores : N;
  cc_project_sandbox : bool;
  cc_project_vm_mode : string;
  cc_project_vm_pool_size : N;
  cc_project_image_source : option string;
  cc_project_image_digest : option string;
}.
Definition default_project_vm_mode : string := "reuse".
Definition default_project_vm_pool : N := 1.
Definition default_runtimes : list string := ["qlean"].
Definition default_max_memory_mb : N := 16384.
Definition default_cpu_cores : N := 4.
Definition CapabilitiesConfig_default : CapabilitiesConfig :=
  mkCapabilitiesConfig true false default_runtimes default_max_memory_mb default_cpu_cores false
    default_project_vm_mode default_project_vm_pool None None.

Record NodeConfig := mkNodeConfig {
  nc_node_id : string;
  nc_node_type : string;
  nc_listen_addresses : list string;
  nc_bootstrap_peers : list string;
  nc_capabilities : CapabilitiesConfig;
  nc_roles : list string;
  nc_raft_id : option N;
  nc_raft_peers : list N;
  nc_identity_seed : option string;
}.
Definition default_node_type : string := "Heavy".
Definition default_listen_addresses : list string := ["/ip4/0.0.0.0/tcp/0"].

(** serde_yaml at [NodeConfig], the UTF-8 check of [read_to_string], and the parser
    of libp2p addresses. *)
Class Yaml := { yaml_from_str : bytes → result string NodeConfig; yaml_utf8 : bytes → bool }.
Class MultiaddrText := { multiaddr_parse : string → result string Multiaddr }.

Section config.
Context `{UuidText, Yaml, MultiaddrText}.

Definition validate (c : NodeConfig) : result string unit :=
  let? _ := if decide (nc_node_id c = "") then Ok tt
            else match uuid_parse (nc_node_id c) with
                 | Ok _ => Ok tt
                 | Err _ => Err (fmt ["Invalid node_id UUID: "; nc_node_id c])
                 end in
  let? _ := if bool_decide (nc_node_type c ∈ ["Heavy"; "Light"]) then Ok tt
            else Err (fmt ["node_type must be 'Heavy' or 'Light', got '"; nc_node_type c; "'"]) in
  foldr (λ a r, match multiaddr_parse a with
                | Ok _ => r
                | Err _ => Err (fmt ["Invalid listen address: "; a])
                end) (Ok tt) (nc_listen_addresses c).

Definition load (path : string) : M World string NodeConfig :=
  let! contents := map_err (λ _, fmt ["Failed to read config file: "; path])
    (let! b := fs_read path in
     if yaml_utf8 b then ret b else raise "stream did not contain valid UTF-8") in
  let! config := lift_result (result_map_err (λ _, fmt ["Failed to parse config file: "; path])
                   (yaml_from_str contents)) in
  let! _ := lift_result (validate config) in
  ret config.

Definition project_image_template (c : NodeConfig) : result string (option ImageTemplate) :=
  result_map_err CoreError_to_string
    (template_from_config (cc_project_image_source (nc_capabilities c))
       (cc_project_image_digest (nc_capabilities c))).

Definition project_vm_pool_size (c : NodeConfig) : N :=
  N.min (cc_project_vm_pool_size (nc_capabilities c)) MAX_POOL_TARGET.

Definition apply_sandbox_overrides (vm_mode : option string) (pool_size : option N) (c : NodeConfig) :
    NodeConfig :=
  let k := nc_capabilities c in
  mkNodeConfig (nc_node_id c) (nc_node_type c) (nc_listen_addresses c) (nc_bootstrap_peers c)
    (mkCapabilitiesConfig (cc_storage k) (cc_gpu_acceleration k) (cc_runtimes k) (cc_max_memory_mb k)
       (cc_cpu_cores k) (cc_project_sandbox k) (default (cc_project_vm_mode k) vm_mode)
       (default (cc_project_vm_pool_size k) pool_size) (cc_project_image_source k)
       (cc_project_image_digest k))
    (nc_roles c) (nc_raft_id c) (nc_raft_peers c) (nc_identity_seed c).

Definition project_vm_mode (c : NodeConfig) : VmMode :=
  match vm_mode_parse (cc_project_vm_mode (nc_capabilities c)) with
  | Ok mode => mode
  | Err _ => Reuse
  end.
Definition project_sandbox_policy (c : NodeConfig) : bool * VmMode :=
  (cc_project_sandbox (nc_capabilities c), project_vm_mode c).

(** [fresh] is the uuid drawn when the configuration gives none, [os] the host's
    system, [time] the clock. *)
Definition to_descriptor (fresh : NodeId) (os : OsType) (time : DateTime) (c : NodeConfig) :
    NodeDescriptor :=
  let node_id := if decide (nc_node_id c = "") then fresh
                 else match uuid_parse (nc_node_id c) with Ok u => u | Err _ => fresh end in
  let k := nc_capabilities c in
  {| node_id := node_id;
     node_type := if decide (nc_node_type c = "Light") then Light else Heavy;
     os := os;
     capabilities := {| storage := cc_storage k; gpu_acceleration := cc_gpu_acceleration k;
       runtimes := cc_runtimes k; max_memory_mb := cc_max_memory_mb k; cpu_cores := cc_cpu_cores k;
       project_sandbox := cc_project_sandbox k |};
     advertised_addresses := [];
     current_assigned_roles := omap Role_of_string (nc_roles c);
     started_at := time;
     raft_id := nc_raft_id c |}.


(** ** Lemmas *)

Lemma validate_ok c :
  validate c = Ok tt ↔
  (nc_node_id c = "" ∨ ∃ u, uuid_parse (nc_node_id c) = Ok u) ∧
  (nc_node_type c = "Heavy" ∨ nc_node_type c = "Light") ∧
  ∀ a, a ∈ nc_listen_addresses c → ∃ m, multiaddr_parse a = Ok m.
Proof.
  assert (∀ l : list string, foldr (λ a r, match multiaddr_parse a with
      | Ok _ => r | Err _ => Err (fmt ["Invalid listen address: "; a]) end) (Ok tt) l = Ok tt ↔
    ∀ a, a ∈ l → ∃ m, multiaddr_parse a = Ok m) as Hl.
  { induction l as [|a l IH]; simpl; [by split; [intros _ ? ?%not_elem_of_nil|]|].
    setoid_rewrite elem_of_cons. destruct (multiaddr_parse a) as [m|e] eqn:Ha.
    - rewrite IH. split; [intros Hall b [->|Hb]; eauto|auto].
    - split; [done|]. intros Hall. destruct (Hall a) as [m Hm]; [by left|congruence]. }
  unfold validate, rbind. case_decide as Hid.
  - case_bool_decide as Ht; rewrite ?Hl, !elem_of_cons, elem_of_nil in *; [tauto|]. split; [done|tauto].
  - destruct (uuid_parse (nc_node_id c)) as [u|e] eqn:Hu.
    + case_bool_decide as Ht; rewrite ?Hl, !elem_of_cons, elem_of_nil in *; [|split; [done|tauto]].
      split; [|tauto]. intros Hall. split_and!; [right; eauto|tauto|done].
    + split; [done|]. intros [[?|[u ?]] _]; done.
Qed.

(** ** Properties *)

End config.

(** ** Concrete runs *)

Module DemoConfig.
Definition config : NodeConfig :=
  mkNodeConfig "" "Light" default_listen_addresses [] CapabilitiesConfig_default
    ["Execution"; "Cook"] (Some 2%N) [1; 2; 3]%N None.
#[export] Instance yaml : Yaml := {| yaml_from_str _ := Ok config; yaml_utf8 _ := true |}.
#[export] Instance multiaddr_text : MultiaddrText := {| multiaddr_parse s := Ok s |}.
#[export] Existing Instance Toy.uuid_text.
Definition disk : World := mkWorld {[ ["node.yaml"] := File [x61] ]} [].
End DemoConfig.
Import (hints) DemoConfig.

