(* ===== verification/Agent.v ===== *)
(** * The agent (crates/agent/src/main.rs)

    A client of one node: it scans a workspace, plans commands (with a language model
    if one is configured, by the layout of the files otherwise), submits the project
    over the node's socket, polls for the result, and reports it.  It is a tree of
    calls on the operating system ([Effects]).  Numbers of seconds and files are
    those of the source. *)

From S2P Require Import Prelude CoreTypes Interfaces Text Json Effects FileSys.

Definition MAX_FILES : nat := 200.
Definition MAX_DEPTH : nat := 3.

Record RunArgs := mkRunArgs {
  workspace : string;
  socket : string;
  goal : option string;
  target_node : option string;
  max_attempts : N;
  json : bool;
  dry_run : bool;
}.
Record WorkspaceInfo := mkWorkspaceInfo { ws_root : string; ws_files : list string }.
Record Plan := mkPlan { build_cmd : list string; run_cmd : list string; work_dir : string }.

(** ** The calls *)

Record CurlOutput := mkCurlOutput { curl_success : bool; curl_stdout : bytes; curl_stderr : bytes }.

(** [EnvVar] is [env::var(..).ok()]; an entry of [ReadDir] is its name or the error
    of reading it; [FileMode] is the mode of the file's metadata. *)
Inductive AgentCall : Type → Type :=
| EnvVar (key : string) : AgentCall (option string)
| Canonicalize (path : string) : AgentCall (result string string)
| IsDir (path : string) : AgentCall bool
| ReadDir (path : string) : AgentCall (result string (list (result string string)))
| ReadToString (path : string) : AgentCall (result string string)
| FileMode (path : string) : AgentCall (option N)
| RunCurl (args : list string) : AgentCall (result string CurlOutput)
| NewUuid : AgentCall Uuid
| Connect (path : string) : AgentCall (result string unit)
| WriteAll (payload : string) : AgentCall (result string unit)
| Flush : AgentCall (result string unit)
| ReadLine : AgentCall (result string string)
| Sleep (millis : N) : AgentCall unit
| Stdout (text : string) : AgentCall unit
| Stderr (text : string) : AgentCall unit.

Abbreviation agent := (prog AgentCall).

(** [to_string_lossy] and [display] of a path. *)
Definition lossy (s : string) : string := from_utf8_lossy (as_bytes s).

(** ** The workspace *)

(** [Path::strip_prefix], of paths below an absolute one. *)
Definition path_components (p : string) : list string :=
  (if is_absolute p then ["/"] else []) ++ filter (λ c, c ≠ "" ∧ c ≠ ".") (split_slash p).
Fixpoint strip_components (r p : list string) : option (list string) :=
  match r, p with
  | [], _ => Some p
  | a :: r, b :: p => if decide (a = b) then strip_components r p else None
  | _ :: _, [] => None
  end.
Definition strip_prefix_path (root p : string) : option string :=
  String.concat "/" <$> strip_components (path_components root) (path_components p).

Definition skipped (name : string) : bool :=
  bool_decide (name = ".git" ∨ name = "target" ∨ name = "node_modules").

(** [room] is [MAX_DEPTH + 1] less the depth: at 0 the depth exceeds [MAX_DEPTH]. *)
Fixpoint walk (room : nat) (root dir : string) (out : list string) : agent (list string) :=
  match room with
  | 0 => mret out
  | S room =>
      if MAX_FILES <=? length out then mret out
      else
        entries ← context (fmt ["read_dir "; lossy dir]) (io (ReadDir dir));
        pfold (λ out entry,
          name ← of_result entry;
          let path := join dir name in
          if skipped (lossy name) then mret out
          else
            d ← call (IsDir path);
            if d : bool then walk room root path out
            else mret (match strip_prefix_path root path with
                       | Some rel => out ++ [lossy rel]
                       | None => out
                       end)) out entries
  end.

Definition scan_workspace (root : string) : agent WorkspaceInfo :=
  files ← walk (MAX_DEPTH + 1) root root [];
  mret (mkWorkspaceInfo root (sort_by (λ f, f) files)).

Definition has (info : WorkspaceInfo) (name : string) : bool :=
  existsb (λ f, bool_decide (f = name) || ends_with ("/" +:+ name) f) (ws_files info).
Definition first_with_ext (info : WorkspaceInfo) (ext : string) : option string :=
  head (filter (λ f, ends_with ext f = true) (ws_files info)).

(** ** The planner *)

Definition dq : string := String "034"%char EmptyString.

Definition MIRRORS : list string :=
  ["https://mirrors.tuna.tsinghua.edu.cn/debian"; "https://mirrors.ustc.edu.cn/debian";
   "https://mirrors.aliyun.com/debian"; "http://deb.debian.org/debian"].

Definition apt_mirror_setup : string :=
  fmt ["MIRROR=''; for m in "; String.concat " " MIRRORS; "; do
             if curl -sf -o /dev/null --max-time 8 "; dq; "$m/dists/stable/Release"; dq; " \
             || curl -sf -o /dev/null --max-time 8 "; dq; "$m/dists/trixie/Release"; dq; "; then MIRROR=";
       dq; "$m"; dq; "; break; fi
           done
           if [ -n "; dq; "$MIRROR"; dq; " ]; then
             for f in /etc/apt/sources.list /etc/apt/sources.list.d/*.sources; do
               [ -f "; dq; "$f"; dq; " ] || continue
               sed -i.bak -E "; dq;
       "s#https?://(deb|security|ftp)\.debian\.org/debian(-security)?#$MIRROR#g"; dq; " "; dq; "$f"; dq;
       " && rm -f "; dq; "$f.bak"; dq; "
             done
             echo "; dq; "apt mirror: $MIRROR"; dq; "
           else
             echo "; dq; "apt mirror: candidates unreachable, keeping the image default"; dq; "
           fi"].

Definition APT : string := "DEBIAN_FRONTEND=noninteractive apt-get".
Definition NO_DEB_SRC : string := "-o Acquire::IndexTargets::deb-src::DefaultEnabled=false".
Definition apt_locks : string :=
  "rm -f /var/lib/apt/lists/lock /var/lib/dpkg/lock /var/lib/dpkg/lock-frontend".
Definition apt_update : string := fmt [APT; " "; NO_DEB_SRC; " update -qq || true"].

Definition ensure_tool (pkg : string) : string :=
  fmt ["(command -v "; pkg; " >/dev/null 2>&1 || (
  "; apt_mirror_setup; "
  "; apt_locks; "
  set -- /var/lib/apt/lists/*Packages*
  if [ ! -e "; dq; "$1"; dq; " ]; then "; apt_update; "; fi
  "; APT; " install -y -qq "; pkg; " || (
    "; apt_locks; "
    "; apt_update; "
    "; APT; " install -y -qq "; pkg; "
  )
))"].

Definition heuristic_plan (info : WorkspaceInfo) : Plan :=
  let work := "/root/project" in
  let top_cs := filter (λ f, contains_char "/"%char f = false ∧ ends_with ".c" f = true) (ws_files info) in
  if has info "Cargo.toml" then
    mkPlan [fmt [ensure_tool "cargo"; " && cargo build --release"]] ["cargo run --release"] work
  else match top_cs with
  | [cfile] => mkPlan [fmt [ensure_tool "gcc"; " && gcc "; cfile; " -o app"]] ["./app"] work
  | _ =>
      if has info "Makefile" then mkPlan [fmt [ensure_tool "make"; " && make"]] ["./app"] work
      else match first_with_ext info ".py" with
      | Some py => mkPlan [] [fmt [ensure_tool "python3"; " && python3 "; py]] work
      | None =>
          if has info "package.json" then
            mkPlan [fmt [ensure_tool "npm"; " && npm install"]] ["node index.js"] work
          else mkPlan [] ["ls -la"] work
      end
  end.

(** ** The settings of the language model *)

Record LlmConfig := mkLlmConfig { base_url : string; api_key : string; model : string }.

Definition config_path : agent string :=
  p ← call (EnvVar "EO_AGENT_CONFIG");
  match p with
  | Some (String _ _ as p) => mret p
  | _ =>
      home ← call (EnvVar "HOME");
      mret (join (default "." home) ".config/eo-agent/config.env")
  end.

(** [{:o}] of a number below 512. *)
Definition octal (n : N) : string :=
  let d k := dec (n / 8 ^ k mod 8) in
  if (n <? 8)%N then d 0%N else if (n <? 64)%N then d 1%N +:+ d 0%N else d 2%N +:+ d 1%N +:+ d 0%N.

Definition warn_if_public (path : string) : agent unit :=
  mode ← call (FileMode path);
  match mode with
  | Some mode =>
      if decide (N.land mode 63 = 0%N) then mret tt
      else call (Stderr (fmt ["[eo-agent] warning: "; lossy path; " is readable by others (mode ";
                              octal (N.land mode 511); "); run: chmod 600 "; lossy path]))
  | None => mret tt
  end.

(** One line of the file. *)
Definition config_line (map : gmap string string) (line : string) : gmap string string :=
  let line := trim line in
  if decide (line = "") then map
  else if starts_with "#" line then map
  else match split_once "="%char line with
       | Some (k, v) => <[trim k := trim_matches "034"%char (trim v)]> map
       | None => map
       end.
Definition config_map (content : string) : gmap string string := foldl config_line ∅ (lines content).

Definition read_config_file : agent (gmap string string) :=
  path ← config_path;
  content ← call (ReadToString path);
  match content with
  | Err _ => mret ∅
  | Ok content => _ ← warn_if_public path; mret (config_map content)
  end.

Definition nonempty (v : option string) : option string :=
  match v with Some (String _ _) => v | _ => None end.

Fixpoint pick_env (keys : list string) : agent (option string) :=
  match keys with
  | [] => mret None
  | k :: ks =>
      v ← call (EnvVar k);
      match nonempty v with Some v => mret (Some v) | None => pick_env ks end
  end.
Fixpoint pick_file (file : gmap string string) (keys : list string) : option string :=
  match keys with
  | [] => None
  | k :: ks => match nonempty (file !! k) with Some v => Some v | None => pick_file file ks end
  end.
Definition pick (file : gmap string string) (key : string) (aliases : list string) : agent (option string) :=
  v ← pick_env (key :: aliases);
  match v with Some v => mret (Some v) | None => mret (pick_file file (key :: aliases)) end.

Definition llm_config : agent (option LlmConfig) :=
  file ← read_config_file;
  base_url ← pick file "EO_LLM_BASE_URL" ["OPENAI_BASE_URL"];
  match base_url with
  | None => mret None
  | Some base_url =>
      api_key ← pick file "EO_LLM_API_KEY" ["OPENAI_API_KEY"];
      model ← pick file "EO_LLM_MODEL" ["OPENAI_MODEL"];
      mret (Some (mkLlmConfig base_url (default "" api_key) (default "gpt-4o-mini" model)))
  end.

Definition llm_enabled : agent bool := c ← llm_config; mret (bool_decide (is_Some c)).

(** ** The client of the node and of the language model

    [debug_text] is the derived [Debug] text of a list of commands. *)

Section agent.
Context `{JsonText, UuidText, Base64, DebugText (list string)}.

Definition chat_body (cfg : LlmConfig) (system user : string) : string :=
  json_text (json_object [("model", JString (model cfg)); ("temperature", JNumber 0);
    ("messages", json_array [
       json_object [("role", JString "system"); ("content", JString system)];
       json_object [("role", JString "user"); ("content", JString user)]])]).

Definition curl_args (cfg : LlmConfig) (body : string) : list string :=
  ["-sS"; "-X"; "POST"; trim_end_matches "/"%char (base_url cfg) +:+ "/chat/completions";
   "-H"; "Content-Type: application/json"] ++
  (if decide (api_key cfg = "") then [] else ["-H"; "Authorization: Bearer " +:+ api_key cfg]) ++
  ["-d"; body].

Definition llm_chat (system user : string) : agent string :=
  cfg ← llm_config;
  match cfg with
  | None => fail "LLM not configured (set EO_LLM_BASE_URL or use a config file)"
  | Some cfg =>
      out ← context "failed to run curl" (io (RunCurl (curl_args cfg (chat_body cfg system user))));
      if negb (curl_success out) then fail ("curl failed: " +:+ from_utf8_lossy (curl_stderr out))
      else
        v ← context "LLM response not JSON"
              (of_result (json_parse (String.string_of_list_byte (curl_stdout out))));
        of_result (ok_or "LLM response missing content"
          (as_str (json_member "content" (json_member "message" (json_index 0 (json_member "choices" v))))))
  end.

Definition expand_tilde (p : string) : agent string :=
  match strip_prefix "~/" p with
  | Some rest =>
      home ← call (EnvVar "HOME");
      match home with Some home => mret (fmt [home; "/"; rest]) | None => mret p end
  | None => mret p
  end.

Definition rpc_payload (method : string) (params : JsonValue) (id : Uuid) : string :=
  json_text (json_object [("jsonrpc", JString "2.0"); ("method", JString method); ("params", params);
                          ("id", JString (uuid_to_string id))]) +:+ nl.

(** What a response line says. *)
Definition rpc_result (method line : string) : result string JsonValue :=
  match json_parse (trim line) with
  | Err _ => Err "invalid RPC response"
  | Ok v =>
      match json_get "error" v with
      | Some err => Err (fmt ["RPC "; method; " failed: "; json_text err])
      | None => Ok (default JNull (json_get "result" v))
      end
  end.

Definition rpc (socket method : string) (params : JsonValue) : agent JsonValue :=
  path ← expand_tilde socket;
  _ ← context (fmt ["connect "; path]) (io (Connect path));
  id ← call NewUuid;
  _ ← io (WriteAll (rpc_payload method params id));
  _ ← io Flush;
  line ← io ReadLine;
  of_result (rpc_result method line).

Definition json_strings (l : list string) : JsonValue := json_array (JString <$> l).
Definition submit_params (args : RunArgs) (info : WorkspaceInfo) (plan : Plan) : JsonValue :=
  json_object [("project_dir", JString (lossy (ws_root info))); ("work_dir", JString (work_dir plan));
    ("build_cmd", json_strings (build_cmd plan)); ("run_cmd", json_strings (run_cmd plan));
    ("timeout_ms", JNumber 900000);
    ("target_node", match target_node args with Some t => JString t | None => JNull end)].
Definition fetch_params (task_id : string) : JsonValue := json_object [("task_id", JString task_id)].

Definition timeout_msg (task_id : string) : string :=
  fmt ["timed out after 30 min waiting for project result of task "; task_id; "; ";
       "check the node logs of the executing node (look for 'project task ... accepted')"].
Definition POLLS : nat := 600.
Definition POLL_MILLIS : N := 3000.

(** The polls numbered [ns]. *)
Fixpoint poll (args : RunArgs) (task_id : string) (ns : list nat) : agent JsonValue :=
  match ns with
  | [] => fail (timeout_msg task_id)
  | i :: ns =>
      _ ← call (Sleep POLL_MILLIS);
      r ← rpc (socket args) "fetch_project_result" (fetch_params task_id);
      let status := default "pending" (as_str (json_member "status" r)) in
      if decide (status = "completed") then mret r
      else if decide (status = "failed") then
        fail (fmt ["task "; task_id; " failed on the cluster: ";
                   default "<no reason given>" (as_str (json_member "error" r))])
      else
        _ ← (if (i mod 5 =? 4) && negb (json args) then
               call (Stderr (fmt ["[eo-agent] still running... "; dec (N.of_nat ((i + 1) * 3));
                                  "s (status="; status; ")"]))
             else mret tt);
        poll args task_id ns
  end.

Definition submit_and_wait (args : RunArgs) (info : WorkspaceInfo) (plan : Plan) : agent JsonValue :=
  res ← rpc (socket args) "submit_project" (submit_params args info plan);
  task_id ← of_result (ok_or "submit_project returned no task_id" (as_str (json_member "task_id" res)));
  _ ← call (Stderr (fmt ["[eo-agent] submitted task "; task_id;
         "; waiting (cold VM boot + toolchain install can take ~1-2 min)"]));
  poll args task_id (seq 0 POLLS).

(** ** What the result says *)

Definition decode (b64 : string) : string :=
  match base64_decode (as_bytes b64) with Ok b => from_utf8_lossy b | Err _ => "" end.
Definition tail (s : string) (n : nat) : string :=
  let ls := lines s in String.concat nl (drop (length ls - n) ls).

Definition exit_code (result : JsonValue) : Z := default (-1)%Z (as_i64 (json_member "exit_code" result)).
Definition output (stream : string) (result : JsonValue) : string :=
  decode (default "" (as_str (json_member stream result))).
Definition dec_z (z : Z) : string := pretty z.

Definition heuristic_analysis (result : JsonValue) : string :=
  let code := exit_code result in
  if (code =? 0)%Z then fmt ["success (exit 0). last output:"; nl; tail (output "stdout" result) 5]
  else fmt ["failure (exit "; dec_z code; "). stderr tail:"; nl; tail (output "stderr" result) 15].

(** [&t[a..=b]], at ASCII characters. *)
Definition extract_json (s : string) : string :=
  let t := trim s in
  match find_char "{"%char t, rfind_char "}"%char t with
  | Some a, Some b => if a <? b then String.substring a (S b - a) t else t
  | _, _ => t
  end.

Definition strings_of (v : JsonValue) : list string := match as_array v with Some vs => omap as_str vs | None => [] end.
Definition plan_of_json (v : JsonValue) : Plan :=
  mkPlan (strings_of (json_member "build_cmd" v)) (strings_of (json_member "run_cmd" v))
    (default "/root/project" (as_str (json_member "work_dir" v))).
Definition parse_plan (content : string) (info : WorkspaceInfo) : result string Plan :=
  match json_parse (extract_json content) with
  | Err _ => Err "plan is not JSON"
  | Ok v =>
      let plan := plan_of_json v in
      match run_cmd plan with
      | [] => Err (fmt ["plan has empty run_cmd (files: "; dec (N.of_nat (length (ws_files info))); ")"])
      | _ => Ok plan
      end
  end.

(** ** The prompts *)

Definition PLAN_SYSTEM : string := "You are a build/run planner for a sandboxed Linux VM (fresh Debian, no toolchain preinstalled). You MUST install missing tools inside the build command, for example apt-get update and apt-get install -y gcc. Return ONLY a JSON object with keys build_cmd (string array), run_cmd (string array), work_dir (usually /root/project).".
Definition goal_text (goal : option string) : string := default "build and run the project" goal.

Definition llm_plan (info : WorkspaceInfo) (goal : option string) : agent Plan :=
  let user := fmt ["Workspace files:"; nl; String.concat nl (ws_files info); nl; nl; "Goal: ";
                   goal_text goal; nl; nl; "Return the JSON now."] in
  content ← llm_chat PLAN_SYSTEM user;
  of_result (parse_plan content info).

Definition llm_revise (info : WorkspaceInfo) (prev : Plan) (result : JsonValue) (goal : option string) : agent Plan :=
  let system := "A previous build/run attempt failed in a sandboxed Linux VM. Propose corrected commands. Return ONLY a JSON object with keys build_cmd (string array), run_cmd (string array), work_dir." in
  let user := fmt ["Files:"; nl; String.concat nl (ws_files info); nl; nl; "Goal: "; goal_text goal; nl;
                   "Previous build: "; debug_text (build_cmd prev); nl;
                   "Previous run: "; debug_text (run_cmd prev); nl;
                   "Exit: "; dec_z (exit_code result); nl; "stderr tail:"; nl;
                   tail (output "stderr" result) 20] in
  content ← llm_chat system user;
  of_result (parse_plan content info).

Definition llm_analysis (result : JsonValue) : agent string :=
  let system := "Explain the sandbox execution result in 2-3 sentences and state whether it succeeded." in
  let user := fmt ["exit_code: "; dec_z (exit_code result); nl; "stdout tail:"; nl;
                   tail (output "stdout" result) 30; nl; "stderr tail:"; nl;
                   tail (output "stderr" result) 30] in
  llm_chat system user.

(** ** The workflow *)

Definition plan_text (plan : Plan) : string :=
  fmt ["build="; debug_text (build_cmd plan); " run="; debug_text (run_cmd plan)].

Definition initial_plan (args : RunArgs) (info : WorkspaceInfo) : agent Plan :=
  enabled ← llm_enabled;
  if enabled : bool then
    p ← catch (llm_plan info (goal args));
    match p with
    | Ok p => mret p
    | Err e =>
        _ ← call (Stderr (fmt ["[eo-agent] LLM plan failed: "; e; "; falling back to heuristic"]));
        mret (heuristic_plan info)
    end
  else mret (heuristic_plan info).

Definition analyse (result : JsonValue) : agent string :=
  enabled ← llm_enabled;
  if enabled : bool then
    a ← catch (llm_analysis result);
    mret (match a with Ok a => a | Err _ => heuristic_analysis result end)
  else mret (heuristic_analysis result).

(** The attempts from number [attempt], [remaining] of them. *)
Fixpoint attempt_loop (args : RunArgs) (info : WorkspaceInfo) (attempts : N) (remaining : nat)
    (attempt : N) (plan : Plan) (last : JsonValue) : agent JsonValue :=
  match remaining with
  | 0 => mret last
  | S remaining =>
      _ ← (if json args then mret tt
           else call (Stdout (fmt ["[eo-agent] attempt "; dec attempt; "/"; dec attempts; ": "; plan_text plan])));
      result ← submit_and_wait args info plan;
      analysis ← analyse result;
      _ ← (if json args then mret tt else call (Stdout (fmt ["[eo-agent] analysis: "; analysis])));
      if (exit_code result =? 0)%Z then mret result
      else if decide (attempt = attempts) then mret result
      else
        enabled ← llm_enabled;
        if enabled : bool then
          p ← catch (llm_revise info plan result (goal args));
          match p with
          | Ok p => attempt_loop args info attempts remaining (attempt + 1) p result
          | Err e => _ ← call (Stderr (fmt ["[eo-agent] revise failed: "; e])); mret result
          end
        else mret result
  end.

Definition llm_banner (c : option LlmConfig) : string :=
  match c with
  | Some c => fmt ["[eo-agent] LLM: model="; model c; " base="; base_url c; " key=";
                   if decide (api_key c = "") then "none" else "set"]
  | None => "[eo-agent] LLM: disabled (heuristic planner)"
  end.

(** The attempts, and what is reported of them. *)
Definition submit_attempts (args : RunArgs) (info : WorkspaceInfo) (plan : Plan) : agent unit :=
  let attempts := (max_attempts args `max` 1)%N in
  last ← attempt_loop args info attempts (N.to_nat attempts) 1 plan JNull;
  _ ← (if json args then call (Stdout (json_text last)) else mret tt);
  if (exit_code last =? 0)%Z then mret tt else exit 1.

Definition run (args : RunArgs) : agent unit :=
  root ← context (fmt ["workspace not found: "; lossy (workspace args)]) (io (Canonicalize (workspace args)));
  d ← call (IsDir root);
  if negb d then fail (fmt ["workspace is not a directory: "; lossy root])
  else
    info ← scan_workspace root;
    c ← llm_config;
    _ ← call (Stderr (llm_banner c));
    plan ← initial_plan args info;
    if dry_run args then
      call (Stdout (fmt ["[eo-agent] plan: "; plan_text plan; " work_dir="; work_dir plan]))
    else submit_attempts args info plan.
End agent.
