(* ===== verification/AgentRun.v ===== *)
(** * What the agent does, whatever its environment answers

    The theorems range over the traces of [Agent.run]: every combination of
    environment variables, files, curl outputs and lines read from the socket. *)

From S2P Require Import Prelude CoreTypes Interfaces Text Json Effects FileSys Agent.

(** Calls that do not touch the node or wait. *)
Definition local_call X (c : AgentCall X) : Prop :=
  match c with Connect _ | WriteAll _ | Flush | ReadLine | Sleep _ => False | _ => True end.
Abbreviation local p := (calls_in local_call p).

Ltac solve_local :=
  repeat first
    [ exact I
    | assumption
    | apply calls_in_of_result
    | apply calls_in_io
    | apply calls_in_context
    | apply calls_in_catch
    | apply calls_in_pfold; intros ? ?
    | apply calls_in_bind; [|intros ?]
    | case_match
    | split; [exact I|intros ?] ].

Section local.
Context `{JsonText, UuidText, Base64, DebugText (list string)}.

(** Scanning only lists directories. *)
Definition scan_call X (c : AgentCall X) : Prop :=
  match c with ReadDir _ | IsDir _ => True | _ => False end.

Lemma walk_scans room root dir out : calls_in scan_call (walk room root dir out).
Proof.
  revert dir out. induction room as [|room IH]; intros dir out; [done|].
  cbn [walk]. unfold call. solve_local. all: try apply IH.
Qed.

Lemma scan_workspace_scans root : calls_in scan_call (scan_workspace root).
Proof. apply calls_in_bind; [apply walk_scans|done]. Qed.

Lemma scan_workspace_local root : local (scan_workspace root).
Proof. eapply calls_in_mono, scan_workspace_scans. by intros X []. Qed.

Lemma config_path_local : local config_path.
Proof. unfold config_path, call. solve_local. Qed.

Lemma read_config_file_local : local read_config_file.
Proof. apply calls_in_bind; [apply config_path_local|]. intros p. unfold warn_if_public, call. solve_local. Qed.

Lemma pick_local file key aliases : local (pick file key aliases).
Proof.
  assert (∀ ks, local (pick_env ks)) as Hp.
  { intros ks. induction ks as [|k ks IH]; simpl; [done|]. solve_local. }
  apply calls_in_bind; [apply Hp|]. intros v. solve_local.
Qed.

Lemma llm_config_local : local llm_config.
Proof.
  apply calls_in_bind; [apply read_config_file_local|]. intros file.
  apply calls_in_bind; [apply pick_local|]. intros [b|]; [|done].
  apply calls_in_bind; [apply pick_local|]. intros k. apply calls_in_bind; [apply pick_local|done].
Qed.

Lemma llm_enabled_local : local llm_enabled.
Proof. apply calls_in_bind; [apply llm_config_local|done]. Qed.

Lemma llm_chat_local system user : local (llm_chat system user).
Proof. apply calls_in_bind; [apply llm_config_local|]. intros c. solve_local. Qed.

Lemma initial_plan_local args info : local (initial_plan args info).
Proof.
  apply calls_in_bind; [apply llm_enabled_local|]. intros []; [|done].
  apply calls_in_bind; [|intros; solve_local]. apply calls_in_catch, calls_in_bind; [apply llm_chat_local|].
  intros. apply calls_in_of_result.
Qed.

Lemma llm_revise_local info prev result goal : local (llm_revise info prev result goal).
Proof. apply calls_in_bind; [apply llm_chat_local|]. intros. apply calls_in_of_result. Qed.

Lemma analyse_local result : local (analyse result).
Proof.
  apply calls_in_bind; [apply llm_enabled_local|]. intros []; [|done].
  apply calls_in_bind; [|intros; solve_local]. apply calls_in_catch, llm_chat_local.
Qed.

Lemma expand_tilde_local p : local (expand_tilde p).
Proof. unfold expand_tilde, call. solve_local. Qed.
End local.
#[export] Hint Resolve scan_workspace_local llm_config_local llm_enabled_local llm_chat_local
  initial_plan_local llm_revise_local analyse_local expand_tilde_local : eo.

(** ** How much the agent does *)

Definition request_value (method : string) (params : JsonValue) (id : Uuid) `{UuidText} : JsonValue :=
  json_object [("jsonrpc", JString "2.0"); ("method", JString method); ("params", params);
               ("id", JString (uuid_to_string id))].

(** The method a line written to the node asks for. *)
Definition asked_method `{JsonText} (payload : string) : option string :=
  match json_parse (trim payload) with Ok v => as_str (json_member "method" v) | Err _ => None end.

Definition submission `{JsonText} X (c : AgentCall X) : nat :=
  match c with WriteAll p => if decide (asked_method p = Some "submit_project") then 1 else 0 | _ => 0 end.
Definition connection X (c : AgentCall X) : nat := match c with Connect _ => 1 | _ => 0 end.
Definition pause X (c : AgentCall X) : nat := match c with Sleep _ => 1 | _ => 0 end.

Section bounds.
Context `{JsonTextLaws, UuidText, Base64, DebugText (list string)}.

Lemma parse_payload method params id : json_wf params = true →
  json_parse (trim (rpc_payload method params id)) = Ok (request_value method params id).
Proof.
  intros Hp. unfold rpc_payload. rewrite trim_json_line by done. apply json_parse_text.
  simpl. by rewrite Hp.
Qed.

Lemma asked_payload method params id : json_wf params = true →
  asked_method (rpc_payload method params id) = Some method.
Proof. intros Hp. unfold asked_method. by rewrite parse_payload. Qed.

Lemma json_strings_wf l : json_wf (json_strings l) = true.
Proof. apply json_array_wf. induction l as [|s l IH]; [done|]. apply IH. Qed.

Lemma submit_params_wf args info plan : json_wf (submit_params args info plan) = true.
Proof.
  unfold submit_params, json_object. cbn -[json_strings]. rewrite !json_strings_wf. by destruct (target_node args).
Qed.

Section weights.
Context (w : ∀ X, AgentCall X → nat) (fetches submits sleeps : nat).
Hypothesis w_local : ∀ X (c : AgentCall X), local_call X c → w X c = 0.
Hypothesis w_quiet : w _ Flush = 0 ∧ w _ ReadLine = 0.
Hypothesis w_sleep : w _ (Sleep POLL_MILLIS) ≤ sleeps.
Hypothesis w_fetch : ∀ path task_id id,
  w _ (Connect path) + w _ (WriteAll (rpc_payload "fetch_project_result" (fetch_params task_id) id)) ≤ fetches.
Hypothesis w_submit : ∀ path args info plan id,
  w _ (Connect path) + w _ (WriteAll (rpc_payload "submit_project" (submit_params args info plan) id)) ≤ submits.

Lemma at_most_local {A} (p : agent A) : local p → at_most w 0 p.
Proof. by apply at_most_calls_in. Qed.

(** One request. *)
Lemma rpc_at_most n sock method params :
  (∀ path id, w _ (Connect path) + w _ (WriteAll (rpc_payload method params id)) ≤ n) →
  at_most w n (rpc sock method params).
Proof.
  intros Hn. apply (at_most_bind w 0 n); [apply at_most_local, expand_tilde_local|]. intros path.
  assert (w _ (Connect path) ≤ n) as Hc by (pose proof (Hn path 0%N); lia).
  eapply at_most_mono;
    [apply (at_most_bind w (w _ (Connect path)) (n - w _ (Connect path)))|lia].
  { by apply at_most_context, at_most_io. }
  intros _. apply (at_most_bind w 0).
  { apply at_most_local. by split. }
  intros id. rewrite <- (Nat.add_0_r (n - _)). apply at_most_bind.
  { apply at_most_io. specialize (Hn path id). lia. }
  intros _. destruct w_quiet. apply (at_most_bind w 0 0); [apply at_most_io; lia|]. intros _.
  apply (at_most_bind w 0 0); [apply at_most_io; lia|]. intros line. apply at_most_local, calls_in_of_result.
Qed.

Lemma poll_at_most args task_id ns : at_most w (length ns * (sleeps + fetches)) (poll args task_id ns).
Proof.
  induction ns as [|n ns IH]; [apply at_most_end|]. cbn [poll length Nat.mul].
  rewrite <- (assoc_L Nat.add). apply at_most_bind.
  { rewrite <- (Nat.add_0_r sleeps). apply at_most_call; [done|]. intros x. apply at_most_end. }
  intros _. apply at_most_bind; [apply rpc_at_most; intros; apply w_fetch|].
  intros r. destruct (decide _); [apply at_most_end|]. destruct (decide _); [apply at_most_end|].
  apply (at_most_bind w 0); [|done]. apply at_most_local. solve_local.
Qed.

Lemma submit_and_wait_at_most args info plan :
  at_most w (submits + POLLS * (sleeps + fetches)) (submit_and_wait args info plan).
Proof.
  apply at_most_bind; [apply rpc_at_most; intros; apply w_submit|]. intros res.
  apply (at_most_bind w 0); [apply at_most_local, calls_in_of_result|]. intros task_id.
  apply (at_most_bind w 0); [apply at_most_local; by split|]. intros _.
  pose proof (poll_at_most args task_id (seq 0 POLLS)) as Hp. by rewrite length_seq in Hp.
Qed.

Lemma attempt_loop_at_most args info attempts k attempt plan last :
  at_most w (k * (submits + POLLS * (sleeps + fetches)))
    (attempt_loop args info attempts k attempt plan last).
Proof.
  revert attempt plan last. induction k as [|k IH]; intros attempt plan last; [apply at_most_end|].
  cbn [attempt_loop Nat.mul]. apply (at_most_bind w 0); [apply at_most_local; unfold call; solve_local|].
  intros _. apply at_most_bind; [apply submit_and_wait_at_most|]. intros result.
  apply (at_most_bind w 0); [apply at_most_local, analyse_local|]. intros analysis.
  apply (at_most_bind w 0); [apply at_most_local; unfold call; solve_local|]. intros _.
  destruct (_ =? _)%Z; [apply at_most_end|]. destruct (decide _); [apply at_most_end|].
  apply (at_most_bind w 0); [apply at_most_local, llm_enabled_local|]. intros []; [|apply at_most_end].
  apply (at_most_bind w 0); [apply at_most_local, calls_in_catch, llm_revise_local|].
  intros [p|e]; [apply IH|]. eapply at_most_mono; [apply at_most_local; by split|lia].
Qed.

(** The whole workflow costs at most its attempts. *)
Lemma run_at_most args :
  at_most w (N.to_nat (max_attempts args `max` 1) * (submits + POLLS * (sleeps + fetches))) (run args).
Proof.
  apply (at_most_bind w 0); [apply at_most_local; solve_local|]. intros root.
  apply (at_most_bind w 0); [apply at_most_local; by split|]. intros []; [|apply at_most_end].
  apply (at_most_bind w 0); [apply at_most_local, scan_workspace_local|]. intros info.
  apply (at_most_bind w 0); [apply at_most_local, llm_config_local|]. intros c.
  apply (at_most_bind w 0); [apply at_most_local; by split|]. intros _.
  apply (at_most_bind w 0); [apply at_most_local, initial_plan_local|]. intros plan.
  destruct (dry_run args).
  { eapply at_most_mono; [apply at_most_local; by split|lia]. }
  rewrite <- (Nat.add_0_r (_ * _)). apply at_most_bind; [apply attempt_loop_at_most|]. intros last.
  apply at_most_local. unfold call. solve_local.
Qed.
End weights.

(** C23: the agent does a bounded amount of work, whatever its environment answers.
    A run submits at most [max_attempts] times (once when that is 0), connects to
    the node at most 601 times and pauses at most 600 times per submission, so it
    never polls forever. *)
Theorem run_bounded args tr e : runs (run args) tr e →
  let n := N.to_nat (max_attempts args `max` 1) in
  cost submission tr ≤ n ∧ cost connection tr ≤ n * (1 + POLLS) ∧ cost pause tr ≤ n * POLLS.
Proof.
  intros Hr n.
  assert (∀ path, submission _ (Connect path) = 0) as Hc by done.
  assert (∀ task_id id, submission _ (WriteAll (rpc_payload "fetch_project_result" (fetch_params task_id) id)) = 0)
    as Hf by (intros; simpl; by rewrite asked_payload).
  assert (∀ p, submission _ (WriteAll p) ≤ 1) as Hw by (intros p; simpl; destruct (decide _); lia).
  split_and!.
  - etrans; [eapply (run_at_most submission 0 1 0); [|done|simpl; lia| | |done]|rewrite Nat.mul_0_r; lia].
    + by intros X [].
    + intros. by rewrite Hc, Hf.
    + intros. rewrite Hc. apply Hw.
  - etrans; [eapply (run_at_most connection 1 1 0); [|done|simpl; lia| | |done]|lia].
    + by intros X [].
    + done.
    + done.
  - etrans; [eapply (run_at_most pause 0 0 1); [|done|simpl; lia| | |done]|lia].
    + by intros X [].
    + done.
    + done.
Qed.
End bounds.

(** ** What the exit status says *)

(** The last line read from the node, or the error of reading it. *)
Definition line_of (a : act AgentCall) : option (result string string) :=
  let 'Act c x := a in
  match c in AgentCall X return X → option (result string string) with
  | ReadLine => Some
  | _ => λ _, None
  end x.
Fixpoint last_line (tr : list (act AgentCall)) : option (result string string) :=
  match tr with
  | [] => None
  | a :: tr => match last_line tr with Some l => Some l | None => line_of a end
  end.

Lemma last_line_app tr1 tr2 :
  last_line (tr1 ++ tr2) = match last_line tr2 with Some l => Some l | None => last_line tr1 end.
Proof.
  induction tr1 as [|a tr1 IH]; simpl; [by destruct (last_line tr2)|]. rewrite IH.
  by destruct (last_line tr2).
Qed.

Lemma local_last_line {A} (p : agent A) tr e : local p → runs p tr e → last_line tr = None.
Proof.
  intros Hp Hr. apply (runs_calls_in _ _ _ _ Hp) in Hr.
  induction Hr as [|[X c x] tr Ha Htr IH]; simpl; [done|]. rewrite IH. by destruct c.
Qed.

(** The first step of a run, when the run returns. *)
Ltac rstep H :=
  let tr := fresh "tr" in let a := fresh "a" in let H1 := fresh "Hr" in
  apply runs_bind_ret in H as (tr & a & ? & -> & H1 & H); rewrite ?last_line_app.
Section exit_status.
Context `{JsonText, UuidText, Base64, DebugText (list string)}.

(** [r] is the answer on the last line read. *)
Definition answered (method : string) (r : JsonValue) (tr : list (act AgentCall)) : Prop :=
  ∃ line, last_line tr = Some (Ok line) ∧ rpc_result method line = Ok r.
Definition completed_with (r : JsonValue) (tr : list (act AgentCall)) : Prop :=
  answered "fetch_project_result" r tr ∧ as_str (json_member "status" r) = Some "completed".

Lemma answered_local {A} method r tr1 tr2 (p : agent A) e : answered method r tr1 →
  local p → runs p tr2 e → answered method r (tr1 ++ tr2).
Proof.
  intros (line & Hl & Hr) Hp Hrun. exists line. split; [|done]. rewrite last_line_app.
  by rewrite (local_last_line _ _ _ Hp Hrun).
Qed.

Lemma answered_after method r tr1 tr2 : answered method r tr2 → answered method r (tr1 ++ tr2).
Proof. intros (line & Hl & Hr). exists line. by rewrite last_line_app, Hl. Qed.

Lemma rpc_answered sock method params tr v :
  runs (rpc sock method params) tr (Returned v) → answered method v tr.
Proof.
  unfold rpc. intros H3. do 5 rstep H3. apply runs_bind_ret in H3 as (tr6 & line & tr7 & -> & Hl & Hv).
  apply runs_io in Hl as ->. apply runs_of_result in Hv as [-> Hv].
  do 5 apply answered_after. by exists line.
Qed.

Lemma poll_completed args task_id ns tr r :
  runs (poll args task_id ns) tr (Returned r) → completed_with r tr.
Proof.
  revert tr. induction ns as [|n ns IH]; intros tr Hp; [by destruct Hp|]. cbn [poll] in Hp.
  do 2 rstep Hp. apply rpc_answered in Hr0.
  destruct (decide _) as [Hs|Hs].
  { destruct Hp as [-> [= ->]]. rewrite app_nil_r. split; [by apply answered_after|].
    by destruct (as_str (json_member "status" a0)) as [s|]; simplify_eq/=. }
  destruct (decide _); [by destruct Hp|]. rstep Hp. destruct (IH _ Hp) as [Ha Hst].
  split; [|done]. by repeat apply answered_after.
Qed.

Lemma submit_and_wait_completed args info plan tr r :
  runs (submit_and_wait args info plan) tr (Returned r) → completed_with r tr.
Proof.
  intros Hs. unfold submit_and_wait in Hs. do 3 rstep Hs. destruct (poll_completed _ _ _ _ _ Hs) as [Ha Hst].
  split; [|done]. by repeat apply answered_after.
Qed.

Lemma completed_local {A} r tr1 tr2 (p : agent A) e : completed_with r tr1 →
  local p → runs p tr2 e → completed_with r (tr1 ++ tr2).
Proof. intros [Ha Hs] Hp Hr. split; [by eapply answered_local|done]. Qed.
Lemma completed_after r tr1 tr2 : completed_with r tr2 → completed_with r (tr1 ++ tr2).
Proof. intros [Ha Hs]. split; [by apply answered_after|done]. Qed.

Lemma attempt_loop_completed args info attempts k attempt plan last tr r :
  (attempt + N.of_nat k = attempts + 1)%N → k ≠ 0 →
  runs (attempt_loop args info attempts k attempt plan last) tr (Returned r) → completed_with r tr.
Proof.
  revert attempt plan last tr. induction k as [|k IH]; intros attempt plan last tr Hk Hk0 Hr; [done|].
  cbn [attempt_loop] in Hr. do 2 rstep Hr. apply submit_and_wait_completed in Hr1.
  apply completed_after. apply runs_bind_ret in Hr as (tr3 & an & tr4 & -> & Han & Hr).
  rewrite (assoc (++)). eapply completed_local in Hr1; [|apply analyse_local|exact Han].
  apply runs_bind_ret in Hr as (tr5 & u & tr6 & -> & Hu & Hr). rewrite (assoc (++)).
  eapply (completed_local _ _ tr5) in Hr1; [| |exact Hu]; [|unfold call; solve_local].
  destruct (_ =? _)%Z; [destruct Hr as [-> [= ->]]; by rewrite app_nil_r|].
  destruct (decide _) as [|Hne]; [destruct Hr as [-> [= ->]]; by rewrite app_nil_r|].
  apply runs_bind_ret in Hr as (tr7 & en & tr8 & -> & Hen & Hr). rewrite (assoc (++)).
  eapply (completed_local _ _ tr7) in Hr1; [|apply llm_enabled_local|exact Hen].
  destruct en; [|destruct Hr as [-> [= ->]]; by rewrite app_nil_r].
  apply runs_bind_ret in Hr as (tr9 & p & tr10 & -> & Hp & Hr). rewrite (assoc (++)).
  eapply (completed_local _ _ tr9) in Hr1; [| |exact Hp]; [|apply calls_in_catch, llm_revise_local].
  destruct p as [p|e].
  - apply completed_after. eapply IH; [| |exact Hr]; lia.
  - apply runs_bind_ret in Hr as (tr11 & u' & tr12 & -> & Hu' & [-> [= ->]]). rewrite app_nil_r.
    eapply completed_local; [exact Hr1| |exact Hu']. by split.
Qed.

(** C10: exit status 0 is never invented.  If the agent ends without an error, and is
    not a dry run, then the last line it read from the node reports a completed task
    whose exit code is the number 0; a missing exit code, a timeout, a failed task or
    an unreadable reply cannot end in status 0. *)
Theorem exit_zero_genuine args tr : dry_run args = false → runs (run args) tr (Returned tt) →
  ∃ r, completed_with r tr ∧ as_i64 (json_member "exit_code" r) = Some 0%Z.
Proof.
  intros Hdry Hr. unfold run in Hr. do 2 rstep Hr. destruct a0; [|by destruct Hr].
  do 4 rstep Hr. rewrite Hdry in Hr. unfold submit_attempts in Hr.
  apply runs_bind_ret in Hr as (tr6 & r & tr7 & -> & Hl & Hr).
  apply attempt_loop_completed in Hl; [|lia..].
  apply runs_bind_ret in Hr as (tr8 & u & tr9 & -> & Hj & Hr).
  exists r. destruct (exit_code r =? 0)%Z eqn:Hc; [|by destruct Hr]. destruct Hr as [-> _].
  rewrite app_nil_r. split.
  - do 6 apply completed_after. eapply completed_local; [exact Hl| |exact Hj]. unfold call. solve_local.
  - apply Z.eqb_eq in Hc. unfold exit_code in Hc. destruct (as_i64 _); simplify_eq/=; congruence.
Qed.
End exit_status.

(** ** What is submitted *)

Section runnable.
Context `{JsonTextLaws, UuidText, Base64, DebugText (list string)}.

(** A line written to the node that submits a project submits a command to run. *)
Definition runnable_submission X (c : AgentCall X) : Prop :=
  match c with
  | WriteAll p =>
      match json_parse (trim p) with
      | Ok v => as_str (json_member "method" v) = Some "submit_project" →
                strings_of (json_member "run_cmd" (json_member "params" v)) ≠ []
      | Err _ => True
      end
  | _ => True
  end.

Lemma strings_of_json l : strings_of (json_strings l) = l.
Proof.
  unfold strings_of, json_strings. rewrite json_items_array. induction l as [|s l IH]; [done|].
  cbn [fmap list_fmap omap list_omap as_str]. by f_equal.
Qed.

Lemma heuristic_plan_runnable info : run_cmd (heuristic_plan info) ≠ [].
Proof. unfold heuristic_plan. by repeat case_match. Qed.

Lemma parse_plan_runnable content info p : parse_plan content info = Ok p → run_cmd p ≠ [].
Proof.
  unfold parse_plan. destruct (json_parse _) as [v|]; [|done].
  destruct (run_cmd (plan_of_json v)) eqn:Hr; [done|]. intros [= <-]. by rewrite Hr.
Qed.

Lemma llm_plans_runnable {A} (chat : agent A) content info tr p :
  runs (chat ≫= λ c, of_result (parse_plan (content c) info)) tr (Returned p) → run_cmd p ≠ [].
Proof.
  intros (tr1 & c & tr2 & _ & _ & [_ Hp]%runs_of_result)%runs_bind_ret. by apply parse_plan_runnable in Hp.
Qed.

Lemma initial_plan_runnable args info tr p :
  runs (initial_plan args info) tr (Returned p) → run_cmd p ≠ [].
Proof.
  unfold initial_plan. intros Hr. rstep Hr. destruct a.
  - rstep Hr. apply runs_catch in Hr1. destruct a as [q|e].
    + destruct Hr as [_ [= ->]]. by apply (llm_plans_runnable _ (λ c, c)) in Hr1.
    + rstep Hr. destruct Hr as [_ [= ->]]. apply heuristic_plan_runnable.
  - destruct Hr as [_ [= ->]]. apply heuristic_plan_runnable.
Qed.

Abbreviation good p := (calls_in runnable_submission p).

Lemma local_good {A} (p : agent A) : local p → good p.
Proof.
  induction p as [|X c k IH]; [done|]. intros [Hc Hk]. split; [by destruct c|]. intros x. by apply IH.
Qed.

Lemma rpc_good sock method params :
  (∀ id, runnable_submission _ (WriteAll (rpc_payload method params id))) → good (rpc sock method params).
Proof.
  intros Hp. apply calls_in_bind; [apply local_good, expand_tilde_local|]. intros path.
  apply calls_in_bind; [by apply calls_in_context, calls_in_io|]. intros _.
  apply calls_in_bind; [by split|]. intros id. apply calls_in_bind; [by apply calls_in_io|]. intros _.
  apply calls_in_bind; [by apply calls_in_io|]. intros _. apply calls_in_bind; [by apply calls_in_io|].
  intros line. apply calls_in_of_result.
Qed.

Lemma submit_and_wait_good args info plan : run_cmd plan ≠ [] → good (submit_and_wait args info plan).
Proof.
  intros Hp. apply calls_in_bind.
  { apply rpc_good. intros id. unfold runnable_submission. rewrite parse_payload by apply submit_params_wf.
    intros _. change (strings_of (json_strings (run_cmd plan)) ≠ []). by rewrite strings_of_json. }
  intros res. apply calls_in_bind; [apply calls_in_of_result|]. intros task_id.
  apply calls_in_bind; [by split|]. intros _. generalize (seq 0 POLLS). intros ns.
  induction ns as [|n ns IH]; [done|]. cbn [poll]. apply calls_in_bind; [by split|]. intros _.
  apply calls_in_bind.
  { apply rpc_good. intros id. unfold runnable_submission. by rewrite parse_payload. }
  intros r. destruct (decide _); [done|]. destruct (decide _); [done|].
  apply calls_in_bind; [|done]. destruct (_ && _); by split.
Qed.

Lemma attempt_loop_good args info attempts k attempt plan last : run_cmd plan ≠ [] →
  good (attempt_loop args info attempts k attempt plan last).
Proof.
  revert attempt plan last. induction k as [|k IH]; intros attempt plan last Hp; [done|].
  cbn [attempt_loop]. apply calls_in_bind; [apply local_good; unfold call; solve_local|]. intros _.
  apply calls_in_bind; [by apply submit_and_wait_good|]. intros result.
  apply calls_in_bind; [apply local_good, analyse_local|]. intros analysis.
  apply calls_in_bind; [apply local_good; unfold call; solve_local|]. intros _.
  destruct (_ =? _)%Z; [done|]. destruct (decide _); [done|].
  apply calls_in_bind; [apply local_good, llm_enabled_local|]. intros []; [|done].
  apply calls_in_bind_runs; [apply local_good, calls_in_catch, llm_revise_local|].
  intros tr [p|e] Hr%runs_catch; [|by split]. apply IH. by apply (llm_plans_runnable _ (λ c, c)) in Hr.
Qed.

(** C18: the agent never submits a project without a command to run.  Whatever the
    language model or the workspace suggests, every submission written to the node
    has a non-empty run command: an answer without one is refused, and the fallback
    planner always has one. *)
Theorem submissions_runnable args tr e :
  runs (run args) tr e → Forall (act_in runnable_submission) tr.
Proof.
  apply runs_calls_in. apply calls_in_bind; [apply local_good; solve_local|]. intros root.
  apply calls_in_bind; [by split|]. intros []; [|done].
  apply calls_in_bind; [apply local_good, scan_workspace_local|]. intros info.
  apply calls_in_bind; [apply local_good, llm_config_local|]. intros c.
  apply calls_in_bind; [by split|]. intros _.
  apply calls_in_bind_runs; [apply local_good, initial_plan_local|].
  intros tr' plan Hp%initial_plan_runnable. destruct (dry_run args); [by split|].
  apply calls_in_bind; [by apply attempt_loop_good|]. intros last.
  apply local_good. unfold call. solve_local.
Qed.

(** *** Plans in prose *)

Lemma extract_json_braced p m q :
  find_char "{"%char p = None → find_char "}"%char q = None →
  extract_json (p +:+ ("{" +:+ m +:+ "}") +:+ q) = "{" +:+ m +:+ "}".
Proof.
  rewrite <- (string_of_as_bytes p), <- (string_of_as_bytes q), <- (string_of_as_bytes m).
  generalize (as_bytes p), (as_bytes q), (as_bytes m). clear. intros p q m.
  intros Hp%(find_char_None x7b) Hq%(find_char_None x7d).
  change "{" with (string_of [x7b]). change "}" with (string_of [x7d]). rewrite <- !string_of_app.
  unfold extract_json. change "{"%char with (Ascii.ascii_of_byte x7b). change "}"%char with (Ascii.ascii_of_byte x7d).
  replace (p ++ ([x7b] ++ m ++ [x7d]) ++ q) with (p ++ x7b :: m ++ x7d :: q)
    by (by rewrite <- !(assoc (++))).
  destruct (trim_around p m q) as (w & p' & q' & w' & -> & -> & ->).
  apply not_elem_of_app in Hp as [_ Hp], Hq as [Hq _].
  rewrite find_char_first by done.
  replace (p' ++ x7b :: m ++ x7d :: q') with ((p' ++ x7b :: m) ++ x7d :: q') by by rewrite <- (assoc (++)).
  rewrite rfind_char_last by done. rewrite length_app. cbn [length].
  destruct (Nat.ltb_spec (length p') (length p' + S (length m))); [|lia].
  rewrite substring_bytes, <- (assoc (++)), drop_app_length. f_equal.
  replace (S (length p' + S (length m)) - length p') with (length ((x7b :: m) ++ [x7d]))
    by (rewrite length_app; simpl; lia).
  change (((x7b :: m) ++ x7d :: q')) with ((x7b :: m) ++ ([x7d] ++ q')). rewrite (assoc (++)).
  apply take_app_length.
Qed.

(** The object a language model is asked for. *)
Definition plan_value (plan : Plan) : JsonValue :=
  json_object [("build_cmd", json_strings (build_cmd plan)); ("run_cmd", json_strings (run_cmd plan));
               ("work_dir", JString (work_dir plan))].

(** A plan survives the prose around it.  When a language model answers with the
    JSON object of a plan that has a run command, after any text without an opening
    brace and before any text without a closing one, the agent reads exactly that
    plan. *)
Theorem parse_plan_roundtrip p q plan info :
  run_cmd plan ≠ [] → find_char "{"%char p = None → find_char "}"%char q = None →
  parse_plan (p +:+ json_text (plan_value plan) +:+ q) info = Ok plan.
Proof.
  intros Hrun Hp Hq. destruct (json_text_braces (plan_value plan)) as [m Hm]; [done|].
  unfold parse_plan. rewrite Hm, extract_json_braced, <- Hm by done. rewrite json_parse_text.
  2: { unfold plan_value, json_object. cbn -[json_strings]. by rewrite !json_strings_wf. }
  assert (plan_of_json (plan_value plan) = plan) as ->.
  { unfold plan_of_json.
    change (mkPlan (strings_of (json_strings (build_cmd plan))) (strings_of (json_strings (run_cmd plan)))
      (work_dir plan) = plan). rewrite !strings_of_json. by destruct plan. }
  by destruct (run_cmd plan).
Qed.
End runnable.

(** ** Concrete runs *)

Module DemoAgent.
#[export] Existing Instance brace_text.
#[export] Existing Instance brace_text_laws.
#[export] Existing Instance Toy.uuid_text.
#[export] Instance base64 : Base64 := {|
  base64_encode := String.string_of_list_byte; base64_decode b := Ok b |}.
#[export] Instance debug : DebugText (list string) := {| debug_text := String.concat " " |}.

Definition args : RunArgs := mkRunArgs "/w" "~/ipc.sock" None None 2 false false.

Definition env : gmap string string :=
  {[ "HOME" := "/home"; "EO_LLM_BASE_URL" := "http://llm/v1/"; "EO_LLM_API_KEY" := "k1" ]}.

(** One source file, a language model that cannot be reached; the node answers the
    given lines. *)
Definition answer X (c : AgentCall X) : list string → X * list string :=
  match c in AgentCall X return list string → X * list string with
  | EnvVar k => λ w, (env !! k, w)
  | Canonicalize p => λ w, (Ok p, w)
  | IsDir p => λ w, (bool_decide (p = "/w"), w)
  | ReadDir _ => λ w, (Ok [Ok "main.c"], w)
  | ReadToString _ => λ w, (Err "no such file", w)
  | FileMode _ => λ w, (None, w)
  | RunCurl _ => λ w, (Err "no such program", w)
  | NewUuid => λ w, (5%N, w)
  | Connect _ | WriteAll _ | Flush => λ w, (Ok tt, w)
  | ReadLine => λ w, match w with l :: w => (Ok l, w) | [] => (Ok "", []) end
  | Sleep _ | Stdout _ | Stderr _ => λ w, (tt, w)
  end.

Definition reply (v : JsonValue) : string := json_text (json_object [("jsonrpc", JString "2.0"); ("result", v)]) +:+ nl.
Definition replies : list string :=
  [reply (json_object [("task_id", JString "t")]); reply (json_object [("status", JString "pending")]);
   reply (json_object [("status", JString "completed"); ("exit_code", JNumber 0); ("stdout", JString "hi")])].
Definition ended : ending unit := (exec answer (run args) replies).1.
End DemoAgent.
Import (hints) DemoAgent.

Lemma demo_returns : DemoAgent.ended = Returned tt.
Proof. vm_compute. reflexivity. Qed.

Lemma run_bounded_witness : ∃ tr, runs (run DemoAgent.args) tr DemoAgent.ended ∧ cost submission tr ≤ 2.
Proof.
  destruct (exec_runs DemoAgent.answer (run DemoAgent.args) DemoAgent.replies) as [tr Hr].
  exists tr. split; [exact Hr|]. exact (proj1 (run_bounded DemoAgent.args tr _ Hr)).
Defined.
Lemma exit_zero_genuine_witness : ∃ tr r, runs (run DemoAgent.args) tr (Returned tt) ∧
  completed_with r tr ∧ as_i64 (json_member "exit_code" r) = Some 0%Z.
Proof.
  destruct (exec_runs DemoAgent.answer (run DemoAgent.args) DemoAgent.replies) as [tr Hr].
  assert (runs (run DemoAgent.args) tr (Returned tt)) as Hr' by (rewrite <- demo_returns; exact Hr).
  destruct (exit_zero_genuine DemoAgent.args tr eq_refl Hr') as (r & Hc & Hz).
  exists tr, r. exact (conj Hr' (conj Hc Hz)).
Defined.
Lemma submissions_runnable_witness : ∃ tr, runs (run DemoAgent.args) tr DemoAgent.ended ∧
  Forall (act_in runnable_submission) tr.
Proof.
  destruct (exec_runs DemoAgent.answer (run DemoAgent.args) DemoAgent.replies) as [tr Hr].
  exists tr. exact (conj Hr (submissions_runnable DemoAgent.args tr _ Hr)).
Defined.
Lemma parse_plan_roundtrip_witness :
  parse_plan ("Sure: " +:+ json_text (plan_value (mkPlan [] ["ls"] "/w")) +:+ " Done.") (mkWorkspaceInfo "/w" []) =
  Ok (mkPlan [] ["ls"] "/w").
Proof. apply (parse_plan_roundtrip "Sure: " " Done." (mkPlan [] ["ls"] "/w")); [discriminate|reflexivity..]. Defined.
