(* ===== verification/AgentSecret.v ===== *)
(** * The API key of the agent

    The source promises that the key is passed to curl and never logged.  This is a
    statement about two runs: replacing the key, wherever it comes from, changes
    nothing but the arguments of curl. *)

From S2P Require Import Prelude CoreTypes Interfaces Text Json Effects FileSys Agent AgentRun.
Import (hints) DemoAgent.

Definition secret_keys : list string := ["EO_LLM_API_KEY"; "OPENAI_API_KEY"].
Definition secret (key : string) : bool := bool_decide (key ∈ secret_keys).

(** Both settings are absent or empty, or both are set. *)
Definition both_set (v v' : option string) : Prop := nonempty v = None ↔ nonempty v' = None.
(** Two files that differ in the values of the secret keys only. *)
Definition files_agree (m m' : gmap string string) : Prop :=
  ∀ k, if secret k then both_set (m !! k) (m' !! k) else m !! k = m' !! k.

Section secret.
Context `{JsonText, UuidText, Base64, DebugText (list string)}.
(** Another value for each key found in the environment, another content for each
    configuration file. *)
Context (swap_env swap_file : string → string).
Hypothesis swap_env_set : ∀ v, swap_env v = "" ↔ v = "".
Hypothesis swap_file_agrees : ∀ content, files_agree (config_map content) (config_map (swap_file content)).

Definition swapped {X} (c : AgentCall X) : X → X :=
  match c in AgentCall X return X → X with
  | EnvVar k => if secret k then fmap (M := option) swap_env else λ v, v
  | ReadToString _ => λ r, match r with Ok s => Ok (swap_file s) | Err e => Err e end
  | _ => λ x, x
  end.

#[local] Arguments swapped : simpl never.

Lemma swapped_env key v : swapped (EnvVar key) v = if secret key then swap_env <$> v else v.
Proof. unfold swapped. by destruct (secret key). Qed.

Inductive same_act : act AgentCall → act AgentCall → Prop :=
| same_call X (c : AgentCall X) x : same_act (Act c x) (Act c (swapped c x))
| same_curl args args' x : same_act (Act (RunCurl args) x) (Act (RunCurl args') x).

(** Programs whose runs correspond, with results related by [R]. *)
Inductive hides {A B} (R : A → B → Prop) : agent A → agent B → Prop :=
| hides_ret a b : R a b → hides R (End (Returned a)) (End (Returned b))
| hides_raise e : hides R (End (Raised e)) (End (Raised e))
| hides_exit n : hides R (End (Exited n)) (End (Exited n))
| hides_call X (c : AgentCall X) k k' :
    (∀ x, hides R (k x) (k' (swapped c x))) → hides R (Call c k) (Call c k')
| hides_curl args args' k k' :
    (∀ x, hides R (k x) (k' x)) → hides R (Call (RunCurl args) k) (Call (RunCurl args') k').

Lemma hides_runs {A} (p q : agent A) tr e : hides eq p q → runs p tr e →
  ∃ tr', runs q tr' e ∧ Forall2 same_act tr tr'.
Proof.
  intros Hh. revert tr. induction Hh as [a b <-|m|n|X c k k' _ IH|args args' k k' _ IH]; intros tr; simpl.
  1-3: intros [-> ->]; by exists [].
  - intros (x & tr' & -> & (tr'' & Hr & Hf)%IH). exists (Act c (swapped c x) :: tr'').
    split; [eauto|]. by constructor; [constructor|].
  - intros (x & tr' & -> & (tr'' & Hr & Hf)%IH). exists (Act (RunCurl args') x :: tr'').
    split; [eauto|]. by constructor; [constructor|].
Qed.

Lemma hides_bind {A B A' B'} (R : A → B → Prop) (S : A' → B' → Prop) p q f g :
  hides R p q → (∀ a b, R a b → hides S (f a) (g b)) → hides S (p ≫= f) (q ≫= g).
Proof. intros Hp Hf. induction Hp; simpl; [by apply Hf|by constructor..]. Qed.

Lemma hides_bind_eq {A A' B'} (S : A' → B' → Prop) (p q : agent A) f g :
  hides eq p q → (∀ a, hides S (f a) (g a)) → hides S (p ≫= f) (q ≫= g).
Proof. intros Hp Hf. eapply hides_bind; [exact Hp|]. by intros a _ <-. Qed.

Lemma hides_catch {A} (p q : agent A) : hides eq p q → hides eq (catch p) (catch q).
Proof. induction 1 as [a b <-| | | |]; simpl; by constructor. Qed.

Lemma hides_context {A} msg (p q : agent A) : hides eq p q → hides eq (context msg p) (context msg q).
Proof. induction 1; simpl; by constructor. Qed.

(** Programs that do not ask for a secret. *)
Definition open_call X (c : AgentCall X) : Prop := ∀ x, swapped c x = x.

Lemma hides_refl {A} (p : agent A) : calls_in open_call p → hides eq p p.
Proof.
  induction p as [[]|X c k IH]; simpl; [by constructor..|]. intros [Hc Hk]. constructor. intros x.
  rewrite Hc. by apply IH.
Qed.

Lemma hides_env key {A B} (R : A → B → Prop) k k' :
  secret key = false → (∀ v, hides R (k v) (k' v)) → hides R (Call (EnvVar key) k) (Call (EnvVar key) k').
Proof. intros Hs Hk. constructor. intros v. by rewrite swapped_env, Hs. Qed.

(** *** The settings *)

Lemma pick_env_open keys : forallb (λ k, negb (secret k)) keys = true → hides eq (pick_env keys) (pick_env keys).
Proof.
  intros Hk. induction keys as [|k ks IH]; [by constructor|]. apply andb_true_iff in Hk as [Hk%negb_true_iff Hks].
  apply hides_env; [done|]. intros v. simpl. destruct (nonempty v); [by constructor|by apply IH].
Qed.

Lemma both_set_swap key v : secret key = true → both_set v (swapped (EnvVar key) v).
Proof.
  intros Hk. rewrite swapped_env, Hk. unfold both_set. destruct v as [v|]; [|done]. simpl.
  specialize (swap_env_set v). destruct v, (swap_env _); naive_solver.
Qed.

(** Settings found: none, or two that are not empty. *)
Definition both_found (v v' : option string) : Prop :=
  match v, v' with
  | None, None => True
  | Some a, Some b => a ≠ "" ∧ b ≠ ""
  | _, _ => False
  end.

Lemma both_set_found v v' : both_set v v' → both_found (nonempty v) (nonempty v').
Proof.
  unfold both_set. destruct v as [[]|], v' as [[]|]; simpl; try done; intros [H1' H2'];
    (discriminate (H1' eq_refl) || discriminate (H2' eq_refl)).
Qed.

Lemma pick_env_secret keys : forallb secret keys = true →
  hides both_found (pick_env keys) (pick_env keys).
Proof.
  intros Hk. induction keys as [|k ks IH]; [by constructor|]. apply andb_true_iff in Hk as [Hk Hks].
  apply hides_call. intros v. simpl. pose proof (both_set_found _ _ (both_set_swap k v Hk)) as Hv.
  destruct (nonempty v), (nonempty (swapped _ v)); [by constructor|done..|by apply IH].
Qed.

Lemma pick_file_open m m' keys : files_agree m m' → forallb (λ k, negb (secret k)) keys = true →
  pick_file m keys = pick_file m' keys.
Proof.
  intros Hm Hk. induction keys as [|k ks IH]; [done|]. apply andb_true_iff in Hk as [Hk%negb_true_iff Hks].
  simpl. specialize (Hm k). rewrite Hk in Hm. rewrite Hm. by rewrite IH.
Qed.

Lemma pick_file_secret m m' keys : files_agree m m' → forallb secret keys = true →
  both_found (pick_file m keys) (pick_file m' keys).
Proof.
  intros Hm Hk. induction keys as [|k ks IH]; [done|]. apply andb_true_iff in Hk as [Hk Hks].
  simpl. specialize (Hm k). rewrite Hk in Hm. apply both_set_found in Hm.
  destruct (nonempty (m !! k)), (nonempty (m' !! k)); [done..|by apply IH].
Qed.

Lemma pick_open m m' key aliases : files_agree m m' → forallb (λ k, negb (secret k)) (key :: aliases) = true →
  hides eq (pick m key aliases) (pick m' key aliases).
Proof.
  intros Hm Hk. apply hides_bind_eq; [by apply pick_env_open|]. intros [v|]; constructor; [done|].
  by apply pick_file_open.
Qed.

Lemma pick_secret m m' key aliases : files_agree m m' → forallb secret (key :: aliases) = true →
  hides both_found (pick m key aliases) (pick m' key aliases).
Proof.
  intros Hm Hk. eapply hides_bind; [by apply pick_env_secret|].
  intros [v|] [v'|] Hv; [by constructor|done..|]. constructor. by apply pick_file_secret.
Qed.

Lemma config_path_open : calls_in open_call config_path.
Proof.
  split; [done|]. intros [[|a p]|]; simpl; [|done|]; (split; [done|done]).
Qed.

Lemma read_config_file_hides : hides files_agree read_config_file read_config_file.
Proof.
  eapply hides_bind_eq; [apply hides_refl, config_path_open|]. intros path.
  apply hides_call. intros [content|e].
  - eapply (hides_bind_eq _ (warn_if_public path) (warn_if_public path)).
    + apply hides_refl. split; [done|]. intros [mode|]; simpl; [|done]. destruct (decide _); [done|].
      by split.
    + intros _. constructor. apply swap_file_agrees.
  - constructor. intros k. unfold both_set. by destruct (secret k).
Qed.

(** Configurations that differ in a key that both have or both lack. *)
Definition same_config (c c' : option LlmConfig) : Prop :=
  match c, c' with
  | None, None => True
  | Some c, Some c' => base_url c = base_url c' ∧ model c = model c' ∧ (api_key c = "" ↔ api_key c' = "")
  | _, _ => False
  end.

Lemma llm_config_hides : hides same_config llm_config llm_config.
Proof.
  eapply hides_bind; [apply read_config_file_hides|]. intros m m' Hm.
  eapply hides_bind_eq; [by apply pick_open|]. intros [base|]; [|by constructor].
  eapply hides_bind; [by apply pick_secret|]. intros key key' Hkey.
  eapply hides_bind_eq; [by apply pick_open|]. intros mdl. constructor. simpl. split_and!; [done..|].
  destruct key, key'; simpl in *; naive_solver.
Qed.

Lemma llm_enabled_hides : hides eq llm_enabled llm_enabled.
Proof.
  eapply hides_bind; [apply llm_config_hides|]. intros [c|] [c'|] Hc; try done; by constructor.
Qed.

Lemma llm_chat_hides system user : hides eq (llm_chat system user) (llm_chat system user).
Proof.
  eapply hides_bind; [apply llm_config_hides|].
  intros [c|] [c'|] Hc; try done; [|by constructor]. destruct Hc as (Hb & Hm & Hk).
  eapply hides_bind_eq.
  - apply hides_context, hides_curl. intros r. apply hides_refl, calls_in_of_result.
  - intros out. apply hides_refl. solve_local.
Qed.

(** *** The workflow *)

Ltac solve_open :=
  unfold call;
  repeat first
    [ exact I
    | progress (intros ?)
    | apply calls_in_of_result
    | apply calls_in_io
    | apply calls_in_context
    | apply calls_in_pfold
    | apply calls_in_bind
    | case_match
    | split
    | reflexivity ].

Lemma scan_workspace_open root : calls_in open_call (scan_workspace root).
Proof. eapply calls_in_mono, scan_workspace_scans. by intros X []. Qed.

Lemma rpc_open sock method params : calls_in open_call (rpc sock method params).
Proof. unfold rpc, expand_tilde. solve_open. Qed.

Lemma submit_and_wait_open args info plan : calls_in open_call (submit_and_wait args info plan).
Proof.
  apply calls_in_bind; [apply rpc_open|]. intros res. apply calls_in_bind; [apply calls_in_of_result|].
  intros task_id. apply calls_in_bind; [by split|]. intros _. generalize (seq 0 POLLS). intros ns.
  induction ns as [|n ns IH]; [done|]. cbn [poll]. apply calls_in_bind; [by split|]. intros _.
  apply calls_in_bind; [apply rpc_open|]. intros r. destruct (decide _); [done|]. destruct (decide _); [done|].
  apply calls_in_bind; [|done]. destruct (_ && _); by split.
Qed.

Lemma print_open (b : bool) (c : AgentCall unit) : open_call _ c →
  hides eq (if b then mret tt else call c) (if b then mret tt else call c).
Proof. intros Hc. apply hides_refl. by destruct b; [|split]. Qed.

Lemma catch_chat_hides system user {A B} (f : string → agent A) (S : B → B → Prop) (g : result string A → agent B) :
  (∀ c, hides eq (f c) (f c)) → (∀ r, hides S (g r) (g r)) →
  hides S (catch (llm_chat system user ≫= f) ≫= g) (catch (llm_chat system user ≫= f) ≫= g).
Proof.
  intros Hf Hg. apply hides_bind_eq; [|done]. apply hides_catch.
  apply hides_bind_eq; [apply llm_chat_hides|done].
Qed.

Lemma of_result_hides {A} (r : result string A) : hides eq (of_result r) (of_result r).
Proof. apply hides_refl, calls_in_of_result. Qed.

Lemma initial_plan_hides args info : hides eq (initial_plan args info) (initial_plan args info).
Proof.
  apply hides_bind_eq; [apply llm_enabled_hides|]. intros []; [|by constructor].
  apply catch_chat_hides; [intros; apply of_result_hides|]. intros [p|e]; [by constructor|].
  apply hides_refl. by split.
Qed.

Lemma analyse_hides result : hides eq (analyse result) (analyse result).
Proof.
  apply hides_bind_eq; [apply llm_enabled_hides|]. intros []; [|by constructor].
  apply hides_bind_eq; [apply hides_catch, llm_chat_hides|]. intros r. by constructor.
Qed.

Lemma attempt_loop_hides args info attempts k attempt plan last :
  hides eq (attempt_loop args info attempts k attempt plan last)
    (attempt_loop args info attempts k attempt plan last).
Proof.
  revert attempt plan last. induction k as [|k IH]; intros attempt plan last; [by constructor|].
  cbn [attempt_loop]. apply hides_bind_eq; [by apply print_open|]. intros _.
  apply hides_bind_eq; [apply hides_refl, submit_and_wait_open|]. intros result.
  apply hides_bind_eq; [apply analyse_hides|]. intros analysis.
  apply hides_bind_eq; [by apply print_open|]. intros _.
  destruct (_ =? _)%Z; [by constructor|]. destruct (decide _); [by constructor|].
  apply hides_bind_eq; [apply llm_enabled_hides|]. intros []; [|by constructor].
  apply catch_chat_hides; [intros; apply of_result_hides|]. intros [p|e]; [apply IH|].
  apply hides_refl. by split.
Qed.

Lemma llm_banner_same c c' : same_config c c' → llm_banner c = llm_banner c'.
Proof.
  destruct c as [c|], c' as [c'|]; try done. intros (Hb & Hm & Hk). unfold llm_banner. rewrite Hb, Hm.
  destruct (decide (api_key c = "")), (decide (api_key c' = "")); tauto.
Qed.

Lemma run_hides args : hides eq (run args) (run args).
Proof.
  apply hides_bind_eq; [apply hides_refl, calls_in_context, calls_in_io; done|]. intros root.
  apply hides_bind_eq; [apply hides_refl; by split|]. intros []; [|by constructor].
  apply hides_bind_eq; [apply hides_refl, scan_workspace_open|]. intros info.
  eapply hides_bind; [apply llm_config_hides|]. intros c c' ->%llm_banner_same.
  apply hides_bind_eq; [apply hides_refl; by split|]. intros _.
  apply hides_bind_eq; [apply initial_plan_hides|]. intros plan.
  destruct (dry_run args); [apply hides_refl; by split|].
  apply hides_bind_eq; [apply attempt_loop_hides|]. intros last. apply hides_bind_eq.
  - apply hides_refl. by destruct (json args); [split|].
  - intros _. by destruct (_ =? _)%Z; constructor.
Qed.

(** What a run shows: the lines it prints and the lines it sends to the node. *)
Definition shown (a : act AgentCall) : option string :=
  let 'Act c _ := a in match c with Stdout s | Stderr s | WriteAll s => Some s | _ => None end.

Lemma same_act_shown tr tr' : Forall2 same_act tr tr' → omap shown tr = omap shown tr'.
Proof.
  induction 1 as [|a a' tr tr' Ha _ IH]; [done|]. destruct Ha as [X c x|args args' x]; [|done].
  by destruct c; cbn [omap list_omap shown]; rewrite IH.
Qed.

(** C22: the API key is only ever passed to curl.  Give the agent other keys, in the
    environment and in the configuration file, leaving unset what was unset: for
    every run there is one that makes the same calls with the same answers, the keys
    and the arguments of curl apart, and ends the same way; in particular it prints
    the same lines and sends the same lines to the node. *)
Theorem api_key_not_logged args tr e : runs (run args) tr e →
  ∃ tr', runs (run args) tr' e ∧ Forall2 same_act tr tr' ∧ omap shown tr' = omap shown tr.
Proof.
  intros Hr. destruct (hides_runs _ _ _ _ (run_hides args) Hr) as (tr' & Hr' & Hs).
  exists tr'. split; [done|]. split; [done|]. symmetry. by apply same_act_shown.
Qed.
End secret.

(** ** A concrete run *)

Module DemoSecret.
(** Two keys for the environment and for a configuration file. *)
Definition swap_env (v : string) : string := if decide (v = "k1") then "k2" else v.
Definition swap_file (content : string) : string :=
  if decide (content = "EO_LLM_API_KEY=k1") then "EO_LLM_API_KEY=k2" else content.

Lemma swap_env_set v : swap_env v = "" ↔ v = "".
Proof. unfold swap_env. destruct (decide _) as [->|]; [|done]. by split. Qed.

Lemma swap_file_agrees content : files_agree (config_map content) (config_map (swap_file content)).
Proof.
  unfold swap_file. destruct (decide _) as [->|].
  - intros k. change (config_map "EO_LLM_API_KEY=k1") with (<["EO_LLM_API_KEY" := "k1"]> (∅ : gmap string string)).
    change (config_map "EO_LLM_API_KEY=k2") with (<["EO_LLM_API_KEY" := "k2"]> (∅ : gmap string string)).
    destruct (decide (k = "EO_LLM_API_KEY")) as [->|Hk].
    + rewrite !lookup_insert_eq. simpl. unfold both_set. simpl. by split.
    + rewrite !lookup_insert_ne by done. by destruct (secret k).
  - intros k. by destruct (secret k).
Qed.
End DemoSecret.

Lemma api_key_not_logged_witness : ∃ tr tr', runs (run DemoAgent.args) tr DemoAgent.ended ∧
  runs (run DemoAgent.args) tr' DemoAgent.ended ∧ omap shown tr' = omap shown tr.
Proof.
  destruct (exec_runs DemoAgent.answer (run DemoAgent.args) DemoAgent.replies) as [tr Hr].
  destruct (api_key_not_logged DemoSecret.swap_env DemoSecret.swap_file DemoSecret.swap_env_set
    DemoSecret.swap_file_agrees DemoAgent.args tr _ Hr) as (tr' & Hr' & _ & Hs).
  exists tr, tr'. exact (conj Hr (conj Hr' Hs)).
Defined.
