(* ===== verification/AgentNode.v ===== *)
(** * The agent and its node

    The agent of [Agent] run against the JSON-RPC server of [Ipc]: its calls are
    carried out by a node whose clock advances when the agent sleeps, and to which
    results of tasks arrive over the network at given times. *)

From S2P Require Import Prelude CoreTypes Interfaces Text Json Effects Channels BlobStore.
From S2P Require Import StateMachine Swarm RaftNet Project Ipc FileSys Agent AgentRun.

(** What serde writes and reads of the wire types: a response without the members
    that are [None]. *)
Definition response_value (r : JsonRpcResponse) : JsonValue :=
  json_object ([("jsonrpc", JString (rs_jsonrpc r))] ++
    match rs_result r with Some v => [("result", v)] | None => [] end ++
    match rs_error r with
    | Some e => [("error", json_object [("code", json_int (err_code e)); ("message", JString (err_message e))])]
    | None => []
    end ++ [("id", rs_id r)]).

Class WireLaws `{JsonText, UuidText, SerdeJson JsonRpcRequest, SerdeJson JsonRpcResponse,
    FromValue SubmitProjectParams, FromValue FetchProjectParams} := {
  request_from_text m ps id : json_wf ps = true →
    from_slice (as_bytes (json_text (request_value m ps id))) =
      Ok (mkJsonRpcRequest "2.0" m ps (JString (uuid_to_string id)));
  response_to_text r : json_wf (response_value r) = true →
    ∃ b, to_vec r = Ok b ∧ (x0a ∉ b) ∧ json_parse (trim (string_of (b ++ [x0a]))) = Ok (response_value r);
  from_value_submit dir work build run_cmd timeout target :
    from_value (json_object [("project_dir", JString dir); ("work_dir", JString work);
      ("build_cmd", json_strings build); ("run_cmd", json_strings run_cmd); ("timeout_ms", JNumber timeout);
      ("target_node", match target with Some t => JString t | None => JNull end)]) =
    Ok (mkSubmitProjectParams dir work build run_cmd timeout target);
}.

(** ** A node that carries out the agent's calls

    A request takes no time.  [arrivals] are the results still to come, with the
    times they arrive at; the uuids drawn by the agent and the node are consecutive
    numbers. *)

Record NodeWorld (W T : Type) := mkNodeWorld {
  handler : JsonRpcHandler W T;
  clock : N;
  arrivals : list (N * ProjectResult);
  next_uuid : N;
  inbox : string;
}.
Arguments mkNodeWorld {W T} _ _ _ _ _.
Arguments handler {W T} _.
Arguments clock {W T} _.
Arguments arrivals {W T} _.
Arguments next_uuid {W T} _.
Arguments inbox {W T} _.

Section node.
Context {W T : Type} `{BlobStore W, Tar T, UuidText, HashOrder, FromValue SubmitProjectParams,
  FromValue FetchProjectParams, Base64, JsonText, SerdeJson JsonRpcRequest, SerdeJson JsonRpcResponse}.
Context (seed : N) (env : string → option string).

(** The results that have arrived by [now] are recorded. *)
Definition deliver (now : N) (w : NodeWorld W T) : NodeWorld W T :=
  let h := handler w in
  let due := filter (λ x, (x.1 <= now)%N) (arrivals w) in
  let client c := foldl (λ c x, record_result x.1 x.2 c) c due in
  mkNodeWorld (mkJsonRpcHandler (raft_proposal_tx h) (tasks_completed h) (client <$> project_client h))
    now (filter (λ x, ¬ (x.1 <= now)%N) (arrivals w)) (next_uuid w) (inbox w).

(** The node answers the line in the inbox on a fresh connection. *)
Definition serve_line (w : NodeWorld W T) : result string string * NodeWorld W T :=
  let '(_, (h, tx)) := handle_connection seed (clock w) (next_uuid w) (Ok (read_line (inbox w))) (Ok tt)
                         (handler w, mkSender [] []) in
  (Ok (read_line (string_of (concat (sent tx)))),
   mkNodeWorld h (clock w) (arrivals w) (N.succ (next_uuid w)) "").

Definition serve X (c : AgentCall X) : NodeWorld W T → X * NodeWorld W T :=
  match c in AgentCall X return NodeWorld W T → X * NodeWorld W T with
  | EnvVar k => λ w, (env k, w)
  | NewUuid => λ w, (next_uuid w, mkNodeWorld (handler w) (clock w) (arrivals w) (N.succ (next_uuid w)) (inbox w))
  | Connect _ => λ w, (Ok tt, mkNodeWorld (handler w) (clock w) (arrivals w) (next_uuid w) "")
  | WriteAll s => λ w,
      (Ok tt, mkNodeWorld (handler w) (clock w) (arrivals w) (next_uuid w) (inbox w +:+ s))
  | Flush => λ w, (Ok tt, w)
  | ReadLine => serve_line
  | Sleep ms => λ w, (tt, deliver (clock w + ms * 1000000) w)
  | Canonicalize p => λ w, (Ok p, w)
  | IsDir _ => λ w, (false, w)
  | ReadDir _ => λ w, (Err "no such directory", w)
  | ReadToString _ => λ w, (Err "no such file", w)
  | FileMode _ => λ w, (None, w)
  | RunCurl _ => λ w, (Err "no such program", w)
  | Stdout _ | Stderr _ => λ w, (tt, w)
  end.
End node.

Section lemmas.
Context {W T : Type} `{BlobStoreLaws W, TarLaws T, UuidTextLaws, HashOrderLaws,
  FromValue SubmitProjectParams, FetchProjectParamsLaws, Base64Laws, JsonTextLaws,
  SerdeJson JsonRpcRequest, SerdeJson JsonRpcResponse, !WireLaws}.
Context (seed : N) (env : string → option string).
Implicit Types w : NodeWorld W T.

Lemma exec_expand_tilde p w : ∃ path, exec (serve seed env) (expand_tilde p) w = (Returned path, w).
Proof.
  unfold expand_tilde. destruct (strip_prefix "~/" p); [|by eexists]. simpl. destruct (env "HOME"); by eexists.
Qed.

(** The server reads the request out of the line and writes one line back. *)
Lemma handle_line now tid method params id h resp h' b : json_wf params = true →
  handle seed now tid (mkJsonRpcRequest "2.0" method params (JString (uuid_to_string id))) h =
    (Done (Ok resp), h') →
  to_vec resp = Ok b →
  handle_connection seed now tid (Ok (rpc_payload method params id)) (Ok tt) (h, mkSender [] []) =
    (Done (Ok tt), (h', mkSender [b ++ [x0a]] [])).
Proof.
  intros Hps Hh Hb.
  assert (trim (rpc_payload method params id) = json_text (request_value method params id)) as Ht
    by by apply trim_json_line.
  assert (rpc_payload method params id ≠ "") as Hne by apply nl_not_empty.
  unfold handle_connection. unfold bind at 1, lift_result at 1. cbn [result_map_err].
  destruct (rpc_payload method params id) as [|a line] eqn:Hp; [done|].
  rewrite Ht. unfold bind at 1, lift_result at 1. rewrite request_from_text by done. cbn [result_map_err].
  unfold bind at 1. cbn [fst snd]. rewrite Hh. unfold bind at 1, lift_result at 1. rewrite Hb.
  reflexivity.
Qed.

(** The line that comes back for a request is its response. *)
Lemma serve_request method params id w resp h' : json_wf params = true →
  inbox w = rpc_payload method params id →
  handle seed (clock w) (next_uuid w) (mkJsonRpcRequest "2.0" method params (JString (uuid_to_string id)))
    (handler w) = (Done (Ok resp), h') →
  json_wf (response_value resp) = true →
  ∃ line, serve_line seed w = (Ok line, mkNodeWorld h' (clock w) (arrivals w) (N.succ (next_uuid w)) "") ∧
    json_parse (trim line) = Ok (response_value resp).
Proof.
  intros Hps Hin Hh Hwf. destruct (response_to_text resp Hwf) as (b & Hb & Hnl & Hparse).
  exists (string_of (b ++ [x0a])). split; [|done]. unfold serve_line. rewrite Hin.
  assert (read_line (rpc_payload method params id) = rpc_payload method params id) as ->
    by apply read_line_nl, json_text_line.
  rewrite (handle_line _ _ _ _ _ _ _ _ _ Hps Hh Hb). cbn [sent concat]. rewrite app_nil_r.
  rewrite string_of_app at 1. change (string_of [x0a]) with nl.
  rewrite read_line_nl; [by rewrite string_of_app|].
  change newline with (Ascii.ascii_of_byte x0a). by apply find_char_None.
Qed.

(** A request and its response cross the socket unchanged. *)
Lemma exec_rpc sock method params w resp h' : json_wf params = true →
  handle seed (clock w) (N.succ (next_uuid w))
    (mkJsonRpcRequest "2.0" method params (JString (uuid_to_string (next_uuid w)))) (handler w) =
    (Done (Ok resp), h') →
  json_wf (response_value resp) = true →
  exec (serve seed env) (rpc sock method params) w =
  (match json_get "error" (response_value resp) with
   | Some err => Raised (fmt ["RPC "; method; " failed: "; json_text err])
   | None => Returned (default JNull (json_get "result" (response_value resp)))
   end, mkNodeWorld h' (clock w) (arrivals w) (N.succ (N.succ (next_uuid w))) "").
Proof.
  intros Hps Hh Hwf.
  destruct (serve_request method params (next_uuid w)
    (mkNodeWorld (handler w) (clock w) (arrivals w) (N.succ (next_uuid w)) (rpc_payload method params (next_uuid w)))
    resp h' Hps) as (line & Hl & Hp); [done..|].
  clear Hwf. revert Hp. generalize (response_value resp). intros v Hp.
  unfold rpc. rewrite exec_bind. destruct (exec_expand_tilde sock w) as [path ->]. simpl.
  change ("" +:+ ?p) with p. rewrite Hl. cbn [of_result mret prog_ret prog_bind end_bind].
  unfold rpc_result. rewrite Hp. by destruct (json_get "error" v).
Qed.

Lemma response_wf v id : json_wf v = true → json_wf id = true →
  json_wf (response_value (mkJsonRpcResponse "2.0" (Some v) None id)) = true.
Proof. intros Hv Hid. simpl. by rewrite Hv, Hid. Qed.

(** Fetching a task answers what its state is. *)
Lemma exec_fetch sock task w c : project_client (handler w) = Some c →
  json_wf (answer task (clock w) c) = true →
  exec (serve seed env) (rpc sock "fetch_project_result" (fetch_params (uuid_to_string task))) w =
  (Returned (answer task (clock w) c),
   mkNodeWorld (handler w) (clock w) (arrivals w) (N.succ (N.succ (next_uuid w))) "").
Proof.
  intros Hc Hwf. erewrite exec_rpc; [| |apply (handle_fetch seed _ _ task _ _ c Hc)|by apply response_wf]; done.
Qed.

Lemma json_int_wf z : (- 2 ^ 63 ≤ z < 2 ^ 63)%Z → json_wf (json_int z) = true.
Proof.
  intros Hz. unfold json_int. destruct (Z.ltb_spec z 0); simpl.
  - apply andb_true_iff. split; [apply N.ltb_lt|apply N.leb_le]; lia.
  - apply N.ltb_lt. lia.
Qed.

(** A result whose numbers are those of the Rust type. *)
Definition result_typed (r : ProjectResult) : Prop :=
  (- 2 ^ 31 ≤ pr_exit_code r < 2 ^ 31)%Z ∧ (pr_execution_time_ms r < 2 ^ 64)%N.

Lemma completed_wf r : result_typed r → json_wf (completed r) = true.
Proof.
  intros [Hc Ht]. unfold completed, json_object. cbn -[json_int json_wf].
  assert (json_wf (json_int (pr_exit_code r)) = true) as Hi by (apply json_int_wf; lia).
  assert (json_wf (JNumber (pr_execution_time_ms r)) = true) as Hn by by apply N.ltb_lt.
  cbn -[json_int] in *. by rewrite Hi, Hn.
Qed.

(** *** Arrivals *)

Lemma record_others l id (c : ProjectClient W T) : (∀ x, x ∈ l → pr_task_id x.2 ≠ id) →
  let c' := foldl (λ c x, record_result x.1 x.2 c) c l in
  tasks c' !! id = tasks c !! id ∧ results c' !! id = results c !! id.
Proof.
  revert c. induction l as [|x l IH]; intros c Hl; [done|]. simpl.
  destruct (IH (record_result x.1 x.2 c)) as [-> ->].
  { intros y Hy. apply Hl. by right. }
  assert (pr_task_id x.2 ≠ id) by (apply Hl; left). unfold record_result. simpl.
  by rewrite !lookup_insert_ne.
Qed.

Lemma record_mine l id T' r (c : ProjectClient W T) : (T', r) ∈ l → pr_task_id r = id →
  (∀ x, x ∈ l → pr_task_id x.2 = id → x.2 = r) →
  let c' := foldl (λ c x, record_result x.1 x.2 c) c l in
  (∃ T'', tasks c' !! id = Some (TaskDone, T'')) ∧ results c' !! id = Some r.
Proof.
  intros Hin Hid. induction l as [|x l IH] using rev_ind; intros Hl; [by apply not_elem_of_nil in Hin|].
  simpl. rewrite foldl_app. simpl. destruct (decide (pr_task_id x.2 = id)) as [Hx|Hx].
  - assert (x.2 = r) as -> by (apply Hl; [apply elem_of_app; right; left|done]).
    unfold record_result. simpl. rewrite Hid, !lookup_insert_eq. eauto.
  - apply elem_of_app in Hin as [Hin|Hin%list_elem_of_singleton]; [|by subst x].
    destruct IH as [[T'' Ht] Hr]; [done| |].
    { intros y Hy. apply Hl, elem_of_app. by left. }
    unfold record_result. simpl. rewrite !lookup_insert_ne by done. eauto.
Qed.

(** The task is tracked and has no result yet. *)
Definition tracked (id : TaskId) (t0 : N) (w : NodeWorld W T) : Prop :=
  ∃ c, project_client (handler w) = Some c ∧ tasks c !! id = Some (Dispatched, t0) ∧ results c !! id = None.

(** The commands the node has sent, and its store. *)
Definition outbox (w : NodeWorld W T) : option (Sender SwarmCommand * Disk W T) :=
  (λ c, (swarm_commands c, store c)) <$> project_client (handler w).

Lemma record_outbox l (c : ProjectClient W T) :
  let c' := foldl (λ c x, record_result x.1 x.2 c) c l in
  swarm_commands c' = swarm_commands c ∧ store c' = store c.
Proof. revert c. induction l as [|x l IH]; intros c; [done|]. apply (IH (record_result x.1 x.2 c)). Qed.

Lemma deliver_outbox now w : outbox (deliver now w) = outbox w.
Proof.
  unfold outbox, deliver. simpl. destruct (project_client (handler w)) as [c|]; [|done]. simpl.
  by destruct (record_outbox (filter (λ x, (x.1 <= now)%N) (arrivals w)) c) as [-> ->].
Qed.

Definition POLL : N := POLL_MILLIS * 1000000.

(** What the node answers at [now] before the result has arrived. *)
Lemma answer_pending now id w t0 : tracked id t0 w →
  (∀ x, x ∈ arrivals w → (x.1 <= now)%N → pr_task_id x.2 ≠ id) → (now - t0 <= RESULT_GRACE)%N →
  tracked id t0 (deliver now w) ∧
  ∃ c, project_client (handler (deliver now w)) = Some c ∧ answer id now c = pending.
Proof.
  intros (c & Hc & Ht & Hr) Hno Hgrace.
  assert (∃ c', project_client (handler (deliver now w)) = Some c' ∧ tasks c' !! id = Some (Dispatched, t0) ∧
    results c' !! id = None) as (c' & Hc' & Ht' & Hr').
  { eexists. split; [simpl; by rewrite Hc|].
    destruct (record_others (filter (λ x, (x.1 <= now)%N) (arrivals w)) id c) as [-> ->]; [|done].
    intros x [Hx Hin]%list_elem_of_filter. by apply Hno. }
  split; [by exists c'|]. exists c'. split; [done|]. unfold answer, task_status, get_result. rewrite Ht', Hr'.
  destruct (N.ltb_spec RESULT_GRACE (now - t0)); [lia|done].
Qed.

(** And when it has. *)
Lemma answer_completed now id w t0 T' r : tracked id t0 w →
  (T', r) ∈ arrivals w → (T' <= now)%N → pr_task_id r = id →
  (∀ x, x ∈ arrivals w → pr_task_id x.2 = id → x.2 = r) →
  ∃ c, project_client (handler (deliver now w)) = Some c ∧ answer id now c = completed r.
Proof.
  intros (c & Hc & Ht & Hr) Hin Hdue Hid Huniq.
  destruct (record_mine (filter (λ x, (x.1 <= now)%N) (arrivals w)) id T' r c) as [[T'' Ht'] Hr'].
  - by apply list_elem_of_filter.
  - done.
  - intros x [_ Hx]%list_elem_of_filter. by apply Huniq.
  - eexists. split; [simpl; by rewrite Hc|]. unfold answer, task_status, get_result. by rewrite Ht', Hr'.
Qed.

(** A poll before the result arrives. *)
Lemma poll_pending args id n ns w t0 : tracked id t0 w →
  (∀ x, x ∈ arrivals w → (x.1 <= clock w + POLL)%N → pr_task_id x.2 ≠ id) →
  (clock w + POLL - t0 <= RESULT_GRACE)%N →
  ∃ w', exec (serve seed env) (poll args (uuid_to_string id) (n :: ns)) w =
        exec (serve seed env) (poll args (uuid_to_string id) ns) w' ∧
    tracked id t0 w' ∧ clock w' = (clock w + POLL)%N ∧
    arrivals w' = filter (λ x, ¬ (x.1 <= clock w + POLL)%N) (arrivals w) ∧ outbox w' = outbox w.
Proof.
  intros Htr Hno Hgrace. set (now := (clock w + POLL)%N) in *. set (w1 := deliver now w).
  destruct (answer_pending now id w t0 Htr Hno Hgrace) as (Htr' & c' & Hc' & Hans).
  exists (mkNodeWorld (handler w1) now (arrivals w1) (N.succ (N.succ (next_uuid w1))) "").
  split; [|split_and!; [done..|apply deliver_outbox]].
  cbn [poll]. rewrite exec_bind. cbn [exec call serve]. change (clock w + POLL_MILLIS * 1000000)%N with now.
  fold w1. cbn [end_bind]. rewrite exec_bind, (exec_fetch _ _ w1 c' Hc')
    by (change (clock w1) with now; by rewrite Hans).
  change (clock w1) with now. rewrite Hans. cbn [end_bind].
  rewrite !decide_False by done. rewrite exec_bind.
  by destruct ((_ =? _) && _).
Qed.

(** A poll after it has arrived. *)
Lemma poll_done args id n ns w t0 T' r : tracked id t0 w →
  (T', r) ∈ arrivals w → (T' <= clock w + POLL)%N → pr_task_id r = id →
  (∀ x, x ∈ arrivals w → pr_task_id x.2 = id → x.2 = r) → result_typed r →
  ∃ w', exec (serve seed env) (poll args (uuid_to_string id) (n :: ns)) w = (Returned (completed r), w') ∧
    outbox w' = outbox w.
Proof.
  intros Htr Hin Hdue Hid Huniq Htyped. set (now := (clock w + POLL)%N) in *. set (w1 := deliver now w).
  destruct (answer_completed now id w t0 T' r Htr Hin Hdue Hid Huniq) as (c' & Hc' & Hans).
  exists (mkNodeWorld (handler w1) now (arrivals w1) (N.succ (N.succ (next_uuid w1))) "").
  split; [|apply deliver_outbox]. cbn [poll]. rewrite exec_bind. cbn [exec call serve].
  change (clock w + POLL_MILLIS * 1000000)%N with now.
  fold w1. cbn [end_bind].
  rewrite exec_bind, (exec_fetch _ _ w1 c' Hc')
    by (change (clock w1) with now; rewrite Hans; by apply completed_wf).
  change (clock w1) with now. rewrite Hans. cbn [end_bind]. rewrite decide_True by done. reflexivity.
Qed.

(** Polling until the result arrives. *)
Lemma poll_result args id ns w t0 T' r : tracked id t0 w →
  (T', r) ∈ arrivals w → (clock w < T' <= clock w + N.of_nat (length ns) * POLL)%N → pr_task_id r = id →
  (∀ x, x ∈ arrivals w → pr_task_id x.2 = id → x = (T', r)) → result_typed r →
  (clock w + N.of_nat (length ns) * POLL - t0 <= RESULT_GRACE)%N →
  ∃ w', exec (serve seed env) (poll args (uuid_to_string id) ns) w = (Returned (completed r), w') ∧
    outbox w' = outbox w.
Proof.
  revert w. induction ns as [|n ns IH]; intros w Htr Hin HT Hid Huniq Htyped Hg; [simpl in HT; lia|].
  cbn [length] in HT, Hg. rewrite Nat2N.inj_succ in HT, Hg.
  destruct (N.leb_spec T' (clock w + POLL)) as [Hdue|Hlate].
  - eapply poll_done; try done. intros x Hx Hx2. by rewrite (Huniq x Hx Hx2).
  - destruct (poll_pending args id n ns w t0) as (w' & -> & Htr' & Hcl & Harr & <-); [done| |lia|].
    { intros x Hx Hxd Hx2. rewrite (Huniq x Hx Hx2) in Hxd. simpl in Hxd. lia. }
    apply IH; try done; rewrite ?Hcl, ?Harr.
    + apply list_elem_of_filter. split; [simpl; lia|done].
    + lia.
    + intros x [_ Hx]%list_elem_of_filter. by apply Huniq.
    + lia.
Qed.

(** Polling in vain. *)
Lemma poll_timeout args id ns w t0 : tracked id t0 w → (∀ x, x ∈ arrivals w → pr_task_id x.2 ≠ id) →
  (clock w + N.of_nat (length ns) * POLL - t0 <= RESULT_GRACE)%N →
  ∃ w', exec (serve seed env) (poll args (uuid_to_string id) ns) w =
      (Raised (timeout_msg (uuid_to_string id)), w') ∧
    tracked id t0 w' ∧ clock w' = (clock w + N.of_nat (length ns) * POLL)%N.
Proof.
  revert w. induction ns as [|n ns IH]; intros w Htr Hno Hg.
  { exists w. split; [done|]. split; [done|]. simpl. lia. }
  cbn [length] in Hg. rewrite Nat2N.inj_succ in Hg.
  destruct (poll_pending args id n ns w t0) as (w' & -> & Htr' & Hcl & Harr & _); [done|by eauto|lia|].
  destruct (IH w') as (w2 & Hw2 & Htr2 & Hcl2); rewrite ?Hcl, ?Harr; try done; [|lia|].
  { intros x [_ Hx]%list_elem_of_filter. by apply Hno. }
  exists w2. split; [done|]. split; [done|]. rewrite Hcl2, Hcl. cbn [length]. lia.
Qed.

(** ** Submitting *)

Section submission.
(** A workspace the node can pack on a healthy store, for an executor it can reach. *)
Context (args : RunArgs) (info : WorkspaceInfo) (plan : Plan) (w : NodeWorld W T) (c : ProjectClient W T).
Context (target : option NodeId) (t : T) (b : tar_builder) (d : bytes) (peer : PeerId).
Hypothesis node_client : project_client (handler w) = Some c.
Hypothesis new_task : results c !! N.succ (next_uuid w) = None.
Hypothesis target_parses :
  match target_node args with
  | Some text => ∃ u, uuid_parse text = Ok u ∧ target = Some u
  | None => target = None
  end.
Hypothesis packable : dirs (store c) !! lossy (ws_root info) = Some t ∧
  append_dir_all (Some t) = Ok b ∧ into_inner b = Ok d.
Hypothesis storable : bs_healthy (cas (store c)) ∧ bs_adm d.
Hypothesis reachable : resolve_peer seed target c = Ok peer ∧ chan_ready (swarm_commands c) = true.

(** The id the node draws for the task. *)
Definition submitted : TaskId := N.succ (next_uuid w).

(** The task sent for the snapshot [h] of the workspace. *)
Definition agent_task (h : Hash) : ProjectTask :=
  task_of submitted (from_hash h) (work_dir plan) (build_cmd plan) (run_cmd plan) 900000 target.

Lemma exec_submit : ∃ w' h, tracked submitted (clock w) w' ∧ clock w' = clock w ∧ arrivals w' = arrivals w ∧
  (∃ c', project_client (handler w') = Some c' ∧
     sent (swarm_commands c') = sent (swarm_commands c) ++ [SendProjectTask peer (agent_task h)] ∧
     bs_holds (cas (store c')) h d ∧ bs_healthy (cas (store c'))) ∧
  exec (serve seed env) (submit_and_wait args info plan) w =
  exec (serve seed env) (poll args (uuid_to_string submitted) (seq 0 POLLS)) w'.
Proof.
  destruct packable as (Hdir & Ha & Hi), storable as [Hs Hadm], reachable as [Hpeer Htx].
  destruct (handle_submit seed (clock w) submitted
    (mkJsonRpcRequest "2.0" "submit_project" (submit_params args info plan) (JString (uuid_to_string (next_uuid w))))
    (mkSubmitProjectParams (lossy (ws_root info)) (work_dir plan) (build_cmd plan) (run_cmd plan) 900000
       (target_node args)) target t b d peer (handler w) c)
    as (h' & c' & h & Hh & Hc' & Hr' & Hsent & Hheld); try done; [apply from_value_submit|].
  assert (exec (serve seed env) (rpc (socket args) "submit_project" (submit_params args info plan)) w =
    (Returned (json_object [("task_id", JString (uuid_to_string submitted))]),
     mkNodeWorld h' (clock w) (arrivals w) (N.succ (N.succ (next_uuid w))) "")) as Hrpc.
  { erewrite exec_rpc; [| |exact Hh|by apply response_wf]; [done|apply submit_params_wf]. }
  exists (mkNodeWorld h' (clock w) (arrivals w) (N.succ (N.succ (next_uuid w))) ""), h.
  split; [|split; [done|split; [done|split]]].
  - exists (submit_track submitted (clock w) c'). split; [done|]. simpl. by rewrite lookup_insert_eq.
  - by eexists.
  - unfold submit_and_wait. rewrite exec_bind, Hrpc. cbn [end_bind]. reflexivity.
Qed.

(** What the executor reports is what the agent reports.  The agent submits a
    project over the node's socket, which sends one task and keeps its snapshot;
    when exactly one result for the task arrives within 30 minutes, the agent's
    polling returns it: the exit code is that of the executor, and both output
    streams are its bytes, decoded as UTF-8. *)
Lemma agent_reports_result T' r :
  (T', r) ∈ arrivals w → pr_task_id r = submitted →
  (∀ x, x ∈ arrivals w → pr_task_id x.2 = submitted → x = (T', r)) → result_typed r →
  (clock w < T' <= clock w + from_secs 1800)%N →
  ∃ h c' v w', exec (serve seed env) (submit_and_wait args info plan) w = (Returned v, w') ∧
    project_client (handler w') = Some c' ∧
    sent (swarm_commands c') = sent (swarm_commands c) ++ [SendProjectTask peer (agent_task h)] ∧
    bs_healthy (cas (store c')) ∧ bs_holds (cas (store c')) h d ∧
    as_str (json_member "status" v) = Some "completed" ∧
    exit_code v = pr_exit_code r ∧
    output "stdout" v = from_utf8_lossy (pr_stdout r) ∧
    output "stderr" v = from_utf8_lossy (pr_stderr r).
Proof.
  intros Hin Hid Huniq Htyped HT. destruct exec_submit as (w1 & h & Htr & Hcl & Harr & (c1 & Hc1 & Hsent & Hheld & Hok) & ->).
  destruct (poll_result args submitted (seq 0 POLLS) w1 (clock w) T' r) as (w' & Hw' & Hbox);
    rewrite ?Harr, ?Hcl, ?length_seq; try done.
  { replace (N.of_nat POLLS * POLL)%N with (from_secs 1800) by (by vm_compute).
    transitivity (from_secs 1800); [lia|by vm_compute]. }
  assert (∃ c', project_client (handler w') = Some c' ∧ swarm_commands c' = swarm_commands c1 ∧
    store c' = store c1) as (c' & Hc' & Hcmd & Hst).
  { unfold outbox in Hbox. rewrite Hc1 in Hbox. destruct (project_client (handler w')) as [c'|]; [|done].
    injection Hbox as ? ?. by exists c'. }
  exists h, c', (completed r), w'. rewrite Hcmd, Hst. do 6 (split; [done|]). split; [|split].
  - unfold exit_code. change (json_member "exit_code" (completed r)) with (json_int (pr_exit_code r)).
    destruct Htyped. rewrite as_i64_json_int by lia. done.
  - unfold output, decode. change (json_member "stdout" (completed r)) with (JString (base64_encode (pr_stdout r))).
    cbn [as_str from_option id]. by rewrite base64_decode_encode.
  - unfold output, decode. change (json_member "stderr" (completed r)) with (JString (base64_encode (pr_stderr r))).
    cbn [as_str from_option id]. by rewrite base64_decode_encode.
Qed.

End submission.
End lemmas.

(** ** Concrete runs *)

Module DemoNode.
#[export] Existing Instance MemStore.mem_store.
#[export] Existing Instance MemStore.mem_store_laws.
#[export] Existing Instance Toy.hash_order.
#[export] Existing Instance Toy.hash_order_laws.
#[export] Existing Instance Toy.uuid_text.
#[export] Existing Instance Toy.uuid_text_laws.
#[export] Existing Instance DemoProject.tar.
#[export] Existing Instance DemoProject.tar_laws.
#[export] Existing Instance brace_text.
#[export] Existing Instance brace_text_laws.
#[export] Existing Instance DemoIpc.fetch_params.
#[export] Existing Instance DemoIpc.fetch_params_laws.
#[export] Existing Instance DemoIpc.base64.
#[export] Instance base64_laws : Base64Laws.
Proof. split. intros b. simpl. by rewrite as_bytes_string_of. Qed.

Definition text (v : JsonValue) : string := default "" (as_str v).
#[export] Instance submit_params : FromValue SubmitProjectParams := {|
  from_value v := Ok (mkSubmitProjectParams (text (json_member "project_dir" v)) (text (json_member "work_dir" v))
    (strings_of (json_member "build_cmd" v)) (strings_of (json_member "run_cmd" v))
    (default default_timeout (as_u64 (json_member "timeout_ms" v))) (as_str (json_member "target_node" v))) |}.
#[export] Instance request_json : SerdeJson JsonRpcRequest := {|
  to_vec r := Ok (as_bytes (json_text (json_object [("jsonrpc", JString (rq_jsonrpc r));
    ("method", JString (rq_method r)); ("params", rq_params r); ("id", rq_id r)])));
  from_slice b :=
    match json_parse (string_of b) with
    | Ok v => Ok (mkJsonRpcRequest (text (json_member "jsonrpc" v)) (text (json_member "method" v))
                    (json_member "params" v) (json_member "id" v))
    | Err e => Err e
    end |}.
#[export] Instance response_json : SerdeJson JsonRpcResponse := {|
  to_vec r := Ok (as_bytes (json_text (response_value r)));
  from_slice _ := Err "not read" |}.

#[export] Instance wire_laws : WireLaws.
Proof.
  split.
  - intros m ps id Hps. cbn [from_slice request_json]. rewrite string_of_as_bytes, json_parse_text; [done|].
    simpl. by rewrite Hps.
  - intros r Hr. eexists. split; [reflexivity|]. split.
    + apply find_char_None. rewrite string_of_as_bytes. apply json_text_line.
    + rewrite string_of_app, string_of_as_bytes. change (string_of [x0a]) with nl.
      rewrite trim_json_line by done. by apply json_parse_text.
  - intros dir work build run_cmd timeout target. cbn [from_value submit_params].
    change (Ok (mkSubmitProjectParams dir work (strings_of (json_strings build)) (strings_of (json_strings run_cmd))
      timeout (as_str match target with Some t => JString t | None => JNull end)) =
      (Ok (mkSubmitProjectParams dir work build run_cmd timeout target) : result string _)).
    rewrite !strings_of_json. by destruct target.
Qed.

Definition info : WorkspaceInfo := mkWorkspaceInfo "/src" ["main.c"].
Definition plan : Plan := mkPlan [] ["./app"] "/root/project".
Definition world (arrivals : list (N * ProjectResult)) : NodeWorld (gmap Hash bytes) bytes :=
  mkNodeWorld DemoIpc.handler 0 arrivals 10 "".
Definition env (key : string) : option string := None.
Definition submits (arrivals : list (N * ProjectResult)) : ending JsonValue :=
  (exec (serve 0 env) (submit_and_wait DemoAgent.args info plan) (world arrivals)).1.
End DemoNode.
Import (hints) DemoNode.

