(* ===== verification/Node.v ===== *)
(** * The node and its event monitor (crates/node/src/bootstrap.rs)

    The parts of a node share their state: one object store, one command channel to
    the swarm loop, one registry of raft ids, one map of known peers.  The node
    keeps each of them once; the fetcher and the project client are views of it. *)

From S2P Require Import Prelude CoreTypes Interfaces Channels BlobStore.
From S2P Require Import StateMachine Swarm RaftNet CasFetch Project.

(** [CasBlobProvider::get_blob]: any error of the store is an absent blob. *)
Definition cas_blob_provider {W} `{BlobStore W} (w : W) (hash : Hash) : outcome string (option bytes) :=
  match (bs_get hash w).1 with
  | Done r => Done (Ok (result_ok r))
  | Panic why => Panic why
  end.

(** ** The node *)

(** [nd_raft_state] is the replicated state a raft participant shares with its
    client; a light client has none.  The last groups of fields belong to the project
    client and to the fetcher. *)
Record Node (W T : Type) := mkNode {
  nd_descriptor : NodeDescriptor;
  nd_commands : Sender SwarmCommand;
  nd_store : W;
  nd_registry : RaftIdRegistry;
  nd_raft_incoming : Sender RaftEnvelope;
  nd_peer_addrs : gmap PeerId Multiaddr;
  nd_bootstrap_addrs : list Multiaddr;
  nd_known_peers : gmap PeerId NodeDescriptor;
  nd_raft_state : option ClusterState;
  nd_dirs : gmap string T;
  nd_results : gmap TaskId ProjectResult;
  nd_tasks : gmap TaskId (TaskState * N);
  nd_waiters : gmap Hash (list N);
  nd_fetches : gmap N Fetch;
  nd_next_fetch : N;
}.
Arguments mkNode {W T} _ _ _ _ _ _ _ _ _ _ _ _ _ _ _.
Arguments nd_descriptor {W T} _.
Arguments nd_commands {W T} _.
Arguments nd_store {W T} _.
Arguments nd_registry {W T} _.
Arguments nd_raft_incoming {W T} _.
Arguments nd_peer_addrs {W T} _.
Arguments nd_bootstrap_addrs {W T} _.
Arguments nd_known_peers {W T} _.
Arguments nd_raft_state {W T} _.
Arguments nd_dirs {W T} _.
Arguments nd_results {W T} _.
Arguments nd_tasks {W T} _.
Arguments nd_waiters {W T} _.
Arguments nd_fetches {W T} _.
Arguments nd_next_fetch {W T} _.

Section node.
Context {W T : Type} `{BlobStore W, Tar T, UuidText, HashOrder}.
Implicit Types n : Node W T.

Definition set_nd_commands (c : Sender SwarmCommand) n : Node W T :=
  mkNode (nd_descriptor n) c (nd_store n) (nd_registry n) (nd_raft_incoming n) (nd_peer_addrs n)
    (nd_bootstrap_addrs n) (nd_known_peers n) (nd_raft_state n) (nd_dirs n) (nd_results n) (nd_tasks n)
    (nd_waiters n) (nd_fetches n) (nd_next_fetch n).
Definition set_nd_registry (r : RaftIdRegistry) n : Node W T :=
  mkNode (nd_descriptor n) (nd_commands n) (nd_store n) r (nd_raft_incoming n) (nd_peer_addrs n)
    (nd_bootstrap_addrs n) (nd_known_peers n) (nd_raft_state n) (nd_dirs n) (nd_results n) (nd_tasks n)
    (nd_waiters n) (nd_fetches n) (nd_next_fetch n).
Definition set_nd_incoming (c : Sender RaftEnvelope) n : Node W T :=
  mkNode (nd_descriptor n) (nd_commands n) (nd_store n) (nd_registry n) c (nd_peer_addrs n)
    (nd_bootstrap_addrs n) (nd_known_peers n) (nd_raft_state n) (nd_dirs n) (nd_results n) (nd_tasks n)
    (nd_waiters n) (nd_fetches n) (nd_next_fetch n).
Definition set_nd_peer_addrs (m : gmap PeerId Multiaddr) n : Node W T :=
  mkNode (nd_descriptor n) (nd_commands n) (nd_store n) (nd_registry n) (nd_raft_incoming n) m
    (nd_bootstrap_addrs n) (nd_known_peers n) (nd_raft_state n) (nd_dirs n) (nd_results n) (nd_tasks n)
    (nd_waiters n) (nd_fetches n) (nd_next_fetch n).
Definition set_nd_known_peers (m : gmap PeerId NodeDescriptor) n : Node W T :=
  mkNode (nd_descriptor n) (nd_commands n) (nd_store n) (nd_registry n) (nd_raft_incoming n) (nd_peer_addrs n)
    (nd_bootstrap_addrs n) m (nd_raft_state n) (nd_dirs n) (nd_results n) (nd_tasks n)
    (nd_waiters n) (nd_fetches n) (nd_next_fetch n).
(** What the raft task applies to the state it shares. *)
Definition set_nd_raft_state (s : ClusterState) n : Node W T :=
  mkNode (nd_descriptor n) (nd_commands n) (nd_store n) (nd_registry n) (nd_raft_incoming n) (nd_peer_addrs n)
    (nd_bootstrap_addrs n) (nd_known_peers n) (Some s) (nd_dirs n) (nd_results n) (nd_tasks n)
    (nd_waiters n) (nd_fetches n) (nd_next_fetch n).

(** *** The views *)

Definition fetcher_of n : BlobFetcher (W := W) :=
  mkBlobFetcher (nd_store n) (nd_commands n) (nd_registry n) (nd_waiters n) (nd_fetches n) (nd_next_fetch n).
Definition put_fetcher (f : BlobFetcher) n : Node W T :=
  mkNode (nd_descriptor n) (CasFetch.commands f) (CasFetch.store f) (raft_registry f) (nd_raft_incoming n) (nd_peer_addrs n)
    (nd_bootstrap_addrs n) (nd_known_peers n) (nd_raft_state n) (nd_dirs n) (nd_results n) (nd_tasks n)
    (waiters f) (fetches f) (next_fetch f).

Definition catalog_of n : Catalog :=
  match nd_raft_state n with
  | Some state => CatalogRaft state (nd_registry n)
  | None => CatalogPeers (nd_known_peers n)
  end.
Definition client_of n : ProjectClient W T :=
  mkProjectClient (nd_commands n) (catalog_of n) (nd_results n) (mkDisk (nd_store n) (nd_dirs n)) (nd_tasks n)
    (node_id (nd_descriptor n)).
Definition put_client (c : ProjectClient W T) n : Node W T :=
  mkNode (nd_descriptor n) (Project.swarm_commands c) (cas (Project.store c)) (nd_registry n)
    (nd_raft_incoming n) (nd_peer_addrs n) (nd_bootstrap_addrs n) (nd_known_peers n) (nd_raft_state n)
    (dirs (Project.store c)) (results c) (tasks c) (nd_waiters n) (nd_fetches n) (nd_next_fetch n).

Definition with_fetcher {E A} (m : M BlobFetcher E A) : M (Node W T) E A := λ n,
  let '(o, f) := m (fetcher_of n) in (o, put_fetcher f n).
Definition with_project_client {E A} (m : M (ProjectClient W T) E A) : M (Node W T) E A := λ n,
  let '(o, c) := m (client_of n) in (o, put_client c n).
Definition modify (f : Node W T → Node W T) : M (Node W T) CoreError unit := λ n, (Done (Ok tt), f n).

(** What the loop of a node is configured with: it answers blob requests from the
    store the node has at the time. *)
Definition config_of (peer_id : PeerId) (executes : bool) n : Config :=
  mkConfig peer_id (nd_descriptor n) (nd_bootstrap_addrs n) (Some (cas_blob_provider (nd_store n))) executes.

(** ** [run_event_monitor] *)

(** [let _ = self.swarm.commands.send(c).await]. *)
Definition send_swarm (c : SwarmCommand) : M (Node W T) CoreError unit :=
  ignore_err (λ n, let '(o, tx) := chan_send c (nd_commands n) in (o, set_nd_commands tx n)).
Definition send_raft (e : RaftEnvelope) : M (Node W T) CoreError unit :=
  ignore_err (λ n, let '(o, tx) := chan_send e (nd_raft_incoming n) in (o, set_nd_incoming tx n)).

(** [now] is the clock when the event is handled. *)
Definition on_event (now : N) (ev : Event) : M (Node W T) CoreError unit :=
  match ev with
  | PeerDiscovered peer_id address =>
      let! _ := modify (λ n, set_nd_peer_addrs (<[peer_id := address]> (nd_peer_addrs n)) n) in
      send_swarm (Dial address)
  | PeerConnected peer_id => send_swarm (RequestDescriptor peer_id)
  | PeerExpired _ => ret tt
  | DescriptorReceived peer_id descriptor =>
      let! _ := match raft_id descriptor with
                | Some raft_id => modify (λ n, set_nd_registry (registry_insert raft_id peer_id (nd_registry n)) n)
                | None => ret tt
                end in
      modify (λ n, set_nd_known_peers (<[peer_id := descriptor]> (nd_known_peers n)) n)
  | BlobRequestReceived _ _ => ret tt
  | BlobResponseReceived _ hash found data =>
      let! _ := with_fetcher (on_blob_received hash found data) in ret tt
  | ProjectResultReceived _ result => modify (λ n, put_client (record_result now result (client_of n)) n)
  | RaftMessageReceived _ data => send_raft (envelope_from_data data)
  | DescriptorSent _ | NewListenAddr _ | Identified _ _ => ret tt
  | ConnectionClosed peer_id => λ n,
      match nd_peer_addrs n !! peer_id with
      | Some addr => send_swarm (Dial addr) n
      | None => ret tt n
      end
  end.

(** The tick: every configured address, then every address seen. *)
Definition on_dial_tick (seed : N) : M (Node W T) CoreError unit := λ n,
  (let! _ := mfor (λ addr, send_swarm (Dial addr)) (nd_bootstrap_addrs n) in
   mfor (λ addr, send_swarm (Dial addr)) (hash_iter seed (nd_peer_addrs n)).*2) n.

(** The wake-ups of the loop: a tick, an event, or the end of the event stream. *)
Inductive Wake :=
| Ticked (seed : N)
| Arrived (now : N) (ev : Event)
| StreamClosed.

Fixpoint run_event_monitor (wakes : list Wake) : M (Node W T) CoreError unit :=
  match wakes with
  | [] => ret tt
  | Ticked seed :: wakes => let! _ := on_dial_tick seed in run_event_monitor wakes
  | Arrived now ev :: wakes => let! _ := on_event now ev in run_event_monitor wakes
  | StreamClosed :: _ => ret tt
  end.

(** ** The node as a whole

    What happens on a node: the monitor wakes up, a fetch takes a step, a project is
    submitted over IPC, the raft task applies entries. *)
Inductive NodeStep :=
| Monitor (w : Wake)
| FetchBegin (hash : Hash) (timeout_secs : N)
| FetchProceed (id : N)
| FetchExpire (id : N)
| Submit (task_id : TaskId) (now : N) (local_dir work_dir : string) (build_cmd run_cmd : list string)
    (timeout_ms : N) (target : option NodeId)
| Applied (state : ClusterState).

Context (seed : N).

Definition node_step (s : NodeStep) n : Node W T :=
  match s with
  | Monitor w => (run_event_monitor [w] n).2
  | FetchBegin hash timeout_secs => put_fetcher (begin_fetch hash timeout_secs (fetcher_of n)) n
  | FetchProceed id => put_fetcher (proceed seed id (fetcher_of n)) n
  | FetchExpire id => put_fetcher (expire id (fetcher_of n)) n
  | Submit task_id now local_dir work_dir build_cmd run_cmd timeout_ms target =>
      (with_project_client (submit_local_project seed task_id now local_dir work_dir build_cmd run_cmd
         timeout_ms target) n).2
  | Applied state => match nd_raft_state n with Some _ => set_nd_raft_state state n | None => n end
  end.
Definition node_run (steps : list NodeStep) n : Node W T := foldl (λ n s, node_step s n) n steps.

(** ** Lemmas *)

Lemma send_swarm_ok c n : ∃ tx, send_swarm c n = (Done (Ok tt), set_nd_commands tx n).
Proof.
  unfold send_swarm, ignore_err. pose proof (chan_send_no_panic c (nd_commands n)) as Hp.
  destruct (chan_send c (nd_commands n)) as [[r|why] tx]; [by exists tx|]. by destruct (Hp why).
Qed.
Lemma send_raft_ok e n : ∃ tx, send_raft e n = (Done (Ok tt), set_nd_incoming tx n).
Proof.
  unfold send_raft, ignore_err. pose proof (chan_send_no_panic e (nd_raft_incoming n)) as Hp.
  destruct (chan_send e (nd_raft_incoming n)) as [[r|why] tx]; [by exists tx|]. by destruct (Hp why).
Qed.

(** Dials change nothing but the command channel. *)
Lemma dials_ok (l : list Multiaddr) n :
  ∃ tx, mfor (λ addr, send_swarm (Dial addr)) l n = (Done (Ok tt), set_nd_commands tx n).
Proof.
  revert n. induction l as [|a l IH]; intros n; [exists (nd_commands n); by destruct n|].
  simpl. destruct (send_swarm_ok (Dial a) n) as [tx Htx].
  rewrite (bind_ok _ _ _ _ _ Htx). destruct (IH (set_nd_commands tx n)) as [tx' ->]. by exists tx'.
Qed.

Lemma on_dial_tick_ok s n : ∃ tx, on_dial_tick s n = (Done (Ok tt), set_nd_commands tx n).
Proof.
  unfold on_dial_tick. destruct (dials_ok (nd_bootstrap_addrs n) n) as [tx Htx].
  rewrite (bind_ok _ _ _ _ _ Htx). destruct (dials_ok (hash_iter s (nd_peer_addrs n)).*2 (set_nd_commands tx n))
    as [tx' ->]. by exists tx'.
Qed.

(** *** What each step does to the topology *)

(** The descriptor a step brings, with its sender. *)
Definition heard (s : NodeStep) : option (PeerId * NodeDescriptor) :=
  match s with
  | Monitor (Arrived _ (DescriptorReceived peer_id descriptor)) => Some (peer_id, descriptor)
  | _ => None
  end.
Definition learn_peer (x : option (PeerId * NodeDescriptor)) (m : gmap PeerId NodeDescriptor) :=
  match x with Some (p, d) => <[p := d]> m | None => m end.
Definition learn_raft_id (x : option (PeerId * NodeDescriptor)) (m : RaftIdRegistry) :=
  match x with
  | Some (p, d) => match raft_id d with Some r => registry_insert r p m | None => m end
  | None => m
  end.

(** What a step leaves as it was, or learns from [x]. *)
Record frame (x : option (PeerId * NodeDescriptor)) (n n' : Node W T) : Prop := {
  fr_known : nd_known_peers n' = learn_peer x (nd_known_peers n);
  fr_registry : nd_registry n' = learn_raft_id x (nd_registry n);
  fr_raft_state : nd_raft_state n = None → nd_raft_state n' = None;
  fr_descriptor : nd_descriptor n' = nd_descriptor n;
  fr_fetches : fetcher_wf (fetcher_of n) → fetcher_wf (fetcher_of n');
}.

Lemma frame_refl n : frame None n n.
Proof. by split. Qed.

(** The invariant of the fetches looks at their part of the state only. *)
Lemma fetcher_wf_ext (f f' : BlobFetcher (W := W)) :
  waiters f' = waiters f → fetches f' = fetches f → next_fetch f' = next_fetch f → fetcher_wf f → fetcher_wf f'.
Proof. intros Hw Hf Hn [H1' H2' H3' H4']. split; rewrite ?Hw, ?Hf, ?Hn; done. Qed.

Lemma frame_commands tx n : frame None n (set_nd_commands tx n).
Proof. split; [done..|]. intros Hwf. by apply (fetcher_wf_ext (fetcher_of n)). Qed.

Lemma begin_fetch_registry h t (f : BlobFetcher (W := W)) : raft_registry (begin_fetch h t f) = raft_registry f.
Proof. unfold begin_fetch. by destruct (bs_get h (CasFetch.store f)). Qed.
Lemma proceed_registry id (f : BlobFetcher (W := W)) : raft_registry (proceed seed id f) = raft_registry f.
Proof.
  unfold proceed. destruct (fetches f !! id) as [g|]; [|done]. destruct (f_phase g) as [|ps [|[r p] rest]|ps|o]; try done.
  - unfold register. by destruct (registry_snapshot _ _).
  - by destruct (chan_send _ _).
  - unfold receive. by destruct (f_rx g).
Qed.
Lemma expire_registry id (f : BlobFetcher (W := W)) : raft_registry (expire id f) = raft_registry f.
Proof.
  unfold expire. destruct (fetches f !! id) as [g|]; [|done]. destruct (f_phase g); try done.
  unfold receive. by destruct (f_rx g).
Qed.
Lemma on_blob_received_registry h found d (f : BlobFetcher (W := W)) :
  raft_registry (on_blob_received h found d f).2 = raft_registry f.
Proof. by destruct (on_blob_received_state h found d f) as (w & [-> | [-> _]]). Qed.

Lemma put_fetcher_frame (f : BlobFetcher) n :
  raft_registry f = nd_registry n → (fetcher_wf (fetcher_of n) → fetcher_wf f) → frame None n (put_fetcher f n).
Proof. intros Hr Hwf. split; [done|done|done|done|]. intros Hn. apply (fetcher_wf_ext f); auto. Qed.

Lemma put_client_frame (c : ProjectClient W T) n : frame None n (put_client c n).
Proof. split; [done..|]. intros Hn. by apply (fetcher_wf_ext (fetcher_of n)). Qed.

Lemma on_blob_received_no_panic `{!BlobStoreLaws W} h found d : no_panic (on_blob_received (W := W) h found d).
Proof.
  intros f why. unfold on_blob_received. destruct (negb found || bool_decide (d = [])); [done|].
  unfold bind, attempt, CasFetch.with_store. pose proof (bs_put_no_panic d (CasFetch.store f)) as Hp.
  destruct (bs_put d (CasFetch.store f)) as [[[h'|e]|y] w]; try done. exfalso. by apply (Hp y).
Qed.

(** The monitor handles every event. *)
Lemma on_event_frame `{!BlobStoreLaws W} now ev n :
  ∃ n', on_event now ev n = (Done (Ok tt), n') ∧ frame (heard (Monitor (Arrived now ev))) n n'.
Proof.
  destruct ev; simpl; try (eexists; split; [done|apply frame_refl]).
  - destruct (send_swarm_ok (Dial address) (set_nd_peer_addrs (<[peer_id:=address]> (nd_peer_addrs n)) n)) as [tx Htx].
    eexists. split; [unfold bind at 1, modify; exact Htx|].
    split; [done|done|done|done|]. intros Hwf. by apply (fetcher_wf_ext (fetcher_of n)).
  - destruct (raft_id descriptor) as [r|] eqn:Hr; eexists; (split; [reflexivity|]);
      (split; [done|by simpl; rewrite Hr|done|done|intros Hwf; by apply (fetcher_wf_ext (fetcher_of n))]).
  - destruct (nd_peer_addrs n !! peer_id) as [a|]; [|eexists; split; [done|apply frame_refl]].
    destruct (send_swarm_ok (Dial a) n) as [tx ->]. eexists. split; [done|apply frame_commands].
  - destruct (send_swarm_ok (RequestDescriptor peer_id) n) as [tx ->]. eexists. split; [done|apply frame_commands].
  - eexists. split; [done|apply put_client_frame].
  - destruct (send_raft_ok (envelope_from_data data) n) as [tx ->]. eexists. split; [done|].
    split; [done..|]. intros Hwf. by apply (fetcher_wf_ext (fetcher_of n)).
  - unfold bind, with_fetcher. pose proof (on_blob_received_no_panic hash found data (fetcher_of n)) as Hp.
    pose proof (on_blob_received_registry hash found data (fetcher_of n)) as Hr.
    pose proof (step_wf 0 (Received hash found data) (fetcher_of n)) as Hwf. simpl in Hwf.
    destruct (on_blob_received hash found data (fetcher_of n)) as [[r|why] f] eqn:Ho; [|by destruct (Hp why)].
    assert (∃ b, r = Ok b) as [b ->].
    { revert Ho. unfold on_blob_received, ret. destruct (negb found || _); [intros; simplify_eq/=; by eexists|].
      unfold bind, attempt. destruct (CasFetch.with_store _ _) as [[[|]|] ?]; intros; simplify_eq/=; by eexists. }
    eexists. split; [done|]. by apply put_fetcher_frame.
Qed.

Lemma node_step_frame `{!BlobStoreLaws W} s n : frame (heard s) n (node_step s n).
Proof.
  destruct s as [[s|now ev|]|h t|id|id|id now dir work build run_cmd timeout target|state]; simpl.
  - destruct (on_dial_tick_ok s n) as [tx Htx]. unfold bind. rewrite Htx. apply frame_commands.
  - destruct (on_event_frame now ev n) as (n' & Hn & Hf). unfold bind. rewrite Hn. exact Hf.
  - apply frame_refl.
  - apply put_fetcher_frame; [apply begin_fetch_registry|apply begin_wf].
  - apply put_fetcher_frame; [apply proceed_registry|apply proceed_wf].
  - apply put_fetcher_frame; [apply expire_registry|apply expire_wf].
  - unfold with_project_client. destruct (submit_local_project _ _ _ _ _ _ _ _ _ _) as [o c].
    apply put_client_frame.
  - destruct (nd_raft_state n) eqn:Hs; [|apply frame_refl].
    split; [done|done|congruence|done|]. intros Hwf. by apply (fetcher_wf_ext (fetcher_of n)).
Qed.

(** The last descriptor received from a peer. *)
Definition latest (p : PeerId) (steps : list NodeStep) : option NodeDescriptor :=
  foldl (λ acc s, match heard s with
                  | Some (q, d) => if decide (q = p) then Some d else acc
                  | None => acc
                  end) None steps.

Lemma latest_snoc p steps s : latest p (steps ++ [s]) =
  match heard s with Some (q, d) => if decide (q = p) then Some d else latest p steps | None => latest p steps end.
Proof. unfold latest. by rewrite foldl_app. Qed.

Lemma node_run_known `{!BlobStoreLaws W} steps n p : nd_known_peers n = ∅ →
  nd_known_peers (node_run steps n) !! p = latest p steps.
Proof.
  intros Hn. induction steps as [|s steps IH] using rev_ind; [simpl; by rewrite Hn|].
  rewrite latest_snoc. unfold node_run in *. rewrite foldl_app. simpl.
  rewrite (fr_known _ _ _ (node_step_frame s _)). destruct (heard s) as [[q d]|]; simpl; [|done].
  destruct (decide (q = p)) as [->|Hne]; [by rewrite lookup_insert_eq|]. by rewrite lookup_insert_ne.
Qed.

Lemma node_run_light `{!BlobStoreLaws W} steps n : nd_raft_state n = None →
  nd_raft_state (node_run steps n) = None ∧ nd_descriptor (node_run steps n) = nd_descriptor n.
Proof.
  intros Hn. induction steps as [|s steps IH] using rev_ind; [done|]. unfold node_run in *.
  rewrite foldl_app. simpl. destruct (node_step_frame s (foldl (λ n s, node_step s n) n steps)) as [_ _ Hr Hd _].
  destruct IH as [IH1 IH2]. split; [by apply Hr|by rewrite Hd].
Qed.

(** The monitor survives every event.  Whatever wakes it up, in any order, and
    whatever the stores and channels answer, the monitor neither panics nor ends with
    an error, and the fetches that run beside it keep their invariant: a fetch waits
    exactly when somebody will wake it. *)
Lemma monitor_ok `{!BlobStoreLaws W} wakes n :
  fetcher_wf (fetcher_of n) →
  ∃ n', run_event_monitor wakes n = (Done (Ok tt), n') ∧ fetcher_wf (fetcher_of n').
Proof.
  revert n. induction wakes as [|[s|now ev|] wakes IH]; intros n Hwf; simpl.
  - by exists n.
  - destruct (on_dial_tick_ok s n) as [tx Htx]. rewrite (bind_ok _ _ _ _ _ Htx). apply IH.
    by apply (fr_fetches _ _ _ (frame_commands tx n)).
  - destruct (on_event_frame now ev n) as (n' & Hn & Hf). rewrite (bind_ok _ _ _ _ _ Hn). apply IH.
    by apply (fr_fetches _ _ _ Hf).
  - by exists n.
Qed.

(** ** Properties *)

(** C24: a light client routes by what its peers last said.  On a node without a
    replicated state that starts knowing nobody, after any history, a project without
    a target goes to a peer whose last descriptor offers a project sandbox and is not
    the node's own, of the least raft id among those; and it is refused only when
    there is no such peer.  Peers that have expired or disconnected still count. *)
Theorem light_client_routes `{!BlobStoreLaws W, !HashOrderLaws} steps n :
  nd_raft_state n = None → nd_known_peers n = ∅ →
  let n' := node_run steps n in
  let candidate p d := latest p steps = Some d ∧ capable (node_id (nd_descriptor n)) d = true in
  match resolve_peer seed None (client_of n') with
  | Ok p => ∃ d, candidate p d ∧ ∀ q d', candidate q d' → leb (raft_id d) (raft_id d') = true
  | Err _ => ∀ p d, ¬ candidate p d
  end.
Proof.
  intros Hr Hk n' candidate. destruct (node_run_light steps n Hr) as [Hr' Hd'].
  assert (∀ p d, candidate p d ↔ nd_known_peers n' !! p = Some d ∧
    capable (node_id (nd_descriptor n')) d = true) as Hc.
  { intros p d. unfold candidate, n'. by rewrite node_run_known, Hd'. }
  pose proof (candidates_head seed (node_id (nd_descriptor n')) (nd_known_peers n')) as Hh.
  unfold resolve_peer, client_of, catalog_of. fold n' in Hr'. cbn [catalog Project.self_node_id].
  rewrite Hr'. destruct (head _) as [[p d]|]; simpl.
  - destruct Hh as [Hp Hle]. exists d. split; [by apply Hc|]. intros q d' [Hq Hq']%Hc. by apply (Hle q).
  - intros p d [Hp Hp']%Hc. rewrite (Hh p d) in Hp'; done.
Qed.

Lemma dials_sent (l : list Multiaddr) n : outcomes (nd_commands n) = [] →
  mfor (λ addr, send_swarm (Dial addr)) l n =
  (Done (Ok tt), set_nd_commands (mkSender (sent (nd_commands n) ++ (Dial <$> l)) []) n).
Proof.
  revert n. induction l as [|a l IH]; intros n Hn; simpl.
  - rewrite app_nil_r, <- Hn. unfold ret. f_equal. destruct n as [? [] ? ? ? ? ? ? ? ? ? ? ? ? ?]. done.
  - assert (send_swarm (Dial a) n =
      (Done (Ok tt), set_nd_commands (mkSender (sent (nd_commands n) ++ [Dial a]) []) n)) as Hs.
    { unfold send_swarm, ignore_err, chan_send. by rewrite Hn. }
    rewrite (bind_ok _ _ _ _ _ Hs), IH by done. simpl. by rewrite <- (assoc_L (++)).
Qed.

(** The mesh is kept together.  On a channel that accepts them, a tick of the
    monitor dials every configured bootstrap address, in order, and then the last
    known address of every peer ever discovered, each exactly once, connected or
    not; and it changes nothing else. *)
Theorem tick_dials_everyone `{!HashOrderLaws} s n : outcomes (nd_commands n) = [] →
  ∃ order n', on_dial_tick s n = (Done (Ok tt), n') ∧ order ≡ₚ map_to_list (nd_peer_addrs n) ∧
    n' = set_nd_commands (mkSender (sent (nd_commands n) ++
      (Dial <$> nd_bootstrap_addrs n) ++ (Dial <$> order.*2)) []) n.
Proof.
  intros Hn. eexists (hash_iter s (nd_peer_addrs n)), _. split; [|split; [apply hash_iter_perm|reflexivity]].
  unfold on_dial_tick. rewrite (bind_ok _ _ _ _ _ (dials_sent (nd_bootstrap_addrs n) n Hn)).
  rewrite dials_sent by done. simpl. by rewrite (assoc_L (++)).
Qed.
End node.

(** ** Concrete runs *)

Module DemoMesh.
#[export] Existing Instance MemStore.mem_store.
#[export] Existing Instance MemStore.mem_store_laws.
#[export] Existing Instance Toy.hash_order.
#[export] Existing Instance Toy.hash_order_laws.
#[export] Existing Instance Toy.uuid_text.
#[export] Existing Instance DemoProject.tar.
#[export] Existing Instance DemoProject.tar_laws.

(** A node that has just started. *)
Definition fresh (id : NodeId) (rid : option N) (state : option ClusterState) (registry : RaftIdRegistry)
    (dirs : gmap string bytes) : Node (gmap Hash bytes) bytes :=
  mkNode (DemoProject.node id rid) (mkSender [] []) ∅ registry (mkSender [] []) ∅ ["/ip4/10.0.0.2"] ∅ state dirs
    ∅ ∅ ∅ ∅ 0.
Definition light : Node (gmap Hash bytes) bytes := fresh 1%N None None ∅ ∅.

(** Two executors make themselves known, and one of them leaves. *)
Definition steps : list NodeStep := [
  Monitor (Arrived 0 (PeerDiscovered 22%N "/ip4/10.0.0.22"));
  Monitor (Arrived 1 (DescriptorReceived 99%N (DemoProject.node 7%N (Some 9%N))));
  Monitor (Arrived 2 (DescriptorReceived 22%N (DemoProject.node 8%N (Some 2%N))));
  Monitor (Arrived 3 (ConnectionClosed 22%N)) ].
Definition seen : Node (gmap Hash bytes) bytes := node_run 0 steps light.
End DemoMesh.
Import (hints) DemoMesh.

Lemma light_client_routes_witness :
  resolve_peer 0 None (client_of DemoMesh.seen) = Ok 22%N ∧
  match resolve_peer 0 None (client_of DemoMesh.seen) with
  | Ok p => ∃ d, latest p DemoMesh.steps = Some d
  | Err _ => True
  end.
Proof.
  pose proof (light_client_routes (T := bytes) 0 DemoMesh.steps DemoMesh.light eq_refl eq_refl) as Hl.
  assert (resolve_peer 0 None (client_of DemoMesh.seen) = Ok 22%N) as Hr by (vm_compute; reflexivity).
  split; [exact Hr|]. cbv zeta in Hl. fold DemoMesh.seen in Hl. rewrite Hr in *. destruct Hl as (d & [Hd _] & _).
  exists d. exact Hd.
Defined.

Lemma tick_dials_everyone_witness :
  ∃ order n', on_dial_tick 0 DemoMesh.seen = (Done (Ok tt), n') ∧
    sent (nd_commands n') = sent (nd_commands DemoMesh.seen) ++ [Dial "/ip4/10.0.0.2"] ++ (Dial <$> order).
Proof.
  destruct (tick_dials_everyone (T := bytes) 0 DemoMesh.seen) as (order & n' & Hn & _ & Hs).
  - vm_compute. reflexivity.
  - exists order.*2, n'. split; [exact Hn|]. rewrite Hs. reflexivity.
Defined.
