(* ===== verification/Plugins.v ===== *)
(** * The plugin points and who implements them
    (crates/core/src/traits.rs, crates/p2p/src/lib.rs)

    The sandbox, the blob provider and the executor are traits; the nodes on Linux
    plug in the qlean sandbox, their store and the executor over both.  Elsewhere the
    sandbox and the executor are stubs that refuse everything.  [ObjectStore] is in
    StoreContract.v. *)

From S2P Require Import Prelude CoreTypes Interfaces Channels BlobStore StateMachine FileSys.
From S2P Require Import Swarm RaftNet Project Sandbox SandboxRun CasFetch Node.

(** [trait ProjectSandbox], [trait BlobProvider] and [trait ProjectExecutor], over the
    state of their implementations. *)
Class ProjectSandbox (S : Type) := {
  sandbox_run_project : ProjectSpec → M S CoreError ExecutionResult;
}.
Class BlobProvider (S : Type) := {
  provider_get_blob : S → Hash → outcome string (option bytes);
}.
Class ProjectExecutor (S : Type) := {
  executor_run_task : ProjectTask → M S string ProjectResult;
}.

(** ** The sandboxes *)

#[export] Instance qlean_sandbox {H I} `{QleanHost H I} (cfg : WorkerConfig) : ProjectSandbox (option (Worker H I)) :=
  {| sandbox_run_project := run_project cfg |}.

(** [QleanSandbox] on a platform without KVM. *)
Record StubSandbox := mkStubSandbox {}.
Definition stub_sandbox_new : result CoreError StubSandbox := Ok mkStubSandbox.
Definition stub_run_project (_ : ProjectSpec) : M StubSandbox CoreError ExecutionResult :=
  raise (UnsupportedPlatform "Qlean sandbox requires a Linux host with KVM").
#[export] Instance stub_sandbox : ProjectSandbox StubSandbox := {| sandbox_run_project := stub_run_project |}.

(** ** The blob provider of a node: its store, errors being absent blobs *)

Record CasBlobProvider (W : Type) := mkCasBlobProvider { cbp_store : W }.
Arguments mkCasBlobProvider {W} _.
Arguments cbp_store {W} _.
#[export] Instance cas_provider {W} `{BlobStore W} : BlobProvider (CasBlobProvider W) :=
  {| provider_get_blob p hash := cas_blob_provider (cbp_store p) hash |}.

(** ** The executors *)

(** The executor on Linux: its sandbox, its node, and the disk behind its store. *)
Record QleanProjectExecutor (S W T : Type) := mkExecutor {
  qe_sandbox : S;
  qe_self_node_id : NodeId;
  qe_disk : Disk W T;
}.
Arguments mkExecutor {S W T} _ _ _.
Arguments qe_sandbox {S W T} _.
Arguments qe_self_node_id {S W T} _.
Arguments qe_disk {S W T} _.

Section executor.
Context {S W T : Type} `{ProjectSandbox S, BlobStore W, Tar T, UuidText}.
(** What the fetch returned, the temporary directory, and the text of a panic. *)
Context (fetched : result CoreError bytes) (tmp : result string string) (join_text : string → string).

Definition with_executor_disk {E A} (m : M (Disk W T) E A) : M (QleanProjectExecutor S W T) E A := λ x,
  let '(o, d) := m (qe_disk x) in (o, mkExecutor (qe_sandbox x) (qe_self_node_id x) d).
Definition with_sandbox {E A} (m : M S E A) : M (QleanProjectExecutor S W T) E A := λ x,
  let '(o, s) := m (qe_sandbox x) in (o, mkExecutor s (qe_self_node_id x) (qe_disk x)).

(** [spawn_blocking]: a panic of the sandbox is a join error. *)
Definition spawn_blocking {A} (m : M S CoreError A) : M S string A := λ s,
  match m s with
  | (Done r, s) => (Done (result_map_err (λ e, "qlean run_project: " +:+ CoreError_to_string e) r), s)
  | (Panic why, s) => (Done (Err ("join: " +:+ join_text why)), s)
  end.

Definition qlean_executor_run (task : ProjectTask) : M (QleanProjectExecutor S W T) string ProjectResult :=
  let! _ := lift_result (result_map_err
              (λ e, fmt ["snapshot "; snapshot_hash (pt_snapshot task); " unavailable: ";
                         CoreError_to_string e]) fetched) in
  let! tmp := lift_result tmp in
  let dir := project_dir tmp (pt_work_dir task) in
  let! _ := with_executor_disk (map_err (λ e, "extract snapshot: " +:+ CoreError_to_string e)
              (extract_snapshot (pt_snapshot task) dir)) in
  let! er := with_sandbox (spawn_blocking (sandbox_run_project (spec_of task dir))) in
  λ x, (Done (Ok {| pr_task_id := pt_task_id task; pr_exit_code := er_exit_code er; pr_stdout := er_stdout er;
          pr_stderr := er_stderr er; pr_execution_time_ms := er_execution_time_ms er;
          pr_executed_on := qe_self_node_id x |}), x).
#[export] Instance qlean_executor : ProjectExecutor (QleanProjectExecutor S W T) :=
  {| executor_run_task := qlean_executor_run |}.

(** Over any sandbox, the executor is [executor_run] with the answers that sandbox
    gives in its state. *)
Theorem executor_over_any_sandbox task x :
  let o := executor_run (qe_self_node_id x) (λ spec, (sandbox_run_project spec (qe_sandbox x)).1) join_text fetched tmp
             task (qe_disk x) in
  let o' := executor_run_task task x in
  o'.1 = o.1 ∧ qe_disk o'.2 = o.2 ∧ qe_self_node_id o'.2 = qe_self_node_id x.
Proof.
  unfold executor_run_task, qlean_executor, qlean_executor_run, executor_run, lift_result, bind.
  destruct fetched as [d|e]; simpl; [|done]. destruct tmp as [tp|e]; simpl; [|done].
  unfold with_executor_disk. destruct (map_err _ _ (qe_disk x)) as [[[u|e]|why] y]; simpl; [|done..].
  unfold with_sandbox, spawn_blocking. simpl.
  by destruct (sandbox_run_project _ (qe_sandbox x)) as [[[er|e]|why] s].
Qed.
End executor.

(** The executor of the other platforms. *)
Record StubExecutor := mkStubExecutor {}.
Definition stub_executor_new (_ : StubSandbox) (_ : NodeId) : StubExecutor := mkStubExecutor.
Definition stub_executor_run (_ : ProjectTask) : M StubExecutor string ProjectResult :=
  raise "Qlean project executor requires Linux".
#[export] Instance stub_executor : ProjectExecutor StubExecutor := {| executor_run_task := stub_executor_run |}.

(** ** What a loop makes of an executor *)

(** The end of a job that ran on an executor in some state. *)
Definition job_input {X} `{ProjectExecutor X} (id : N) (task : ProjectTask) (x : X) : Swarm.Input :=
  match (executor_run_task task x).1 with Done r => InJobDone id r | Panic _ => InJobPanic id end.

(** Nothing is executed off Linux.  A job that ran on the stub is answered with a
    failure (exit code 1) that says so, whatever the task; one that ran on the executor
    over the stub sandbox never ends with a result of its own. *)
Theorem stub_jobs_fail {W T} `{BlobStore W, Tar T, UuidText, SerdeJson NodeDescriptor} cfg id j s fetched tmp join_text
    self (x : Disk W T) (xs : StubExecutor) :
  jobs s !! id = Some j → status s = Running →
  let why r := project_queue (Swarm.step cfg r s) = project_queue s ++ [mkProjectOutcome (pt_task_id (job_task j))
    (project_failure (job_task j) 1 "Qlean project executor requires Linux")] in
  why (job_input id (job_task j) xs) ∧
  ∃ o, job_input (H := qlean_executor fetched tmp join_text) id (job_task j)
         (mkExecutor mkStubSandbox self x) = o ∧ ∀ r, o ≠ InJobDone id (Ok r).
Proof.
  intros Hj Hs why. split.
  - unfold why, job_input. simpl. unfold on_job_done. rewrite Hj. simpl. by rewrite Hs.
  - eexists. split; [reflexivity|]. intros r. unfold job_input.
    destruct (executor_over_any_sandbox (S := StubSandbox) fetched tmp join_text (job_task j)
      (mkExecutor mkStubSandbox self x)) as [-> _]. simpl.
    destruct (executor_run _ _ _ _ _ _ _) as [[[res|e]|w] y] eqn:Hrun; simpl; [|done..].
    apply executor_runs_snapshot in Hrun as (? & ? & ? & ? & ? & _ & _ & _ & _ & Hr & _). done.
Qed.
