(* ===== verification/NodeLoops.v ===== *)
(** * The two loops of a node and the channels between them
    (crates/node/src/bootstrap.rs, crates/p2p/src/swarm.rs)

    The swarm loop forwards events to the monitor over one bounded channel, the
    monitor sends commands to the swarm loop over another, and each waits inside an
    arm of its [select!] until its message is accepted. *)

From S2P Require Import Prelude CoreTypes Interfaces Channels BlobStore.
From S2P Require Import StateMachine Swarm RaftNet CasFetch Project Node.
From stdpp Require Import relations.

(** [mpsc::channel(256)] for events, [mpsc::channel(64)] for commands. *)
Definition EVENT_CAPACITY : nat := 256.
Definition COMMAND_CAPACITY : nat := 64.

(** What the monitor sends for an event, given the addresses it has seen. *)
Definition commands_of (addrs : gmap PeerId Multiaddr) (ev : Event) : list SwarmCommand :=
  match ev with
  | PeerDiscovered _ address => [Dial address]
  | PeerConnected peer_id => [RequestDescriptor peer_id]
  | ConnectionClosed peer_id => match addrs !! peer_id with Some addr => [Dial addr] | None => [] end
  | _ => []
  end.
Definition addrs_after (addrs : gmap PeerId Multiaddr) (ev : Event) : gmap PeerId Multiaddr :=
  match ev with PeerDiscovered peer_id address => <[peer_id := address]> addrs | _ => addrs end.

(** The events the loop is still forwarding, the two queues, and the commands the
    monitor is still sending. *)
Record Loops := mkLoops {
  forwarding : list Event;
  events : list Event;
  sending : list SwarmCommand;
  commands : list SwarmCommand;
  addrs : gmap PeerId Multiaddr;
}.

(** The steps of the two loops, and of the other tasks that send commands. *)
Inductive loops_step : Loops → Loops → Prop :=
| LoopForwards e es q cs k a : length q < EVENT_CAPACITY →
    loops_step (mkLoops (e :: es) q cs k a) (mkLoops es (q ++ [e]) cs k a)
| MonitorTakes es e q k a :
    loops_step (mkLoops es (e :: q) [] k a) (mkLoops es q (commands_of a e) k (addrs_after a e))
| MonitorSends es q c cs k a : length k < COMMAND_CAPACITY →
    loops_step (mkLoops es q (c :: cs) k a) (mkLoops es q cs (k ++ [c]) a)
| LoopTakes q cs c k a :
    loops_step (mkLoops [] q cs (c :: k) a) (mkLoops [] q cs k a)
| OtherSends es q cs c k a : length k < COMMAND_CAPACITY →
    loops_step (mkLoops es q cs k a) (mkLoops es q cs (k ++ [c]) a).

(** The steps the two loops can take by themselves. *)
Definition can_move (s : Loops) : Prop :=
  (forwarding s ≠ [] ∧ length (events s) < EVENT_CAPACITY) ∨
  (sending s = [] ∧ events s ≠ []) ∨
  (sending s ≠ [] ∧ length (commands s) < COMMAND_CAPACITY) ∨
  (forwarding s = [] ∧ commands s ≠ []).
Definition deadlocked (s : Loops) : Prop :=
  forwarding s ≠ [] ∧ length (events s) = EVENT_CAPACITY ∧ sending s ≠ [] ∧ length (commands s) = COMMAND_CAPACITY.
Definition at_rest (s : Loops) : Prop := forwarding s = [] ∧ events s = [] ∧ sending s = [] ∧ commands s = [].

Record loops_wf (s : Loops) : Prop := {
  lw_events : length (events s) ≤ EVENT_CAPACITY;
  lw_commands : length (commands s) ≤ COMMAND_CAPACITY;
  lw_sending : length (sending s) ≤ 1;
}.

(** ** Lemmas *)

Lemma commands_of_length a e : length (commands_of a e) ≤ 1.
Proof. destruct e; simpl; try lia. destruct (a !! peer_id); simpl; lia. Qed.

Lemma step_loops_wf s s' : loops_step s s' → loops_wf s → loops_wf s'.
Proof.
  intros [] [He Hc Hs]; simpl in *; split; simpl; rewrite ?length_app; simpl in *; try lia.
  apply commands_of_length.
Qed.

Lemma length_nonempty {A} (l : list A) : l ≠ [] ↔ 0 < length l.
Proof. destruct l; simpl; split; [done|lia|lia|done]. Qed.

(** The discoveries of a batch. *)
Definition discovery (e : Event) : Prop := ∃ p a, e = PeerDiscovered p a.

(** While the loop forwards a batch, each discovery is in one of the four places. *)
Record in_flight (n : nat) (s : Loops) : Prop := {
  if_wf : loops_wf s;
  if_forwarding : Forall discovery (forwarding s);
  if_events : Forall discovery (events s);
  if_count : n ≤ length (forwarding s) + length (events s) + length (sending s) + length (commands s);
}.

Lemma in_flight_forwarding n s : EVENT_CAPACITY + COMMAND_CAPACITY + 2 ≤ n → in_flight n s → forwarding s ≠ [].
Proof. intros Hn [[He Hc Hs] _ _ Hcount]. apply length_nonempty. lia. Qed.

Lemma step_in_flight n s s' : EVENT_CAPACITY + COMMAND_CAPACITY + 2 ≤ n →
  loops_step s s' → in_flight n s → in_flight n s'.
Proof.
  intros Hn Hstep Hs. pose proof (in_flight_forwarding n s Hn Hs) as Hf. destruct Hs as [Hwf Hd Hq Hcount].
  pose proof (step_loops_wf _ _ Hstep Hwf) as Hwf'. revert Hf Hd Hq Hcount.
  destruct Hstep; simpl; intros Hf Hd Hq Hcount; try done; split; simpl; try done; rewrite ?length_app; simpl in *;
    try lia.
  - by inversion Hd.
  - apply Forall_app. split; [done|]. inversion Hd. by constructor.
  - by inversion Hq.
  - inversion Hq as [|? ? [p [b ->]] _]. simpl. lia.
Qed.

(** What the monitor sends is what [on_event] sends. *)
Section monitor.
Context {W T : Type} `{BlobStore W, Tar T, UuidText, HashOrder}.

Lemma on_blob_received_commands h found d (f : BlobFetcher (W := W)) :
  CasFetch.commands (on_blob_received h found d f).2 = CasFetch.commands f.
Proof. by destruct (on_blob_received_state h found d f) as (w & [-> | [-> _]]). Qed.

Lemma send_swarm_accepted c (n : Node W T) : outcomes (nd_commands n) = [] →
  send_swarm c n = (Done (Ok tt), set_nd_commands (mkSender (sent (nd_commands n) ++ [c]) []) n).
Proof. intros Hn. unfold send_swarm, ignore_err, chan_send. by rewrite Hn. Qed.

Lemma on_event_commands now ev (n : Node W T) : outcomes (nd_commands n) = [] →
  let n' := (on_event now ev n).2 in
  sent (nd_commands n') = sent (nd_commands n) ++ commands_of (nd_peer_addrs n) ev ∧
  nd_peer_addrs n' = addrs_after (nd_peer_addrs n) ev.
Proof.
  intros Hn n'. unfold n', on_event. destruct ev; cbn [commands_of addrs_after]; rewrite ?app_nil_r; try done.
  - unfold bind, modify. by rewrite send_swarm_accepted.
  - unfold bind, modify. by destruct (raft_id descriptor).
  - destruct (nd_peer_addrs n !! peer_id); [by rewrite send_swarm_accepted|by rewrite app_nil_r].
  - by rewrite send_swarm_accepted.
  - destruct (send_raft_ok (envelope_from_data data) n) as [tx ->]. done.
  - unfold bind, with_fetcher. pose proof (on_blob_received_commands hash found data (fetcher_of n)) as Hc.
    destruct (on_blob_received hash found data (fetcher_of n)) as [[[|]|] f]; simpl in *; by rewrite Hc.
Qed.

(** ** Properties *)

Lemma stuck_cases s : loops_wf s → ¬ can_move s ↔ at_rest s ∨ deadlocked s.
Proof.
  intros [He Hc Hs]. unfold can_move, at_rest, deadlocked. destruct s as [f q x k a]; simpl in *. split.
  - intros Hn. destruct x as [|c cs].
    + left. assert (q = []) as -> by (destruct q; [done|exfalso; apply Hn; naive_solver]).
      assert (f = []) as -> by (destruct f; [done|exfalso; apply Hn; left; split; [done|unfold EVENT_CAPACITY; simpl; lia]]).
      by destruct k; [|exfalso; apply Hn; do 3 right].
    + right. assert (length k = COMMAND_CAPACITY) as Hk by (destruct (decide (length k < COMMAND_CAPACITY)); [exfalso; apply Hn; do 2 right; by left|lia]).
      assert (f ≠ []) as Hf.
      { intros ->. apply Hn. do 3 right. split; [done|]. intros ->. unfold COMMAND_CAPACITY in Hk. simpl in Hk. lia. }
      split_and!; [done| |done|done]. destruct (decide (length q < EVENT_CAPACITY)); [naive_solver|lia].
  - intros [(-> & -> & -> & ->)|(Hf & Hq & Hx & Hk)]; [naive_solver|].
    intros [[_ ?]|[[? _]|[[_ ?]|[? _]]]]; [lia|done|lia|done].
Qed.

Lemma deadlocked_stays s s' : deadlocked s → ¬ loops_step s s'.
Proof.
  intros (Hf & Hq & Hx & Hk) Hstep. revert Hf Hq Hx Hk. destruct Hstep; simpl; intros Hf Hq Hx Hk; try done; lia.
Qed.

Lemma in_flight_start batch a : Forall discovery batch →
  in_flight (length batch) (mkLoops batch [] [] [] a).
Proof. intros Hb. split; [split; simpl; lia|done|by constructor|simpl; lia]. Qed.

Lemma run_in_flight n s s' : EVENT_CAPACITY + COMMAND_CAPACITY + 2 ≤ n →
  rtc loops_step s s' → in_flight n s → in_flight n s'.
Proof. intros Hn. induction 1; [done|]. intros Hs. by eauto using step_in_flight. Qed.

(** C12: the two loops can block each other.  The monitor's loop here sends what
    [on_event] sends.  Within the capacities of the channels, the loops have nothing
    they can do exactly when all is done, or when both queues are full and each loop
    waits for room in the other's; they then stay so forever.  And when the swarm
    reports 322 or more discoveries at once, the loop never gets to the end of them,
    whatever the scheduling, so that it serves no command and no other network event
    from then on. *)
Theorem loops_block_each_other (n : Node W T) batch s :
  (∀ now ev, outcomes (nd_commands n) = [] →
     sent (nd_commands (on_event now ev n).2) = sent (nd_commands n) ++ commands_of (nd_peer_addrs n) ev ∧
     nd_peer_addrs (on_event now ev n).2 = addrs_after (nd_peer_addrs n) ev) ∧
  (loops_wf s → (¬ can_move s ↔ at_rest s ∨ deadlocked s) ∧ (deadlocked s → ∀ s', ¬ loops_step s s')) ∧
  (Forall discovery batch → 322 ≤ length batch →
   rtc loops_step (mkLoops batch [] [] [] (nd_peer_addrs n)) s → forwarding s ≠ []).
Proof.
  split; [intros now ev; apply on_event_commands|].
  split; [intros Hwf; split; [by apply stuck_cases|intros Hd s'; by apply deadlocked_stays]|].
  intros Hb Hlen Hrun. apply (in_flight_forwarding (length batch)); [done|].
  apply (run_in_flight _ _ _ Hlen Hrun). by apply in_flight_start.
Qed.
End monitor.

(** ** A concrete run *)

Module DemoLoops.
Import (hints) DemoMesh.
Definition batch : list Event := replicate 322 (PeerDiscovered 22%N "/ip4/10.0.0.22").
(** The loop has forwarded one event. *)
Definition moved : Loops := mkLoops (replicate 321 (PeerDiscovered 22%N "/ip4/10.0.0.22"))
  [PeerDiscovered 22%N "/ip4/10.0.0.22"] [] [] ∅.
End DemoLoops.
Import (hints) DemoMesh.

Lemma loops_block_each_other_witness : forwarding DemoLoops.moved ≠ [].
Proof.
  destruct (loops_block_each_other (T := bytes) DemoMesh.light DemoLoops.batch DemoLoops.moved)
    as (_ & _ & Hrun).
  apply Hrun.
  - apply Forall_replicate. exists 22%N, "/ip4/10.0.0.22". reflexivity.
  - vm_compute. repeat constructor.
  - apply rtc_once. apply (LoopForwards (PeerDiscovered 22%N "/ip4/10.0.0.22")). vm_compute. repeat constructor.
Defined.
