(* ===== verification/RaftWire.v ===== *)
(** * A raft message from one participant to another

    The participant that sends ([RaftNode]), its transport ([RaftNet]), the two swarm
    loops ([Swarm]) with the raft protocol between them ([Protocol]), the monitor of
    the receiving node ([Node]) and its raft task, put together. *)

From S2P Require Import Prelude CoreTypes Interfaces Json Channels StateMachine BlobStore RaftStorage.
From S2P Require Import Protocol Swarm RaftNet RaftNode Project Node.

Section wire.
Context {Msg : Type} `{ProstMessageLaws Msg}.

(** The messages whose addressee has a known peer, with that peer. *)
Definition addressed (r : RaftIdRegistry) (msgs : list Msg) : list (PeerId * Msg) :=
  omap (λ m, (λ p, (p, m)) <$> registry_get (msg_to m) r) msgs.

(** The command and the request a message travels in. *)
Definition command_of (x : PeerId * Msg) : SwarmCommand := SendRaftMessage x.1 (encode_to_vec x.2).
Definition request_of (x : PeerId * Msg) : RaftMessageRequest := mkRaftMessageRequest (encode_to_vec x.2).

(** On an open command channel, the transport queues every message it has a peer for. *)
Lemma sends_open m (t : Transport) : outcomes (RaftNet.swarm_commands t) = [] →
  sends t m = mkTransport (mkSender (sent (RaftNet.swarm_commands t) ++ (command_of <$> addressed (registry t) [m])) [])
    (incoming t) (registry t).
Proof.
  destruct t as [[s os] inc reg]. simpl. intros ->. unfold sends, transport_send, addressed. simpl.
  destruct (registry_get (msg_to m) reg) as [p|]; [done|]. simpl. by rewrite app_nil_r.
Qed.

Lemma all_sends msgs (t : Transport) : outcomes (RaftNet.swarm_commands t) = [] →
  foldl sends t msgs =
  mkTransport (mkSender (sent (RaftNet.swarm_commands t) ++ (command_of <$> addressed (registry t) msgs)) [])
    (incoming t) (registry t).
Proof.
  revert t. induction msgs as [|m msgs IH]; intros t Ht.
  { destruct t as [[s os] inc reg]. simpl in *. subst os. by rewrite app_nil_r. }
  simpl. rewrite (sends_open m t Ht), IH by done. simpl. unfold addressed. simpl.
  destruct (registry_get (msg_to m) (registry t)); simpl; by rewrite <- ?app_assoc, ?app_nil_r.
Qed.
End wire.

(** ** A hop between two swarm loops *)

Section loops.
Context `{SerdeJson NodeDescriptor, UuidText} (cfg : Config).

(** The loop turns a command into a request. *)
Lemma command_requests peer data s : status s = Running →
  Swarm.step cfg (InCommand (Some (SendRaftMessage peer data))) s = act (ReqRaft peer (mkRaftMessageRequest data)) s.
Proof. intros Hs. simpl. by rewrite Hs. Qed.

(** An event of a handler reaches the monitor when the event channel is open. *)
Lemma forward_open e s : outcomes (event_tx s) = [] →
  forward_events [e] s = set_event_tx (mkSender (sent (event_tx s) ++ [e]) []) s.
Proof. destruct s as [st acts [es os] q p js nj]. simpl. by intros ->. Qed.

Lemma raft_request_forwarded peer req ch s : status s = Running → outcomes (event_tx s) = [] →
  let s' := Swarm.step cfg (InSwarm (Some (SeBehaviour (RaftExchange (RRRequest peer req ch))))) s in
  actions s' = actions s ++ [RespRaft ch (mkRaftMessageResponse true)] ∧
  sent (event_tx s') = sent (event_tx s) ++ [RaftMessageReceived peer (rm_data req)].
Proof.
  intros Hs Ho. simpl. rewrite Hs. unfold on_swarm_event. cbn [handle_behaviour_event].
  destruct s as [st acts [es os] q p js nj]. simpl in *. by subst.
Qed.
End loops.

(** ** The whole way *)

Section raft_wire.
Context {WA WB T CA CB Msg RA RB : Type}.
(** The two participants; the raft crate is the same on both. *)
Context `{BlobStoreLaws WA, BlobStoreLaws WB, Lru CA, Lru CB, SerdeJson JsonValue, SerdeJson Proposal, ProstMessageLaws Msg, UuidText}.
Context `{!RawNode RA (CasRaftStorage (W := WA) (C := CA)) Msg, !RawNode RB (CasRaftStorage (W := WB) (C := CB)) Msg}.
Context `{Tar T, HashOrder, SerdeJson NodeDescriptor}.
Context `{SerdeJsonLaws RaftMessageRequest, SerdeJson RaftMessageResponse}.
Context (seed : N).

End raft_wire.

(** ** A concrete message *)

Module DemoWire.
#[export] Existing Instance Toy.uuid_text.
#[export] Existing Instance Toy.hash_order.
#[export] Existing Instance MemStore.mem_store.
#[export] Existing Instance MemStore.mem_store_laws.
#[export] Existing Instance DemoProject.tar.
#[export] Existing Instance OneSlot.lru.
#[export] Existing Instance DemoNode.proposal_json.
#[export] Existing Instance DemoNode.value_json.
(** A message is its bytes, the first of which is its addressee. *)
#[export] Instance prost : ProstMessage bytes :=
  {| msg_to m := Byte.to_N (default x00 (head m)); encode_to_vec m := m; prost_decode d := Ok d |}.
#[export] Instance prost_laws : ProstMessageLaws bytes.
Proof. by split. Qed.
(** A raw node is its storage and the messages it was stepped with. *)
Definition Raw : Type := CasRaftStorage (W := gmap Hash bytes) (C := option (N * Entry)) * list bytes.
#[export] Instance raw : RawNode Raw (CasRaftStorage (W := gmap Hash bytes) (C := option (N * Entry))) bytes := {|
  raw_new _ s := Ok (s, []);
  raw_store := fst;
  raw_set_store s r := (s, r.2);
  raw_tick r := r;
  raw_step m r := (Ok tt, (r.1, r.2 ++ [m]));
  raw_propose _ r := (Ok tt, r);
  raw_has_ready _ := false;
  raw_ready r := (mkReady [] None [] [] [], r);
  raw_advance _ r := (mkLightReady [] [], r);
|}.
#[export] Instance descriptor_json : SerdeJson NodeDescriptor := {| to_vec _ := Ok []; from_slice _ := Err "" |}.
#[export] Instance request_json : SerdeJson RaftMessageRequest := countable_json RaftMessageRequest.
#[export] Instance request_json_laws : SerdeJsonLaws RaftMessageRequest := countable_json_laws RaftMessageRequest.
#[export] Instance response_json : SerdeJson RaftMessageResponse := countable_json RaftMessageResponse.

Definition participant : RaftNode (R := Raw) :=
  mkRaftNode (new_empty ∅ [1; 2]%N, []) (mkTransport (mkSender [] []) [] {[ 2%N := 22%N ]}) ClusterState_default.
(** A vote for the participant 2, and one for a participant without a peer. *)
Definition votes : Ready bytes := mkReady [[x02; x61]; [x07; x62]] None [] [] [].
End DemoWire.
Import (hints) DemoWire.

