(* ===== verification/EndToEnd.v ===== *)
(** * A project from one node to another

    The master's client, its swarm loop, the executor's fetcher, its monitor and its
    executor, put together: a project submitted on one node is built on another from
    exactly the directory that was packed, and its result comes back. *)

From S2P Require Import Prelude CoreTypes Interfaces Channels BlobStore StateMachine.
From S2P Require Import Protocol Swarm RaftNet CasFetch Project Node.

Section end_to_end.
Context {W T : Type} `{BlobStoreLaws W, TarLaws T, UuidText, HashOrderLaws, SerdeJson NodeDescriptor}.
Context (seed : N).

(** ** One fetch from one peer *)

Lemma enter_insert id p f w tx r wt m k :
  enter id p (mkBlobFetcher (W := W) w tx r wt (<[id := f]> m) k) =
  mkBlobFetcher w tx r wt (<[id := set_phase p f]> m) k.
Proof. unfold enter, set_fetches. simpl. by rewrite alter_insert_eq. Qed.

Lemma snapshot_singleton rid m : registry_snapshot seed (<[rid := m]> (∅ : RaftIdRegistry)) = [(rid, m)].
Proof.
  rewrite registry_snapshot_sorted. unfold btree_iter. by rewrite insert_empty, map_to_list_singleton.
Qed.

(** The four turns of a fetch of a blob that is not local: the peer has been asked and
    the answer is awaited. *)
Lemma fetch_asks h secs (f : BlobFetcher (W := W)) rid m e :
  bs_get h (CasFetch.store f) = (Done (Err e), CasFetch.store f) →
  raft_registry f = <[rid := m]> ∅ → outcomes (CasFetch.commands f) = [] → waiters f !! h = None →
  let k := next_fetch f in
  proceed seed k (proceed seed k (proceed seed k (begin_fetch h secs f))) =
  mkBlobFetcher (CasFetch.store f) (mkSender (sent (CasFetch.commands f) ++ [RequestBlob m h]) [])
    (raft_registry f) (<[h := [k]]> (waiters f))
    (<[k := mkFetch h secs (Waiting [(rid, m)]) Pending]> (fetches f)) (N.succ k).
Proof.
  destruct f as [w [s os] reg wt fs k0]. simpl. intros Hget -> -> Hwt.
  unfold begin_fetch. simpl. rewrite Hget. unfold add_fetch. simpl.
  unfold proceed at 3. simpl. rewrite lookup_insert_eq. simpl. unfold register. simpl.
  rewrite snapshot_singleton, Hwt. unfold set_waiters. simpl. rewrite enter_insert.
  unfold proceed at 2. simpl. rewrite lookup_insert_eq. simpl. unfold CasFetch.set_commands. simpl. rewrite enter_insert.
  unfold proceed at 1. simpl. rewrite lookup_insert_eq. simpl. rewrite enter_insert. simpl.
  reflexivity.
Qed.

(** The answer arrives. *)
Lemma blob_accepted h d (f : BlobFetcher (W := W)) h' w' :
  bs_put d (CasFetch.store f) = (Done (Ok h'), w') → d ≠ [] →
  on_blob_received h true d f = (Done (Ok true), wake h (Delivered d) (set_store w' f)).
Proof.
  intros Hput Hd. unfold on_blob_received. simpl. rewrite bool_decide_eq_false_2 by done.
  unfold bind, attempt, CasFetch.with_store. by rewrite Hput.
Qed.

Lemma fetch_receives h d (f : BlobFetcher (W := W)) k g ps :
  waiters f !! h = Some [k] → fetches f !! k = Some g → f_phase g = Waiting ps →
  let f' := proceed seed k (wake h (Delivered d) f) in
  CasFetch.store f' = CasFetch.store f ∧
  ∃ g', fetches f' !! k = Some g' ∧ f_phase g' = Finished (Done (Ok d)).
Proof.
  intros Hwt Hg Hph f'.
  assert (fetches (wake h (Delivered d) f) !! k = Some (set_rx (Delivered d) g)) as Hf1.
  { rewrite wake_fetches. simpl. rewrite Hwt, Hg, decide_True; [done|]. left. }
  unfold f', proceed. rewrite Hf1. cbn [f_phase set_rx]. rewrite Hph. unfold receive. cbn [set_rx f_rx].
  split; [done|]. eexists. split; [by apply enter_eq|]. done.
Qed.

Lemma fetcher_of_put f (n : Node W T) : fetcher_of (put_fetcher f n) = f.
Proof. by destruct f. Qed.
Lemma put_fetcher_put f g (n : Node W T) : put_fetcher f (put_fetcher g n) = put_fetcher f n.
Proof. done. Qed.

(** ** The journey of a project

    [M] is the master, known as [m]; [E] the executor, known as [e]. *)

(** A message that reaches a loop. *)
Definition delivers (e : BehaviourEvent) : Swarm.Input := InSwarm (Some (SeBehaviour e)).

Section journey.
Context (M E : Node W T) (m e : PeerId) (execM : bool) (sM sE : Loop).
Context (dir : string) (t : T) (b : tar_builder) (d : bytes) (rid : N) (id : TaskId).

(** The master can pack the directory on a healthy store, and reaches the executor. *)
Hypothesis master_packs : nd_dirs M !! dir = Some t ∧ append_dir_all (Some t) = Ok b ∧ into_inner b = Ok d.
Hypothesis master_stores : bs_healthy (nd_store M) ∧ bs_adm d.
Hypothesis master_routes : resolve_peer seed None (client_of M) = Ok e ∧ chan_ready (nd_commands M) = true.

(** The executor knows the master, and has a healthy store without any blob. *)
Hypothesis executor_knows : nd_registry E = <[rid := m]> ∅ ∧ outcomes (nd_commands E) = [].
Hypothesis executor_idle : ∀ h, nd_waiters E !! h = None.
Hypothesis executor_stores : bs_healthy (nd_store E) ∧
  ∀ h, ∃ err, (bs_get h (nd_store E)).1 = Done (Err err).
Hypothesis executor_listens : status sE = Running ∧ project_queue sE = [].

(** What the master holds after a submission. *)
Lemma submitted now work build run_cmd timeout :
  let M1 := node_step seed (Submit id now dir work build run_cmd timeout None) M in
  ∃ h, sent (nd_commands M1) = sent (nd_commands M) ++
      [SendProjectTask e (task_of id (from_hash h) work build run_cmd timeout None)] ∧
    bs_healthy (nd_store M1) ∧ bs_holds (nd_store M1) h d.
Proof.
  intros M1. destruct master_packs as (Hd & Ha & Hi), master_stores as [Hs Hadm], master_routes as [Hr Htx].
  destruct (submit_ok seed id now dir work build run_cmd timeout None t b d e (client_of M))
    as (c' & h & Hsub & Hsent & Hh & Hw); try done.
  exists h. unfold M1, node_step, with_project_client. rewrite Hsub. simpl. done.
Qed.

(** The fetch of the snapshot, up to the request and from the answer on. *)
Lemma snapshot_requested h secs :
  let k := nd_next_fetch E in
  let E1 := node_run seed [FetchBegin h secs; FetchProceed k; FetchProceed k; FetchProceed k] E in
  sent (nd_commands E1) = sent (nd_commands E) ++ [RequestBlob m h] ∧ nd_store E1 = nd_store E ∧
  nd_dirs E1 = nd_dirs E ∧ nd_waiters E1 = <[h := [k]]> (nd_waiters E) ∧
  nd_fetches E1 !! k = Some (mkFetch h secs (Waiting [(rid, m)]) Pending).
Proof.
  intros k E1. destruct executor_knows as [Hreg Hout], executor_stores as [Hs Hno].
  destruct (Hno h) as [err He].
  assert (bs_get h (nd_store E) = (Done (Err err), nd_store E)) as Hget.
  { pose proof (bs_get_pure h (nd_store E) Hs). destruct (bs_get h (nd_store E)). simpl in *. congruence. }
  pose proof (fetch_asks h secs (fetcher_of E) rid m err Hget Hreg Hout (executor_idle h)) as Hf.
  cbv zeta in Hf. unfold E1, node_run. cbn [foldl node_step]. rewrite !fetcher_of_put, !put_fetcher_put.
  change k with (next_fetch (fetcher_of E)). rewrite Hf. split_and!; try done. apply lookup_insert_eq.
Qed.

Lemma snapshot_received h h' secs now w' :
  bs_put d (nd_store E) = (Done (Ok h'), w') → d ≠ [] →
  let k := nd_next_fetch E in
  let E1 := node_run seed [FetchBegin h secs; FetchProceed k; FetchProceed k; FetchProceed k] E in
  let E2 := node_run seed [Monitor (Arrived now (BlobResponseReceived m h true d)); FetchProceed k] E1 in
  nd_store E2 = w' ∧ nd_dirs E2 = nd_dirs E ∧
  ∃ g, nd_fetches E2 !! k = Some g ∧ f_phase g = Finished (Done (Ok d)).
Proof.
  intros Hput Hd k E1 E2. pose proof (snapshot_requested h secs) as Hr. cbv zeta in Hr. fold k in Hr. fold E1 in Hr.
  clearbody E1. destruct Hr as (_ & Hst & Hdir & Hwt & Hf).
  set (f1 := set_store w' (fetcher_of E1)).
  assert (on_blob_received h true d (fetcher_of E1) = (Done (Ok true), wake h (Delivered d) f1)) as Ho.
  { apply (blob_accepted h d _ h'); [|done]. simpl. by rewrite Hst. }
  assert (E2 = put_fetcher (proceed seed k (wake h (Delivered d) f1)) E1) as ->.
  { unfold E2, node_run. cbn [foldl node_step run_event_monitor on_event].
    unfold bind, with_fetcher. rewrite Ho. cbn [snd ret]. by rewrite fetcher_of_put, put_fetcher_put. }
  destruct (fetch_receives h d f1 k (mkFetch h secs (Waiting [(rid, m)]) Pending) [(rid, m)])
    as (Hw & g & Hg & Hph); try done.
  - simpl. rewrite Hwt. apply lookup_insert_eq.
  - split_and!; [done|done|]. exists g. split; [exact Hg|exact Hph].
Qed.
(** ** The executor's build *)

(** A node's result for a task, from what its sandbox returned. *)
Definition built (er : ExecutionResult) : ProjectResult :=
  mkProjectResult id (er_exit_code er) (er_stdout er) (er_stderr er) (er_execution_time_ms er)
    (node_id (nd_descriptor E)).

Lemma executor_builds run_project join_text tmp task er (x : Disk W T) :
  let dir' := project_dir tmp (pt_work_dir task) in
  (∀ spec, ps_local_project_dir spec = Some dir' → ps_build_cmd spec = pt_build_cmd task →
     ps_run_cmd spec = pt_run_cmd task → run_project spec = Done (Ok er)) →
  pt_task_id task = id → tar_bytes (pt_snapshot task) = [] → bs_healthy (cas x) →
  bs_holds (cas x) (snapshot_hash (pt_snapshot task)) d → dirs x !! dir' = None →
  executor_run (node_id (nd_descriptor E)) run_project join_text (Ok d) (Ok tmp) task x =
  (Done (Ok (built er)), mkDisk (cas x) (<[dir' := t]> (dirs x))).
Proof.
  intros dir' Hrun Hid Htar Hs Hh Hfresh. destruct master_packs as (_ & Ha & Hi).
  assert (extract_snapshot (pt_snapshot task) dir' x = (Done (Ok tt), mkDisk (cas x) (<[dir' := t]> (dirs x)))) as Hex.
  { unfold extract_snapshot. rewrite Htar.
    rewrite (bind_ok _ _ _ d x) by (apply map_err_ok; by apply with_cas_get).
    unfold unpack_tar. rewrite Hfresh. simpl. by rewrite (unpack_pack t b d). }
  unfold executor_run. cbn [result_map_err]. rewrite (bind_ok _ _ _ d x) by done.
  rewrite (bind_ok _ _ _ tmp x) by done. fold dir'.
  rewrite (bind_ok _ _ _ tt (mkDisk (cas x) (<[dir' := t]> (dirs x)))) by by apply map_err_ok.
  rewrite Hrun by done. unfold bind, lift_result, ret, built. simpl. by rewrite Hid.
Qed.

(** The job's result goes out on the channel the task came in on. *)
Lemma job_answers task ch r :
  let sE1 := Swarm.step (config_of e true E) (delivers (ProjectExchange (RRRequest m task ch))) sE in
  let sE2 := Swarm.step (config_of e true E) (InJobDone (next_job sE) (Ok r)) sE1 in
  jobs sE1 !! next_job sE = Some (mkJob task m) ∧
  actions (Swarm.step (config_of e true E) InOutcome sE2) = actions sE ++ [RespProject ch r].
Proof.
  destruct executor_listens as [Hst Hq]. destruct sE as [st acts tx q pd js nj]. simpl in *. subst st q.
  unfold handle_project_exchange. simpl. split; [apply lookup_insert_eq|].
  unfold on_job_done. simpl. rewrite lookup_insert_eq. simpl. unfold on_outcome. simpl.
  by rewrite lookup_insert_eq.
Qed.

End journey.
End end_to_end.

(** ** A concrete journey *)

Module DemoJourney.
Import (hints) DemoMesh.
#[export] Instance descriptor_json : SerdeJson NodeDescriptor := {|
  to_vec d := Ok (as_bytes (dec (node_id d)));
  from_slice _ := Err "not read" |}.

Definition master : Node (gmap Hash bytes) bytes :=
  DemoMesh.fresh 1%N (Some 1%N) (Some DemoProject.state) DemoProject.registry {[ "/src" := [x61] ]}.
Definition executor : Node (gmap Hash bytes) bytes := DemoMesh.fresh 8%N (Some 2%N) None {[ 1%N := 11%N ]} ∅.
Definition idle : Loop := mkLoop Running [] (mkSender [] []) [] ∅ ∅ 0.
Definition er : ExecutionResult := mkExecutionResult 0 [x6f] [] 5 0 None.
Definition answer : ProjectResult := built executor 11%N er.
Definition submission : NodeStep := Submit 11%N 100 "/src" "/root/project" ["make"] [] 1000 None.
Definition finished : Node (gmap Hash bytes) bytes :=
  node_run 0 [submission; Monitor (Arrived 200 (ProjectResultReceived 22%N answer))] master.
End DemoJourney.
Import (hints) DemoMesh DemoJourney.

