(* ===== verification/AgentEndToEnd.v ===== *)
(** * From the agent to the guest and back

    The agent of [Agent] and its node ([AgentNode]), the executor of [Project] and
    the sandbox of [SandboxRun], put together: what the agent reports as a success
    happened in a virtual machine, with the workspace the agent submitted. *)

From S2P Require Import Prelude CoreTypes Interfaces Text Json Effects Channels BlobStore.
From S2P Require Import StateMachine Swarm RaftNet Project Sandbox SandboxRun Ipc FileSys Agent AgentRun AgentNode.

(** ** The executor on its sandbox *)

Section executor.
Context {W T : Type} `{BlobStoreLaws W, TarLaws T, UuidText, HashOrder}.
Context {Q I : Type} `{QleanHostLaws Q I}.
Context (cfg : WorkerConfig).

(** The executor's run of a task, after the projects [specs] on the same worker. *)
Definition executes (self : NodeId) (h : Q) (specs : list ProjectSpec) (join_text : string → string)
    (fetched : result CoreError bytes) (tmp : result string string)
    (task : ProjectTask) : M (Disk W T) string ProjectResult :=
  let s := run_projects cfg specs (Some (worker_start h)) in
  executor_run self (λ spec, (run_project cfg spec s).1) join_text fetched tmp task.

(** A hash-only task with the result 0 was run on a machine, over the content that was
    packed. *)
Lemma executor_success self h specs join_text fetched tp task (x x' : Disk W T) res t b d :
  executes self h specs join_text fetched (Ok tp) task x = (Done (Ok res), x') →
  append_dir_all (Some t) = Ok b → into_inner b = Ok d → tar_bytes (pt_snapshot task) = [] →
  bs_healthy (cas x) → bs_holds (cas x) (snapshot_hash (pt_snapshot task)) d →
  let dir := project_dir tp (pt_work_dir task) in
  dirs x !! dir = None →
  dirs x' !! dir = Some t ∧ pr_task_id res = pt_task_id task ∧
  (pr_exit_code res = 0%Z → ∃ m er h1 h2,
     guest_success (H := Q) (I := I) m (spec_of task dir) er h1 h2 ∧
     pr_stdout res = er_stdout er ∧ pr_stderr res = er_stderr er).
Proof.
  intros (data & x1 & tp' & t' & er & Hdata & [= <-] & Hun & Hdir' & Hrun & ->)%executor_runs_snapshot
    Ha Hi Htar Hx Hh dir Hnew.
  destruct Hdata as [(Hd & Hne & _)|(_ & Hget)]; [congruence|].
  rewrite (with_cas_get _ d) in Hget by done. injection Hget as <- <-. fold dir in Hun, Hdir', Hrun.
  rewrite Hnew in Hun. simpl in Hun. rewrite (unpack_pack t b d Ha Hi) in Hun. injection Hun as <-.
  split; [done|]. split; [done|]. intros Hz. simpl in Hz.
  destruct (run_projects_ok cfg specs (worker_start h) (start_ok cfg h)) as (w & Hs & Hok).
  destruct (run_project_ok cfg (spec_of task dir) w Hok) as (o & w' & w1 & Hr & _ & Hj).
  rewrite Hs, Hr in Hrun. injection Hrun as ->. apply run_job_inv in Hj as (m & w2 & w3 & He).
  exists m, er, (host w2), (host w3). split; [|done]. by apply (exit_zero_is_success m _ _ w2 er w3 He).
Qed.
End executor.

(** ** The whole way *)

Section agent.
Context {W T : Type} `{BlobStoreLaws W, TarLaws T, UuidTextLaws, HashOrderLaws,
  FromValue SubmitProjectParams, FetchProjectParamsLaws, Base64Laws, JsonTextLaws,
  SerdeJson JsonRpcRequest, SerdeJson JsonRpcResponse, !WireLaws}.
Context {Q I : Type} `{QleanHostLaws Q I}.
Context (seed : N) (env : string → option string).

(** A workspace the node can pack on a healthy store, for an executor it can reach. *)
Context (args : RunArgs) (info : WorkspaceInfo) (plan : Plan) (w : NodeWorld W T) (c : ProjectClient W T).
Context (target : option NodeId) (t : T) (b : tar_builder) (d : bytes) (peer : PeerId).
Hypothesis node_client : project_client (handler w) = Some c.
Hypothesis new_task : results c !! N.succ (next_uuid w) = None.
Hypothesis target_parses :
  match target_node args with
  | Some text => ∃ u, uuid_parse text = Ok u ∧ target = Some u
  | None => target = None
  end.
Hypothesis packable : dirs (store c) !! lossy (ws_root info) = Some t ∧
  append_dir_all (Some t) = Ok b ∧ into_inner b = Ok d.
Hypothesis storable : bs_healthy (cas (store c)) ∧ bs_adm d.
Hypothesis reachable : resolve_peer seed target c = Ok peer ∧ chan_ready (swarm_commands c) = true.
Local Abbreviation submitted := (submitted w).
Local Abbreviation agent_task := (agent_task plan w target).

(** C5: a success the agent reports happened.  The agent submits a workspace and one
    result for its task arrives within 30 minutes.  Then the node has sent one task
    to the executor it resolved, and holds the packed workspace under the task's
    hash; the agent's polling ends with the result's exit code.  If the result is
    that of an executor whose store holds the packed workspace, then the executor's
    build directory had exactly the content of the workspace; and if the exit code
    is 0, a machine did all of it in order: it got the directory, ran the plan's
    build command, if any, and its run command, each exiting with 0, and what the
    agent prints as the project's output is what they wrote. *)
Theorem agent_success_is_real T' r :
  (T', r) ∈ arrivals w → pr_task_id r = submitted →
  (∀ x, x ∈ arrivals w → pr_task_id x.2 = submitted → x = (T', r)) → result_typed r →
  (clock w < T' <= clock w + from_secs 1800)%N →
  ∃ h c' v w', exec (serve seed env) (submit_and_wait args info plan) w = (Returned v, w') ∧
    project_client (handler w') = Some c' ∧
    sent (swarm_commands c') = sent (swarm_commands c) ++ [SendProjectTask peer (agent_task h)] ∧
    bs_holds (cas (store c')) h d ∧ exit_code v = pr_exit_code r ∧
    ∀ cfg self host specs join_text fetched tp x x',
      executes (Q := Q) (I := I) cfg self host specs join_text fetched (Ok tp) (agent_task h) x =
        (Done (Ok r), x') →
      bs_healthy (cas x) → bs_holds (cas x) h d →
      let dir := project_dir tp (work_dir plan) in
      dirs x !! dir = None →
      dirs x' !! dir = Some t ∧
      (exit_code v = 0%Z → ∃ m er h1 h2,
         guest_success (H := Q) (I := I) m (spec_of (agent_task h) dir) er h1 h2 ∧
         output "stdout" v = from_utf8_lossy (er_stdout er) ∧
         output "stderr" v = from_utf8_lossy (er_stderr er)).
Proof.
  intros Hin Hid Huniq Htyped HT. destruct packable as (_ & Ha & Hi).
  destruct (agent_reports_result seed env args info plan w c target t b d peer node_client new_task
    target_parses packable storable reachable T' r Hin Hid Huniq Htyped HT)
    as (h & c' & v & w' & Hex & Hc' & Hsent & Hok & Hheld & _ & Hcode & Hout & Herr).
  exists h, c', v, w'. do 5 (split; [done|]).
  intros cfg self host specs join_text fetched tp x x' Hrun Hx Hxh dir Hnew.
  destruct (executor_success cfg self host specs join_text fetched tp (agent_task h) x x' r t b d)
    as (Hdir & _ & Hreal); try done.
  split; [done|]. rewrite Hcode. intros Hz. destruct (Hreal Hz) as (m & er & h1 & h2 & Hg & Ho & He).
  exists m, er, h1, h2. by rewrite Hout, Herr, Ho, He.
Qed.
End agent.

(** ** A concrete run *)

Module DemoSuccess.
Import (hints) DemoNode DemoSandbox.
Definition task : ProjectTask := agent_task DemoNode.plan (DemoNode.world []) None DemoProject.hash.
(** The build on the node 3, after a job that failed. *)
Definition build : outcome string ProjectResult * Disk (gmap Hash bytes) bytes :=
  executes (T := bytes) (Q := DemoSandbox.Host) (I := unit) (DemoSandbox.config Reuse) 3%N (DemoSandbox.mkHost 0 0)
    [DemoSandbox.spec ["hang"]] (λ s, s) (Ok DemoProject.archive) (Ok "/tmp/x") task
    DemoProject.remote.
Definition result : ProjectResult := default DemoProject.result
  match build.1 with Done (Ok r) => Some r | _ => None end.
Definition world : NodeWorld (gmap Hash bytes) bytes := DemoNode.world [(from_secs 60, result)].
Definition run : ending JsonValue * NodeWorld (gmap Hash bytes) bytes :=
  exec (serve 0 DemoNode.env) (submit_and_wait DemoAgent.args DemoNode.info DemoNode.plan) world.
Definition commands (w : NodeWorld (gmap Hash bytes) bytes) : list SwarmCommand :=
  match project_client (handler w) with Some c => sent (swarm_commands c) | None => [] end.
End DemoSuccess.
Import (hints) DemoNode DemoSandbox.

Lemma agent_success_is_real_witness :
  (∃ v, DemoSuccess.run.1 = Returned v ∧ exit_code v = 0%Z) ∧
  ∃ m spec er h1 h2, ps_run_cmd spec = ["./app"] ∧
    guest_success (H := DemoSandbox.Host) (I := unit) m spec er h1 h2.
Proof.
  destruct (agent_success_is_real (T := bytes) (H1 := DemoProject.tar) (Q := DemoSandbox.Host) (I := unit)
    0 DemoNode.env DemoAgent.args DemoNode.info DemoNode.plan DemoSuccess.world DemoProject.client None
    [x61] [x61] DemoProject.archive 22%N) with (T' := from_secs 60) (r := DemoSuccess.result)
    as (h & c' & v & w' & Hex & Hc' & Hsent & _ & Hcode & Hreal).
  - reflexivity.
  - reflexivity.
  - reflexivity.
  - split; [reflexivity|split; reflexivity].
  - split; [intros h d Hd; discriminate Hd|exact I].
  - split; [vm_compute; reflexivity|reflexivity].
  - left.
  - vm_compute. reflexivity.
  - intros x Hx%list_elem_of_singleton _. exact Hx.
  - split; [split; [vm_compute; discriminate|vm_compute; reflexivity]|vm_compute; reflexivity].
  - split; [reflexivity|discriminate].
  - assert (h = DemoProject.hash) as ->.
    { assert (DemoSuccess.commands DemoSuccess.run.2 = [SendProjectTask 22%N DemoSuccess.task]) as Hcmd
        by (vm_compute; reflexivity).
      unfold DemoSuccess.run in Hcmd. rewrite Hex in Hcmd. unfold DemoSuccess.commands in Hcmd. simpl in Hcmd.
      rewrite Hc', Hsent in Hcmd. injection Hcmd as Hh. exact Hh. }
    assert (pr_exit_code DemoSuccess.result = 0%Z) as Hz by (vm_compute; reflexivity).
    rewrite Hz in Hcode. split.
    + exists v. split; [unfold DemoSuccess.run; rewrite Hex; reflexivity|exact Hcode].
    + destruct (Hreal (DemoSandbox.config Reuse) 3%N (DemoSandbox.mkHost 0 0) [DemoSandbox.spec ["hang"]]
        (λ s : string, s) (Ok DemoProject.archive) "/tmp/x" DemoProject.remote DemoSuccess.build.2)
        as [_ Hm].
      * vm_compute. reflexivity.
      * intros h' d' Hd'. unfold DemoProject.remote in Hd'. simpl in Hd'.
        apply lookup_singleton_Some in Hd' as [<- <-]. reflexivity.
      * vm_compute. reflexivity.
      * vm_compute. reflexivity.
      * destruct (Hm Hcode) as (m & er & h1 & h2 & Hg & _). eexists m, _, er, h1, h2. split; [|exact Hg]. reflexivity.
Defined.
