(* ===== verification/Cluster.v ===== *)
(** * A cluster of nodes

    Any number of nodes, each with its swarm loop, their project tasks and results and
    their blobs on the way between them, and everything that can happen, in any order:
    submissions, fetches, raft updates, network events, jobs, lost messages, crashes.
    What holds of every run is in ClusterSafety.v. *)

From S2P Require Import Prelude CoreTypes Interfaces Channels BlobStore StateMachine.
From S2P Require Import Protocol Swarm RaftNet CasFetch Project Node.
From stdpp Require Import relations.

Section cluster.
Context {W T : Type} `{BlobStoreLaws W, TarLaws T, UuidText, HashOrderLaws, SerdeJson NodeDescriptor}.
(** What the sandbox of a peer may answer to a spec, when the peer's directories are
    as given. *)
Context (sandbox : PeerId → gmap string T → ProjectSpec → outcome CoreError ExecutionResult → Prop).
Context (join_text : string → string).
(** The channels of requests from peers outside of the cluster, and whether such peers
    can answer a blob request. *)
Context (strange : Channel → Prop) (strangers_answer : Prop).

(** ** The state *)

(** A node and its loop.  [sent] and [actions] are histories: how much of them the
    loop, the monitor and the network have taken is kept beside them. *)
Record Host := mkHost {
  h_node : Node W T;
  h_executes : bool;
  h_loop : Loop;
  h_commands : nat;
  h_events : nat;
  h_actions : nat;
}.
Definition set_node (n : Node W T) (h : Host) : Host :=
  mkHost n (h_executes h) (h_loop h) (h_commands h) (h_events h) (h_actions h).
Definition set_loop (s : Loop) (h : Host) : Host :=
  mkHost (h_node h) (h_executes h) s (h_commands h) (h_events h) (h_actions h).
Definition took_command (h : Host) : Host :=
  mkHost (h_node h) (h_executes h) (h_loop h) (S (h_commands h)) (h_events h) (h_actions h).
Definition took_event (h : Host) : Host :=
  mkHost (h_node h) (h_executes h) (h_loop h) (h_commands h) (S (h_events h)) (h_actions h).
Definition took_action (h : Host) : Host :=
  mkHost (h_node h) (h_executes h) (h_loop h) (h_commands h) (h_events h) (S (h_actions h)).

(** A request or a response of the project and blob exchanges on its way. *)
Inductive Packet :=
| TaskPacket (src dst : PeerId) (task : ProjectTask)
| ResultPacket (src dst : PeerId) (r : ProjectResult)
| AskPacket (src dst : PeerId) (r : BlobRequest)
| BlobPacket (src dst : PeerId) (r : BlobResponse).

(** What was submitted, with the content the directory had. *)
Record Submission := mkSubmission {
  su_task_id : TaskId;
  su_content : option T;
  su_work_dir : string;
  su_build_cmd : list string;
  su_run_cmd : list string;
  su_timeout_ms : N;
  su_target : option NodeId;
}.

(** [channels] knows who waits on a response channel; [submissions] is a history. *)
Record Cluster := mkCluster {
  hosts : gmap PeerId Host;
  packets : list Packet;
  channels : gmap (PeerId * Channel) PeerId;
  submissions : list Submission;
}.
Definition set_host (p : PeerId) (h : Host) (c : Cluster) : Cluster :=
  mkCluster (<[p := h]> (hosts c)) (packets c) (channels c) (submissions c).
Definition set_packets (l : list Packet) (c : Cluster) : Cluster :=
  mkCluster (hosts c) l (channels c) (submissions c).
Definition set_channel (k : PeerId * Channel) (p : PeerId) (c : Cluster) : Cluster :=
  mkCluster (hosts c) (packets c) (<[k := p]> (channels c)) (submissions c).
Definition log_submission (su : Submission) (c : Cluster) : Cluster :=
  mkCluster (hosts c) (packets c) (channels c) (su :: submissions c).

(** ** The steps *)

(** The loop of a host takes an input, configured with the node as it is. *)
Definition loop_step (p : PeerId) (i : Swarm.Input) (h : Host) : Host :=
  set_loop (Swarm.step (config_of p (h_executes h) (h_node h)) i (h_loop h)) h.
Definition host_step (seed : N) (s : NodeStep) (h : Host) : Host :=
  set_node (node_step seed s (h_node h)) h.

(** Steps of a node that neither submit a project, nor handle an event, nor begin to
    fetch. *)
Definition internal (s : NodeStep) : Prop :=
  match s with Submit _ _ _ _ _ _ _ _ | Monitor (Arrived _ _) | FetchBegin _ _ => False | _ => True end.

(** What libp2p may report besides the packets: anything but the messages of the
    project exchange.  Strangers may ask for blobs; if they can answer, their answers
    are any admissible bytes, whatever was asked. *)
Definition ambient (e : option SwarmEvent) : Prop :=
  match e with
  | Some (SeBehaviour (ProjectExchange (RRRequest _ _ _))) => False
  | Some (SeBehaviour (ProjectExchange (RRResponse _ _))) => False
  | Some (SeBehaviour (BlobExchange (RRRequest _ _ ch))) => strange ch
  | Some (SeBehaviour (BlobExchange (RRResponse _ response))) => strangers_answer ∧ bs_adm (bresp_data response)
  | _ => True
  end.

(** What an action puts on the network. *)
Definition packet_of (c : Cluster) (p : PeerId) (a : NetAction) : list Packet :=
  match a with
  | ReqProject peer task => [TaskPacket p peer task]
  | RespProject ch r => match channels c !! (p, ch) with Some q => [ResultPacket p q r] | None => [] end
  | ReqBlob peer r => [AskPacket p peer r]
  | RespBlob ch r => match channels c !! (p, ch) with Some q => [BlobPacket p q r] | None => [] end
  | _ => []
  end.

(** A request is delivered on a new channel. *)
Definition new_channel (c : Cluster) (p : PeerId) (ch : Channel) : Prop := channels c !! (p, ch) = None ∧ ¬ strange ch.

(** The disk of a node, as its executor sees it. *)
Definition disk_of (n : Node W T) : Disk W T := mkDisk (nd_store n) (nd_dirs n).
Definition set_disk (x : Disk W T) (n : Node W T) : Node W T :=
  mkNode (nd_descriptor n) (nd_commands n) (cas x) (nd_registry n) (nd_raft_incoming n) (nd_peer_addrs n)
    (nd_bootstrap_addrs n) (nd_known_peers n) (nd_raft_state n) (dirs x) (nd_results n) (nd_tasks n)
    (nd_waiters n) (nd_fetches n) (nd_next_fetch n).

(** The end of a job, from what its executor did. *)
Definition job_end (id : N) (o : outcome string ProjectResult) : Swarm.Input :=
  match o with Done r => InJobDone id r | Panic _ => InJobPanic id end.

Definition submission_of (n : Node W T) (s : NodeStep) : option Submission :=
  match s with
  | Submit task_id _ dir work_dir build_cmd run_cmd timeout_ms target =>
      Some (mkSubmission task_id (nd_dirs n !! dir) work_dir build_cmd run_cmd timeout_ms target)
  | _ => None
  end.

(** A process that has just started on a store and directories that were there. *)
Definition fresh_host (p : PeerId) (h : Host) : Prop :=
  sent (nd_commands (h_node h)) = [] ∧ nd_results (h_node h) = ∅ ∧
  nd_waiters (h_node h) = ∅ ∧ nd_fetches (h_node h) = ∅ ∧
  (∃ tx, sent tx = [] ∧ h_loop h = loop_start (config_of p (h_executes h) (h_node h)) tx) ∧
  h_commands h = 0 ∧ h_events h = 0 ∧ h_actions h = 0.

(** One step of the cluster.  A job ends with what its executor does, whatever the fetch
    of its snapshot returned; the directory it unpacks into is fresh, and the sandbox
    runs when it is there. *)
Inductive cluster_step (c : Cluster) : Cluster → Prop :=
| StepSubmit p h seed s su : hosts c !! p = Some h → submission_of (h_node h) s = Some su →
    cluster_step c (log_submission su (set_host p (host_step seed s h) c))
| StepInternal p h seed s : hosts c !! p = Some h → internal s →
    cluster_step c (set_host p (host_step seed s h) c)
| StepEvent p h seed now ev : hosts c !! p = Some h →
    sent (event_tx (h_loop h)) !! h_events h = Some ev →
    cluster_step c (set_host p (took_event (host_step seed (Monitor (Arrived now ev)) h)) c)
| StepCommand p h cmd : hosts c !! p = Some h → sent (nd_commands (h_node h)) !! h_commands h = Some cmd →
    cluster_step c (set_host p (took_command (loop_step p (InCommand (Some cmd)) h)) c)
| StepAmbient p h e : hosts c !! p = Some h → ambient e →
    cluster_step c (set_host p (loop_step p (InSwarm e) h) c)
| StepOutcome p h : hosts c !! p = Some h → cluster_step c (set_host p (loop_step p InOutcome h) c)
| StepSend p h a : hosts c !! p = Some h → actions (h_loop h) !! h_actions h = Some a →
    cluster_step c (set_packets (packet_of c p a ++ packets c) (set_host p (took_action h) c))
| StepFetch p h seed id j secs : hosts c !! p = Some h → jobs (h_loop h) !! id = Some j →
    cluster_step c (set_host p (host_step seed (FetchBegin (snapshot_hash (pt_snapshot (job_task j))) secs) h) c)
| StepTask src dst h task ch l1 l2 : packets c = l1 ++ TaskPacket src dst task :: l2 →
    hosts c !! dst = Some h → new_channel c dst ch →
    cluster_step c (set_channel (dst, ch) src (set_packets (l1 ++ l2) (set_host dst
      (loop_step dst (InSwarm (Some (SeBehaviour (ProjectExchange (RRRequest src task ch))))) h) c)))
| StepResult src dst h r l1 l2 : packets c = l1 ++ ResultPacket src dst r :: l2 → hosts c !! dst = Some h →
    cluster_step c (set_packets (l1 ++ l2) (set_host dst
      (loop_step dst (InSwarm (Some (SeBehaviour (ProjectExchange (RRResponse src r))))) h) c))
| StepAsk src dst h r ch l1 l2 : packets c = l1 ++ AskPacket src dst r :: l2 →
    hosts c !! dst = Some h → new_channel c dst ch →
    cluster_step c (set_channel (dst, ch) src (set_packets (l1 ++ l2) (set_host dst
      (loop_step dst (InSwarm (Some (SeBehaviour (BlobExchange (RRRequest src r ch))))) h) c)))
| StepBlob src dst h r l1 l2 : packets c = l1 ++ BlobPacket src dst r :: l2 → hosts c !! dst = Some h →
    cluster_step c (set_packets (l1 ++ l2) (set_host dst
      (loop_step dst (InSwarm (Some (SeBehaviour (BlobExchange (RRResponse src r))))) h) c))
| StepLose l1 pkt l2 : packets c = l1 ++ pkt :: l2 → cluster_step c (set_packets (l1 ++ l2) c)
| StepJob p h id j run_project fetched tmp o x : hosts c !! p = Some h → jobs (h_loop h) !! id = Some j →
    (∀ tp, tmp = Ok tp → nd_dirs (h_node h) !! project_dir tp (pt_work_dir (job_task j)) = None) →
    executor_run (node_id (nd_descriptor (h_node h))) run_project join_text fetched tmp (job_task j)
      (disk_of (h_node h)) = (o, x) →
    (∀ spec, sandbox p (dirs x) spec (run_project spec)) →
    cluster_step c (set_host p (loop_step p (job_end id o) (set_node (set_disk x (h_node h)) h)) c)
| StepDirs p h ds : hosts c !! p = Some h →
    cluster_step c (set_host p (set_node (set_disk (mkDisk (nd_store (h_node h)) ds) (h_node h)) h) c)
| StepRestart p h h' : hosts c !! p = Some h → fresh_host p h' →
    nd_store (h_node h') = nd_store (h_node h) → cluster_step c (set_host p h' c).

(** A cluster whose processes have just started on healthy stores. *)
Definition initial (c : Cluster) : Prop :=
  (∀ p h, hosts c !! p = Some h → fresh_host p h ∧ bs_healthy (nd_store (h_node h))) ∧
  packets c = [] ∧ channels c = ∅ ∧ submissions c = [].
End cluster.

