(* ===== verification/ClusterSafety.v ===== *)
(** * What every run of a cluster keeps

    In every reachable state of Cluster.v: no result is invented, each is the answer to
    a submission; and, when the peers of the cluster are the only ones to ask, a fetch
    of a snapshot brings the archive that was submitted. *)

From S2P Require Import Prelude CoreTypes Interfaces Channels BlobStore StateMachine.
From S2P Require Import Protocol Swarm RaftNet CasFetch Project Node EndToEnd Cluster.
From stdpp Require Import relations.

Section safety.
Context {W T : Type} `{BlobStoreLaws W, TarLaws T, UuidText, HashOrderLaws, SerdeJson NodeDescriptor}.
Context (sandbox : PeerId → gmap string T → ProjectSpec → outcome CoreError ExecutionResult → Prop).
Context (join_text : string → string).
Context (strange : Channel → Prop) (strangers_answer : Prop).
#[local] Abbreviation Host := (Cluster.Host (W := W) (T := T)).
#[local] Abbreviation Cluster := (Cluster.Cluster (W := W) (T := T)).
#[local] Abbreviation Submission := (Cluster.Submission (T := T)).
#[local] Abbreviation cluster_step := (Cluster.cluster_step sandbox join_text strange strangers_answer).
Implicit Types (n : Node W T) (c : Cluster) (l : list Submission).

(** ** Specification *)

Definition task_for (su : Submission) (h : Hash) : ProjectTask :=
  task_of (su_task_id su) (from_hash h) (su_work_dir su) (su_build_cmd su) (su_run_cmd su) (su_timeout_ms su)
    (su_target su).

(** The sandbox of a node ran the submitted commands in a directory with the submitted
    content, and this is its result. *)
Definition built_from (su : Submission) (r : ProjectResult) : Prop :=
  ∃ p self ds t h dir er, su_content su = Some t ∧ ds !! dir = Some t ∧
    sandbox p ds (spec_of (task_for su h) dir) (Done (Ok er)) ∧
    r = mkProjectResult (su_task_id su) (er_exit_code er) (er_stdout er) (er_stderr er)
          (er_execution_time_ms er) self.

(** An answer is a refusal, a failure, or a build. *)
Definition answers (su : Submission) (r : ProjectResult) : Prop :=
  (∃ h, r = project_failure (task_for su h) 101 no_executor_msg) ∨
  (∃ h why, r = project_failure (task_for su h) 1 why) ∨
  built_from su r.

Definition answer_to (l : list Submission) (r : ProjectResult) : Prop := ∃ su, su ∈ l ∧ answers su r.

(** Some store holds the archive of the submitted content under a hash. *)
Definition archived (su : Submission) (hash : Hash) (d : bytes) : Prop :=
  ∃ t b w, su_content su = Some t ∧ append_dir_all (Some t) = Ok b ∧ into_inner b = Ok d ∧
    bs_healthy w ∧ bs_holds w hash d.

(** The blobs, the hashes and the tasks of the submissions. *)
Definition blob_in (l : list Submission) (hash : Hash) (d : bytes) : Prop := ∃ su, su ∈ l ∧ archived su hash d.
Definition hash_in (l : list Submission) (hash : Hash) : Prop := ∃ d, blob_in l hash d.
Definition task_in (l : list Submission) (task : ProjectTask) : Prop :=
  ∃ su hash d, su ∈ l ∧ archived su hash d ∧ task = task_for su hash.

(** An answer to a blob request: no bytes, or bytes a store accepts, and those of the
    submission if strangers do not answer. *)
Definition blob_ok (l : list Submission) (hash : Hash) (found : bool) (d : bytes) : Prop :=
  (bs_adm d ∨ d = []) ∧ (¬ strangers_answer → found = true → d ≠ [] → blob_in l hash d).

(** ** The invariant

    Every task anywhere is the task of a submission, every result an answer to one,
    every hash that is asked for names the archive of one. *)

Section ok.
Context (l : list Submission).

Definition command_ok (x : SwarmCommand) : Prop :=
  match x with
  | SendProjectTask _ task => task_in l task
  | RequestBlob _ hash => hash_in l hash
  | _ => True
  end.
Definition event_ok (e : Event) : Prop :=
  match e with
  | ProjectResultReceived _ r => answer_to l r
  | BlobResponseReceived _ hash found data => blob_ok l hash found data
  | _ => True
  end.
Definition action_ok (a : NetAction) : Prop :=
  match a with
  | ReqProject _ task => task_in l task
  | RespProject _ r => answer_to l r
  | ReqBlob _ r => hash_in l (breq_hash r)
  | RespBlob ch r => ¬ strange ch → blob_ok l (bresp_hash r) (found r) (bresp_data r)
  | _ => True
  end.
Definition packet_ok (k : Packet) : Prop :=
  match k with
  | TaskPacket _ _ task => task_in l task
  | ResultPacket _ _ r => answer_to l r
  | AskPacket _ _ r => hash_in l (breq_hash r)
  | BlobPacket _ _ r => blob_ok l (bresp_hash r) (found r) (bresp_data r)
  end.

Record fetcher_ok (f : BlobFetcher (W := W)) : Prop := {
  fo_store : bs_healthy (CasFetch.store f);
  fo_commands : Forall command_ok (sent (CasFetch.commands f));
  fo_wf : fetcher_wf f;
  fo_hashes id g : fetches f !! id = Some g → hash_in l (f_hash g);
  fo_held : ¬ strangers_answer → ∀ id hash d,
    given f id hash d ∨ returned f id hash d → bs_holds (CasFetch.store f) hash d;
}.
Record node_ok (n : Node W T) : Prop := {
  no_fetcher : fetcher_ok (fetcher_of n);
  no_results id r : nd_results n !! id = Some r → pr_task_id r = id ∧ answer_to l r;
}.
Record loop_ok (s : Loop) : Prop := {
  lo_actions : Forall action_ok (actions s);
  lo_events : Forall event_ok (sent (event_tx s));
  lo_queue : Forall (λ o, answer_to l (po_result o)) (project_queue s);
  lo_jobs id j : jobs s !! id = Some j → task_in l (job_task j);
}.
Definition host_ok (h : Host) : Prop := node_ok (h_node h) ∧ loop_ok (h_loop h).

(** What a loop, and a fetcher, may take. *)
Definition input_ok (i : Swarm.Input) (s : Loop) : Prop :=
  match i with
  | InCommand (Some x) => command_ok x
  | InSwarm (Some (SeBehaviour (ProjectExchange (RRRequest _ task _)))) => task_in l task
  | InSwarm (Some (SeBehaviour (ProjectExchange (RRResponse _ r)))) => answer_to l r
  | InSwarm (Some (SeBehaviour (BlobExchange (RRRequest _ r ch)))) => ¬ strange ch → hash_in l (breq_hash r)
  | InSwarm (Some (SeBehaviour (BlobExchange (RRResponse _ r)))) => blob_ok l (bresp_hash r) (found r) (bresp_data r)
  | InJobDone id r => ∀ j, jobs s !! id = Some j → answer_to l (job_result (job_task j) r)
  | _ => True
  end.
Definition fetch_input_ok (i : CasFetch.Input) : Prop :=
  match i with
  | CasFetch.Begin hash _ => hash_in l hash
  | CasFetch.Received hash found d => blob_ok l hash found d
  | _ => True
  end.

(** A provider has the bytes of a submission under its hash. *)
Definition provider_ok (cfg : Config) : Prop :=
  ∀ f hash d, blob_provider cfg = Some f → hash_in l hash → f hash = Done (Ok (Some d)) →
    blob_in l hash d ∧ bs_adm d.
End ok.

Definition cluster_ok (c : Cluster) : Prop :=
  map_Forall (λ _, host_ok (submissions c)) (hosts c) ∧ Forall (packet_ok (submissions c)) (packets c) ∧
  ∀ k q, channels c !! k = Some q → ¬ strange k.2.

(** *** More submissions *)

Lemma blob_in_mono l l' hash d : l ⊆ l' → blob_in l hash d → blob_in l' hash d.
Proof. intros Hl (su & Hsu & ?). exists su. split; [by apply Hl|done]. Qed.
Lemma hash_in_mono l l' hash : l ⊆ l' → hash_in l hash → hash_in l' hash.
Proof. intros Hl [d Hd]. exists d. by eapply blob_in_mono. Qed.
Lemma task_in_mono l l' task : l ⊆ l' → task_in l task → task_in l' task.
Proof. intros Hl (su & hash & d & Hsu & ?). exists su, hash, d. split; [by apply Hl|done]. Qed.
Lemma answer_to_mono l l' r : l ⊆ l' → answer_to l r → answer_to l' r.
Proof. intros Hl (su & Hsu & ?). exists su. split; [by apply Hl|done]. Qed.
Lemma blob_ok_mono l l' hash found d : l ⊆ l' → blob_ok l hash found d → blob_ok l' hash found d.
Proof. intros Hl [Ha Hb]. split; [done|]. intros ???. eapply blob_in_mono; eauto. Qed.
Hint Resolve blob_in_mono hash_in_mono task_in_mono answer_to_mono blob_ok_mono : core.

Lemma command_ok_mono l l' x : l ⊆ l' → command_ok l x → command_ok l' x.
Proof. destruct x; simpl; eauto. Qed.
Lemma event_ok_mono l l' e : l ⊆ l' → event_ok l e → event_ok l' e.
Proof. destruct e; simpl; eauto. Qed.
Lemma action_ok_mono l l' a : l ⊆ l' → action_ok l a → action_ok l' a.
Proof. destruct a; simpl; eauto. Qed.
Lemma packet_ok_mono l l' k : l ⊆ l' → packet_ok l k → packet_ok l' k.
Proof. destruct k; simpl; eauto. Qed.
Hint Resolve command_ok_mono event_ok_mono action_ok_mono packet_ok_mono : core.

Lemma fetcher_ok_mono l l' f : l ⊆ l' → fetcher_ok l f → fetcher_ok l' f.
Proof. intros Hl []. split; try done; [eauto using Forall_impl|eauto]. Qed.
Lemma node_ok_mono l l' n : l ⊆ l' → node_ok l n → node_ok l' n.
Proof. intros Hl [Hf Hr]. split; [by eapply fetcher_ok_mono|]. intros id r [? ?]%Hr. eauto. Qed.
Lemma loop_ok_mono l l' s : l ⊆ l' → loop_ok l s → loop_ok l' s.
Proof.
  intros Hl [Ha He Hq Hj]. split; [eauto using Forall_impl..|]. intros id j ?%Hj. eauto.
Qed.
Lemma host_ok_mono l l' h : l ⊆ l' → host_ok l h → host_ok l' h.
Proof. intros Hl []. split; eauto using node_ok_mono, loop_ok_mono. Qed.

(** *** The loop *)

Lemma act_ok l a s : action_ok l a → loop_ok l s → loop_ok l (act a s).
Proof. intros Ha []. split; try done. simpl. rewrite Forall_app. split; [done|by apply Forall_singleton]. Qed.
Lemma set_status_ok l x s : loop_ok l s → loop_ok l (set_status x s).
Proof. by intros []. Qed.
Lemma send_event_ok l e s : event_ok l e → loop_ok l s → loop_ok l (set_event_tx (chan_send e (event_tx s)).2 s).
Proof.
  intros He []. split; try done. simpl. unfold chan_send.
  destruct (outcomes (event_tx s)) as [|[|] ?]; simpl; rewrite ?Forall_app; eauto.
Qed.

Lemma forward_events_ok l es s : Forall (event_ok l) es → loop_ok l s → loop_ok l (forward_events es s).
Proof.
  intros He. revert s. induction He as [|e es He _ IH]; intros s Hs; [done|]. simpl.
  pose proof (send_event_ok l e s He Hs) as Hs'.
  destruct (chan_send e (event_tx s)) as [[[u|?]|?] tx]; simpl in Hs'; [by apply IH|done..].
Qed.
Hint Resolve act_ok set_status_ok send_event_ok forward_events_ok : core.

Hint Extern 0 (action_ok _ _) => done : core.
Local Ltac ok_event := split; [first [by apply Forall_nil|by apply Forall_singleton]|by auto].

(** A refused task is answered. *)
Lemma refusal_ok l task : task_in l task → answer_to l (project_failure task 101 no_executor_msg).
Proof. intros (su & hash & _ & Hsu & _ & ->). exists su. split; [done|left; eauto]. Qed.

Lemma handle_project_ok cfg l e s :
  input_ok l (InSwarm (Some (SeBehaviour (ProjectExchange e)))) s → loop_ok l s →
  let x := handle_project_exchange cfg e s in
  Forall (event_ok l) (option_list x.1) ∧ loop_ok l x.2.
Proof.
  intros Hi Hs. destruct e as [p task ch|p r| | |]; simpl in *; try ok_event.
  destruct (has_executor cfg); simpl; (split; [by apply Forall_nil|]).
  - destruct Hs as [? ? ? Hj]. split; try done. simpl. intros id j.
    rewrite lookup_insert_Some. intros [[_ <-]|[_ ?]]; [done|by eapply Hj].
  - apply act_ok; [by apply refusal_ok|done].
Qed.

Lemma handle_blob_ok cfg l e s :
  provider_ok l cfg → input_ok l (InSwarm (Some (SeBehaviour (BlobExchange e)))) s → loop_ok l s →
  let x := handle_blob_exchange cfg e s in
  Forall (event_ok l) (option_list x.1) ∧ loop_ok l x.2.
Proof.
  intros Hc Hi Hs. destruct e as [p r ch|p r| | |]; simpl in *; try ok_event.
  assert (action_ok l (RespBlob ch (mkBlobResponse (breq_hash r) false []))) as Hno.
  { intros _. split; [by right|done]. }
  assert (∀ f d, blob_provider cfg = Some f → f (breq_hash r) = Done (Ok (Some d)) →
    action_ok l (RespBlob ch (mkBlobResponse (breq_hash r) true d))) as Hyes.
  { intros f d Hf Hfd Hch. destruct (Hc f _ d Hf (Hi Hch) Hfd). split; [by left|done]. }
  destruct (blob_provider cfg) as [f|]; [destruct (f (breq_hash r)) as [[[d|]|]|] eqn:Hfd|]; simpl;
    (split; [first [by apply Forall_nil|by apply Forall_singleton]|]);
    first [apply act_ok; [first [exact Hno|exact (Hyes f d eq_refl Hfd)]|done]|by apply set_status_ok].
Qed.

(** Events that are not about projects or blobs. *)
Definition plain_event (e : Event) : Prop :=
  match e with ProjectResultReceived _ _ | BlobResponseReceived _ _ _ _ => False | _ => True end.
Lemma plain_event_ok l es : Forall plain_event es → Forall (event_ok l) es.
Proof. intros He. apply (Forall_impl _ _ _ He). by intros []. Qed.

Lemma handle_behaviour_ok cfg l e s :
  provider_ok l cfg → input_ok l (InSwarm (Some (SeBehaviour e))) s → loop_ok l s →
  let x := handle_behaviour_event cfg e s in Forall (event_ok l) x.1 ∧ loop_ok l x.2.
Proof.
  intros Hc Hi Hs. destruct e as [ps|ps|p i| |p r|e|e|e|e]; simpl.
  - split; [|done]. apply plain_event_ok, Forall_forall. intros e (x & _ & Hx)%list_elem_of_omap.
    case_decide; by simplify_eq.
  - split; [|done]. apply plain_event_ok, Forall_forall. intros e (x & _ & Hx)%list_elem_of_omap.
    case_decide; by simplify_eq.
  - ok_event.
  - ok_event.
  - ok_event.
  - destruct e; simpl; try ok_event; case_match; simpl;
      ok_event.
  - destruct e; simpl; ok_event.
  - by apply (handle_blob_ok cfg l e s).
  - by apply (handle_project_ok cfg l e s).
Qed.

Lemma swarm_step_ok cfg l i s : provider_ok l cfg → input_ok l i s → loop_ok l s → loop_ok l (Swarm.step cfg i s).
Proof.
  intros Hc Hi Hs. destruct i as [e| |c|id r|id]; cbn [Swarm.step].
  - destruct (status s); [|done..]. destruct e as [[a|p|p|e|]|]; cbn [on_swarm_event]; auto.
    pose proof (handle_behaviour_ok cfg l e s Hc Hi Hs) as [He Hs'].
    destruct (handle_behaviour_event cfg e s) as [es s']. by apply forward_events_ok.
  - destruct (status s); [|done..]. unfold on_outcome. destruct (project_queue s) as [|o q] eqn:Hq; [done|].
    destruct Hs as [Ha He Hqs Hj]. rewrite Hq in Hqs. apply Forall_cons in Hqs as [Ho Hqs].
    assert (loop_ok l (set_queue q s)) as Hs' by by split.
    simpl. destruct (pending s !! po_task_id o); [|done]. apply act_ok; [done|]. by destruct Hs'.
  - destruct (status s); [|done..]. destruct c as [[]|]; simpl; auto.
  - unfold on_job_done. destruct (jobs s !! id) as [j|] eqn:Hj; [|done].
    specialize (Hi j Hj). set (result := job_result _ r) in *.
    assert (loop_ok l (set_jobs (delete id (jobs s)) s)) as Hs1.
    { destruct Hs as [? ? ? Hjs]. split; try done. simpl. intros id' j' [_ ?]%lookup_delete_Some. eauto. }
    pose proof (send_event_ok l (ProjectResultReceived (job_peer j) result) _ Hi Hs1) as Hs2.
    destruct (status _); [|done..]. destruct Hs2 as [? ? Hq ?]. split; try done.
    simpl. rewrite Forall_app. split; [done|by apply Forall_singleton].
  - destruct Hs as [? ? ? Hjs]. split; try done. simpl. intros id' j' [_ ?]%lookup_delete_Some. eauto.
Qed.

(** *** A submission *)

(** The archives of directories are blobs the stores accept. *)
Context (archives_admissible : ∀ t b d, append_dir_all (Some t) = Ok b → into_inner b = Ok d → bs_adm d).

(** Packing a directory stores the archive of its content, or fails. *)
Lemma snapshot_cases dir (x : Disk W T) : bs_healthy (cas x) →
  (∃ e, snapshot_from_dir dir x = (Done (Err e), x)) ∨
  ∃ t b d h w, dirs x !! dir = Some t ∧ append_dir_all (Some t) = Ok b ∧ into_inner b = Ok d ∧
    snapshot_from_dir dir x = (Done (Ok (from_hash h)), mkDisk w (dirs x)) ∧ bs_healthy w ∧ bs_holds w h d ∧
    ∀ h' d', bs_holds (cas x) h' d' → bs_holds w h' d'.
Proof.
  intros Hx. destruct (dirs x !! dir) as [t|] eqn:Hd; [destruct (append_dir_all (Some t)) as [b|e] eqn:Ha|].
  - destruct (into_inner b) as [d|e] eqn:Hi.
    + right. destruct (snapshot_from_dir_ok dir t b d x) as (h & w & ?); eauto 12.
    + left. eexists. unfold snapshot_from_dir, pack_directory, bind, lift_result. rewrite Hd, Ha. simpl. by rewrite Hi.
  - left. eexists. unfold snapshot_from_dir, pack_directory, bind, lift_result. by rewrite Hd, Ha.
  - left. destruct pack_missing as [e He]. eexists.
    unfold snapshot_from_dir, pack_directory, bind, lift_result. by rewrite Hd, He.
Qed.

(** What a submission leaves: the task it sends, if any, names the archive it stored. *)
Lemma submit_cases seed id now dir work build run_cmd timeout target (c : ProjectClient W T) :
  bs_healthy (cas (Project.store c)) →
  let c' := (submit_local_project seed id now dir work build run_cmd timeout target c).2 in
  bs_healthy (cas (Project.store c')) ∧
  (∀ h d, bs_holds (cas (Project.store c)) h d → bs_holds (cas (Project.store c')) h d) ∧
  (sent (swarm_commands c') = sent (swarm_commands c) ∨
   ∃ peer t b d h, dirs (Project.store c) !! dir = Some t ∧ append_dir_all (Some t) = Ok b ∧ into_inner b = Ok d ∧
     bs_holds (cas (Project.store c')) h d ∧ sent (swarm_commands c') = sent (swarm_commands c) ++
       [SendProjectTask peer (task_of id (from_hash h) work build run_cmd timeout target)]).
Proof.
  intros Hs. cbv zeta. destruct (submit_local_project _ _ _ _ _ _ _ _ _ _) as [o c'] eqn:Hsub. simpl.
  destruct (snapshot_cases dir (Project.store c) Hs) as [[e Hsn]|(t & b & d & h & w & Hd & Ha & Hi & Hsn & Hw & Hh & Hk)].
  { assert (with_disk (snapshot_from_dir dir) c = (Done (Err e), c)) as Hwd.
    { unfold with_disk. rewrite Hsn. by destruct c. }
    unfold submit_local_project, submit_send, bind at 1 2 in Hsub. rewrite Hwd in Hsub. simplify_eq. auto. }
  set (c1 := set_client_store (mkDisk w (dirs (Project.store c))) c).
  assert (with_disk (snapshot_from_dir dir) c = (Done (Ok (from_hash h)), c1)) as Hs1.
  { unfold with_disk. by rewrite Hsn. }
  assert ((attempt (with_disk (with_cas (bs_get h))) : M _ CoreError (result CoreError _)) c1 =
    (Done (Ok (Ok d)), c1)) as Hs2.
  { unfold attempt, with_disk. by rewrite (with_cas_get h d). }
  assert ((with_disk (with_cas (bs_exists h)) : M _ CoreError _) c1 = (Done (Ok true), c1)) as Hs3.
  { unfold with_disk. by rewrite (with_cas_exists h d). }
  unfold submit_local_project, submit_send, bind at 1 in Hsub.
  rewrite (bind_ok _ _ _ _ _ Hs1) in Hsub. cbn [from_hash snapshot_hash] in Hsub.
  rewrite (bind_ok _ _ _ _ _ Hs2), (bind_ok _ _ _ _ _ Hs3) in Hsub. cbn [negb] in Hsub. fold (from_hash h) in Hsub.
  unfold bind at 1 in Hsub. destruct (resolve_peer seed target c1) as [peer|e]; [|simplify_eq; auto].
  unfold bind, map_err, send_command, chan_send in Hsub. change (swarm_commands c1) with (swarm_commands c) in Hsub.
  destruct (outcomes (swarm_commands c)) as [|[e|] os]; simplify_eq/=; [|by auto|].
  all: split; [done|split; [done|right; exists peer, t, b, d, h; done]].
Qed.

(** *** The fetcher *)

Lemma archived_same su hash d w d' : archived su hash d → bs_healthy w →
  (bs_get hash w).1 = Done (Ok d') → d' = d ∧ bs_holds w hash d.
Proof. intros (t & b & w0 & _ & _ & _ & Hw0 & Hh) Hw. by apply (bs_get_same w0). Qed.

Lemma fetch_store_keeps l i f seed : fetch_input_ok l i → bs_healthy (CasFetch.store f) →
  bs_healthy (CasFetch.store (CasFetch.step seed i f)) ∧
  ∀ hash d, bs_holds (CasFetch.store f) hash d → bs_holds (CasFetch.store (CasFetch.step seed i f)) hash d.
Proof.
  intros Hi Hs. destruct (step_store seed i f Hs) as [->|(h & d & -> & Hd & Hst)]; [done|]. rewrite Hst.
  destruct Hi as [[Hi|] _]; [|done]. by destruct (bs_put_ok d _ Hs Hi) as (h' & w & -> & ? & ? & ?).
Qed.

Lemma fetch_commands_ok l i f seed : fetcher_ok l f →
  Forall (command_ok l) (sent (CasFetch.commands (CasFetch.step seed i f))).
Proof.
  intros [_ Hc _ Hh _]. destruct i as [h t|id|id|h fd d|r p]; simpl.
  - unfold begin_fetch. by destruct (bs_get h (CasFetch.store f)).
  - unfold proceed. destruct (fetches f !! id) as [g|] eqn:Hg; [|done].
    destruct (f_phase g) as [|ps [|[r p] rest]|ps|o]; try done.
    + unfold register. by destruct (registry_snapshot _ _).
    + pose proof (Hh id g Hg). unfold chan_send.
      destruct (outcomes (CasFetch.commands f)) as [|[|] ?]; simpl; rewrite ?Forall_app, ?Forall_singleton; done.
    + unfold receive. by destruct (f_rx g).
  - unfold expire. destruct (fetches f !! id) as [g|]; [|done]. destruct (f_phase g); try done.
    unfold receive. by destruct (f_rx g).
  - by destruct (on_blob_received_state h fd d f) as (w & [-> | [-> _]]).
  - done.
Qed.

(** What a fetch is given or returns, the store holds under its hash. *)
Lemma fetch_held l i f seed id hash d : ¬ strangers_answer → fetch_input_ok l i → fetcher_ok l f →
  given (CasFetch.step seed i f) id hash d ∨ returned (CasFetch.step seed i f) id hash d →
  bs_holds (CasFetch.store (CasFetch.step seed i f)) hash d.
Proof.
  intros Htr Hi [Hs _ Hwf Hh Hheld].
  destruct (fetch_store_keeps l i f seed Hi Hs) as [Hs' Hk]. specialize (Hheld Htr id hash d).
  intros [[Hg|(-> & Hd & h' & Hput)]%step_given|[Hr|[Hg|(t & -> & Hget)]]%step_returned]; auto.
  - destruct Hi as [Hadm Hblob]. destruct (Hblob Htr eq_refl Hd) as (su & _ & t & b & w & _ & _ & _ & Hw & Hhold).
    destruct Hadm as [Hadm|]; [|done]. destruct (bs_put_ok d _ Hs Hadm) as (h1 & w1 & Hp & Hw1 & Hd1 & _).
    rewrite Hp in Hput. assert (h1 = h') as -> by congruence.
    replace (CasFetch.store _) with w1 by congruence.
    by rewrite (bs_same_hash w w1 hash h' d Hw Hw1 Hhold Hd1).
  - destruct Hi as (d0 & su & _ & Har). destruct (archived_same su hash d0 _ d Har Hs Hget) as [-> Hd]. auto.
Qed.

Lemma fetch_step_ok l i f seed : fetch_input_ok l i → fetcher_ok l f → fetcher_ok l (CasFetch.step seed i f).
Proof.
  intros Hi Hf. pose proof Hf as [Hs _ Hwf Hh _]. split.
  - by apply (fetch_store_keeps l).
  - by apply fetch_commands_ok.
  - by apply step_wf.
  - intros id g Hg. destruct (step_asked seed i f id (f_hash g)) as [(g0 & Hg0 & <-)|(t & ->)];
      [by exists g|by eapply Hh|done].
  - intros Htr id hash d. by apply (fetch_held l).
Qed.

(** *** The node *)

Lemma put_fetcher_ok l f n : fetcher_ok l f → node_ok l n → node_ok l (put_fetcher f n).
Proof. intros Hf [_ Hr]. split; [|done]. by destruct f. Qed.

(** What a step does to the rest leaves the fetcher alone. *)
Lemma same_fetcher_ok l n n' : fetcher_of n' = fetcher_of n → nd_results n' = nd_results n → node_ok l n → node_ok l n'.
Proof. intros Hf Hr [H1' H2']. by split; [rewrite Hf|rewrite Hr]. Qed.

Lemma registry_fetcher_ok l r f : fetcher_ok l f → fetcher_ok l (set_registry r f).
Proof. intros []. split; try done. by apply set_registry_wf. Qed.

Lemma send_fetcher_ok l x f : command_ok l x → fetcher_ok l f →
  fetcher_ok l (CasFetch.set_commands (chan_send x (CasFetch.commands f)).2 f).
Proof.
  intros Hx []. split; try done; [|by apply set_commands_wf]. simpl. unfold chan_send.
  destruct (outcomes (CasFetch.commands f)) as [|[|] ?]; simpl; rewrite ?Forall_app, ?Forall_singleton; done.
Qed.

Lemma send_swarm_keeps l cmd n : command_ok l cmd → node_ok l n →
  ∃ n', send_swarm cmd n = (Done (Ok tt), n') ∧ node_ok l n'.
Proof.
  intros Hc [Hf Hr]. pose proof (send_fetcher_ok l cmd (fetcher_of n) Hc Hf) as Hf'. simpl in Hf'.
  destruct (send_swarm_ok cmd n) as [tx Htx]. exists (set_nd_commands tx n). split; [done|]. split; [|done].
  revert Htx Hf'. unfold send_swarm, ignore_err. by destruct (chan_send cmd (nd_commands n)) as [[]]; intros [= <-].
Qed.

Lemma dials_keep l addrs n : node_ok l n →
  ∃ n', mfor (λ addr, send_swarm (Dial addr)) addrs n = (Done (Ok tt), n') ∧ node_ok l n'.
Proof.
  revert n. induction addrs as [|a addrs IH]; intros n Hn; [by exists n|].
  destruct (send_swarm_keeps l (Dial a) n I Hn) as (n1 & Hs & Hn1). simpl. rewrite (bind_ok _ _ _ _ _ Hs).
  by apply IH.
Qed.

Lemma on_event_keeps l now ev n : event_ok l ev → node_ok l n → node_ok l (on_event now ev n).2.
Proof.
  intros He Hn. destruct ev; simpl; try done.
  - unfold bind, modify. destruct (send_swarm_keeps l (Dial address)
      (set_nd_peer_addrs (<[peer_id:=address]> (nd_peer_addrs n)) n) I) as (n' & -> & ?);
      [by apply (same_fetcher_ok l n)|done].
  - unfold bind, modify. destruct Hn as [Hf Hr].
    destruct (raft_id descriptor) as [r|]; (split; [|done]);
      [by apply (registry_fetcher_ok l (registry_insert r peer_id (nd_registry n)) (fetcher_of n))|done].
  - destruct (nd_peer_addrs n !! peer_id) as [a|]; [|done].
    by destruct (send_swarm_keeps l (Dial a) n I Hn) as (n' & -> & ?).
  - by destruct (send_swarm_keeps l (RequestDescriptor peer_id) n I Hn) as (n' & -> & ?).
  - destruct Hn as [Hf Hr]. split; [done|]. simpl. intros id r. rewrite lookup_insert_Some.
    intros [[<- <-]|[_ ?]]; [done|by apply Hr].
  - destruct (send_raft_ok (envelope_from_data data) n) as [tx ->]. by apply (same_fetcher_ok l n).
  - unfold bind, with_fetcher.
    pose proof (fetch_step_ok l (CasFetch.Received hash found data) (fetcher_of n) 0 He (no_fetcher _ _ Hn)) as Hf.
    simpl in Hf. destruct (on_blob_received hash found data (fetcher_of n)) as [[[|]|] f]; by apply put_fetcher_ok.
Qed.

Lemma fetch_keeps l seed i n : fetch_input_ok l i → node_ok l n →
  node_ok l (put_fetcher (CasFetch.step seed i (fetcher_of n)) n).
Proof. intros Hi Hn. apply put_fetcher_ok; [|done]. by apply fetch_step_ok; [|apply Hn]. Qed.

Lemma internal_keeps l seed s n : internal s → node_ok l n → node_ok l (node_step seed s n).
Proof.
  intros Hi Hn.
  destruct s as [[s|now ev|]|h t|id|id|id now dir work build run_cmd timeout target|state]; simpl; try done.
  - unfold on_dial_tick, bind. destruct (dials_keep l (nd_bootstrap_addrs n) n Hn) as (n1 & -> & Hn1).
    by destruct (dials_keep l (hash_iter s (nd_peer_addrs n)).*2 n1 Hn1) as (n2 & -> & ?).
  - by apply (fetch_keeps l seed (CasFetch.Proceed id)).
  - by apply (fetch_keeps l seed (CasFetch.Expire id)).
  - destruct (nd_raft_state n); [|done]. by apply (same_fetcher_ok l n).
Qed.

Lemma submit_keeps l seed s su n : submission_of n s = Some su → node_ok l n →
  node_ok (su :: l) (node_step seed s n).
Proof.
  intros Hsu Hn. destruct s as [|h t|id|id|id now dir work build run_cmd timeout target|state]; simplify_eq/=.
  set (su := mkSubmission _ _ _ _ _ _ _).
  assert (node_ok (su :: l) n) as [[Hs Hc Hwf Hh Hd] Hr] by (apply (node_ok_mono l); [set_solver|done]).
  pose proof (submit_cases seed id now dir work build run_cmd timeout target (client_of n) Hs) as (Hs' & Hk & Hsent).
  pose proof (submit_results seed id now dir work build run_cmd timeout target (client_of n)) as Hres.
  unfold with_project_client. destruct (submit_local_project _ _ _ _ _ _ _ _ _ _) as [o c]. simpl in *.
  split; simpl; [|by rewrite Hres].
  split; simpl; [done| |by apply (fetcher_wf_ext (fetcher_of n))|done|].
  - destruct Hsent as [->|(peer & t & b & d & h & Hdir & Ha & Hi & Hhold & ->)]; [done|].
    rewrite Forall_app. split; [done|]. apply Forall_singleton.
    exists su, h, d. split; [left|]. split; [|done]. by exists t, b, (cas (Project.store c)).
  - intros Htr id' hash d Hg. apply Hk. by apply (Hd Htr id').
Qed.

(** *** The executor *)

Lemma extract_keeps snapshot dest (x : Disk W T) : bs_healthy (cas x) →
  cas (extract_snapshot snapshot dest x).2 = cas x.
Proof.
  intros Hx. unfold extract_snapshot.
  assert (∀ data (y : Disk W T), cas (unpack_tar data dest y).2 = cas y) as Hu.
  { intros data y. unfold unpack_tar. by destruct (unpack data _). }
  destruct (tar_bytes snapshot); [|apply Hu]. unfold bind, map_err, with_cas.
  pose proof (bs_get_pure (snapshot_hash snapshot) (cas x) Hx) as Hp.
  destruct (bs_get (snapshot_hash snapshot) (cas x)) as [[[d|e]|why] w]; simpl in *; subst; [|done..].
  by rewrite Hu.
Qed.

Lemma executor_keeps self run_project fetched tmp task (x : Disk W T) : bs_healthy (cas x) →
  cas (executor_run self run_project join_text fetched tmp task x).2 = cas x.
Proof.
  intros Hx. unfold executor_run, lift_result, bind, map_err, ret.
  destruct fetched as [d|e]; simpl; [|done]. destruct tmp as [tp|e]; simpl; [|done].
  pose proof (extract_keeps (pt_snapshot task) (project_dir tp (pt_work_dir task)) x Hx) as He.
  destruct (extract_snapshot _ _ x) as [[[u|e]|why] y]; simpl in *; [|done..].
  by destruct (run_project _) as [[er|e]|why].
Qed.

(** What the end of a job reports answers the submission of its task. *)
Lemma job_answers_submission l p self run_project fetched tmp task r (x x' : Disk W T) :
  task_in l task → bs_healthy (cas x) →
  (∀ tp, tmp = Ok tp → dirs x !! project_dir tp (pt_work_dir task) = None) →
  executor_run self run_project join_text fetched tmp task x = (Done r, x') →
  (∀ spec, sandbox p (dirs x') spec (run_project spec)) → answer_to l (job_result task r).
Proof.
  intros (su & h & d & Hsu & Har & ->) Hx Hfresh Hrun Hsb. pose proof Har as (t & b & w & Ht & Ha & Hi & _ & _).
  exists su. split; [done|]. destruct r as [res|why]; [|right; left; by exists h, why]. right; right.
  apply executor_runs_snapshot in Hrun as (data & x1 & tp & t' & er & Hdata & -> & Hun & Hdir & Hr & ->).
  specialize (Hfresh tp eq_refl). set (dir := project_dir tp _) in *.
  destruct Hdata as [(<- & Hne & _)|[_ Hget]]; [done|]. simpl in Hget.
  pose proof (archived_same su h d (cas x) data Har Hx) as Hsame. unfold with_cas in Hget.
  destruct (bs_get h (cas x)) as [o y]. simplify_eq. rewrite (proj1 (Hsame eq_refl)) in Hun. cbn [dirs] in Hun.
  rewrite Hfresh in Hun. simpl in Hun. rewrite (unpack_pack t b d) in Hun by done. injection Hun as ->.
  exists p, self, (dirs x'), t', h, dir, er. split_and!; [done|done| |done]. rewrite <- Hr. apply Hsb.
Qed.

(** *** The steps of the cluster *)

Lemma loop_start_ok l cfg tx : sent tx = [] → loop_ok l (loop_start cfg tx).
Proof.
  intros Htx. unfold loop_start. assert (loop_ok l (mkLoop Running [] tx [] ∅ ∅ 0)) as Hs.
  { split; simpl; rewrite ?Htx; try by apply Forall_nil. intros id j. by rewrite lookup_empty. }
  revert Hs. generalize (mkLoop Running [] tx [] ∅ ∅ 0). induction (bootstrap_peers cfg) as [|a addrs IH]; [done|].
  intros s Hs. simpl. apply IH. by auto.
Qed.

Lemma fresh_host_ok l p h : fresh_host p h → bs_healthy (nd_store (h_node h)) → host_ok l h.
Proof.
  intros (Hc & Hr & Hw & Hf & (tx & Htx & Hl) & _) Hs. split; [split|].
  - split; simpl; [done|rewrite Hc; by apply Forall_nil|split; simpl|..].
    all: try (intros *; rewrite ?Hw, ?Hf, lookup_empty; done).
    intros _ id hash d [(f & Hg & _)|(f & Hg & _)]; simpl in Hg; by rewrite Hf, lookup_empty in Hg.
  - intros id r. by rewrite Hr, lookup_empty.
  - rewrite Hl. by apply loop_start_ok.
Qed.

Lemma set_host_ok c p h : cluster_ok c → host_ok (submissions c) h → cluster_ok (set_host p h c).
Proof. intros (Hh & Hp & Hc) Hn. split; [by apply map_Forall_insert_2|done]. Qed.
Lemma set_packets_ok c ps : cluster_ok c → Forall (packet_ok (submissions c)) ps → cluster_ok (set_packets ps c).
Proof. by intros (? & _ & ?). Qed.
Lemma set_channel_ok c p ch q : new_channel strange c p ch → cluster_ok c → cluster_ok (set_channel (p, ch) q c).
Proof.
  intros [_ Hch] (? & ? & Hc). split_and!; [done..|]. intros k q'. simpl. rewrite lookup_insert_Some.
  intros [[<- _]|[_ ?]]; [done|by eapply Hc].
Qed.
Lemma cluster_ok_log c su : cluster_ok c → cluster_ok (log_submission su c).
Proof.
  intros (Hh & Hp & Hc). assert (submissions c ⊆ su :: submissions c) as Hsub by set_solver. split_and!; [..|done].
  - intros p h Hph. apply (host_ok_mono (submissions c)); [done|]. by eapply Hh.
  - apply (Forall_impl _ _ _ Hp). eauto.
Qed.

(** A node answers for the hashes of submissions with their archives. *)
Lemma config_provider_ok l p executes n : node_ok l n → provider_ok l (config_of p executes n).
Proof.
  intros [[Hs _ _ _ _] _] f hash d [= <-] (d0 & su & Hsu & Har) Hd. unfold cas_blob_provider in Hd.
  destruct (bs_get hash (nd_store n)).1 as [[x|e]|why] eqn:Hget; simplify_eq/=.
  destruct (archived_same su hash d0 _ d Har Hs Hget) as [-> _].
  split; [by exists su|]. destruct Har as (t & b & w & _ & Ha & Hi & _). by eapply archives_admissible.
Qed.

Lemma loop_step_ok l p i h : host_ok l h → input_ok l i (h_loop h) → host_ok l (loop_step p i h).
Proof. intros [] Hi. split; [done|]. apply swarm_step_ok; [by apply config_provider_ok|done..]. Qed.

(** What the surroundings report is fine for a loop. *)
Lemma ambient_ok l e s : ambient strange strangers_answer e → input_ok l (InSwarm e) s.
Proof.
  destruct e as [[| | |[| | | | | | |[]|[]]|]|]; simpl; try done.
  intros [? ?]. split; [by left|done].
Qed.

(** A packet that is delivered is fine, and so is the rest. *)
Lemma delivered_ok c ps k ps' : cluster_ok c → packets c = ps ++ k :: ps' →
  packet_ok (submissions c) k ∧ cluster_ok (set_packets (ps ++ ps') c).
Proof.
  intros Hc Hk. pose proof Hc as (_ & Hp & _). rewrite Hk in Hp. apply Forall_app in Hp as [H1p [Hkp H2p]%Forall_cons].
  split; [done|]. apply set_packets_ok; [done|]. by apply Forall_app.
Qed.

(** A host takes a packet. *)
Lemma deliver_ok c ps k ps' p h i : cluster_ok c → packets c = ps ++ k :: ps' → hosts c !! p = Some h →
  (packet_ok (submissions c) k → input_ok (submissions c) i (h_loop h)) →
  cluster_ok (set_packets (ps ++ ps') (set_host p (loop_step p i h) c)).
Proof.
  intros Hc Hk Hph Hi. destruct (delivered_ok c _ _ _ Hc Hk) as [Hkp Hc'].
  apply (set_host_ok (set_packets (ps ++ ps') c)); [done|]. apply loop_step_ok; [|by apply Hi].
  destruct Hc as [Hh _]. by eapply Hh.
Qed.

Lemma packet_of_ok c p a : cluster_ok c → action_ok (submissions c) a → Forall (packet_ok (submissions c)) (packet_of c p a).
Proof.
  intros (_ & _ & Hc) Ha. destruct a as [|? ?|? ?|? r|q task|? ?|? ?|ch r|ch r]; simpl; try (by apply Forall_nil).
  all: try (by apply Forall_singleton).
  all: destruct (channels c !! (p, ch)) eqn:Hch; [|by apply Forall_nil]; apply Forall_singleton; try done.
  by apply Ha, (Hc _ _ Hch).
Qed.

Lemma job_step_ok c p h id j run_project fetched tmp o x : cluster_ok c → hosts c !! p = Some h →
  jobs (h_loop h) !! id = Some j →
  (∀ tp, tmp = Ok tp → nd_dirs (h_node h) !! project_dir tp (pt_work_dir (job_task j)) = None) →
  executor_run (node_id (nd_descriptor (h_node h))) run_project join_text fetched tmp (job_task j)
    (disk_of (h_node h)) = (o, x) →
  (∀ spec, sandbox p (dirs x) spec (run_project spec)) →
  cluster_ok (set_host p (loop_step p (job_end id o) (set_node (set_disk x (h_node h)) h)) c).
Proof.
  intros Hc Hph Hj Hf Hex Hsb. apply set_host_ok; [done|]. destruct Hc as [Hh _]. destruct (Hh _ _ Hph) as [Hn Hl].
  pose proof (fo_store _ _ (no_fetcher _ _ Hn)) as Hst.
  pose proof (executor_keeps (node_id (nd_descriptor (h_node h))) run_project fetched tmp (job_task j)
    (disk_of (h_node h)) Hst) as Hcas. rewrite Hex in Hcas. simpl in Hcas.
  apply loop_step_ok.
  - split; [|done]. apply (same_fetcher_ok _ (h_node h)); [|done..]. unfold fetcher_of. simpl. by rewrite Hcas.
  - destruct o as [r|why]; simpl; [|done]. intros j' Hj'. simplify_eq.
    apply (job_answers_submission _ p (node_id (nd_descriptor (h_node h))) run_project fetched tmp _ r
      (disk_of (h_node h)) x); [by apply (lo_jobs _ _ Hl id)|done..].
Qed.

Lemma cluster_step_ok c c' : cluster_step c c' → cluster_ok c → cluster_ok c'.
Proof.
  intros Hstep Hc. pose proof Hc as (Hh & Hp & Hch).
  destruct Hstep as [p h seed s su Hph Hsu|p h seed s Hph Hs|p h seed now ev Hph Hev|p h cmd Hph Hcmd|p h e Hph He
    |p h Hph|p h a Hph Ha|p h seed id j secs Hph Hj|src dst h task ch l1 l2 Hk Hph Hnew|src dst h r l1 l2 Hk Hph
    |src dst h r ch l1 l2 Hk Hph Hnew|src dst h r l1 l2 Hk Hph|l1 k l2 Hk
    |p h id j run fetched tmp o x Hph Hj Hf Hex Hsb|p h ds Hph|p h h' Hph Hfr Hst];
    try (pose proof (Hh _ _ Hph) as Hok; pose proof Hok as [Hn Hl]).
  - apply (set_host_ok (log_submission su c)); [by apply cluster_ok_log|]. split; [by apply submit_keeps|].
    apply (loop_ok_mono (submissions c)); [set_solver|done].
  - apply set_host_ok; [done|]. split; [by apply internal_keeps|done].
  - apply set_host_ok; [done|]. split; [|done]. simpl. unfold bind.
    pose proof (on_event_keeps (submissions c) now ev (h_node h)
      (proj1 (Forall_lookup _ _) (lo_events _ _ Hl) _ _ Hev) Hn) as Hk.
    by destruct (on_event now ev (h_node h)) as [[[|]|] n'].
  - apply set_host_ok; [done|]. apply (loop_step_ok (submissions c) p (InCommand (Some cmd)) h Hok).
    exact (proj1 (Forall_lookup _ _) (fo_commands _ _ (no_fetcher _ _ Hn)) _ _ Hcmd).
  - apply set_host_ok; [done|]. apply loop_step_ok; [done|by apply ambient_ok].
  - apply set_host_ok; [done|]. by apply loop_step_ok.
  - apply (set_packets_ok (set_host p (took_action h) c)); [by apply set_host_ok|]. apply Forall_app. split; [|done].
    apply (packet_of_ok c); [done|]. exact (proj1 (Forall_lookup _ _) (lo_actions _ _ Hl) _ _ Ha).
  - apply set_host_ok; [done|]. split; [|done].
    apply (fetch_keeps _ seed (CasFetch.Begin (snapshot_hash (pt_snapshot (job_task j))) secs)); [|done].
    destruct (lo_jobs _ _ Hl _ _ Hj) as (su & hash & d & Hsu & Har & ->). by exists d, su.
  - apply set_channel_ok; [done|]. by apply (deliver_ok c l1 (TaskPacket src dst task) l2).
  - by apply (deliver_ok c l1 (ResultPacket src dst r) l2).
  - apply set_channel_ok; [done|]. apply (deliver_ok c l1 (AskPacket src dst r) l2); [done..|]. by intros ? _.
  - by apply (deliver_ok c l1 (BlobPacket src dst r) l2).
  - by apply (delivered_ok c l1 k l2).
  - by apply (job_step_ok c p h id j run fetched tmp o x).
  - apply set_host_ok; [done|]. split; [|done]. by apply (same_fetcher_ok _ (h_node h)).
  - apply set_host_ok; [done|]. apply (fresh_host_ok _ p); [done|]. rewrite Hst. apply Hn.
Qed.

Lemma reachable_ok c0 c : initial c0 → rtc cluster_step c0 c → cluster_ok c.
Proof.
  intros (Hh & Hp & Hch & _) Hr. assert (cluster_ok c0) as Hc.
  { split_and!; [|by rewrite Hp|intros k q; by rewrite Hch, lookup_empty].
    intros p h Hph. destruct (Hh p h Hph). by apply (fresh_host_ok _ p). }
  clear Hh Hp Hch. induction Hr as [|c1 c2 c3 Hs _ IH]; [done|]. by eapply IH, cluster_step_ok.
Qed.

(** ** Properties *)

(** C3: no result is invented.  In a cluster of any number of nodes that all run this
    program, whatever happens and in whatever order (submissions anywhere, fetches,
    raft updates, network events and blobs from anywhere, lost and late messages, jobs
    that fail or panic, crashes), every result a node has recorded for a task id
    answers a project somebody submitted under that id: it is a refusal (exit code
    101), a failure (1), or what the sandbox of a node returned when it ran the
    submitted commands in a directory with exactly the submitted content.  In
    particular a result with exit code 0 always comes from such a run. *)
Theorem results_answer_submissions c0 c p h id r :
  initial c0 → rtc cluster_step c0 c → hosts c !! p = Some h → nd_results (h_node h) !! id = Some r →
  ∃ su, su ∈ submissions c ∧ su_task_id su = id ∧ answers su r ∧ (pr_exit_code r = 0%Z → built_from su r).
Proof.
  intros Hi Hr Hph Hres. destruct (reachable_ok c0 c Hi Hr) as [Hh _]. destruct (Hh _ _ Hph) as [Hn _].
  destruct (no_results _ _ Hn id r Hres) as (Hid & su & Hsu & Ha). exists su. split; [done|].
  split; [|split; [done|]].
  - rewrite <- Hid. by destruct Ha as [(h' & ->)|[(h' & why & ->)|(?&?&?&?&?&?&?&_&_&_&->)]].
  - by destruct Ha as [(h' & ->)|[(h' & why & ->)|?]].
Qed.


(** A peer answers for any task.  The response of a peer, to whatever request, is
    recorded under the task id it names: a task that was sent to another peer, or to
    none, is then done, with that result. *)
Theorem any_peer_answers_any_task cfg s src r now now' n :
  (handle_project_exchange cfg (RRResponse src r) s).1 = Some (ProjectResultReceived src r) ∧
  let c := client_of (on_event now (ProjectResultReceived src r) n).2 in
  task_status (pr_task_id r) now' c = TaskDone ∧ get_result (pr_task_id r) c = Some r.
Proof. split; [done|]. exact (task_status_record now now' r (client_of n)). Qed.
End safety.

(** ** A concrete cluster: a project is submitted, fetched and built elsewhere, and answered *)

Module DemoCluster.
Import (hints) DemoMesh DemoJourney.
Definition W : Type := gmap Hash bytes.
Definition sandbox (p : PeerId) (ds : gmap string bytes) (spec : ProjectSpec) (o : outcome CoreError ExecutionResult) :
    Prop := o = Done (Ok DemoJourney.er).
Definition join_text (s : string) : string := s.
Definition strange (ch : Channel) : Prop := (100 <= ch)%N.
#[local] Abbreviation cluster_step := (Cluster.cluster_step sandbox join_text strange False).

Definition started (p : PeerId) (n : Node W bytes) (executes : bool) : Host (W := W) (T := bytes) :=
  mkHost n executes (loop_start (config_of p executes n) (mkSender [] [])) 0 0 0.
Definition m : PeerId := 11%N.
Definition x : PeerId := 22%N.
Definition c0 : Cluster (W := W) (T := bytes) :=
  mkCluster {[ m := started m DemoJourney.master false; x := started x DemoJourney.executor true ]} [] ∅ [].
Definition host (p : PeerId) (c : Cluster) : Host := default (started m DemoJourney.master false) (hosts c !! p).

Definition su : Submission := mkSubmission 11%N (Some [x61]) "/root/project" ["make"] [] 1000 None.
Definition task : ProjectTask := task_for su DemoProject.hash.
Definition response : BlobResponse := mkBlobResponse DemoProject.hash true DemoProject.archive.
Definition dial : NetAction := DoDial "/ip4/10.0.0.2".

(** The steps of one host. *)
Definition on (p : PeerId) (f : Host → Host) (c : Cluster) : Cluster := set_host p (f (host p c)) c.
Definition does (p : PeerId) (s : NodeStep) : Cluster → Cluster := on p (host_step 0 s).
Definition takes (p : PeerId) (x : SwarmCommand) : Cluster → Cluster :=
  on p (λ h, took_command (loop_step p (InCommand (Some x)) h)).
Definition hears (p : PeerId) (ev : Event) : Cluster → Cluster :=
  on p (λ h, took_event (host_step 0 (Monitor (Arrived 0 ev)) h)).
Definition sends (p : PeerId) (a : NetAction) (c : Cluster) : Cluster :=
  set_packets (packet_of c p a ++ packets c) (set_host p (took_action (host p c)) c).
Definition gets (p : PeerId) (e : BehaviourEvent) (c : Cluster) : Cluster :=
  set_packets [] (on p (loop_step p (InSwarm (Some (SeBehaviour e)))) c).
Definition ran (h : Host) : outcome string ProjectResult * Disk W bytes :=
  executor_run (node_id (nd_descriptor (h_node h))) DemoProject.sandbox join_text (Ok DemoProject.archive) (Ok "/tmp/x")
    task (disk_of (h_node h)).

(** The project goes to the executor. *)
Definition c1 : Cluster := log_submission su (does m DemoJourney.submission c0).
Definition c2 : Cluster := takes m (SendProjectTask x task) c1.
Definition c3 : Cluster := sends m dial c2.
Definition c4 : Cluster := sends m (ReqProject x task) c3.
Definition c5 : Cluster := set_channel (x, 5%N) m (gets x (ProjectExchange (RRRequest m task 5%N)) c4).
(** Which fetches the snapshot. *)
Definition c6 : Cluster := does x (FetchBegin DemoProject.hash 60) c5.
Definition c7 : Cluster := does x (FetchProceed 0) c6.
Definition c8 : Cluster := does x (FetchProceed 0) c7.
Definition c9 : Cluster := does x (FetchProceed 0) c8.
Definition c10 : Cluster := takes x (RequestBlob m DemoProject.hash) c9.
Definition c11 : Cluster := sends x dial c10.
Definition c12 : Cluster := sends x (ReqBlob m (mkBlobRequest DemoProject.hash)) c11.
Definition c13 : Cluster :=
  set_channel (m, 6%N) x (gets m (BlobExchange (RRRequest x (mkBlobRequest DemoProject.hash) 6%N)) c12).
Definition c14 : Cluster := sends m (RespBlob 6%N response) c13.
Definition c15 : Cluster := gets x (BlobExchange (RRResponse m response)) c14.
Definition c16 : Cluster := hears x (BlobResponseReceived m DemoProject.hash true DemoProject.archive) c15.
Definition c17 : Cluster := does x (FetchProceed 0) c16.
(** It runs the project, and the answer comes back. *)
Definition c18 : Cluster :=
  on x (λ h, loop_step x (job_end 0 (ran h).1) (set_node (set_disk (ran h).2 (h_node h)) h)) c17.
Definition c19 : Cluster := on x (loop_step x InOutcome) c18.
Definition c20 : Cluster := sends x (RespProject 5%N DemoJourney.answer) c19.
Definition c21 : Cluster := gets m (ProjectExchange (RRResponse x DemoJourney.answer)) c20.
Definition c22 : Cluster := hears m (BlobRequestReceived x DemoProject.hash) c21.
Definition c23 : Cluster := hears m (ProjectResultReceived x DemoJourney.answer) c22.

Ltac check := first [vm_compute; reflexivity|exact I|split; [vm_compute; reflexivity|unfold strange; simpl; lia]].
Ltac next c s := apply (rtc_l _ _ c); [eapply s; check|].
Lemma demo_submitted : rtc cluster_step c0 c5.
Proof.
  next c1 (StepSubmit sandbox join_text strange False c0 m (host m c0) 0%N DemoJourney.submission su).
  next c2 (StepCommand sandbox join_text strange False c1 m (host m c1) (SendProjectTask x task)).
  next c3 (StepSend sandbox join_text strange False c2 m (host m c2) dial).
  next c4 (StepSend sandbox join_text strange False c3 m (host m c3) (ReqProject x task)).
  next c5 (StepTask sandbox join_text strange False c4 m x (host x c4) task 5%N [] []).
  apply rtc_refl.
Qed.
Lemma demo_fetched : rtc cluster_step c5 c17.
Proof.
  next c6 (StepFetch sandbox join_text strange False c5 x (host x c5) 0%N 0%N (mkJob task m) 60%N).
  next c7 (StepInternal sandbox join_text strange False c6 x (host x c6) 0%N (FetchProceed 0)).
  next c8 (StepInternal sandbox join_text strange False c7 x (host x c7) 0%N (FetchProceed 0)).
  next c9 (StepInternal sandbox join_text strange False c8 x (host x c8) 0%N (FetchProceed 0)).
  next c10 (StepCommand sandbox join_text strange False c9 x (host x c9) (RequestBlob m DemoProject.hash)).
  next c11 (StepSend sandbox join_text strange False c10 x (host x c10) dial).
  next c12 (StepSend sandbox join_text strange False c11 x (host x c11) (ReqBlob m (mkBlobRequest DemoProject.hash))).
  next c13 (StepAsk sandbox join_text strange False c12 x m (host m c12) (mkBlobRequest DemoProject.hash) 6%N [] []).
  next c14 (StepSend sandbox join_text strange False c13 m (host m c13) (RespBlob 6%N response)).
  next c15 (StepBlob sandbox join_text strange False c14 m x (host x c14) response [] []).
  next c16 (StepEvent sandbox join_text strange False c15 x (host x c15) 0%N 0%N
    (BlobResponseReceived m DemoProject.hash true DemoProject.archive)).
  next c17 (StepInternal sandbox join_text strange False c16 x (host x c16) 0%N (FetchProceed 0)).
  apply rtc_refl.
Qed.
Lemma job_ran : cluster_step c17 c18.
Proof.
  unfold c18, on. cbv beta.
  apply (StepJob sandbox join_text strange False c17 x (host x c17) 0%N (mkJob task m) DemoProject.sandbox
    (Ok DemoProject.archive) (Ok "/tmp/x") (ran (host x c17)).1 (ran (host x c17)).2).
  - check.
  - check.
  - intros tp [= <-]. check.
  - apply surjective_pairing.
  - intros spec. reflexivity.
Qed.
Lemma reached : rtc cluster_step c0 c23.
Proof.
  etrans; [exact demo_submitted|]. etrans; [exact demo_fetched|]. apply (rtc_l _ _ c18); [exact job_ran|].
  next c19 (StepOutcome sandbox join_text strange False c18 x (host x c18)).
  next c20 (StepSend sandbox join_text strange False c19 x (host x c19) (RespProject 5%N DemoJourney.answer)).
  next c21 (StepResult sandbox join_text strange False c20 x m (host m c20) DemoJourney.answer [] []).
  next c22 (StepEvent sandbox join_text strange False c21 m (host m c21) 0%N 0%N (BlobRequestReceived x DemoProject.hash)).
  next c23 (StepEvent sandbox join_text strange False c22 m (host m c22) 0%N 0%N
    (ProjectResultReceived x DemoJourney.answer)).
  apply rtc_refl.
Qed.

Lemma c0_initial : initial c0.
Proof.
  split_and!; try reflexivity. intros p h. unfold c0. simpl. rewrite lookup_insert_Some.
  intros [[<- <-]|[_ [<- <-]%lookup_singleton_Some]].
  all: split; [split_and!; try reflexivity; exists (mkSender [] []); split; reflexivity|intros h' d Hd; discriminate Hd].
Qed.
End DemoCluster.
Import (hints) DemoMesh DemoJourney.

Lemma results_answer_submissions_witness :
  nd_results (h_node (DemoCluster.host DemoCluster.m DemoCluster.c23)) !! 11%N = Some DemoJourney.answer ∧
  ∃ su, su ∈ submissions DemoCluster.c23 ∧ su_task_id su = 11%N ∧
    built_from DemoCluster.sandbox su DemoJourney.answer.
Proof.
  assert (nd_results (h_node (DemoCluster.host DemoCluster.m DemoCluster.c23)) !! 11%N = Some DemoJourney.answer)
    as Hres by (vm_compute; reflexivity).
  split; [exact Hres|].
  destruct (results_answer_submissions (H0 := MemStore.mem_store_laws) (H1 := DemoProject.tar)
    DemoCluster.sandbox DemoCluster.join_text DemoCluster.strange False (λ _ _ _ _ _, I) DemoCluster.c0
    DemoCluster.c23 DemoCluster.m _ 11%N DemoJourney.answer DemoCluster.c0_initial DemoCluster.reached
    ltac:(vm_compute; reflexivity) Hres) as (su & Hsu & Hid & _ & Hb).
  exists su. split; [exact Hsu|split; [exact Hid|]]. apply Hb. reflexivity.
Defined.

