(* ===== verification/SubmitProject.v ===== *)
(** * The example client (crates/node/examples/submit_project.rs)

    A program that submits a directory to a node and polls for its result, as a tree
    of calls ([Effects]); its sockets, clock and output are the agent's calls
    ([Agent]).  It runs here against the node of [AgentNode] with its standard output
    on a screen. *)

From S2P Require Import Prelude CoreTypes Interfaces Text Json Effects Channels BlobStore.
From S2P Require Import StateMachine Swarm RaftNet Project Ipc Agent AgentRun AgentNode.

(** The exit code of a program whose main thread panics: [unwrap] and [expect]. *)
Definition PANICKED : Z := 101.
Definition unwrap {A} (c : AgentCall (result string A)) : agent A :=
  r ← call c; match r with Ok a => mret a | Err _ => exit PANICKED end.

Section client.
Context `{JsonText, UuidText}.

(** [call]: the whole response, whatever it says. *)
Definition uds_call (sock method : string) (params : JsonValue) : agent JsonValue :=
  _ ← unwrap (Connect sock);
  id ← call NewUuid;
  _ ← unwrap (WriteAll (rpc_payload method params id));
  _ ← unwrap Flush;
  line ← unwrap ReadLine;
  match json_parse (trim line) with Ok v => mret v | Err _ => exit PANICKED end.

(** The words of an optional argument: [split(' ')] keeps empty pieces. *)
Definition words (arg : option string) : list string :=
  match arg with Some s => split_char " "%char s | None => [] end.

Definition project_params (dir : string) (build run : list string) : JsonValue :=
  json_object [("project_dir", JString dir); ("work_dir", JString "/root/project");
    ("build_cmd", json_strings build); ("run_cmd", json_strings run); ("timeout_ms", JNumber 900000)].

Definition result_member (key : string) (response : JsonValue) : option string :=
  as_str (json_member key (json_member "result" response)).
Definition submit_line (response : JsonValue) : string := fmt ["submit -> "; json_text response].
Definition result_line (response : JsonValue) : string := fmt ["result -> "; json_text response].

(** The polls numbered [ns]. *)
Fixpoint poll_result (sock task_id : string) (ns : list nat) : agent unit :=
  match ns with
  | [] => _ ← call (Stderr "timeout waiting for project result"); exit 1
  | i :: ns =>
      _ ← call (Sleep POLL_MILLIS);
      r ← uds_call sock "fetch_project_result" (fetch_params task_id);
      if decide (result_member "status" r = Some "completed") then call (Stdout (result_line r))
      else
        _ ← (if i mod 10 =? 0 then
               call (Stderr (fmt ["... still pending ("; dec (N.of_nat ((i + 1) * 3)); "s)"]))
             else mret tt);
        poll_result sock task_id ns
  end.

(** [main], of the arguments after the program's name. *)
Definition submit_main (args : list string) : agent unit :=
  match args with
  | sock :: dir :: rest =>
      resp ← uds_call sock "submit_project"
               (project_params dir (words (rest !! 0)) (words (rest !! 1)));
      _ ← call (Stdout (submit_line resp));
      match default "" (result_member "task_id" resp) with
      | EmptyString => exit 1
      | task_id => poll_result sock task_id (seq 0 600)
      end
  | _ => exit PANICKED
  end.
End client.

(** ** Its exit status *)

Section status.
Context `{JsonText, UuidText}.

Lemma runs_unwrap {A} (c : AgentCall (result string A)) tr a :
  runs (unwrap c) tr (Returned a) → tr = [Act c (Ok a)].
Proof.
  unfold unwrap, call, mbind, prog_bind. simpl. intros ([x|e] & tr' & -> & Hr); simpl in Hr; naive_solver.
Qed.

(** A response that is returned was read from the socket. *)
Lemma runs_uds_call sock method params tr v : runs (uds_call sock method params) tr (Returned v) →
  ∃ tr' line, tr = tr' ++ [Act ReadLine (Ok line)] ∧ json_parse (trim line) = Ok v.
Proof.
  unfold uds_call.
  intros (t1 & ? & t2 & -> & _ & (t3 & id & t4 & -> & _ & (t5 & ? & t6 & -> & _ &
    (t7 & ? & t8 & -> & _ & (t9 & line & t10 & -> & ->%runs_unwrap & Hl)%runs_bind_ret)%runs_bind_ret
    )%runs_bind_ret)%runs_bind_ret)%runs_bind_ret.
  destruct (json_parse (trim line)) as [v'|] eqn:Hp; [|by destruct Hl]. destruct Hl as [-> [= ->]].
  exists (t1 ++ t3 ++ t5 ++ t7), line. by rewrite app_nil_r, <- !(assoc (++)).
Qed.

(** What the client has shown when it ends with exit code 0. *)
Definition shown_completed (tr : list (Effects.act AgentCall)) : Prop :=
  ∃ tr1 tr2 line v, tr = tr1 ++ Act ReadLine (Ok line) :: tr2 ++ [Act (Stdout (result_line v)) tt] ∧
    json_parse (trim line) = Ok v ∧ result_member "status" v = Some "completed".

Lemma shown_after tr tr' : shown_completed tr' → shown_completed (tr ++ tr').
Proof.
  intros (tr1 & tr2 & line & v & -> & Hv). exists (tr ++ tr1), tr2, line, v. by rewrite <- (assoc (++)).
Qed.

Lemma poll_result_shown sock id ns tr :
  runs (poll_result sock id ns) tr (Returned tt) → shown_completed tr.
Proof.
  revert tr. induction ns as [|i ns IH]; intros tr; cbn [poll_result].
  - intros (t1 & ? & t2 & -> & _ & [_ ?])%runs_bind_ret. done.
  - intros (t1 & ? & t2 & -> & _ & (t3 & v & t4 & -> & (t5 & line & -> & Hp)%runs_uds_call & Hr)%runs_bind_ret
      )%runs_bind_ret. apply shown_after.
    destruct (decide (result_member "status" v = Some "completed")) as [Hs|].
    + destruct Hr as ([] & ? & -> & [-> _]). exists t5, [], line, v. by rewrite <- (assoc (++)).
    + apply runs_bind_ret in Hr as (t6 & ? & t7 & -> & _ & Hr%IH). by repeat apply shown_after.
Qed.

(** Exit code 0 means that a completed result was read and printed: the last call of
    such a run prints a response that the client read from the socket and whose
    status is completed. *)
Theorem exit_zero_shows_completed args tr :
  runs (submit_main args) tr (Returned tt) → shown_completed tr.
Proof.
  destruct args as [|sock [|dir rest]]; [by intros [_ ?]..|]. cbn [submit_main].
  intros (t1 & v & t2 & -> & _ & (t3 & ? & t4 & -> & _ & Hr)%runs_bind_ret)%runs_bind_ret.
  do 2 apply shown_after. destruct (default "" (result_member "task_id" v)) as [|a s]; [by destruct Hr|].
  by eapply poll_result_shown.
Qed.
End status.

(** ** With a node

    What the program prints is kept in order; every other call is the node's. *)

Section screen.
Context {W T : Type} `{BlobStore W, Tar T, UuidText, HashOrder, FromValue SubmitProjectParams,
  FromValue FetchProjectParams, Base64, JsonText, SerdeJson JsonRpcRequest, SerdeJson JsonRpcResponse}.
Context (seed : N) (env : string → option string).

Definition off_screen {X} (c : AgentCall X) (s : NodeWorld W T * list string) : X * (NodeWorld W T * list string) :=
  let '(x, w) := serve seed env X c s.1 in (x, (w, s.2)).
Definition on_screen X (c : AgentCall X) (s : NodeWorld W T * list string) :
    X * (NodeWorld W T * list string) :=
  match c in AgentCall X return X * (NodeWorld W T * list string) with
  | Stdout text => (tt, (s.1, s.2 ++ [text]))
  | c => off_screen c s
  end.
End screen.

Section node.
Context {W T : Type} `{BlobStoreLaws W, TarLaws T, UuidTextLaws, HashOrderLaws,
  FromValue SubmitProjectParams, FetchProjectParamsLaws, Base64Laws, JsonTextLaws,
  SerdeJson JsonRpcRequest, SerdeJson JsonRpcResponse, !WireLaws}.
Context (seed : N) (env : string → option string).
Implicit Types w : NodeWorld W T.

(** A call gets the node's response to its request. *)
Lemma exec_uds_call sock method params w out resp h' : json_wf params = true →
  handle seed (clock w) (N.succ (next_uuid w))
    (mkJsonRpcRequest "2.0" method params (JString (uuid_to_string (next_uuid w)))) (handler w) =
    (Done (Ok resp), h') →
  json_wf (response_value resp) = true →
  exec (on_screen seed env) (uds_call sock method params) (w, out) =
  (Returned (response_value resp),
   (mkNodeWorld h' (clock w) (arrivals w) (N.succ (N.succ (next_uuid w))) "", out)).
Proof.
  intros Hps Hh Hwf.
  destruct (serve_request seed method params (next_uuid w)
    (mkNodeWorld (handler w) (clock w) (arrivals w) (N.succ (next_uuid w)) (rpc_payload method params (next_uuid w)))
    resp h' Hps) as (line & Hl & Hp); [done..|].
  clear Hwf. revert Hp. generalize (response_value resp). intros v Hp.
  unfold uds_call, off_screen. simpl. change ("" +:+ ?p) with p. cbn [clock arrivals next_uuid] in Hl.
  unfold off_screen. simpl. rewrite Hl. simpl. by rewrite Hp.
Qed.

(** The response that carries the answer to a fetch, under the request's id. *)
Definition answered (v : JsonValue) (id : Uuid) : JsonValue :=
  response_value (mkJsonRpcResponse "2.0" (Some v) None (JString (uuid_to_string id))).

Lemma exec_uds_fetch sock task w out c : project_client (handler w) = Some c →
  json_wf (answer task (clock w) c) = true →
  exec (on_screen seed env) (uds_call sock "fetch_project_result" (fetch_params (uuid_to_string task))) (w, out) =
  (Returned (answered (answer task (clock w) c) (next_uuid w)),
   (mkNodeWorld (handler w) (clock w) (arrivals w) (N.succ (N.succ (next_uuid w))) "", out)).
Proof.
  intros Hc Hwf. erewrite exec_uds_call; [done|done|apply (handle_fetch seed _ _ task _ _ c Hc)|by apply response_wf].
Qed.

Lemma poll_result_ok sock id ns w out t0 T' r : tracked id t0 w →
  (T', r) ∈ arrivals w → (clock w < T' <= clock w + N.of_nat (length ns) * POLL)%N → pr_task_id r = id →
  (∀ x, x ∈ arrivals w → pr_task_id x.2 = id → x = (T', r)) → result_typed r →
  (clock w + N.of_nat (length ns) * POLL - t0 <= RESULT_GRACE)%N →
  ∃ w' rid, exec (on_screen seed env) (poll_result sock (uuid_to_string id) ns) (w, out) =
    (Returned tt, (w', out ++ [result_line (answered (completed r) rid)])) ∧ outbox w' = outbox w.
Proof.
  revert w. induction ns as [|n ns IH]; intros w Htr Hin HT Hid Huniq Htyped Hg; [simpl in HT; lia|].
  cbn [length] in HT, Hg. rewrite Nat2N.inj_succ in HT, Hg.
  set (now := (clock w + POLL)%N). set (w1 := deliver now w).
  assert (outbox w1 = outbox w) as Hbox by apply deliver_outbox.
  destruct (N.leb_spec T' now) as [Hdue|Hlate].
  - destruct (answer_completed now id w t0 T' r) as (c & Hc & Hans); try done.
    { intros x Hx Hx2. by rewrite (Huniq x Hx Hx2). }
    exists (mkNodeWorld (handler w1) now (arrivals w1) (N.succ (N.succ (next_uuid w1))) ""), (next_uuid w1).
    split; [|done]. cbn [poll_result].
    rewrite exec_bind. cbn [exec call on_screen off_screen serve fst snd].
    change (clock w + POLL_MILLIS * 1000000)%N with now. fold w1. cbn [end_bind].
    rewrite exec_bind, (exec_uds_fetch sock id w1 out c Hc)
      by (change (clock w1) with now; rewrite Hans; by apply completed_wf).
    change (clock w1) with now. rewrite Hans. cbn [end_bind]. rewrite decide_True by done. reflexivity.
  - destruct (answer_pending now id w t0) as (Htr' & c & Hc & Hans); [done| |lia|].
    { intros x Hx Hxd Hx2. rewrite (Huniq x Hx Hx2) in Hxd. simpl in Hxd. lia. }
    set (w2 := mkNodeWorld (handler w1) now (arrivals w1) (N.succ (N.succ (next_uuid w1))) "").
    destruct (IH w2) as (w' & rid & Hw' & Hb); try done.
    + simpl. apply list_elem_of_filter. split; [simpl; lia|done].
    + simpl. lia.
    + simpl. intros x [_ Hx]%list_elem_of_filter. by apply Huniq.
    + simpl. lia.
    + exists w', rid. split; [|by rewrite Hb]. cbn [poll_result].
      rewrite exec_bind. cbn [exec call on_screen off_screen serve fst snd].
      change (clock w + POLL_MILLIS * 1000000)%N with now. fold w1. cbn [end_bind].
      rewrite exec_bind, (exec_uds_fetch sock id w1 out c Hc) by (change (clock w1) with now; by rewrite Hans).
      change (clock w1) with now. rewrite Hans. cbn [end_bind]. rewrite decide_False by done.
      rewrite exec_bind. by destruct (_ =? _).
Qed.

(** ** Submitting *)

Section submission.
(** A directory the node can pack on a healthy store, for an executor it can reach. *)
Context (sock dir : string) (rest : list string) (w : NodeWorld W T) (c : ProjectClient W T).
Context (t : T) (b : tar_builder) (d : bytes) (peer : PeerId).
Let params : JsonValue := project_params dir (words (rest !! 0)) (words (rest !! 1)).
Let id : TaskId := N.succ (next_uuid w).
(** serde fills in the target that the request does not name. *)
Hypothesis params_parse : from_value params = Ok (mkSubmitProjectParams dir "/root/project"
  (words (rest !! 0)) (words (rest !! 1)) 900000 None).
Hypothesis id_text : uuid_to_string id ≠ "".
Hypothesis node_client : project_client (handler w) = Some c.
Hypothesis new_task : results c !! id = None.
Hypothesis packable : dirs (store c) !! dir = Some t ∧ append_dir_all (Some t) = Ok b ∧ into_inner b = Ok d.
Hypothesis storable : bs_healthy (cas (store c)) ∧ bs_adm d.
Hypothesis reachable : resolve_peer seed None c = Ok peer ∧ chan_ready (swarm_commands c) = true.

Lemma project_params_wf : json_wf params = true.
Proof.
  unfold params, project_params, json_object. cbn -[json_strings words]. by rewrite !json_strings_wf.
Qed.

(** The example's exit status does not depend on the project's.  When exactly one
    result for the task arrives within 30 minutes, the example prints the node's
    response to the submission and the one that carries the result, and ends with
    exit code 0, whatever the exit code of the project. *)
Theorem example_reports_result out T' r :
  (T', r) ∈ arrivals w → pr_task_id r = id →
  (∀ x, x ∈ arrivals w → pr_task_id x.2 = id → x = (T', r)) → result_typed r →
  (clock w < T' <= clock w + from_secs 1800)%N →
  ∃ w' rid, exec (on_screen seed env) (submit_main (sock :: dir :: rest)) (w, out) =
    (Returned tt, (w', out ++ [
      submit_line (answered (json_object [("task_id", JString (uuid_to_string id))]) (next_uuid w));
      result_line (answered (completed r) rid)])).
Proof.
  intros Hin Hid Huniq Htyped HT. destruct packable as (Hdir & Ha & Hi), storable as [Hs Hadm], reachable as [Hpeer Htx].
  destruct (handle_submit seed (clock w) id
    (mkJsonRpcRequest "2.0" "submit_project" params (JString (uuid_to_string (next_uuid w))))
    (mkSubmitProjectParams dir "/root/project" (words (rest !! 0)) (words (rest !! 1)) 900000 None) None t b d peer
    (handler w) c) as (h' & c' & h & Hh & Hc' & Hr' & _); try done.
  set (w1 := mkNodeWorld h' (clock w) (arrivals w) (N.succ (N.succ (next_uuid w))) "").
  assert (tracked id (clock w) w1) as Htr.
  { exists (submit_track id (clock w) c'). split; [done|]. simpl. by rewrite lookup_insert_eq. }
  destruct (poll_result_ok sock id (seq 0 600) w1 (out ++ [submit_line
    (answered (json_object [("task_id", JString (uuid_to_string id))]) (next_uuid w))]) (clock w) T' r)
    as (w' & rid & Hw' & _); rewrite ?length_seq; try done.
  { transitivity (from_secs 1800); [|by vm_compute]. change (clock w1) with (clock w).
    replace (N.of_nat 600 * POLL)%N with (from_secs 1800) by (by vm_compute). lia. }
  exists w', rid. cbn [submit_main]. fold params.
  rewrite exec_bind, (exec_uds_call _ _ _ _ _ _ _ project_params_wf Hh) by by apply response_wf.
  cbn [end_bind]. fold w1. change (response_value _) with (answered
    (json_object [("task_id", JString (uuid_to_string id))]) (next_uuid w)).
  rewrite exec_bind. cbn [exec call on_screen fst snd end_bind].
  change (result_member "task_id" _) with (Some (uuid_to_string id)). cbn [default from_option Datatypes.id].
  destruct (uuid_to_string id) eqn:Hu; [by destruct id_text|]. rewrite <- Hu in Hw' |- *. rewrite Hw'. f_equal.
  by rewrite <- (assoc (++)).
Qed.
End submission.
End node.

(** ** A concrete run: the project fails, the example succeeds *)

Import (hints) DemoNode.

Definition failing : ProjectResult := mkProjectResult 11%N 1 [] [x6f] 5 22%N.
Example failing_project_exits_zero :
  let run := exec (on_screen 0 DemoNode.env) (submit_main ["/s"; "/src"; "make"]) (DemoNode.world [(7%N, failing)], []) in
  run.1 = Returned tt ∧ length run.2.2 = 2.
Proof. vm_compute. done. Qed.
