(* ===== verification/Timing.v ===== *)
(** * Time budgets, end to end

    The request timeouts of the network behaviour (crates/p2p/src/behaviour.rs) and
    how long a job of the sandbox's worker can take: every call that is made under a
    budget is charged its budget, the others a bound of their own. *)

From S2P Require Import Prelude CoreTypes Interfaces Text FileSys Protocol Sandbox SandboxRun CasFetch Project Agent.

(** ** The exchanges of the network behaviour (behaviour.rs) *)

Inductive Exchange := DescriptorExchange | RaftExchange | BlobExchange | ProjectExchange.
#[export] Instance Exchange_eq_dec : EqDecision Exchange.
Proof. solve_decision. Defined.

Definition exchanges : list Exchange := [DescriptorExchange; RaftExchange; BlobExchange; ProjectExchange].

(** The protocol an exchange speaks, in both directions. *)
Definition exchange_protocol (e : Exchange) : string :=
  match e with
  | DescriptorExchange => DESCRIPTOR_PROTOCOL
  | RaftExchange => RAFT_PROTOCOL
  | BlobExchange => BLOB_PROTOCOL
  | ProjectExchange => PROJECT_PROTOCOL
  end.

(** Its request timeout in nanoseconds; [None] is the default of libp2p. *)
Definition request_timeout (e : Exchange) : option N :=
  match e with
  | DescriptorExchange | RaftExchange => None
  | BlobExchange => Some (secs 900)
  | ProjectExchange => Some (secs 1800)
  end.

(** ** How long the host's calls take

    A call under a timeout ends when it is over; a call without one takes at most
    [slack]. *)
Class QleanTiming (Q I : Type) `{QleanHost Q I} (slack : N) := {
  image_new_time t b (h : Q) : (now (image_new t b h).2 <= now h + b)%N;
  machine_new_time b i (h : Q) : (now (machine_new b i h).2 <= now h + b)%N;
  machine_init_time b m (h : Q) : (now (machine_init b m h).2 <= now h + b)%N;
  vm_upload_time b m d p (h : Q) : (now (vm_upload b m d p h).2 <= now h + b)%N;
  vm_exec_time b m c (h : Q) : (now (vm_exec (Some b) m c h).2 <= now h + b)%N;
  vm_exec_untimed m c (h : Q) : (now (vm_exec None m c h).2 <= now h + slack)%N;
  is_running_time m (h : Q) : (now (is_running m h).2 <= now h + slack)%N;
  vm_shutdown_time m (h : Q) : (now (vm_shutdown m h).2 <= now h + slack)%N;
}.

Section timing.
Context {Q I : Type} `{QleanHost Q I} (slack : N) `{!QleanTiming Q I slack}.
Local Abbreviation Worker := (Worker Q I).
Implicit Types w : Worker.

(** A computation that, started by [k] after the instant [t], ends by [k + a] after it. *)
Definition within (t a : N) {E A} (m : M Worker E A) : Prop :=
  ∀ k w, (now (host w) <= t + k)%N → (now (host (m w).2) <= t + k + a)%N.

Lemma within_weaken t a b {E A} (m : M Worker E A) : within t a m → (a <= b)%N → within t b m.
Proof. intros Hm Hab k w Hw. specialize (Hm k w Hw). lia. Qed.

Lemma bind_ends {E A B} (m : M Worker E A) (f : A → M Worker E B) w e e' :
  (now (host (m w).2) <= e)%N → (∀ x w1, (now (host w1) <= e)%N → (now (host (f x w1).2) <= e')%N) → (e <= e')%N →
  (now (host (bind m f w).2) <= e')%N.
Proof.
  intros Hm Hf He. unfold bind. destruct (m w) as [[[x|er]|why] w1]; simpl in *; [by apply Hf|lia..].
Qed.

Lemma within_bind t a b {E A B} (m : M Worker E A) (f : A → M Worker E B) :
  within t a m → (∀ x, within t b (f x)) → within t (a + b) (bind m f).
Proof.
  intros Hm Hf k w Hw. rewrite N.add_assoc. apply (bind_ends m f w (t + k + a)%N); [by apply Hm| |lia].
  intros x w1 Hw1. rewrite <- (N.add_assoc t k a) in *. by apply Hf.
Qed.

Lemma within_pure t {E A} (m : M Worker E A) : (∀ w, host (m w).2 = host w) → within t 0 m.
Proof. intros Hm k w Hw. rewrite Hm. lia. Qed.

Lemma within_attempt t a {E E' A} (m : M Worker E A) :
  within t a m → within t a (attempt m : M Worker E' (result E A)).
Proof. intros Hm k w Hw. specialize (Hm k w Hw). unfold attempt. by destruct (m w) as [[r|why] w1]. Qed.

(** A call whose duration is known from the state it starts in. *)
Lemma within_call t a {A} (f : Worker → Q → timed A * Q) failed (elapsed : Worker → string) :
  (∀ k w, (now (host w) <= t + k)%N → (now (f w (host w)).2 <= t + k + a)%N) →
  within t a (λ w, call (f w) failed (elapsed w) w).
Proof. intros Hf k w Hw. specialize (Hf k w Hw). unfold call. by destruct (f w (host w)) as [[[]|] h]. Qed.

Lemma within_match_machine t a {E A} (m : M Worker E A) (f : MachineId → M Worker E A) :
  within t a m → (∀ x, within t a (f x)) →
  within t a (λ w, match machine w with None => m w | Some x => f x w end).
Proof. intros Hm Hf k w Hw. destruct (machine w) as [x|]; [by apply Hf|by apply Hm]. Qed.

(** ** Budgets *)

(** A phase never runs later than a second after the deadline, or than a second at all. *)
Lemma phase_budget_end deadline phase n : (n + phase_budget deadline phase n <= N.max deadline n + secs 1)%N.
Proof. destruct (phase_budget_bounds deadline phase n) as [_ Hb]. unfold secs in *. lia. Qed.

(** Two calls share the budget of the boot. *)
Lemma boot_budget_end deadline n :
  (n + phase_budget deadline PhBoot n + phase_budget deadline PhBoot n <= N.max deadline n + secs 2)%N.
Proof.
  unfold phase_budget. assert (2 * ((deadline - n) / 2) <= deadline - n)%N by (apply N.Div0.mul_div_le).
  unfold secs, BOOT_TIMEOUT in *. lia.
Qed.

Lemma boot_within t b i : within t (b + b) (boot_machine i b).
Proof.
  replace (b + b)%N with (b + (b + 0))%N by lia.
  apply within_bind; [|intros m; apply within_bind; [|intros _; by apply within_pure]].
  - apply (within_call t b (λ _, machine_new b i) _ (λ _, _)). intros k w Hw.
    pose proof (machine_new_time b i (host w)). lia.
  - apply (within_call t b (λ _, machine_init b m) _ (λ _, _)). intros k w Hw.
    pose proof (machine_init_time b m (host w)). lia.
Qed.

Section job.
Context (cfg : WorkerConfig) (deadline t : N) (Ht : (deadline <= t)%N).

Lemma within_phase {A} phase (f : N → Q → timed A * Q) failed (elapsed : N → string) :
  (∀ b h, (now (f b h).2 <= now h + b)%N) →
  within t (secs 1) (λ w, let b := phase_budget deadline phase (now (host w)) in call (f b) failed (elapsed b) w).
Proof.
  intros Hf. apply (within_call t (secs 1) (λ w, f (phase_budget deadline phase (now (host w))))
    failed (λ w, elapsed (phase_budget deadline phase (now (host w))))).
  intros k w Hw. specialize (Hf (phase_budget deadline phase (now (host w))) (host w)).
  pose proof (phase_budget_end deadline phase (now (host w))). lia.
Qed.

Lemma prepare_within template : within t (secs 3 + slack) (prepare template deadline).
Proof.
  assert (secs 3 + slack = secs 1 + (slack + secs 2))%N as -> by (unfold secs; lia).
  unfold prepare. apply within_bind; [|intros _; apply within_bind; [|intros running]].
  - intros k w Hw. unfold ensure_image. destruct (image w); [simpl; lia|].
    apply (bind_ends _ _ w (t + k + secs 1)%N); [|by intros x w1|done].
    exact (within_phase PhImage (image_new template) _ (λ b, fmt ["image preparation timed out after ";
      budget_secs b; "s (image download/cache unavailable?)"]) (λ b h, image_new_time template b h) k w Hw).
  - intros k w Hw. unfold machine_runs. destruct (machine w) as [m|]; [|simpl; lia].
    pose proof (is_running_time (slack := slack) m (host w)) as Hr. destruct (is_running m (host w)). simpl in *. lia.
  - destruct running; [eapply within_weaken; [by apply within_pure|unfold secs; lia]|].
    intros k w Hw. destruct (image w) as [img|]; [|simpl; unfold secs; lia].
    pose proof (boot_budget_end deadline (now (host w))).
    pose proof (boot_within (now (host w)) (phase_budget deadline PhBoot (now (host w))) img 0%N w ltac:(lia)) as Hb.
    apply (bind_ends _ _ w (t + k + secs 2)%N); [lia|by intros x w1|lia].
Qed.

Lemma phase_exec_within m phase cmd f b a : within t (secs 1) (phase_exec m phase deadline cmd f b a).
Proof.
  apply (within_phase phase (λ x, vm_exec (Some x) m cmd) (λ e, f +:+ e) (λ x, fmt [b; budget_secs x; a])).
  intros x h. apply vm_exec_time.
Qed.

Lemma run_phase_within m spec start b : within t (secs 1) (run_phase m spec deadline start b).
Proof.
  rewrite <- (N.add_0_r (secs 1)). apply within_bind; [apply phase_exec_within|].
  intros o. by apply within_pure.
Qed.

Lemma execute_within m spec : within t (slack + secs 3) (execute_on_vm m spec deadline).
Proof.
  assert (slack + secs 3 = 0 + (slack + (secs 1 + secs 2)))%N as -> by (unfold secs; lia).
  unfold execute_on_vm. apply within_bind; [by apply within_pure|]. intros start.
  apply within_bind; [|intros _; apply within_bind; [|intros _]].
  - intros k w Hw. simpl. pose proof (vm_exec_untimed (slack := slack) m ("rm -rf " +:+ ps_work_dir spec) (host w)). lia.
  - intros k w Hw. unfold upload_project. destruct (ps_local_project_dir spec) as [dir|]; [|simpl; lia].
    destruct (is_dir dir (host w)); [|simpl; lia].
    apply (within_phase PhUpload (λ b, vm_upload b m dir (default "/root" (parent (ps_work_dir spec))))
      (λ e, "upload: " +:+ e) (λ b, fmt ["upload timed out after "; budget_secs b;
        "s (guest unreachable or snapshot too large)"])); [|done].
    intros b h. apply vm_upload_time.
  - destruct (ps_build_cmd spec) as [|c cs].
    + eapply within_weaken; [apply run_phase_within|unfold secs; lia].
    + assert (secs 2 = secs 1 + secs 1)%N as -> by done.
      apply within_bind; [apply phase_exec_within|]. intros b. destruct (success (ex_status b)).
      * apply run_phase_within.
      * eapply within_weaken; [by apply within_pure|unfold secs; lia].
Qed.

Lemma run_job_within spec : within t (secs 6 + 2 * slack) (run_job cfg (mkJob spec deadline)).
Proof.
  replace (secs 6 + 2 * slack)%N with (secs 3 + slack + ((slack + secs 3) + 0))%N by (unfold secs; lia).
  apply within_bind; [apply within_attempt, prepare_within|].
  intros prepared. apply within_bind; [|intros o; destruct o; by apply within_pure].
  destruct prepared as [u|e]; [|eapply within_weaken; [by apply within_pure|lia]].
  intros k w Hw. destruct (machine w) as [m|]; [|simpl; lia].
  apply (bind_ends _ _ w (t + k + (slack + secs 3))%N); [|by intros x w1|done].
  exact (within_attempt t _ (E' := CoreError) _ (execute_within m spec) k w Hw).
Qed.
End job.

(** What the pool adds before the reply: nothing when the machine is kept, otherwise
    its shutdown and, if there is a pool, a boot. *)
Definition pool_time (cfg : WorkerConfig) : N :=
  match wc_mode cfg with
  | Reuse => 0
  | Fresh => slack + (if (wc_pool_size cfg =? 0)%N then 0 else BOOT_TIMEOUT + BOOT_TIMEOUT)
  end.

Lemma pool_within cfg t :
  within t (pool_time cfg) (mfor pool_action (after_job (plan_new (allows_reuse (wc_mode cfg)) (wc_pool_size cfg)))).
Proof.
  assert (within t slack (pool_action Discard)) as Hd.
  { intros k w Hw. simpl. destruct (machine w) as [m|]; [|simpl; lia]. simpl.
    pose proof (vm_shutdown_time (slack := slack) m (host w)). lia. }
  assert (∀ n, within t (BOOT_TIMEOUT + BOOT_TIMEOUT) (pool_action (Refill n))) as Hr.
  { intros n k w Hw. simpl. destruct (image w) as [img|]; [|simpl; lia].
    apply (bind_ends _ _ w (t + k + (BOOT_TIMEOUT + BOOT_TIMEOUT))%N); [|by intros [m|e] w1|done].
    exact (within_attempt t _ (E' := CoreError) _ (boot_within t BOOT_TIMEOUT img) k w Hw). }
  unfold pool_time, after_job, plan_new. destruct (wc_mode cfg); [by apply within_pure|]. cbn [allows_reuse reuse target].
  unfold MAX_POOL_TARGET. destruct (N.eqb_spec (wc_pool_size cfg) 0) as [->|Hn].
  - cbn [N.min N.eqb mfor]. apply within_bind; [done|]. intros _. by apply within_pure.
  - destruct (N.eqb_spec (N.min (wc_pool_size cfg) 8) 0) as [Hm|_]; [lia|]. cbn [mfor].
    apply within_bind; [done|]. intros _. rewrite <- (N.add_0_r (_ + _)%N). apply within_bind; [done|].
    intros _. by apply within_pure.
Qed.

Lemma worker_job_within cfg job t : (job_deadline job <= t)%N →
  within t (secs 6 + 2 * slack + pool_time cfg) (worker_job cfg job).
Proof.
  intros Ht. destruct job as [spec deadline]. apply within_bind; [by apply run_job_within|]. intros o.
  rewrite <- (N.add_0_r (pool_time cfg)). apply within_bind; [apply pool_within|]. intros _. by apply within_pure.
Qed.

(** ** Properties *)

End timing.

(** ** Concrete runs *)

Module DemoTiming.
(** A host on which creating and starting a machine take 430 seconds each, and any
    other call a second. *)
Record Host := mkHost { clock : N }.
Definition spend (n : N) (h : Host) : Host := mkHost (clock h + n).
(** A call that takes [n], under the timeout [b]. *)
Definition timed_call {A} (b n : N) (a : A) (h : Host) : timed A * Host :=
  if (n <=? b)%N then (Sandbox.Finished (Ok a), spend n h) else (Elapsed, spend b h).
#[export] Instance host : QleanHost Host unit := {|
  now := clock;
  is_dir _ _ := true;
  image_new _ b := timed_call b (secs 1) tt;
  machine_new b _ := timed_call b (secs 430) 0%N;
  machine_init b _ := timed_call b (secs 430) tt;
  is_running _ h := (Ok true, h);
  vm_exec b _ _ := timed_call (default (secs 1) b) (secs 1) (mkExecOutput (Exited 0) [] []);
  vm_upload b _ _ _ := timed_call b (secs 1) tt;
  vm_shutdown _ h := (Ok tt, spend (secs 1) h);
|}.
Lemma timed_call_time {A} b n (a : A) h : (clock (timed_call b n a h).2 <= clock h + b)%N.
Proof. unfold timed_call. destruct (N.leb_spec n b); simpl; lia. Qed.
#[export] Instance host_timing : QleanTiming Host unit (secs 1).
Proof. split; intros; try apply timed_call_time; simpl; lia. Qed.

Definition spec : ProjectSpec :=
  spec_of (mkProjectTask 1%N (from_hash "h") "/root/project" [] ["./app"] 900000 ResourceLimits_default None)
    "/tmp/x/project".
(** The snapshot took 200 seconds to arrive. *)
Definition start : Worker Host unit := worker_start (mkHost (secs 200)).
Definition config (mode : VmMode) : WorkerConfig := mkWorkerConfig mode 1 None.
Definition job : Job := mkJob spec (deadline_of spec (secs 200)).
End DemoTiming.
Import (hints) DemoTiming.


(** The pool can cost a success.  A project fetched in 200 seconds has succeeded after
    less than 1100 seconds, but its reply comes after more than 1800, when the
    request of the project protocol has timed out: the worker boots the next
    machine before it replies. *)
Lemma pooled_reply_misses_window : ∃ er w,
  run_job (DemoTiming.config Fresh) DemoTiming.job DemoTiming.start = (Done (Ok (Ok er)), w) ∧
  er_exit_code er = 0%Z ∧ (now (host w) < secs 1100)%N ∧
  (secs 1800 < now (H := DemoTiming.Host) (I := unit)
     (host (worker_job (DemoTiming.config Fresh) DemoTiming.job DemoTiming.start).2))%N.
Proof. eexists _, _. split; [vm_compute; reflexivity|]. by vm_compute. Qed.
