(* ===== verification/Bootstrap.v ===== *)
(** * Starting a node (crates/node/src/bootstrap.rs, main.rs, cli.rs; crates/p2p/src/swarm.rs)

    The startup sequence: configuration, identity, store, executor, swarm, raft and
    client, in the order of the code, and the command line around it. *)

From S2P Require Import Prelude CoreTypes Interfaces Text Json FileSys Channels Objects Store BlobStore.
From S2P Require Import StateMachine Swarm RaftNet RaftStorage RaftNode CasFetch Project Ipc Sandbox SandboxRun Config Node.

(** ** The preflight *)

(** What [sandbox_preflight] looks at on the host: paths that exist, paths that open
    for reading and writing, environment variables, files that can be read, and
    whether curl reached the Debian mirror. *)
Record HostFacts := mkHostFacts {
  hf_exists : string → bool;
  hf_is_rw : string → bool;
  hf_env : string → option string;
  hf_read : string → option string;
  hf_mirror : bool;
}.

Inductive Warning :=
| NoKvm
| KvmNotWritable (groups : string)
| NoBridge (bridge : string)
| NoBridgeHelper
| BridgeNotAllowed (bridge : string)
| NoBridgeConf (bridge : string)
| NoMirror.

(** The warnings it logs, in order. *)
Definition sandbox_preflight (h : HostFacts) : list Warning :=
  let bridge := default "qlbr0" (hf_env h "EO_BRIDGE") in
  (if negb (hf_exists h "/dev/kvm") then [NoKvm]
   else if negb (hf_is_rw h "/dev/kvm") then [KvmNotWritable (default "?" (hf_env h "USER"))]
   else []) ++
  (if hf_exists h (fmt ["/sys/class/net/"; bridge]) then [] else [NoBridge bridge]) ++
  match find (hf_exists h) ["/usr/lib/qemu/qemu-bridge-helper"; "/usr/libexec/qemu-bridge-helper"] with
  | Some _ => []
  | None => [NoBridgeHelper]
  end ++
  match hf_read h "/etc/qemu/bridge.conf" with
  | Some conf =>
      if existsb (λ l, bool_decide (trim l = fmt ["allow "; bridge])) (lines conf) then []
      else [BridgeNotAllowed bridge]
  | None => [NoBridgeConf bridge]
  end ++
  (if hf_mirror h then [] else [NoMirror]).

(** ** libp2p

    The peer of an ed25519 secret key, and what building the swarm answers on this
    host: the mDNS behaviour, the transport, and each address listened on. *)
Class Libp2p := {
  hex_decode : string → result string bytes;
  ed25519_peer : bytes → result string PeerId;
  mdns_new : result string unit;
  swarm_build : result string unit;
  listen_on : Multiaddr → result string unit;
}.

Section start.
Context {T C Msg R : Type} `{UuidText, Yaml, MultiaddrText, Libp2p, Lru C}.
(** What the object store relies on. *)
Context `{SerdeJson Object, Digest, Zlib, DebugText Object}.
Context `{!RawNode R (CasRaftStorage (W := World) (C := C)) Msg}.

(** *** The swarm *)

Fixpoint listen_all (addrs : list Multiaddr) : result CoreError unit :=
  match addrs with
  | [] => Ok tt
  | addr :: addrs =>
      let? _ := result_map_err (λ e, CoreTypes.Swarm (fmt ["listen on "; addr; ": "; e])) (listen_on addr) in
      listen_all addrs
  end.

(** The loop it spawns starts with [loop_start] of the configuration. *)
Definition new_swarm_with_commands (cfg : Swarm.Config) (listen : list Multiaddr) (event_tx : Sender Event) :
    outcome CoreError Loop :=
  match mdns_new with
  | Err e => Panic ("mDNS behaviour should build: " +:+ e)
  | Ok _ =>
      Done (let? _ := result_map_err CoreTypes.Swarm swarm_build in
            let? _ := listen_all listen in
            Ok (loop_start cfg event_tx))
  end.

(** *** The node *)

(** What the host provides: its system, the outcome of spawning the sandbox's
    thread, its facts, and, drawn at this start, a uuid, a key pair and the clock. *)
Record Host := mkHost {
  h_os : OsType;
  h_thread : result string unit;
  h_facts : HostFacts;
  h_uuid : NodeId;
  h_peer : PeerId;
  h_now : DateTime;
}.

Definition make_project_executor (h : Host) (vm_mode : VmMode) (pool_size : N)
    (template : option ImageTemplate) : option QleanSandbox :=
  match h_os h with
  | Linux => match with_template (h_thread h) vm_mode pool_size template with Ok sb => Some sb | Err _ => None end
  | _ => None
  end.

Definition set_node_id (id : string) (c : NodeConfig) : NodeConfig :=
  mkNodeConfig id (nc_node_type c) (nc_listen_addresses c) (nc_bootstrap_peers c) (nc_capabilities c)
    (nc_roles c) (nc_raft_id c) (nc_raft_peers c) (nc_identity_seed c).
Definition set_project_sandbox (b : bool) (d : NodeDescriptor) : NodeDescriptor :=
  let k := capabilities d in
  mkNodeDescriptor (node_id d) (node_type d) (os d)
    (mkCapabilities (storage k) (gpu_acceleration k) (runtimes k) (max_memory_mb k) (cpu_cores k) b)
    (advertised_addresses d) (current_assigned_roles d) (started_at d) (raft_id d).
Definition set_roles (roles : list Role) (d : NodeDescriptor) : NodeDescriptor :=
  mkNodeDescriptor (node_id d) (node_type d) (os d) (capabilities d) (advertised_addresses d) roles
    (started_at d) (raft_id d).

(** A node without an executor does not claim the capability. *)
Definition downgrade (executor : option QleanSandbox) (d : NodeDescriptor) : NodeDescriptor :=
  match executor with
  | None => if project_sandbox (capabilities d) then set_project_sandbox false d else d
  | Some _ => d
  end.

Definition identity (h : Host) (c : NodeConfig) : result string PeerId :=
  match nc_identity_seed c with
  | Some hex_seed =>
      let? bytes := result_map_err (λ _, "identity_seed must be hex-encoded") (hex_decode hex_seed) in
      result_map_err (λ e, "bad identity_seed: " +:+ e) (ed25519_peer bytes)
  | None => Ok (h_peer h)
  end.

(** [a.parse()] of every address, the first failure winning. *)
Fixpoint parse_all (l : list string) : result string (list Multiaddr) :=
  match l with
  | [] => Ok []
  | a :: l => let? m := multiaddr_parse a in let? ms := parse_all l in Ok (m :: ms)
  end.

(** A node that has started: its state, its peer id, its loop, the raft participant
    with the registration loop beside it, the sandbox worker, the socket its IPC
    server is given, and the warnings of the preflight. *)
Record Booted := mkBooted {
  bt_node : Node World T;
  bt_peer_id : PeerId;
  bt_loop : Loop;
  bt_raft : option (RaftNode.RaftNode (R := R));
  bt_register : option (N * NodeDescriptor);
  bt_executor : option QleanSandbox;
  bt_ipc : option string;
  bt_warnings : list Warning;
}.

Context (h : Host).

(** The raft part: nothing for a light client. *)
Definition start_raft (c : NodeConfig) (descriptor : NodeDescriptor) (store : World) (transport : Transport) :
    result string (option (RaftNode.RaftNode (R := R)) * option (N * NodeDescriptor)) :=
  let raft_id := default 0%N (nc_raft_id c) in
  if (raft_id =? 0)%N then Ok (None, None)
  else
    let? raft_node := result_map_err (λ _, "Failed to create Raft node")
                        (node_new raft_id (nc_raft_peers c) store transport) in
    Ok (Some raft_node, Some (raft_id, set_roles (omap Role_of_string (nc_roles c)) descriptor)).

Definition bootstrap_with_overrides (dirs : gmap string T) (config_path : string) (node_id_override : option string)
    (ipc_socket_path : option string) (store_dir : string) (vm_mode : option string) (pool_size : option N) :
    M World string Booted :=
  let! loaded := load config_path in
  let config := apply_sandbox_overrides vm_mode pool_size loaded in
  let config := match node_id_override with Some id => set_node_id id config | None => config end in
  let! peer_id := lift_result (identity h config) in
  let descriptor := to_descriptor (h_uuid h) (h_os h) (h_now h) config in
  let custom_image := match project_image_template config with Ok t => t | Err _ => None end in
  let warnings :=
    if project_sandbox (capabilities descriptor) then
      match h_os h with Linux => sandbox_preflight (h_facts h) | _ => [] end
    else [] in
  let! _ := map_err (λ _, "Failed to initialize CAS object store") (store_new store_dir) in
  let! listen_addresses := lift_result (result_map_err (λ _, "Failed to parse listen addresses")
                             (parse_all (nc_listen_addresses config))) in
  let bootstrap_addrs := omap (λ s : string, result_ok (multiaddr_parse s)) (nc_bootstrap_peers config) in
  let commands := mkSender [] [] in
  let transport := create_raft_transport commands in
  let executor := make_project_executor h (project_vm_mode config) (project_vm_pool_size config) custom_image in
  let descriptor := downgrade executor descriptor in
  λ w,
    let node raft_state := mkNode descriptor commands w (registry transport) (mkSender [] []) ∅ bootstrap_addrs
      ∅ raft_state dirs ∅ ∅ ∅ ∅ 0 in
    let cfg := Swarm.mkConfig peer_id descriptor bootstrap_addrs
      (Some (cas_blob_provider (H := local_blob_store store_dir) w))
      (match executor with Some _ => true | None => false end) in
    (let! loop := map_err (λ _, "Failed to start P2P swarm")
       (λ w, (new_swarm_with_commands cfg listen_addresses (mkSender [] []), w)) in
     let! raft := lift_result (start_raft config descriptor w transport) in
     let '(raft, register) := raft in
     ret (mkBooted (node (cluster <$> raft)) peer_id loop raft register executor ipc_socket_path warnings)) w.

(** ** The entry point *)

(** The fields of [Args] that [main] uses. *)
Record Args := mkArgs {
  a_config : string;
  a_node_id : option string;
  a_ipc_socket : string;
  a_no_ipc : bool;
  a_store_dir : string;
  a_project_vm_mode : option string;
  a_project_vm_pool_size : option N;
}.
Definition default_args : Args :=
  mkArgs "config.yaml" None "~/.edge-orchestrator/ipc.sock" false "~/.edge-orchestrator/objects" None None.

(** [home] is [HOME]; a path that is not UTF-8 is kept. *)
Definition expand_tilde (home : option string) (path : string) : string :=
  if decide (from_utf8_lossy (as_bytes path) = path) then
    match strip_prefix "~/" path, home with
    | Some rest, Some home => join home rest
    | _, _ =>
        if decide (path = "~") then default path home else path
    end
  else path.

Definition main_bootstrap (home : option string) (dirs : gmap string T) (args : Args) : M World string Booted :=
  bootstrap_with_overrides dirs (a_config args) (a_node_id args)
    (if a_no_ipc args then None else Some (expand_tilde home (a_ipc_socket args)))
    (expand_tilde home (a_store_dir args)) (a_project_vm_mode args) (a_project_vm_pool_size args).
End start.

(** ** Lemmas *)

Section lemmas.
Context {T C Msg R : Type} `{UuidText, Yaml, MultiaddrText, Libp2p, Lru C}.
Context `{SerdeJson Object, Digest, Zlib, DebugText Object}.
Context `{!RawNode R (CasRaftStorage (W := World) (C := C)) Msg}.
Context (h : Host).

(** The configuration in effect. *)
Definition effective (vm_mode : option string) (pool_size : option N) (node_id_override : option string)
    (c : NodeConfig) : NodeConfig :=
  let c := apply_sandbox_overrides vm_mode pool_size c in
  match node_id_override with Some id => set_node_id id c | None => c end.

Lemma effective_same vm pool id c :
  nc_listen_addresses (effective vm pool id c) = nc_listen_addresses c ∧
  nc_raft_id (effective vm pool id c) = nc_raft_id c ∧ nc_identity_seed (effective vm pool id c) = nc_identity_seed c ∧
  nc_bootstrap_peers (effective vm pool id c) = nc_bootstrap_peers c.
Proof. by destruct id. Qed.

(** What was validated parses. *)
Lemma parse_all_ok l : (∀ a, a ∈ l → ∃ m, multiaddr_parse a = Ok m) → ∃ ms, parse_all l = Ok ms.
Proof.
  induction l as [|a l IH]; intros Hl; [by exists []|]. simpl.
  destruct (Hl a) as [m ->]; [left|]. destruct IH as [ms ->]; [by intros a' Ha; apply Hl; right|]. by exists (m :: ms).
Qed.

Lemma load_validated path w c w' : load path w = (Done (Ok c), w') → validate c = Ok tt.
Proof.
  intros (b & w1 & _ & (c' & w2 & _ & (u & w3 & Hv & Hret)%bind_ok_inv)%bind_ok_inv)%bind_ok_inv.
  injection Hret as -> <-. injection Hv as Hv _. by destruct u.
Qed.

Lemma loaded_addresses_parse path w c w' vm pool id : load path w = (Done (Ok c), w') →
  ∃ ms, parse_all (nc_listen_addresses (effective vm pool id c)) = Ok ms.
Proof.
  intros Hl. destruct (effective_same vm pool id c) as (-> & _). apply parse_all_ok.
  by apply load_validated, validate_ok in Hl as (_ & _ & Ha).
Qed.

Lemma load_no_panic path : no_panic (load path).
Proof.
  unfold load. apply bind_no_panic.
  - apply map_err_no_panic, bind_no_panic; [eauto with eo|]. intros b. by destruct (yaml_utf8 b).
  - intros s. apply bind_no_panic; [done|]. intros c. by apply bind_no_panic.
Qed.

Lemma store_new_no_panic root : no_panic (store_new root).
Proof. apply bind_no_panic; [|done]. apply map_err_no_panic. eauto with eo. Qed.

Lemma listen_all_err addrs e : listen_all addrs = Err e → ∃ a why, a ∈ addrs ∧ listen_on a = Err why.
Proof.
  induction addrs as [|a addrs IH]; [done|]. simpl. destruct (listen_on a) as [|why] eqn:Ha; simpl.
  - intros (a' & why & Hin & Hw)%IH. exists a', why. split; [by right|done].
  - intros _. exists a, why. split; [left|done].
Qed.

Lemma parse_all_elem l ms m : parse_all l = Ok ms → m ∈ ms → ∃ a, a ∈ l ∧ multiaddr_parse a = Ok m.
Proof.
  revert ms. induction l as [|a l IH]; intros ms; simpl; [intros [= <-] Hm; by apply not_elem_of_nil in Hm|].
  destruct (multiaddr_parse a) as [m'|] eqn:Ha; [|done]. destruct (parse_all l) as [ms'|]; [|done].
  intros [= <-] [->|Hm]%elem_of_cons; [exists a; split; [left|done]|].
  destruct (IH ms') as (a' & Hin & Ha'); [done..|]. exists a'. split; [by right|done].
Qed.

(** The voting id of a participant. *)
Definition participant (c : NodeConfig) : option N :=
  match nc_raft_id c with Some 0%N | None => None | Some id => Some id end.

Lemma start_raft_cases c d (store : World) t :
  match start_raft (R := R) (C := C) (Msg := Msg) c d store t with
  | Ok (raft, register) =>
      match participant c with
      | Some id => (∃ r, raft = Some r ∧ cluster r = ClusterState_default) ∧
          register = Some (id, set_roles (omap Role_of_string (nc_roles c)) d)
      | None => raft = None ∧ register = None
      end
  | Err e => e = "Failed to create Raft node" ∧ ∃ id, participant c = Some id ∧
      ∃ why, node_new (R := R) (C := C) (Msg := Msg) id (nc_raft_peers c) store t = Err why
  end.
Proof.
  unfold start_raft, participant. destruct (nc_raft_id c) as [[|p]|]; simpl; [done| |done].
  destruct (node_new _ _ _ _) as [r|why] eqn:Hr; simpl; [|split; [done|eauto]].
  split; [|done]. exists r. split; [done|]. unfold node_new in Hr.
  destruct (raw_new _ _); simpl in Hr; by simplify_eq.
Qed.

Lemma downgrade_same x d : node_id (downgrade x d) = node_id d ∧ raft_id (downgrade x d) = raft_id d ∧
  current_assigned_roles (downgrade x d) = current_assigned_roles d.
Proof. unfold downgrade. by destruct x; [|destruct (project_sandbox _)]. Qed.
Lemma downgrade_honest x d : project_sandbox (capabilities (downgrade x d)) = true →
  is_Some x ∧ project_sandbox (capabilities d) = true.
Proof.
  unfold downgrade. destruct x as [x|]; [by eauto|]. destruct (project_sandbox (capabilities d)) eqn:Hp; [done|].
  by rewrite Hp.
Qed.
Lemma executor_linux mode pool template y : make_project_executor h mode pool template = Some y → h_os h = Linux.
Proof. unfold make_project_executor. by destruct (h_os h). Qed.
Lemma set_roles_same d : set_roles (current_assigned_roles d) d = d.
Proof. by destruct d. Qed.

(** ** Properties *)

Section startup.
Context (dirs : gmap string T) (config_path : string) (node_id_override ipc_socket_path : option string).
Context (store_dir : string) (vm_mode : option string) (pool_size : option N).
Local Abbreviation start := (bootstrap_with_overrides (T := T) (C := C) (Msg := Msg) (R := R) h dirs config_path
  node_id_override ipc_socket_path store_dir vm_mode pool_size).
Local Abbreviation effective := (effective vm_mode pool_size node_id_override).

(** What a start that succeeds gives. *)
Lemma boot_ok w b w' :
  start w = (Done (Ok b), w') →
  ∃ c w1, load config_path w = (Done (Ok c), w1) ∧
    let n := bt_node b in
    let d := nd_descriptor n in
    let executes := bool_decide (is_Some (bt_executor b)) in
    node_id d = (match node_id_override with
                 | Some id => if decide (id = "") then h_uuid h else default (h_uuid h) (result_ok (uuid_parse id))
                 | None => node_id (to_descriptor (h_uuid h) (h_os h) (h_now h) c)
                 end) ∧
    (project_sandbox (capabilities d) = true → executes = true ∧ h_os h = Linux) ∧
    bt_loop b = loop_start (config_of (H := local_blob_store store_dir) (bt_peer_id b) executes n) (mkSender [] []) ∧
    match participant c with
    | Some id => raft_id d = Some id ∧ nd_raft_state n = Some ClusterState_default ∧ is_Some (bt_raft b) ∧
        bt_register b = Some (id, d)
    | None => nd_raft_state n = None ∧ bt_raft b = None ∧ bt_register b = None
    end ∧
    nd_known_peers n = ∅ ∧ nd_registry n = ∅ ∧ fetcher_wf (fetcher_of n) ∧
    bt_ipc b = ipc_socket_path ∧ (project_sandbox (capabilities d) = true → bt_warnings b = sandbox_preflight (h_facts h)).
Proof.
  intros (c & w1 & Hl & Hs)%bind_ok_inv. exists c, w1. split; [done|]. cbv zeta in Hs. fold (effective c) in Hs.
  apply bind_ok_inv in Hs as (peer & w2 & Hid & Hs). apply bind_ok_inv in Hs as (root & w3 & Hroot & Hs).
  apply bind_ok_inv in Hs as (ms & w4 & Hms & Hs). apply bind_ok_inv in Hs as (loop & w5 & Hloop & Hs).
  apply bind_ok_inv in Hs as ([raft register] & w6 & Hraft & Hs).
  cbv beta iota delta [ret] in Hs. injection Hs as <- <-.
  apply map_err_ok_inv in Hloop. unfold new_swarm_with_commands in Hloop. destruct mdns_new as [|]; [|done].
  destruct swarm_build as [|]; [|done]. destruct (listen_all ms) as [|]; [|done]. injection Hloop as <- _.
  unfold lift_result in Hraft. injection Hraft as Hraft <-.
  set (x := make_project_executor h _ _ _) in *. set (d0 := to_descriptor _ _ _ (effective c)) in *.
  pose proof (start_raft_cases (effective c) (downgrade x d0) w4 (create_raft_transport (mkSender [] []))) as Hr.
  rewrite Hraft in Hr. cbn [bt_node nd_descriptor].
  destruct (downgrade_same x d0) as (Hn & Hrid & Hroles).
  assert (omap Role_of_string (nc_roles (effective c)) = current_assigned_roles d0) as Hro by done.
  rewrite Hro, <- Hroles, set_roles_same in Hr.
  split_and!; try done.
  - rewrite Hn. unfold d0, to_descriptor, effective. destruct node_id_override as [id|]; [|done]. simpl.
    destruct (decide (id = "")); [done|]. by destruct (uuid_parse id).
  - intros [Hx _]%downgrade_honest. split; [by apply bool_decide_eq_true|]. destruct Hx as [y Hy].
    by eapply executor_linux.
  - destruct (effective_same vm_mode pool_size node_id_override c) as (_ & Hri & _). unfold participant in *.
    fold (effective c) in Hri. rewrite Hri in Hr.
    assert (raft_id d0 = nc_raft_id c) as Hd0 by exact Hri. rewrite Hrid, Hd0.
    destruct (nc_raft_id c) as [[|p]|]; destruct Hr as [Hr ->]; [by subst| |by subst].
    destruct Hr as (r & -> & Hc). simpl. rewrite Hc. by eauto.
  - intros [[y Hy] Hp]%downgrade_honest. simpl in *. by rewrite Hp, (executor_linux _ _ _ _ Hy).
Qed.

End startup.
End lemmas.

(** ** Concrete runs *)

Module DemoBoot.
#[export] Existing Instance Toy.digest.
#[export] Existing Instance Toy.zlib.
#[export] Existing Instance Toy.uuid_text.
#[export] Existing Instance Store.Demo.object_json.
#[export] Existing Instance Store.Demo.debug.
#[export] Existing Instance DemoConfig.multiaddr_text.
#[export] Existing Instance OneSlot.lru.
#[export] Existing Instance DemoNode.raw.

(** A participant that offers a sandbox, on a Linux host without a bridge. *)
Definition config : NodeConfig :=
  mkNodeConfig "" "Heavy" default_listen_addresses ["/ip4/10.0.0.2"]
    (mkCapabilitiesConfig true false [] 1024 4 true "fresh" 2 None None) ["Execution"] (Some 2%N) [1; 2; 3]%N None.
#[export] Instance yaml : Yaml := {| yaml_from_str _ := Ok config; yaml_utf8 _ := true |}.
#[export] Instance libp2p : Libp2p := {|
  hex_decode _ := Err "odd length"; ed25519_peer _ := Err "bad key"; mdns_new := Ok tt; swarm_build := Ok tt;
  listen_on _ := Ok tt |}.
Definition facts : HostFacts :=
  mkHostFacts (λ p, bool_decide (p = "/dev/kvm" ∨ p = "/usr/lib/qemu/qemu-bridge-helper")) (λ _, true) (λ _, None)
    (λ _, Some "allow qlbr0") true.
Definition host : Host := mkHost Linux (Ok tt) facts 7%N 22%N 0%Z.
Definition disk : World := mkWorld {[ ["node.yaml"] := File [x61] ]} [].
Definition booted : outcome string (Booted (T := unit)) * World :=
  bootstrap_with_overrides (C := _) (Msg := DemoNode.message) (R := DemoNode.Raw _) host ∅ "node.yaml" None (Some "/run/eo.sock") "/store" None None
    disk.
End DemoBoot.
Import (hints) DemoBoot.

