(* ===== verification/Demos.v ===== *)
(** * The demonstrations (scripts/qlean-project-demo, scripts/qlean-upload-demo,
    crates/node/examples/print_peerid.rs)

    Two small programs that boot a machine with qlean, build or upload something in it,
    and compare what the guest prints with what it should; and one that prints the peer
    id of an identity seed.  They are trees of calls ([Effects]).  The third
    demonstration, scripts/qlean-demo, is not a program: the quotes inside its byte
    string end the literal, and it does not compile. *)

From S2P Require Import Prelude CoreTypes Interfaces Text FileSys Sandbox Config Bootstrap Effects.

(** What the demonstrations call: the terminal, qlean's images and the machine in
    scope, the tar crate over [Tar] builders, and the local disk. *)
Inductive DemoCall : Type → Type :=
| Println (line : string) : DemoCall unit
| Eprintln (line : string) : DemoCall unit
| NewImage : DemoCall (result string unit)
| VmExec (cmd : string) : DemoCall (result string ExecOutput)
| VmUpload (src dst : string) : DemoCall (result string unit)
| PackDir (dir : string) : DemoCall (result string unit)
| FinishTar : DemoCall (result string bytes)
| TempDir : DemoCall (result string string)
| CreateDirAll (dir : string) : DemoCall (result string unit)
| UnpackTar (data : bytes) (dir : string) : DemoCall (result string unit).
Abbreviation demo := (prog DemoCall).

(** [trim_ascii_end] of a byte string. *)
Definition ascii_whitespace (b : byte) : bool :=
  match b with x20 | x09 | x0a | x0c | x0d => true | _ => false end.
Fixpoint trim_start (b : bytes) : bytes :=
  match b with x :: b' => if ascii_whitespace x then trim_start b' else b | [] => [] end.
Definition trim_ascii_end (b : bytes) : bytes := rev (trim_start (rev b)).

Definition println (line : string) : demo unit := Effects.call (Println line).
Definition lossy (b : bytes) : string := from_utf8_lossy b.

Section demos.
(** [with_machine] of the default image and machine: boots, runs, and shuts down. *)
Context (with_machine : demo unit → demo unit).

Definition or_bail (out : ExecOutput) (what : string) : demo unit :=
  if success (ex_status out) then mret tt else fail (what +:+ lossy (ex_stderr out)).

(** The verdict: the guest printed [expected]. *)
Definition verdict (out : ExecOutput) (expected : bytes) (mismatch : string) : demo unit :=
  if decide (trim_ascii_end (ex_stdout out) = expected) then println "RESULT: PASS" else fail mismatch.

(** *** qlean-project-demo *)

Definition install_gcc : string := "apt-get update -qq && apt-get install -y -qq gcc".

Definition project_demo_vm (upload_src : string) : demo unit :=
  _ ← io (VmUpload upload_src "/root");
  _ ← io (VmExec install_gcc);
  build ← io (VmExec "cd /root/testproj && gcc main.c -o app");
  _ ← or_bail build "gcc failed: ";
  run ← io (VmExec "cd /root/testproj && ./app");
  _ ← println (fmt ["stdout="; lossy (ex_stdout run)]);
  verdict run (as_bytes "project-hello") "stdout mismatch".

Definition project_demo_run : demo unit :=
  _ ← io (PackDir "./testproj");
  tar_bytes ← io FinishTar;
  tmp ← io TempDir;
  let unpacked := join tmp "testproj" in
  _ ← io (CreateDirAll unpacked);
  _ ← io (UnpackTar tar_bytes unpacked);
  _ ← io NewImage;
  with_machine (project_demo_vm (lossy (as_bytes unpacked))).

(** *** qlean-upload-demo *)

Definition upload_demo_vm : demo unit :=
  _ ← io (VmUpload "./testproj" "/root");
  check ← io (VmExec "ls /root/testproj/hello.txt");
  _ ← (if success (ex_status check) then mret tt else fail "upload did not land at /root/testproj");
  out ← io (VmExec "cat /root/testproj/hello.txt");
  _ ← println (fmt ["content="; lossy (ex_stdout out)]);
  verdict out (as_bytes "hello-upload") "content mismatch".

Definition upload_demo_run : demo unit :=
  _ ← io NewImage;
  with_machine upload_demo_vm.

(** *** [main] *)

Definition demo_main (run : demo unit) : demo unit :=
  r ← catch run;
  match r with
  | Ok _ => mret tt
  | Err e => _ ← Effects.call (Eprintln ("FAILED: " +:+ e)); exit 1
  end.
Definition project_demo_main : demo unit := demo_main project_demo_run.
Definition upload_demo_main : demo unit := demo_main upload_demo_run.
End demos.

(** ** What a verdict is worth *)

Section verdicts.
Context (with_machine : demo unit → demo unit).
(** qlean returns what the function it was given returned, and makes no verdict. *)
Hypothesis machine_returns : ∀ body tr a, runs (with_machine body) tr (Returned a) →
  ∃ t1 t2 t3, tr = t1 ++ t2 ++ t3 ∧ runs body t2 (Returned a).

(** The guest ran [cmd], it printed [expected], and then the verdict was printed. *)
Definition passed (cmd : string) (expected : bytes) (tr : list (Effects.act DemoCall)) : Prop :=
  ∃ t1 t2 t3 out, tr = t1 ++ Act (VmExec cmd) (Ok out) :: t2 ++ Act (Println "RESULT: PASS") tt :: t3 ∧
    trim_ascii_end (ex_stdout out) = expected.

Lemma passed_around cmd expected t1 t2 t3 : passed cmd expected t2 → passed cmd expected (t1 ++ t2 ++ t3).
Proof.
  intros (u1 & u2 & u3 & out & -> & He). exists (t1 ++ u1), u2, (u3 ++ t3), out. split; [|done].
  rewrite <- !(assoc_L (++)). simpl. by rewrite <- (assoc_L (++)).
Qed.

Lemma passed_after cmd expected t1 t2 : passed cmd expected t2 → passed cmd expected (t1 ++ t2).
Proof. intros Hp. rewrite <- (app_nil_r t2). by apply passed_around. Qed.

Lemma runs_verdict out expected mismatch tr a : runs (verdict out expected mismatch) tr (Returned a) →
  tr = [Act (Println "RESULT: PASS") tt] ∧ trim_ascii_end (ex_stdout out) = expected.
Proof.
  unfold verdict. case_decide; [|by intros [_ ?]]. by intros ([] & ? & -> & -> & _).
Qed.

(** The last command, a line about it, and the verdict. *)
Lemma last_command cmd expected mismatch line tr a :
  runs (out ← io (VmExec cmd); _ ← println (line out); verdict out expected mismatch) tr (Returned a) →
  passed cmd expected tr.
Proof.
  intros (t1 & out & t2 & -> & ->%runs_io & (t3 & u & t4 & -> & _ & [-> He]%runs_verdict)%runs_bind_ret)%runs_bind_ret.
  exists [], t3, [], out. done.
Qed.

(** What comes before, and the machine around. *)
Lemma ends_passed {A B} cmd expected (m : demo A) (f : A → demo B) tr b :
  (∀ a tr, runs (f a) tr (Returned b) → passed cmd expected tr) → runs (m ≫= f) tr (Returned b) →
  passed cmd expected tr.
Proof. intros Hf (t1 & a & t2 & -> & _ & Hr)%runs_bind_ret. eapply passed_after, Hf, Hr. Qed.

Lemma machine_passed cmd expected body tr a :
  (∀ tr, runs body tr (Returned a) → passed cmd expected tr) → runs (with_machine body) tr (Returned a) →
  passed cmd expected tr.
Proof. intros Hb (t1 & t2 & t3 & -> & Hr)%machine_returns. by apply passed_around, Hb. Qed.

Lemma main_returns run tr a : runs (demo_main run) tr (Returned a) → ∃ b t1, runs run t1 (Returned b) ∧ tr = t1.
Proof.
  intros (t1 & r & t2 & -> & Hr%runs_catch & Hk)%runs_bind_ret. destruct r as [b|e].
  - destruct Hk as [-> _]. exists b, t1. by rewrite app_nil_r.
  - by destruct Hk as (? & ? & _ & [_ ?]).
Qed.

(** Exit code 0 is a real pass.  When a demonstration ends with exit code 0, it has
    printed its verdict, after the guest ran the program (or read the uploaded file) and
    printed exactly the expected text, up to trailing white space. *)
Theorem demos_exit_zero_passed tr :
  (runs (project_demo_main with_machine) tr (Returned tt) →
   passed "cd /root/testproj && ./app" (as_bytes "project-hello") tr) ∧
  (runs (upload_demo_main with_machine) tr (Returned tt) →
   passed "cat /root/testproj/hello.txt" (as_bytes "hello-upload") tr).
Proof.
  split; intros ([] & ? & Hr & ->)%main_returns; revert Hr.
  - do 6 (apply ends_passed; intros ? ?). apply machine_passed. intros ?.
    do 4 (apply ends_passed; intros ? ?). apply last_command.
  - apply ends_passed. intros ? ?. apply machine_passed. intros ?.
    do 3 (apply ends_passed; intros ? ?). apply last_command.
Qed.
End verdicts.

(** ** print_peerid *)

Section print_peerid.
Context `{Libp2p}.
(** The text of a peer id. *)
Context (peer_text : PeerId → string).

(** The exit code of a panic, from [expect]. *)
Definition EXPECT_FAILED : Z := 101.
Definition print_peerid (args : list string) : demo unit :=
  match args !! 1 with
  | None => exit EXPECT_FAILED
  | Some arg =>
      match hex_decode arg with
      | Err _ => exit EXPECT_FAILED
      | Ok bytes =>
          match ed25519_peer bytes with
          | Err _ => exit EXPECT_FAILED
          | Ok peer => println (peer_text peer)
          end
      end
  end.

(** What it prints is the node's identity: for the seed of a configuration, the peer id
    with which a node of that configuration starts; and it fails, printing nothing,
    exactly when the node does not accept the seed. *)
Theorem print_peerid_is_identity h c exe seed rest tr e : nc_identity_seed c = Some seed →
  runs (print_peerid (exe :: seed :: rest)) tr e ↔
  match identity h c with
  | Ok p => tr = [Act (Println (peer_text p)) tt] ∧ e = Returned tt
  | Err _ => tr = [] ∧ e = Exited EXPECT_FAILED
  end.
Proof.
  intros Hs. unfold identity, print_peerid. rewrite Hs. simpl. destruct (hex_decode seed) as [b|]; simpl; [|done].
  destruct (ed25519_peer b) as [p|]; simpl; [|done]. split.
  - by intros ([] & ? & -> & -> & ->).
  - intros [-> ->]. by exists tt, [].
Qed.
End print_peerid.

(** ** A concrete run *)

Module DemoGuest.
Definition output (s : string) : ExecOutput := mkExecOutput (Sandbox.Exited 0) (as_bytes s) [].
(** A guest in which the uploaded file is there; the state is what was printed. *)
Definition handler X (c : DemoCall X) (lines : list string) : X * list string :=
  match c with
  | Println line => (tt, lines ++ [line])
  | Eprintln line => (tt, lines ++ [line])
  | NewImage => (Ok tt, lines)
  | VmExec cmd => (Ok (output ("hello-upload" +:+ nl)), lines)
  | VmUpload _ _ => (Ok tt, lines)
  | PackDir _ => (Ok tt, lines)
  | FinishTar => (Ok [], lines)
  | TempDir => (Ok "/tmp/x", lines)
  | CreateDirAll _ => (Ok tt, lines)
  | UnpackTar _ _ => (Ok tt, lines)
  end.
(** A [with_machine] that only runs its function. *)
Definition machine (body : demo unit) : demo unit := body.
Lemma machine_law body tr a : runs (machine body) tr (Returned a) →
  ∃ t1 t2 t3, tr = t1 ++ t2 ++ t3 ∧ runs body t2 (Returned a).
Proof. intros Hr. exists [], tr, []. by rewrite app_nil_r. Qed.
End DemoGuest.

Example upload_demo_passes :
  exec DemoGuest.handler (upload_demo_main DemoGuest.machine) [] =
  (Returned tt, ["content=hello-upload" +:+ nl; "RESULT: PASS"]).
Proof. vm_compute. reflexivity. Qed.
Example project_demo_fails :
  exec DemoGuest.handler (project_demo_main DemoGuest.machine) [] =
  (Exited 1, ["stdout=hello-upload" +:+ nl; "FAILED: stdout mismatch"]).
Proof. vm_compute. reflexivity. Qed.
