(* ===== verification/Discovery.v ===== *)
(** * How an executor is found

    A node that has started ([Bootstrap]) and another it connects to: the descriptor
    exchange between their loops ([Swarm], [Protocol]), the registration loop
    ([RuntimeLoop]), the entry the raft task applies ([RaftNode]) and the choice of an
    executor ([Project]), put together. *)

From S2P Require Import Prelude CoreTypes Interfaces Text Json FileSys Channels Objects Store BlobStore.
From S2P Require Import StateMachine RuntimeLoop Protocol Swarm RaftNet RaftStorage RaftNode CasFetch Project Ipc Sandbox.
From S2P Require Import Config Node RaftWire Bootstrap.

Section exchange.
Context `{SerdeJsonLaws NodeDescriptor}.

(** A descriptor crosses the descriptor protocol unchanged. *)
Lemma descriptor_roundtrip d resp : from_descriptor d = Ok resp → Protocol.to_descriptor resp = Ok d.
Proof.
  unfold from_descriptor, Protocol.to_descriptor. destruct (to_vec d) as [b|] eqn:Hb; [|done].
  intros [= <-]. cbn [descriptor_json]. unfold as_bytes.
  rewrite String.list_byte_of_string_of_list_byte. by apply from_to_vec.
Qed.
End exchange.

Section committed.
Context `{SerdeJsonLaws Proposal, UuidText}.

(** The entry of a registration, once committed, registers. *)
Lemma registration_applied d data entry st : encode_proposal (RegisterNode d) = Ok data → e_data entry = data →
  nodes (apply_entry st entry) = <[node_id d := d]> (nodes st).
Proof.
  intros Henc Hdata. unfold apply_entry. rewrite Hdata.
  assert (decode_proposal data = Ok (RegisterNode d)) as Hdec by by apply from_to_vec.
  destruct data as [|x xs]; [|by rewrite Hdec]. exfalso.
  destruct (from_slice_nil (RegisterNode d) (DeregisterNode 0%N)) as [err He]; [done|].
  unfold decode_proposal in Hdec. congruence.
Qed.
End committed.

Section least.
Context {W T : Type} `{BlobStore W, Tar T, UuidText, HashOrderLaws}.

(** A capable node that is known and has the least raft id is chosen. *)
Lemma resolve_least seed (c : ProjectClient W T) st registry d rid e :
  catalog c = CatalogRaft st registry → nodes st !! node_id d = Some d → capable (Project.self_node_id c) d = true →
  raft_id d = Some rid → registry !! rid = Some e →
  (∀ id d', nodes st !! id = Some d' → id ≠ node_id d → capable (Project.self_node_id c) d' = true →
     ∃ rid', raft_id d' = Some rid' ∧ (rid <= rid')%N) →
  resolve_peer seed None c = Ok e.
Proof.
  intros Hcat Hd Hcap Hrid Hreg Hleast. unfold resolve_peer. rewrite Hcat.
  pose proof (candidates_head seed (Project.self_node_id c) (nodes st)) as Hh.
  destruct (head (candidates _ _ _)) as [[id d0]|]; simpl.
  - destruct Hh as [[Hid Hc] Hle]. specialize (Hle _ _ Hd Hcap). simpl in Hle. rewrite Hrid in Hle.
    assert (raft_id d0 = Some rid) as ->.
    { destruct (decide (id = node_id d)) as [->|Hne]; [congruence|].
      destruct (Hleast id d0 Hid Hne Hc) as (rid' & Hr & Hge). rewrite Hr in Hle |- *.
      apply N.leb_le in Hle. f_equal. lia. }
    simpl. unfold registry_get. by rewrite Hreg.
  - rewrite (Hh _ _ Hd) in Hcap. done.
Qed.
End least.

(** What happens on a node that meets the peer [e]: it connects, its descriptor
    arrives, and the raft task applies entries up to [st]. *)
Definition introduction (t1 t2 : N) (e : PeerId) (d : NodeDescriptor) (st : ClusterState) : list NodeStep :=
  [Monitor (Arrived t1 (PeerConnected e)); Monitor (Arrived t2 (DescriptorReceived e d)); Applied st].

Section discovery.
Context {T C Msg R : Type} `{UuidText, Yaml, MultiaddrText, Libp2p, Lru C}.
Context `{SerdeJson Object, Digest, Zlib, DebugText Object}.
Context `{!RawNode R (CasRaftStorage (W := World) (C := C)) Msg}.
Context `{SerdeJsonLaws NodeDescriptor, SerdeJsonLaws Proposal, SerdeJson DescriptorRequest, SerdeJsonLaws DescriptorResponse}.
Context {WM TM : Type} `{BlobStore WM, Tar TM, HashOrderLaws}.
Context (h : Host) (seed : N).
Context (dirs : gmap string T) (config_path : string) (node_id_override ipc_socket_path : option string).
Context (store_dir : string) (vm_mode : option string) (pool_size : option N).
Local Abbreviation start := (bootstrap_with_overrides (T := T) (C := C) (Msg := Msg) (R := R) h dirs config_path
  node_id_override ipc_socket_path store_dir vm_mode pool_size).

End discovery.

(** ** A concrete discovery *)

Module DemoDiscovery.
Import (hints) DemoMesh DemoBoot.
#[export] Instance descriptor_json : SerdeJson NodeDescriptor := countable_json NodeDescriptor.
#[export] Instance descriptor_json_laws : SerdeJsonLaws NodeDescriptor := countable_json_laws NodeDescriptor.
#[export] Existing Instance DemoNode.proposal_json.
#[export] Instance proposal_json_laws : SerdeJsonLaws Proposal := countable_json_laws Proposal.
#[export] Instance request_json : SerdeJson DescriptorRequest := countable_json DescriptorRequest.
#[export] Instance response_json : SerdeJson DescriptorResponse := countable_json DescriptorResponse.
#[export] Instance response_json_laws : SerdeJsonLaws DescriptorResponse := countable_json_laws DescriptorResponse.

(** The node 1, which knows the executor 8 with the raft id 2. *)
Definition other : Node (gmap Hash bytes) bytes :=
  DemoMesh.fresh 1%N (Some 1%N) (Some DemoProject.state) ∅ ∅.
Definition idle : Loop := mkLoop Running [] (mkSender [] []) [] ∅ ∅ 0.
Definition descriptor : NodeDescriptor :=
  default (nd_descriptor other) match DemoBoot.booted.1 with Done (Ok b) => Some (nd_descriptor (bt_node b)) | _ => None end.
Definition registration : Entry :=
  mkEntry 0 2 5 (default [] (result_ok (encode_proposal (RegisterNode descriptor)))) [] false.
Definition found : Node (gmap Hash bytes) bytes :=
  node_run 0 (introduction 1 2 22%N descriptor (apply_entry DemoProject.state registration)) other.
End DemoDiscovery.
Import (hints) DemoMesh DemoBoot DemoDiscovery.

