(* ===== verification/Process.v ===== *)
(** * The life of a node's process (crates/node/src/main.rs, signals.rs)

    After the start ([Bootstrap]) the main task runs the event monitor until it ends
    or a signal arrives, drops the handle of the IPC server and returns; the task of
    the IPC server ([IpcServer]) runs beside it for as long as the process exists. *)

From S2P Require Import Prelude CoreTypes Interfaces Text Json FileSys Channels BlobStore StateMachine.
From S2P Require Import Swarm RaftNet CasFetch Project Ipc IpcServer Node.

(** ** Signals (signals.rs) *)

Inductive Signal := Interrupt | Terminate.

(** Installing the two handlers, then the name of the first signal. *)
Definition wait_for_shutdown (int term : result string unit) (sig : Signal) : outcome string string :=
  match int, term with
  | Err e, _ => Panic ("failed to install Ctrl+C handler: " +:+ e)
  | _, Err e => Panic ("failed to install SIGTERM handler: " +:+ e)
  | Ok _, Ok _ => Done (Ok match sig with Interrupt => "SIGINT" | Terminate => "SIGTERM" end)
  end.

(** ** The task of the IPC server *)

Inductive IpcState :=
| IpcAbsent
| IpcSpawned (socket_path : string)
| IpcListening (socket_path : string)
| IpcStopped.

(** One turn of the task: it takes its socket; then it serves connections as long as
    [held], the handle, is not dropped, and removes its socket afterwards. *)
Definition ipc_task (held : bool) (s : IpcState) : World → IpcState * World := λ w,
  match s with
  | IpcSpawned path =>
      match ipc_listen path w with
      | (Done (Ok _), w) => (IpcListening path, w)
      | (_, w) => (IpcStopped, w)
      end
  | IpcListening path => if held then (s, w) else (IpcStopped, (remove_file path w).2)
  | IpcAbsent | IpcStopped => (s, w)
  end.

Section process.
Context {W T : Type} `{BlobStore W, Tar T, UuidText, HashOrder}.

(** [pr_end] is how the main task ended, with the name of the signal that ended it. *)
Record Process := mkProcess {
  pr_node : Node W T;
  pr_disk : World;
  pr_ipc : IpcState;
  pr_handle : bool;
  pr_end : option (outcome string (option string));
}.

(** The main task after its [select!]: the handle is taken and dropped. *)
Definition main_ends (how : outcome string (option string)) (p : Process) : Process :=
  mkProcess (pr_node p) (pr_disk p) (pr_ipc p) false (Some how).

(** What can happen to a process: its monitor wakes up, a signal arrives, the IPC
    task gets a turn. *)
Inductive Happening :=
| MonitorWakes (w : Wake)
| SignalArrives (s : Signal)
| IpcTurn.

Context (int term : result string unit).

Definition happen (p : Process) (e : Happening) : Process :=
  match e, pr_end p with
  | MonitorWakes w, None =>
      let '(o, n) := run_event_monitor [w] (pr_node p) in
      let p := mkProcess n (pr_disk p) (pr_ipc p) (pr_handle p) None in
      match o, w with
      | Panic why, _ => main_ends (Panic why) p
      | Done (Err _), _ => main_ends (Done (Ok None)) p
      | Done (Ok _), StreamClosed => main_ends (Done (Ok None)) p
      | Done (Ok _), _ => p
      end
  | SignalArrives s, None =>
      match wait_for_shutdown int term s with
      | Panic why => main_ends (Panic why) p
      | Done (Ok sig) => main_ends (Done (Ok (Some sig))) p
      | Done (Err e) => main_ends (Done (Err e)) p
      end
  | IpcTurn, _ =>
      let '(s, w) := ipc_task (pr_handle p) (pr_ipc p) (pr_disk p) in
      mkProcess (pr_node p) w s (pr_handle p) (pr_end p)
  | _, Some _ => p
  end.
Definition process_run (es : list Happening) (p : Process) : Process := foldl happen p es.

(** A process whose node has started with the IPC socket [ipc]. *)
Definition process_start (n : Node W T) (disk : World) (ipc : option string) : Process :=
  mkProcess n disk (match ipc with Some path => IpcSpawned path | None => IpcAbsent end) true None.

(** ** Lemmas *)

(** What ends the main task. *)
Definition stops (e : Happening) : option (option string) :=
  match e with
  | MonitorWakes StreamClosed => Some None
  | SignalArrives Interrupt => Some (Some "SIGINT")
  | SignalArrives Terminate => Some (Some "SIGTERM")
  | _ => None
  end.

Lemma happen_ended p e how : pr_end p = Some how →
  pr_end (happen p e) = Some how ∧ pr_node (happen p e) = pr_node p ∧ pr_handle (happen p e) = pr_handle p.
Proof.
  intros Hend. unfold happen. rewrite Hend. destruct e as [w|s|]; [done..|].
  by destruct (ipc_task _ _ _).
Qed.

Lemma run_ended p es how : pr_end p = Some how →
  pr_end (process_run es p) = Some how ∧ pr_node (process_run es p) = pr_node p ∧
  pr_handle (process_run es p) = pr_handle p.
Proof.
  revert p. induction es as [|e es IH]; intros p Hend; [done|].
  destruct (happen_ended p e how Hend) as (He & <- & <-). by apply IH.
Qed.

(** *** The socket of a process *)

Section socket.
Context (q c : string) (Hq : plain (last_comp q)) (Hc : plain c).

(** The disk is fit for a server, and a server that listens has its socket. *)
Definition socket_held (s : IpcState) (w : World) : Prop :=
  socket_ready q c w ∧
  match s with
  | IpcSpawned path => path = join q c
  | IpcListening path => path = join q c ∧ fs_lookup w (resolve (join q c)) = Some (File [])
  | IpcStopped => fs_lookup w (resolve (join q c)) = None
  | IpcAbsent => True
  end.

Lemma ipc_task_held held s w : socket_held s w →
  let '(s', w') := ipc_task held s w in socket_held s' w' ∧
  match s with
  | IpcSpawned path => s' = IpcListening path
  | IpcListening path => s' = if held then s else IpcStopped
  | _ => s' = s ∧ w' = w
  end.
Proof.
  intros [Hr Hs]. destruct s as [|path|path|]; simpl; try done.
  - subst path. destruct (ipc_listen_ok q c w Hq Hc Hr) as (w' & -> & Hr' & Hl). unfold socket_held. by split_and!.
  - destruct Hs as [-> Hl]. destruct held; [unfold socket_held; by split_and!|].
    destruct (socket_removed q c w [] Hc Hr Hl) as (w' & -> & Hn & Hr'). unfold socket_held. by split_and!.
Qed.

Lemma happen_held p e : socket_held (pr_ipc p) (pr_disk p) →
  socket_held (pr_ipc (happen p e)) (pr_disk (happen p e)).
Proof.
  intros Hp. unfold happen. destruct e as [w|s|]; destruct (pr_end p); try done.
  - destruct (run_event_monitor [w] (pr_node p)) as [[[u|e]|why] n]; [by destruct w|done..].
  - by destruct (wait_for_shutdown int term s) as [[sig|e]|why].
  - pose proof (ipc_task_held (pr_handle p) _ _ Hp) as Ht. destruct (ipc_task _ _ _). by destruct Ht.
  - pose proof (ipc_task_held (pr_handle p) _ _ Hp) as Ht. destruct (ipc_task _ _ _). by destruct Ht.
Qed.

Lemma socket_run_held p es : socket_held (pr_ipc p) (pr_disk p) →
  socket_held (pr_ipc (process_run es p)) (pr_disk (process_run es p)).
Proof. revert p. induction es as [|e es IH]; intros p Hp; [done|]. by apply IH, happen_held. Qed.
End socket.
End process.
Arguments Process : clear implicits.

(** ** Properties *)

Section main.
Context {W T : Type} `{BlobStoreLaws W, Tar T, UuidText, HashOrder}.

(** What wakes the monitor until the main task stops. *)
Fixpoint wakes_until_stop (es : list Happening) : list Wake :=
  match es with
  | [] => []
  | MonitorWakes w :: es => w :: match w with StreamClosed => [] | _ => wakes_until_stop es end
  | SignalArrives _ :: _ => []
  | IpcTurn :: es => wakes_until_stop es
  end.

Lemma monitor_cons w wakes (n n1 : Node W T) : run_event_monitor [w] n = (Done (Ok tt), n1) → w ≠ StreamClosed →
  run_event_monitor (w :: wakes) n = run_event_monitor wakes n1.
Proof.
  intros Hw Hne. destruct w as [s|now ev|]; [| |done]; simpl in *;
    apply bind_ok_inv in Hw as (u & n2 & Ho & Hret); injection Hret as ->; by rewrite (bind_ok _ _ _ _ _ Ho).
Qed.

Lemma run_running int term es (p : Process W T) : int = Ok tt → term = Ok tt →
  pr_end p = None → fetcher_wf (fetcher_of (pr_node p)) →
  let p' := process_run int term es p in
  pr_end p' = (λ how, Done (Ok how)) <$> head (omap stops es) ∧
  pr_node p' = (run_event_monitor (wakes_until_stop es) (pr_node p)).2 ∧
  pr_handle p' = bool_decide (omap stops es = []) && pr_handle p.
Proof.
  intros -> ->. revert p. induction es as [|e es IH]; intros p Hend Hwf; [done|].
  change (process_run (Ok tt) (Ok tt) (e :: es) p) with (process_run (Ok tt) (Ok tt) es (happen (Ok tt) (Ok tt) p e)).
  destruct e as [w|s|]; cbn [omap list_omap stops wakes_until_stop].
  - destruct (monitor_ok [w] (pr_node p) Hwf) as (n1 & Hn1 & Hwf1). unfold happen. rewrite Hend, Hn1.
    assert (w = StreamClosed ∨ w ≠ StreamClosed) as [->|Hne] by (destruct w; by auto).
    + destruct (run_ended (Ok tt) (Ok tt) (main_ends (Done (Ok None)) (mkProcess n1 (pr_disk p) (pr_ipc p) (pr_handle p) None))
        es (Done (Ok None)) eq_refl) as (He & Hn & Hh). cbv zeta. rewrite He, Hn, Hh. by rewrite Hn1.
    + assert (wakes_until_stop (MonitorWakes w :: es) = w :: wakes_until_stop es) as Hw by by destruct w.
      assert (stops (MonitorWakes w) = None) as Hs by by destruct w.
      destruct (IH (mkProcess n1 (pr_disk p) (pr_ipc p) (pr_handle p) None)) as (He & Hn & Hh); [done..|].
      pose proof (monitor_cons w (wakes_until_stop es) (pr_node p) n1 Hn1 Hne) as Hm.
      destruct w; [| |done]; cbv zeta in *; by rewrite He, Hn, Hh, Hm.
  - destruct (run_ended (Ok tt) (Ok tt) (happen (Ok tt) (Ok tt) p (SignalArrives s)) es
      (Done (Ok match s with Interrupt => Some "SIGINT" | Terminate => Some "SIGTERM" end))) as (He & Hn & Hh).
    { unfold happen. rewrite Hend. by destruct s. }
    cbv zeta. rewrite He, Hn, Hh. unfold happen. rewrite Hend. by destruct s.
  - unfold happen. destruct (ipc_task (pr_handle p) (pr_ipc p) (pr_disk p)) as [s w].
    rewrite Hend. by apply (IH (mkProcess (pr_node p) w s (pr_handle p) None)).
Qed.

(** *** The socket at the end *)

Section socket.
Context (int term : result string unit) (q c : string) (Hq : plain (last_comp q)) (Hc : plain c).

Lemma no_turn_disk es (p : Process W T) : IpcTurn ∉ es →
  pr_disk (process_run int term es p) = pr_disk p ∧ pr_ipc (process_run int term es p) = pr_ipc p.
Proof.
  revert p. induction es as [|e es IH]; intros p Hn; [done|]. apply not_elem_of_cons in Hn as [He Hn].
  destruct (IH (happen int term p e) Hn) as [Hd Hi].
  assert (pr_disk (happen int term p e) = pr_disk p ∧ pr_ipc (happen int term p e) = pr_ipc p) as [Hd' Hi'].
  { unfold happen. destruct e as [w|s|]; [| |done]; destruct (pr_end p); try done.
    - destruct (run_event_monitor [w] (pr_node p)) as [[[u|e]|why] n]; [by destruct w|done..].
    - by destruct (wait_for_shutdown int term s) as [[sig|e]|why]. }
  split; [exact (eq_trans Hd Hd')|exact (eq_trans Hi Hi')].
Qed.

Definition is_turn (e : Happening) : bool := match e with IpcTurn => true | _ => false end.
Lemma has_turn es : existsb is_turn es = true ↔ IpcTurn ∈ es.
Proof.
  rewrite existsb_exists. split.
  - intros (e & He & Ht). destruct e; try done. by apply list_elem_of_In.
  - intros He. exists IpcTurn. by split; [apply list_elem_of_In|].
Qed.

(** A server that has stopped, or has no handle any more, does not take the socket back. *)
Lemma ended_turns es (p : Process W T) how : pr_end p = Some how → pr_handle p = false →
  socket_held q c (pr_ipc p) (pr_disk p) → pr_ipc p = IpcListening (join q c) ∨ pr_ipc p = IpcStopped →
  fs_lookup (pr_disk (process_run int term es p)) (resolve (join q c)) =
    if existsb is_turn es then None else fs_lookup (pr_disk p) (resolve (join q c)).
Proof.
  revert p. induction es as [|e es IH]; intros p Hend Hh Hheld Hipc; [done|].
  destruct (happen_ended int term p e how Hend) as (Hend' & _ & Hh'). rewrite Hh in Hh'.
  pose proof (happen_held int term q c Hq Hc p e Hheld) as Hheld'.
  assert (pr_ipc (happen int term p e) = IpcListening (join q c) ∨ pr_ipc (happen int term p e) = IpcStopped) as Hipc'.
  { unfold happen. rewrite Hend, Hh. destruct e; [done..|].
    destruct Hipc as [-> | ->]; simpl; by right. }
  change (process_run int term (e :: es) p) with (process_run int term es (happen int term p e)).
  rewrite (IH _ Hend' Hh' Hheld' Hipc'). destruct e as [w|s|].
  - unfold happen. by rewrite Hend.
  - unfold happen. by rewrite Hend.
  - cbn [existsb is_turn orb]. destruct (existsb is_turn es); [done|].
    assert (pr_ipc (happen int term p IpcTurn) = IpcStopped) as Hst.
    { unfold happen. rewrite Hh. destruct Hipc as [-> | ->]; done. }
    rewrite Hst in Hheld'. by destruct Hheld'.
Qed.
End socket.

(** C13: a node runs until it is told to stop, and then always returns.  With its signal
    handlers installed, whatever wakes the monitor, in any order: the main task is
    running as long as no signal has arrived and the event stream has not ended; the
    first of these ends it without an error and drops the handle of the IPC server;
    the node is then what the monitor made of the wake-ups until that moment, and no
    event, error or panic ends it earlier. *)
Theorem main_runs_until_stopped es (n : Node W T) disk ipc : fetcher_wf (fetcher_of n) →
  let p := process_run (Ok tt) (Ok tt) es (process_start n disk ipc) in
  let stop := head (omap stops es) in
  pr_end p = (λ how, Done (Ok how)) <$> stop ∧
  (∃ n', run_event_monitor (wakes_until_stop es) n = (Done (Ok tt), n') ∧ pr_node p = n' ∧ fetcher_wf (fetcher_of n')) ∧
  (pr_handle p = true ↔ stop = None).
Proof.
  intros Hwf p stop. destruct (run_running (Ok tt) (Ok tt) es (process_start n disk ipc)) as (He & Hn & Hh); [done..|].
  fold p in He, Hn, Hh. destruct (monitor_ok (wakes_until_stop es) n Hwf) as (n' & Hm & Hwf').
  split; [done|]. split.
  - exists n'. split; [done|]. split; [|done]. rewrite Hn. change (pr_node (process_start n disk ipc)) with n. by rewrite Hm.
  - rewrite Hh, andb_true_r, bool_decide_eq_true. unfold stop. by destruct (omap stops es).
Qed.

(** C15: a process always gets its socket, whatever earlier ones left behind.  On a disk
    fit for a server, after any number of processes, one after the other, each ended
    by a signal, its events or a crash at any point, the IPC server of the next one
    listens at its first turn.  When the process is told to stop after that, its
    socket is gone if and only if the server gets another turn before the process
    exits, which nothing awaits. *)
Theorem next_process_listens q c (int term : result string unit) (n : Node W T)
    (crashed : list (list Happening)) disk :
  plain (last_comp q) → plain c → socket_ready q c disk →
  let start d := process_start n d (Some (join q c)) in
  let disk' := foldl (λ d es, pr_disk (process_run int term es (start d))) disk crashed in
  let p := happen int term (start disk') IpcTurn in
  pr_ipc p = IpcListening (join q c) ∧ fs_lookup (pr_disk p) (resolve (join q c)) = Some (File []) ∧
  ∀ how es, let p' := process_run int term es (main_ends how p) in
    (fs_lookup (pr_disk p') (resolve (join q c)) = None ↔ IpcTurn ∈ es).
Proof.
  intros Hq Hc Hready start disk' p.
  assert (socket_ready q c disk') as Hready'.
  { unfold disk'. clear p disk'. revert disk Hready. induction crashed as [|es ess IH]; intros disk Hready; [done|].
    apply IH. by apply (socket_run_held int term q c Hq Hc (start disk) es). }
  pose proof (ipc_task_held q c Hq Hc true (IpcSpawned (join q c)) disk' (conj Hready' eq_refl)) as Ht.
  unfold p, happen, start, process_start. cbn [pr_handle pr_ipc pr_disk pr_node pr_end].
  destruct (ipc_task true (IpcSpawned (join q c)) disk') as [s w]. destruct Ht as [Hheld ->].
  split; [done|]. split; [by destruct Hheld as (_ & _ & ?)|]. intros how es.
  rewrite (ended_turns int term q c Hq Hc es _ how) by first [done|by left].
  destruct Hheld as (_ & _ & Hl). cbn [pr_disk main_ends]. rewrite <- has_turn, Hl. by destruct (existsb is_turn es).
Qed.

(** Two nodes with one socket path.  The server of the second node takes the socket of
    the first, which goes on listening without it; when the first stops, it removes
    the socket of the second. *)
Lemma sockets_are_stolen q c w : plain (last_comp q) → plain c → socket_ready q c w →
  let first := ipc_task true (IpcSpawned (join q c)) w in
  let second := ipc_task true (IpcSpawned (join q c)) first.2 in
  first.1 = IpcListening (join q c) ∧ second.1 = IpcListening (join q c) ∧
  fs_lookup second.2 (resolve (join q c)) = Some (File []) ∧
  fs_lookup (ipc_task false first.1 second.2).2 (resolve (join q c)) = None.
Proof.
  intros Hq Hc Hw first second.
  pose proof (ipc_task_held q c Hq Hc true (IpcSpawned (join q c)) w (conj Hw eq_refl)) as H1'.
  fold first in H1'. destruct first as [s1 w1]. destruct H1' as [[Hr1 _] ->].
  pose proof (ipc_task_held q c Hq Hc true (IpcSpawned (join q c)) w1 (conj Hr1 eq_refl)) as H2'.
  change second with (ipc_task true (IpcSpawned (join q c)) w1) in *. clear second.
  destruct (ipc_task true (IpcSpawned (join q c)) w1) as [s2 w2]. destruct H2' as [Hh2 ->].
  split; [done|]. split; [done|]. split; [by destruct Hh2 as (_ & _ & ?)|].
  pose proof (ipc_task_held q c Hq Hc false (IpcListening (join q c)) w2 Hh2) as H3'.
  change (snd (IpcListening (join q c), w2)) with w2. change (fst (IpcListening (join q c), w1)) with (IpcListening (join q c)).
  destruct (ipc_task false (IpcListening (join q c)) w2) as [s3 w3]. destruct H3' as [[_ Hn] ->]. exact Hn.
Qed.
End main.

(** ** Concrete runs *)

Module DemoProcess.
Import (hints) DemoMesh.
Definition node : Node (gmap Hash bytes) bytes := DemoMesh.light.
Definition disk : World := mkWorld ∅ [].
(** The server listens, a blob arrives, the process is told to stop. *)
Definition life : list Happening :=
  [IpcTurn; MonitorWakes (Arrived 1 (BlobResponseReceived 22%N "h" true [x61])); SignalArrives Terminate].
End DemoProcess.
Import (hints) DemoMesh.

Lemma main_runs_until_stopped_witness :
  let p := process_run (Ok tt) (Ok tt) DemoProcess.life
             (process_start DemoProcess.node DemoProcess.disk (Some "/run/eo.sock")) in
  pr_end p = Some (Done (Ok (Some "SIGTERM"))) ∧ fetcher_wf (fetcher_of (pr_node p)).
Proof.
  destruct (main_runs_until_stopped DemoProcess.life DemoProcess.node DemoProcess.disk (Some "/run/eo.sock")
    (new_wf ∅ (mkSender [] []) ∅)) as (He & (n' & _ & Hn & Hw) & _).
  split; [exact He|]. rewrite Hn. exact Hw.
Defined.

Lemma next_process_listens_witness :
  let d := pr_disk (process_run (Ok tt) (Ok tt) DemoProcess.life
             (process_start DemoProcess.node DemoProcess.disk (Some (join "/run" "eo.sock")))) in
  pr_ipc (happen (Ok tt) (Ok tt) (process_start DemoProcess.node d (Some (join "/run" "eo.sock"))) IpcTurn) =
    IpcListening "/run/eo.sock".
Proof.
  refine (proj1 (next_process_listens (W := gmap Hash bytes) "/run" "eo.sock" (Ok tt) (Ok tt) DemoProcess.node
    [DemoProcess.life] DemoProcess.disk _ _ _)).
  - vm_compute. repeat split; discriminate.
  - vm_compute. repeat split; discriminate.
  - split; [reflexivity|]. split; [|discriminate]. intros p d [k Hk]. change (["/"; "run"] = p ++ k) in Hk.
    destruct p as [|c1 [|c2 [|c3 p]]].
    + discriminate.
    + injection Hk as <- _. discriminate.
    + injection Hk as <- <- _. discriminate.
    + discriminate Hk.
Defined.
