(* ===== verification/ConformanceStorage.v ===== *)
(** * The tests of the core and storage crates

    The unit tests of crates/core and crates/storage as programs on the definitions
    of the development: a test is a boolean, or a computation that returns one and
    may not fail.  They pass on the model, at the executable instances of the
    interfaces; those that hold of every instance are proved of every instance. *)

From S2P Require Import Prelude CoreTypes Interfaces Json FileSys Objects Diff Store Pack.

(** A computation that must not fail ([unwrap]) and whose assertions must hold. *)
Definition passes {S E} (m : M S E bool) (s : S) : bool :=
  match (m s).1 with Done (Ok b) => b | _ => false end.
Definition assert_eq {A} `{EqDecision A} (x y : A) : bool := bool_decide (x = y).

(** A call that is expected to fail. *)
Definition is_err {S E A} (m : M S E A) : M S E bool := λ s,
  match m s with
  | (Done (Ok _), s) => (Done (Ok false), s)
  | (Done (Err _), s) => (Done (Ok true), s)
  | (Panic why, s) => (Panic why, s)
  end.

(** ** types.rs *)

Module TypesTests.
(** [to_string] and [from_str] of a value give it back. *)
Definition serde_roundtrip {T} `{SerdeJson T, EqDecision T} (x : T) : bool :=
  match to_vec x with
  | Ok json => match from_slice json with Ok y => assert_eq x y | Err _ => false end
  | Err _ => false
  end.

Definition node_descriptor_serde_roundtrip `{SerdeJson NodeDescriptor} (new_v4 : Uuid) (now : DateTime) : bool :=
  serde_roundtrip (mkNodeDescriptor new_v4 Heavy MacOS Capabilities_default [] [Execution] now None).
Definition execution_result_serde_roundtrip `{SerdeJson ExecutionResult} : bool :=
  serde_roundtrip (mkExecutionResult 0 (as_bytes "hello world") [] 42 (1024 * 1024) (Some "def456")).
Definition project_task_serde_roundtrip `{SerdeJson ProjectTask} (v1 v2 : Uuid) : bool :=
  serde_roundtrip (mkProjectTask v1 (mkProjectSnapshot "abc123" (as_bytes "tar")) "/root/proj"
    ["cargo"; "build"] ["./target/app"] 5000 ResourceLimits_default (Some v2)).

Definition capabilities_default_advertises_the_project_runtime : bool :=
  existsb (λ r, assert_eq r "qlean") (runtimes Capabilities_default) &&
  negb (gpu_acceleration Capabilities_default) && negb (project_sandbox Capabilities_default).
Definition resource_limits_default_sane : bool :=
  assert_eq (rl_max_memory_mb ResourceLimits_default) 256%N && negb (rl_allow_network ResourceLimits_default).
Definition role_display_formatting : bool :=
  assert_eq (Role_to_string Storage) "Storage" && assert_eq (Role_to_string Execution) "Execution" &&
  assert_eq (Role_to_string Inference) "Inference".

Lemma serde_roundtrip_passes {T} `{SerdeJsonLaws T, EqDecision T} (x : T) : serde_roundtrip x = true.
Proof.
  unfold serde_roundtrip. destruct (to_vec_total x) as [b Hb]. rewrite Hb, (from_to_vec x b Hb).
  by apply bool_decide_eq_true.
Qed.

Lemma serde_tests_pass `{SerdeJsonLaws NodeDescriptor, !SerdeJson ExecutionResult, !SerdeJsonLaws ExecutionResult,
    !SerdeJson ProjectTask, !SerdeJsonLaws ProjectTask} v1 v2 now :
  node_descriptor_serde_roundtrip v1 now && execution_result_serde_roundtrip &&
  project_task_serde_roundtrip v1 v2 = true.
Proof.
  unfold node_descriptor_serde_roundtrip, execution_result_serde_roundtrip, project_task_serde_roundtrip.
  by rewrite !serde_roundtrip_passes.
Qed.

Example default_tests_pass :
  capabilities_default_advertises_the_project_runtime && resource_limits_default_sane &&
  role_display_formatting = true.
Proof. vm_compute. done. Qed.
End TypesTests.

(** ** objects.rs *)

Module ObjectsTests.
Section tests.
Context `{Digest, TimeText}.

Definition hash_blob_is_deterministic : bool :=
  let data := as_bytes "hello world" in assert_eq (hash_blob data) (hash_blob data).
Definition hash_blob_different_for_different_data : bool :=
  negb (assert_eq (hash_blob (as_bytes "hello")) (hash_blob (as_bytes "world"))).
Definition hash_tree_is_deterministic : bool :=
  let entries := [mkTreeEntry "b.txt" "abc123" ModeBlob; mkTreeEntry "a.txt" "def456" ModeBlob] in
  assert_eq (hash_tree entries) (hash_tree entries).
Definition hash_tree_sorted_independent_of_input_order : bool :=
  let entries_a := [mkTreeEntry "b.txt" "abc" ModeBlob; mkTreeEntry "a.txt" "def" ModeBlob] in
  let entries_b := [mkTreeEntry "a.txt" "def" ModeBlob; mkTreeEntry "b.txt" "abc" ModeBlob] in
  assert_eq (hash_tree entries_a) (hash_tree entries_b).
(** [ts2] is a second after [ts]. *)
Definition hash_commit_is_deterministic (ts ts2 : DateTime) : bool :=
  let h1 := hash_commit "tree_hash" [] "test" ts "init" in
  let h2 := hash_commit "tree_hash" [] "test" ts "init" in
  let h3 := hash_commit "tree_hash" [] "test" ts2 "init" in
  assert_eq h1 h2 && negb (assert_eq h1 h3).

(** Three of them need nothing of the hash function. *)
Lemma deterministic_tests_pass :
  hash_blob_is_deterministic && hash_tree_is_deterministic && hash_tree_sorted_independent_of_input_order = true.
Proof.
  unfold hash_blob_is_deterministic, hash_tree_is_deterministic, hash_tree_sorted_independent_of_input_order, assert_eq.
  by rewrite !bool_decide_true.
Qed.
End tests.
End ObjectsTests.

(** ** diff.rs *)

Module DiffTests.
Definition entry (name : string) (hash : Hash) : TreeEntry := mkTreeEntry name hash ModeBlob.

Definition identical_trees_produce_empty_diff : bool :=
  let old := [entry "a.txt" "abc"; entry "b.txt" "def"] in
  let new := [entry "a.txt" "abc"; entry "b.txt" "def"] in
  let diff := diff_trees old new in
  diff_is_empty diff && assert_eq (length (unchanged diff)) 2.
Definition added_file_detected : bool :=
  let diff := diff_trees [entry "a.txt" "abc"] [entry "a.txt" "abc"; entry "b.txt" "def"] in
  assert_eq (te_name <$> added_or_modified diff) ["b.txt"].
Definition removed_file_detected : bool :=
  let diff := diff_trees [entry "a.txt" "abc"; entry "b.txt" "def"] [entry "a.txt" "abc"] in
  assert_eq (te_name <$> removed diff) ["b.txt"].
Definition modified_file_detected : bool :=
  let diff := diff_trees [entry "a.txt" "abc"] [entry "a.txt" "xyz"] in
  assert_eq (te_hash <$> added_or_modified diff) ["xyz"].

Example diff_tests_pass :
  identical_trees_produce_empty_diff && added_file_detected && removed_file_detected && modified_file_detected = true.
Proof. vm_compute. done. Qed.
End DiffTests.

(** ** store.rs *)

(** [tempfile::tempdir]: a fresh directory. *)
Definition tempdir : M World CoreError string :=
  let! _ := map_err StorageIo (create_dir_all "/tmp/.tmp0") in ret "/tmp/.tmp0".

Module StoreTests.
Section tests.
Context `{SerdeJson Object, Digest, Zlib, TimeText, DebugText Object}.

Definition temp_store : M World CoreError string := let! dir := tempdir in store_new dir.

Definition blob_roundtrip_through_store : M World CoreError bool :=
  let! store := temp_store in
  let data := as_bytes "hello content-addressed world" in
  let! hash := put_blob store data in
  let! there := exists_ store hash in
  let! retrieved := get_blob store hash in
  ret (there && assert_eq retrieved data).

Definition tree_roundtrip : M World CoreError bool :=
  let! store := temp_store in
  let entries := [mkTreeEntry "hello.txt" "abc123" ModeBlob] in
  let! hash := put_tree store entries in
  let! there := exists_ store hash in
  let! retrieved := get_tree store hash in
  ret (there && assert_eq retrieved entries).

(** [now1] and [now2] are the clock's readings. *)
Definition commit_chain_resolution (now1 now2 : DateTime) : M World CoreError bool :=
  let! store := temp_store in
  let! tree_hash := put_tree store [mkTreeEntry "data.txt" "blobhash123" ModeBlob] in
  let! c1 := commit store now1 tree_hash [] "test" "initial commit" in
  let! commit1 := get_commit store c1 in
  let! c2 := commit store now2 tree_hash [c1] "test" "second commit" in
  let! commit2 := get_commit store c2 in
  ret (assert_eq (commit_tree_hash commit1) tree_hash && assert_eq (commit_parent_hashes commit1) [] &&
       assert_eq (commit_message commit1) "initial commit" && assert_eq (commit_parent_hashes commit2) [c1]).

Definition object_not_found_error : M World CoreError bool :=
  let! store := temp_store in is_err (get_blob store "nonexistent_hash").

Definition store_is_idempotent : M World CoreError bool :=
  let! store := temp_store in
  let data := as_bytes "idempotent test" in
  let! h1 := put_blob store data in
  let! h2 := put_blob store data in
  ret (assert_eq h1 h2).
End tests.
End StoreTests.

(** ** index.rs *)

Module IndexTests.
Section tests.
Context `{SerdeJson (list JsonValue), Utf8, HashOrder, Digest}.

Definition numbered (i : nat) : bytes := as_bytes (fmt ["object number "; dec (N.of_nat i)]).

(** The loop that reads every object back. *)
Fixpoint all_read (reader : PackReader) (ns : list nat) : M World CoreError bool :=
  match ns with
  | [] => ret true
  | i :: ns =>
      let hash := hash_blob (numbered i) in
      let! retrieved := read reader hash in
      let! rest := all_read reader ns in
      ret (reader_exists reader hash && assert_eq retrieved (numbered i) && rest)
  end.

(** For [n] objects; the test has a thousand, the run below a hundred. *)
Definition packfile_write_and_read (n : nat) (seed : N) : M World CoreError bool :=
  let! dir := tempdir in
  let pack_path := join dir "objects.pack" in
  let index_path := join dir "objects.idx" in
  let writer := foldl (λ w i, append (hash_blob (numbered i)) (numbered i) w) writer_new (seq 0 n) in
  let! _ := flush seed pack_path index_path writer in
  let! reader := open pack_path index_path in
  let! all := all_read reader (seq 0 n) in
  ret (assert_eq (index_len (pw_index writer)) n && all).
End tests.
End IndexTests.

(** ** Concrete runs *)

Module DemoTests.
#[export] Existing Instance Toy.digest.
#[export] Existing Instance Toy.zlib.
#[export] Existing Instance Toy.hash_order.
#[export] Existing Instance Store.Demo.object_json.
#[export] Existing Instance Store.Demo.debug.
#[export] Existing Instance Pack.Demo.json.
#[export] Existing Instance Pack.Demo.utf8.
#[export] Instance clock_text : TimeText := {| format_epoch_zone t := fmt [pretty t; " +0000"] |}.
Definition empty : World := mkWorld ∅ [].
End DemoTests.
Import (hints) DemoTests.

Example hash_tests_pass :
  ObjectsTests.hash_blob_different_for_different_data && ObjectsTests.hash_commit_is_deterministic 7%Z 8%Z = true.
Proof. vm_compute. done. Qed.

Example store_tests_pass :
  passes StoreTests.blob_roundtrip_through_store DemoTests.empty &&
  passes StoreTests.tree_roundtrip DemoTests.empty &&
  passes (StoreTests.commit_chain_resolution 7%Z 8%Z) DemoTests.empty &&
  passes StoreTests.object_not_found_error DemoTests.empty &&
  passes StoreTests.store_is_idempotent DemoTests.empty = true.
Proof. vm_compute. done. Qed.

Example index_tests_pass : passes (IndexTests.packfile_write_and_read 100 0) DemoTests.empty = true.
Proof. vm_compute. done. Qed.
