(* ===== verification/ConformanceNode.v ===== *)
(** * The tests of the node and sandbox crates

    The unit tests of crates/node and crates/sandbox, in the manner of
    [ConformanceStorage].  The ids that a test parses from constants are arguments;
    the texts of serde_yaml are interpreted by the interface. *)

From S2P Require Import Prelude CoreTypes Interfaces Text Channels StateMachine Topology RoleEngine Sandbox.
From S2P Require Import ConformanceStorage.

(** [assert!(matches!(..))] on an error's text. *)
Definition contains (pat s : string) : bool := bool_decide (is_Some (String.index 0 pat s)).

(** ** state_machine.rs *)

Module StateMachineTests.
Section tests.
Context `{UuidText} (id : NodeId) (now : DateTime).

Definition make_descriptor : NodeDescriptor :=
  mkNodeDescriptor id Heavy MacOS Capabilities_default [] [] now None.

Definition apply_register_node_updates_registry : bool :=
  let desc := make_descriptor in
  let '(result, state) := apply ClusterState_default (RegisterNode desc) in
  match result with NodeRegistered _ => true | _ => false end &&
  assert_eq (nodes state !! node_id desc) (Some desc).

Definition apply_assign_role : bool :=
  let desc := make_descriptor in
  let '(_, state) := apply ClusterState_default (RegisterNode desc) in
  let '(result, state) := apply state (AssignRole (node_id desc) Execution) in
  match result with RoleAssigned _ _ => true | _ => false end &&
  match role_assignments state !! node_id desc with Some roles => bool_decide (Execution ∈ roles) | None => false end.

Definition snapshot_restore_roundtrip : bool :=
  let state := apply_all ClusterState_default [RegisterNode make_descriptor; AssignRole id Storage] in
  let restored := restore (snapshot state) in
  assert_eq (size (nodes state)) (size (nodes restored)) &&
  assert_eq (role_assignments state) (role_assignments restored).

Definition deterministic_apply_order : bool :=
  let desc := make_descriptor in
  let steps := [RegisterNode desc; AssignRole (node_id desc) Execution] in
  let state1 := apply_all ClusterState_default steps in
  let state2 := apply_all ClusterState_default steps in
  assert_eq (nodes state1) (nodes state2) && assert_eq (role_assignments state1) (role_assignments state2).

(** Registering a node and assigning it a first role. *)
Lemma apply_first_role role :
  apply (apply ClusterState_default (RegisterNode make_descriptor)).2 (AssignRole id role) =
  (RoleAssigned id role, mkClusterState {[id := make_descriptor]} {[id := [role]]} 0).
Proof.
  unfold apply at 1. simpl. rewrite decide_False by (by rewrite lookup_insert_eq). rewrite lookup_empty. simpl.
  done.
Qed.

Lemma state_machine_tests_pass :
  apply_register_node_updates_registry && apply_assign_role && snapshot_restore_roundtrip &&
  deterministic_apply_order = true.
Proof.
  assert (apply_assign_role = true) as ->.
  { pose proof (apply_first_role Execution) as Hf. unfold apply_assign_role. cbv zeta.
    change (node_id make_descriptor) with id.
    destruct (apply ClusterState_default (RegisterNode make_descriptor)) as [x st]. simpl in Hf. rewrite Hf.
    simpl. rewrite lookup_singleton_eq.
    apply bool_decide_eq_true. by left. }
  unfold apply_register_node_updates_registry, snapshot_restore_roundtrip, deterministic_apply_order, assert_eq.
  change (apply ClusterState_default (RegisterNode make_descriptor)) with
    (NodeRegistered id, mkClusterState {[id := make_descriptor]} ∅ 0).
  cbn [nodes]. by rewrite lookup_singleton_eq, !bool_decide_true.
Qed.
End tests.
End StateMachineTests.

(** ** topology.rs *)

Module TopologyTests.
Section tests.
Context `{SerdeYaml ClusterTopologySpec, UuidText, HashOrderLaws} (id : NodeId) (seed_d seed_c : N).

(** The text of a specification of one node. *)
Definition spec_yaml (roles : list string) : string :=
  let dq := String "034"%char EmptyString in
  fmt ([nl; "version: "; dq; "1.0"; dq; nl; "assignments:"; nl; "  - node_selector:"; nl;
        "      node_id: "; dq; uuid_to_string id; dq; nl; "    roles:"; nl]
       ++ ((λ r, fmt ["      - "; r; nl]) <$> roles)).
Definition one_node (roles : list Role) : ClusterTopologySpec :=
  mkClusterTopologySpec "1.0" [mkNodeAssignment (mkNodeSelector (Some id) [] None) roles].

Definition parse_valid_topology_spec : bool :=
  match parse_topology_spec (spec_yaml ["Storage"; "Execution"]) with
  | Ok spec => assert_eq (version spec) "1.0" && assert_eq (length (assignments spec)) 1 &&
      match assignments spec !! 0 with Some a => assert_eq (length (na_roles a)) 2 | None => false end
  | Err _ => false
  end.

Definition diff_generates_correct_proposals : bool :=
  match parse_topology_spec (spec_yaml ["Storage"]) with
  | Ok spec =>
      let proposals := diff_topology seed_d seed_c ∅ spec in
      match proposals with [AssignRole _ Storage] => true | _ => false end &&
      assert_eq (diff_topology seed_d seed_c {[id := [Storage]]} spec) []
  | Err _ => false
  end.

Definition diff_handles_role_reassignment : bool :=
  match parse_topology_spec (spec_yaml ["Execution"]) with
  | Ok spec =>
      let proposals := diff_topology seed_d seed_c {[id := [Storage]]} spec in
      assert_eq (length proposals) 2 &&
      existsb (λ p, match p with RevokeRole _ Storage => true | _ => false end) proposals &&
      existsb (λ p, match p with AssignRole _ Execution => true | _ => false end) proposals
  | Err _ => false
  end.

(** What serde_yaml reads of the three texts. *)
Hypothesis yaml_both : yaml_from_str (spec_yaml ["Storage"; "Execution"]) = Ok (one_node [Storage; Execution]).
Hypothesis yaml_storage : yaml_from_str (spec_yaml ["Storage"]) = Ok (one_node [Storage]).
Hypothesis yaml_execution : yaml_from_str (spec_yaml ["Execution"]) = Ok (one_node [Execution]).

Lemma hash_iter_singleton {A} seed (x : A) : hash_iter seed {[id := x]} = [(id, x)].
Proof. apply Permutation_singleton_r. by rewrite hash_iter_perm, map_to_list_singleton. Qed.

Lemma topology_tests_pass :
  parse_valid_topology_spec && diff_generates_correct_proposals && diff_handles_role_reassignment = true.
Proof.
  assert (∀ roles, desired_roles (one_node roles) = {[id := push_missing [] roles]}) as Hd by done.
  assert (∀ seed, hash_iter seed (∅ : gmap NodeId (list Role)) = []) as He.
  { intros seed. apply Permutation_nil_r. by rewrite hash_iter_perm, map_to_list_empty. }
  unfold parse_valid_topology_spec, diff_generates_correct_proposals, diff_handles_role_reassignment,
    parse_topology_spec. rewrite yaml_both, yaml_storage, yaml_execution. cbn [result_map_err].
  unfold diff_topology. rewrite !Hd, !hash_iter_singleton, !He. simpl.
  unfold assign_missing, revoke_extra. simpl. rewrite lookup_empty, !lookup_singleton_eq. done.
Qed.
End tests.
End TopologyTests.

(** ** role_engine.rs *)

Module RoleEngineTests.
Section tests.
Context `{HashOrderLaws} (seed : N) (now : DateTime) (exec_id backup_id : NodeId).

Definition make_descriptor_with (id : NodeId) (roles : list Role) (runtimes : list string) : NodeDescriptor :=
  mkNodeDescriptor id Heavy MacOS (mkCapabilities true false runtimes 1024 2 false) [] roles now None.

(** The channel has room for the proposals of the tests. *)
Definition engine : Engine := engine_new (mkSender [] []).

Definition node_failure_triggers_reassignment : bool :=
  let engine := register_node (make_descriptor_with exec_id [Execution] ["qlean"]) engine in
  let engine := register_node (make_descriptor_with backup_id [] ["qlean"]) engine in
  passes (handle_node_failure seed exec_id) engine.

Definition no_reassignment_when_no_suitable_node : bool :=
  passes (handle_node_failure seed exec_id)
    (register_node (make_descriptor_with exec_id [Execution] ["container"]) engine).

(** The second test passes although no role was reassigned: the result only says
    that the lost node had roles. *)
Lemma role_engine_tests_pass : exec_id ≠ backup_id →
  node_failure_triggers_reassignment && no_reassignment_when_no_suitable_node = true ∧
  sent (proposal_tx (handle_node_failure seed exec_id
    (register_node (make_descriptor_with exec_id [Execution] ["container"]) engine)).2) = [].
Proof.
  intros Hne. unfold node_failure_triggers_reassignment, no_reassignment_when_no_suitable_node, passes, handle_node_failure.
  cbn [register_node engine engine_new eng_nodes node_id make_descriptor_with].
  rewrite !lookup_insert_eq, lookup_insert_ne, lookup_insert_eq by done.
  cbn [mfor failover_role current_assigned_roles capabilities eng_nodes make_descriptor_with].
  unfold failover_role, bind. cbn [eng_nodes proposal_tx desired_topology].
  assert (∀ ns caps, find_alternative seed (∅ : gmap NodeId NodeDescriptor) Execution caps = ns → ns = None) as Hno.
  { intros ns caps <-. apply find_alternative_None. intros id d. by rewrite lookup_empty. }
  rewrite delete_insert_id by apply lookup_empty.
  destruct (find_alternative seed ∅ Execution _) eqn:Hf; [by apply Hno in Hf|].
  destruct (find_alternative seed (delete _ _) Execution _); done.
Qed.
End tests.
End RoleEngineTests.

(** ** pool.rs *)

Module PoolTests.
Definition reuse_mode_keeps_one_machine_and_never_pools : bool :=
  let plan := plan_new true 4 in
  assert_eq (target plan) 0%N && match after_job plan with [Keep] => true | _ => false end &&
  negb (take_from_pool_when_available plan).
Definition fresh_without_a_pool_discards_everything : bool :=
  let plan := plan_new false 0 in
  match after_job plan with [Discard] => true | _ => false end &&
  assert_eq (boots_needed plan 0) 0%N && negb (take_from_pool_when_available plan).
Definition fresh_with_a_pool_discards_then_refills : bool :=
  let plan := plan_new false 2 in
  match after_job plan with [Discard; Refill n] => assert_eq n 2%N | _ => false end &&
  take_from_pool_when_available plan && assert_eq (boots_needed plan 2) 0%N && assert_eq (boots_needed plan 0) 2%N.
Definition pool_size_is_capped : bool :=
  assert_eq (target (plan_new false (MAX_POOL_TARGET + 100))) MAX_POOL_TARGET.

Example pool_tests_pass :
  reuse_mode_keeps_one_machine_and_never_pools && fresh_without_a_pool_discards_everything &&
  fresh_with_a_pool_discards_then_refills && pool_size_is_capped = true.
Proof. vm_compute. done. Qed.
End PoolTests.

(** ** qlean.rs *)

Module QleanTests.
Definition no_config_means_builtin_image : bool :=
  match template_from_config None None, template_from_config (Some "  ") (Some "") with
  | Ok None, Ok None => true
  | _, _ => false
  end.
Definition digest_is_mandatory : bool :=
  match template_from_config (Some "/var/lib/eo/toolchain.qcow2") None with
  | Err err => contains "both source and digest" (CoreError_to_string err)
  | Ok _ => false
  end &&
  match template_from_config None (Some "sha256:deadbeef") with
  | Err err => contains "without a source" (CoreError_to_string err)
  | Ok _ => false
  end.
Definition malformed_digest_is_rejected_before_the_fetch : bool :=
  forallb (λ bad, match template_from_config (Some "/img.qcow2") (Some bad) with Err _ => true | Ok _ => false end)
    ["sha256:xyz"; "deadbeef"; "sha256:"; "sha256:1234"].
Definition a_complete_template_is_accepted : bool :=
  let hex := fmt (replicate 64 "a") in
  match template_from_config (Some "/var/lib/eo/toolchain.qcow2") (Some (fmt ["sha256:"; hex])) with
  | Ok (Some t) => assert_eq (it_source t) "/var/lib/eo/toolchain.qcow2" && starts_with "sha256:" (it_digest t)
  | _ => false
  end.
Definition parses_as (text : string) (mode : VmMode) : bool :=
  match vm_mode_parse text with Ok m => assert_eq m mode | Err _ => false end.
Definition parses_both_modes_and_rejects_typos : bool :=
  parses_as "reuse" Reuse && parses_as "" Reuse && parses_as "FRESH" Fresh && parses_as "per-task" Fresh &&
  match vm_mode_parse "isoltion" with Err _ => true | Ok _ => false end.
Definition only_reuse_mode_keeps_the_machine : bool := allows_reuse Reuse && negb (allows_reuse Fresh).

Example qlean_tests_pass :
  no_config_means_builtin_image && digest_is_mandatory && malformed_digest_is_rejected_before_the_fetch &&
  a_complete_template_is_accepted && parses_both_modes_and_rejects_typos && only_reuse_mode_keeps_the_machine = true.
Proof. vm_compute. done. Qed.
End QleanTests.
