(* ===== verification/ConformanceClient.v ===== *)
(** * The tests of the node's configuration, client and storage

    The unit tests of config.rs, ipc/handler.rs, project_client.rs,
    project_snapshot.rs, raft/storage.rs and cas_fetch.rs of crates/node, in the
    manner of [ConformanceStorage]. *)

From S2P Require Import Prelude CoreTypes Interfaces Text Json Channels StateMachine FileSys BlobStore RaftStorage.
From S2P Require Import Swarm RaftNet CasFetch Project Sandbox Ipc Config AgentNode ConformanceStorage ConformanceNode.

(** ** config.rs *)

Module ConfigTests.
Section tests.
Context `{Yaml}.

Definition parsed (yaml : string) (test : NodeConfig → bool) : bool :=
  match Config.yaml_from_str (as_bytes yaml) with Ok config => test config | Err _ => false end.

Definition mode_yaml (value : string) : string :=
  fmt ["capabilities:"; nl; "  project_sandbox: true"; nl; "  project_vm_mode: "; value; nl].
Definition source_yaml : string :=
  fmt ["capabilities:"; nl; "  project_image_source: /var/lib/eo/toolchain.qcow2"; nl].
Definition pool_yaml (size : N) : string :=
  fmt ["capabilities:"; nl; "  project_vm_pool_size: "; dec size; nl].

Definition vm_mode_defaults_to_reuse : bool :=
  parsed "capabilities: {}" (λ config, assert_eq (project_vm_mode config) Reuse).
Definition vm_mode_is_parsed_and_typos_fall_back_loudly : bool :=
  parsed (mode_yaml "fresh") (λ config, assert_eq (project_vm_mode config) Fresh) &&
  parsed (mode_yaml "fressh") (λ config, assert_eq (project_vm_mode config) Reuse).
Definition image_template_needs_source_and_digest : bool :=
  parsed source_yaml (λ config,
    match project_image_template config with
    | Err err => contains "both source and digest" err
    | Ok _ => false
    end) &&
  parsed "capabilities: {}" (λ config,
    match project_image_template config with Ok None => true | _ => false end).
Definition pool_size_defaults_and_is_clamped : bool :=
  assert_eq default_project_vm_pool 1%N &&
  parsed (pool_yaml (MAX_POOL_TARGET + 50)) (λ config, assert_eq (project_vm_pool_size config) MAX_POOL_TARGET).

(** What serde makes of a file with only a [capabilities] section: the defaults of
    the missing fields. *)
Definition with_capabilities (sandbox : bool) (mode : string) (pool : N) (source : option string) : NodeConfig :=
  mkNodeConfig "" default_node_type default_listen_addresses []
    (mkCapabilitiesConfig false false default_runtimes default_max_memory_mb default_cpu_cores sandbox mode pool
       source None) [] None [] None.

Hypothesis yaml_empty : Config.yaml_from_str (as_bytes "capabilities: {}") =
  Ok (with_capabilities false default_project_vm_mode default_project_vm_pool None).
Hypothesis yaml_mode : ∀ value, value ∈ ["fresh"; "fressh"] →
  Config.yaml_from_str (as_bytes (mode_yaml value)) = Ok (with_capabilities true value default_project_vm_pool None).
Hypothesis yaml_source : Config.yaml_from_str (as_bytes source_yaml) =
  Ok (with_capabilities false default_project_vm_mode default_project_vm_pool (Some "/var/lib/eo/toolchain.qcow2")).
Hypothesis yaml_pool : Config.yaml_from_str (as_bytes (pool_yaml (MAX_POOL_TARGET + 50))) =
  Ok (with_capabilities false default_project_vm_mode (MAX_POOL_TARGET + 50) None).

Lemma config_tests_pass :
  vm_mode_defaults_to_reuse && vm_mode_is_parsed_and_typos_fall_back_loudly &&
  image_template_needs_source_and_digest && pool_size_defaults_and_is_clamped = true.
Proof.
  unfold vm_mode_defaults_to_reuse, vm_mode_is_parsed_and_typos_fall_back_loudly,
    image_template_needs_source_and_digest, pool_size_defaults_and_is_clamped, parsed.
  rewrite yaml_empty, yaml_source, yaml_pool, !yaml_mode by (rewrite !elem_of_cons; auto). vm_compute. done.
Qed.
End tests.
End ConfigTests.

(** ** handler.rs *)

Module HandlerTests.
Section tests.
Context {W T : Type} `{BlobStore W, Tar T, UuidText, HashOrder, FromValue SubmitProjectParams,
  FromValue FetchProjectParams, Base64} (seed now task_id : N).

(** A handler without a project client. *)
Definition make_handler : JsonRpcHandler W T := handler_new (mkSender [] []) None.

Definition answers (method : string) (id : N) (test : JsonRpcResponse → bool) : bool :=
  match (handle seed now task_id (mkJsonRpcRequest "2.0" method (json_object []) (JNumber id)) make_handler).1 with
  | Done (Ok resp) => test resp
  | _ => false
  end.

Definition get_cluster_topology_returns_valid_json : bool :=
  answers "get_cluster_topology" 1 (λ resp,
    match rs_error resp, rs_result resp with
    | None, Some result =>
        bool_decide (is_Some (json_get "nodes" result)) && bool_decide (is_Some (json_get "tasks_completed" result))
    | _, _ => false
    end).
Definition unknown_method_returns_error : bool :=
  answers "nonexistent_method" 5 (λ resp,
    match rs_error resp with Some e => assert_eq (err_code e) (-32601)%Z | None => false end).

Lemma handler_tests_pass : get_cluster_topology_returns_valid_json && unknown_method_returns_error = true.
Proof. done. Qed.
End tests.
End HandlerTests.

(** ** project_snapshot.rs *)

Module SnapshotTests.
Section tests.
Context {W T : Type} `{BlobStoreLaws W, TarLaws T, UuidText, EqDecision T}.

(** [content] is what the test wrote into the source directory. *)
Definition pack_unpack_roundtrip (content : T) (w : W) : bool :=
  let disk := mkDisk w {["/tmp/.tmp0/src" := content]} in
  match (let! data := pack_directory "/tmp/.tmp0/src" in unpack_tar data "/tmp/.tmp0/out") disk with
  | (Done (Ok _), disk) => assert_eq (dirs disk !! "/tmp/.tmp0/out") (Some content)
  | _ => false
  end.

Definition snapshot_hash_is_deterministic_and_lands_in_cas : M (Disk W T) CoreError bool :=
  let! s1 := snapshot_from_dir "/tmp/.tmp0/p" in
  let! s2 := snapshot_from_dir "/tmp/.tmp0/p" in
  let! there := with_cas (bs_exists (snapshot_hash s1)) in
  ret (assert_eq (snapshot_hash s1) (snapshot_hash s2) &&
       (negb (assert_eq (tar_bytes s1) []) || there) && assert_eq (inline_len s1) 0 && there).

(** The first test passes for every directory that can be packed. *)
Lemma pack_unpack_roundtrip_passes content b d w :
  append_dir_all (Some content) = Ok b → into_inner b = Ok d → pack_unpack_roundtrip content w = true.
Proof.
  intros Ha Hi. unfold pack_unpack_roundtrip.
  rewrite (bind_ok _ _ _ _ _ (pack_directory_ok _ content b d _ (lookup_singleton_eq _ _) Ha Hi)).
  unfold unpack_tar. cbn [dirs cas]. rewrite lookup_singleton_ne by done. simpl.
  rewrite (unpack_pack content b d Ha Hi). simpl. rewrite lookup_insert_eq. by apply bool_decide_eq_true.
Qed.
End tests.
End SnapshotTests.

Example snapshot_test_passes :
  let _ := MemStore.mem_store in let _ := DemoProject.tar in
  passes (SnapshotTests.snapshot_hash_is_deterministic_and_lands_in_cas (W := gmap Hash bytes) (T := bytes))
    (mkDisk ∅ {["/tmp/.tmp0/p" := [x61]]}) = true.
Proof. vm_compute. done. Qed.

(** ** project_client.rs *)

Module ClientTests.
Section tests.
Context {W T : Type} `{BlobStore W, Tar T, UuidText, HashOrder} (seed : N) (disk : Disk W T).
(** The ids and peer ids that the tests draw, and the clock. *)
Context (now : DateTime) (self n1 n2 : NodeId) (pid other : PeerId).

Definition make_node (node_id : NodeId) (raft_id : N) (project_sandbox : bool) : NodeDescriptor :=
  let k := Capabilities_default in
  mkNodeDescriptor node_id Heavy Linux
    (mkCapabilities (storage k) (gpu_acceleration k) (runtimes k) (max_memory_mb k) (cpu_cores k) project_sandbox)
    [] [] now (Some raft_id).
Definition cluster_of (nodes : gmap NodeId NodeDescriptor) : ClusterState := mkClusterState nodes ∅ 0.
Definition client (state : ClusterState) (registry : RaftIdRegistry) : ProjectClient W T :=
  client_new (mkSender [] []) (CatalogRaft state registry) ∅ disk self.
Definition resolves (c : ProjectClient W T) (target : option NodeId) (peer : PeerId) : bool :=
  match resolve_peer seed target c with Ok p => assert_eq p peer | Err _ => false end.

Definition resolve_peer_picks_capable_node : bool :=
  resolves (client (cluster_of {[n1 := make_node n1 1 true]}) (registry_insert 1 pid ∅)) None pid.

Definition resolve_peer_rejects_without_capable_node : bool :=
  match resolve_peer seed None (client (cluster_of {[n1 := make_node n1 1 false]}) ∅) with
  | Err _ => true
  | Ok _ => false
  end.

(** [dir] is the directory with the file that the test writes. *)
Definition submit_local_project_packs_and_sends_task (dir : string) (fresh_id : TaskId) (time : N) : bool :=
  let c := client (cluster_of {[n1 := make_node n1 1 true]}) (registry_insert 1 pid ∅) in
  match submit_local_project seed fresh_id time dir "/root/project" ["true"] [] 1000 None c with
  | (Done (Ok task_id), c) =>
      match sent (swarm_commands c) with
      | SendProjectTask peer_id task :: _ =>
          assert_eq peer_id pid && assert_eq (pt_task_id task) task_id &&
          assert_eq (tar_bytes (pt_snapshot task)) [] && negb (assert_eq (snapshot_hash (pt_snapshot task)) "")
      | _ => false
      end
  | _ => false
  end.

Definition resolve_peer_is_deterministic_by_raft_id : bool :=
  let n_large := n1 in let n_small := n2 in
  let state := cluster_of (<[n_small := make_node n_small 2 true]> {[n_large := make_node n_large 9 true]}) in
  resolves (client state (registry_insert 9 other (registry_insert 2 pid ∅))) None pid.

Definition peers_catalog_resolves_from_descriptors : bool :=
  let c := client_new (mkSender [] []) (CatalogPeers {[pid := make_node n1 1 true]}) ∅ disk self in
  resolves c None pid && resolves c (Some n1) pid.
End tests.

Import (hints) DemoProject.
Import (hints) DemoState.

Example client_tests_pass :
  let on (test : N → Disk (gmap Hash bytes) bytes → DateTime → NodeId → NodeId → PeerId → bool) :=
    test 0%N DemoProject.disk 0%Z 1%N 7%N 22%N in
  on resolve_peer_picks_capable_node &&
  on (λ seed disk now self n1 _, resolve_peer_rejects_without_capable_node seed disk now self n1) &&
  on (λ seed disk now self n1 pid,
        submit_local_project_packs_and_sends_task seed disk now self n1 pid "/src" 11%N 0) &&
  on (λ seed disk now self n1 pid, resolve_peer_is_deterministic_by_raft_id seed disk now self n1 8%N pid 99%N) &&
  on peers_catalog_resolves_from_descriptors = true.
Proof. vm_compute. done. Qed.
End ClientTests.

(** ** raft/storage.rs *)

Module RaftStorageTests.
Section tests.
Context {W C : Type} `{BlobStore W, Lru C, SerdeJson JsonValue} (arc : W).

Definition storage : CasRaftStorage := new_empty (C := C) arc [1%N].
Definition entry (index term : N) (data : bytes) : Entry := mkEntry 0 term index data [] false.

Definition initial_state_on_empty_store : bool := assert_eq (hs_term (rs_hard_state (initial_state storage))) 0%N.

(** A call on the storage; the errors of the trait do not matter to the tests. *)
Definition raft_call {A} (m : M (CasRaftStorage (W := W) (C := C)) RaftError A) : M CasRaftStorage CoreError A :=
  map_err (λ _, Raft "") m.

Definition append_and_read_entries : M CasRaftStorage CoreError bool :=
  let! _ := append_entry (entry 1 1 [x01; x02; x03]) in
  let! first := λ s, (Done (Ok (first_index s)), s) in
  let! last := λ s, (Done (Ok (last_index s)), s) in
  let! es := raft_call (entries 1 2 None) in
  ret (assert_eq first 1%N && assert_eq last 1%N && assert_eq (e_index <$> es) [1%N]).

(** The term, little-endian, in front of the data. *)
Definition term_lookup : M CasRaftStorage CoreError bool :=
  let data := [x05; x00; x00; x00; x00; x00; x00; x00] ++ as_bytes "payload" in
  let! _ := append_entry (entry 1 5 data) in
  let! t := raft_call (RaftStorage.term 1) in
  ret (assert_eq t 5%N).

Definition snapshot_creation : M CasRaftStorage CoreError bool :=
  let! _ := mfor (λ i, append_entry (entry i 1 (as_bytes (fmt ["entry-"; dec i])))) (range 1 6) in
  let! snapshot := raft_call (RaftStorage.snapshot 3) in
  ret (match sn_metadata snapshot with Some m => assert_eq (md_index m) 5%N | None => false end &&
       negb (assert_eq (sn_data snapshot) [])).
End tests.
End RaftStorageTests.

Import (hints) DemoProject.
Import (hints) DemoState.

Example raft_storage_tests_pass :
  let storage := RaftStorageTests.storage (W := gmap Hash bytes) (C := option (N * Entry)) ∅ in
  RaftStorageTests.initial_state_on_empty_store (W := gmap Hash bytes) (C := option (N * Entry)) ∅ &&
  passes RaftStorageTests.append_and_read_entries storage && passes RaftStorageTests.term_lookup storage &&
  passes RaftStorageTests.snapshot_creation storage = true.
Proof. vm_compute. done. Qed.

(** ** cas_fetch.rs

    An awaited fetch is the sequence of its steps; the receiver of the command
    channel is dropped by the tests' setup. *)

Module FetchTests.
Section tests.
Context {W : Type} `{BlobStore W, HashOrder} (seed : N) (w : W) (pid : PeerId).

Definition fetcher (registry : RaftIdRegistry) : BlobFetcher :=
  fetcher_new w (mkSender [] [Some "channel closed"]) registry.
Definition outcome_of (id : N) (s : BlobFetcher (W := W)) : option (outcome CoreError bytes) :=
  match f_phase <$> CasFetch.fetches s !! id with Some (CasFetch.Finished r) => Some r | _ => None end.
Definition fails_with (why : string) (s : BlobFetcher (W := W)) : bool :=
  match outcome_of 0 s with
  | Some (Done (Err e)) => contains why (CoreError_to_string e)
  | _ => false
  end && assert_eq (waiters s) ∅.

Definition local_hit_needs_no_network : bool :=
  match CasFetch.with_store (bs_put (as_bytes "snapshot-bytes")) (fetcher ∅) with
  | (Done (Ok hash), f) =>
      match outcome_of 0 (step seed (Begin hash 0) f) with
      | Some (Done (Ok got)) => assert_eq got (as_bytes "snapshot-bytes")
      | _ => false
      end
  | _ => false
  end.

Definition missing_blob_without_peers_fails_fast_and_clearly : bool :=
  fails_with "no peer is known" (run seed (fetcher ∅) [Begin "deadbeef" 0; Proceed 0]).

(** The response arrives while the fetch waits; [hash] is that of the bytes. *)
Definition arriving_blob_wakes_the_waiter_and_lands_in_cas (hash : Hash) : bool :=
  let data := as_bytes "from-peer" in
  let f := run seed (fetcher (registry_insert 1 pid ∅)) [Begin hash 2; Proceed 0; Proceed 0; Proceed 0] in
  match on_blob_received hash true data f with
  | (Done (Ok delivered), f) =>
      let f := step seed (Proceed 0) f in
      delivered &&
      match outcome_of 0 f with Some (Done (Ok got)) => assert_eq got data | _ => false end &&
      match (bs_get hash (CasFetch.store f)).1 with Done (Ok kept) => assert_eq kept data | _ => false end &&
      assert_eq (waiters f) ∅
  | _ => false
  end.

Definition fetch_timeout_reports_the_wait_not_a_silent_pending : bool :=
  fails_with "timed out after" (run seed (fetcher (registry_insert 1 pid ∅))
    [Begin "missing" 0; Proceed 0; Proceed 0; Proceed 0; Expire 0]).
End tests.
End FetchTests.

Example fetch_tests_pass :
  let on (test : N → gmap Hash bytes → bool) := test 0%N ∅ in
  on FetchTests.local_hit_needs_no_network && on FetchTests.missing_blob_without_peers_fails_fast_and_clearly &&
  on (λ seed w, FetchTests.arriving_blob_wakes_the_waiter_and_lands_in_cas seed w 22%N "from-peer") &&
  on (λ seed w, FetchTests.fetch_timeout_reports_the_wait_not_a_silent_pending seed w 22%N) = true.
Proof. vm_compute. done. Qed.
