(* ===== verification/ConformanceAgent.v ===== *)
(** * The tests of the agent

    The unit tests of crates/agent/src/main.rs, in the manner of
    [ConformanceStorage], and the mock node that its round trip runs against.  The
    ignored test, which only prints, is left out. *)

From S2P Require Import Prelude CoreTypes Interfaces Text Json Effects FileSys BlobStore.
From S2P Require Import Project Ipc Agent AgentRun AgentNode ConformanceStorage ConformanceNode.

Definition info (files : list string) : WorkspaceInfo := mkWorkspaceInfo "/tmp/x" files.

Definition extract_json_takes_object_slice : bool := assert_eq (extract_json "noise { 1 } trailing") "{ 1 }".

Definition ensure_tool_is_robust_against_reused_vm_state : bool :=
  let cmd := ensure_tool "gcc" in
  contains "command -v gcc" cmd && contains "deb-src::DefaultEnabled=false" cmd &&
  contains "/var/lib/apt/lists/lock" cmd && contains "/var/lib/dpkg/lock-frontend" cmd &&
  contains "*Packages*" cmd && contains "mirrors.tuna.tsinghua.edu.cn" cmd &&
  contains "deb.debian.org/debian" cmd && negb (contains "&& echo" cmd).

(** [build_cmd[0].contains(pat)]: indexing an empty list panics. *)
Definition builds_with (pat : string) (p : Plan) : bool :=
  match build_cmd p with cmd :: _ => contains pat cmd | [] => false end.
Definition heuristic_c_single_file : bool :=
  let p := heuristic_plan (info ["main.c"]) in builds_with "gcc" p && assert_eq (run_cmd p) ["./app"].
Definition heuristic_cargo_project : bool :=
  builds_with "cargo build" (heuristic_plan (info ["Cargo.toml"; "src/main.rs"])).
Definition heuristic_makefile : bool := builds_with "make" (heuristic_plan (info ["Makefile"; "a.c"; "b.c"])).

Example planner_tests_pass :
  extract_json_takes_object_slice && ensure_tool_is_robust_against_reused_vm_state && heuristic_c_single_file &&
  heuristic_cargo_project && heuristic_makefile = true.
Proof. vm_compute. done. Qed.

(** ** The round trip against a mock node *)

(** What the mock has read of the current connection, and the polls it has seen. *)
Record MockNode := mkMockNode { mk_line : string; mk_polls : nat }.

Section mock.
Context `{JsonText, UuidText, Base64}.

(** The result of a request, and the polls after it. *)
Definition mock_result (method : string) (polls : nat) : JsonValue * nat :=
  if decide (method = "submit_project") then
    (json_object [("task_id", JString "11111111-1111-1111-1111-111111111111")], polls)
  else if decide (method = "fetch_project_result") then
    let polls := S polls in
    (if polls <? 2 then json_object [("status", JString "pending")]
     else json_object [("status", JString "completed"); ("exit_code", JNumber 0);
       ("stdout", JString (base64_encode (as_bytes ("project-hello" +:+ nl)))); ("stderr", JString "");
       ("execution_time_ms", JNumber 1); ("executed_on", JString "22222222-2222-2222-2222-222222222222")], polls)
  else (JNull, polls).

(** The mock answers the request of a connection with one line; a line that is not
    JSON ends it, so that the client reads nothing. *)
Definition mock_answer (s : MockNode) : string * MockNode :=
  match json_parse (trim (mk_line s)) with
  | Ok req =>
      let '(result, polls) := mock_result (default "" (as_str (json_member "method" req))) (mk_polls s) in
      (json_text (json_object [("jsonrpc", JString "2.0"); ("result", result); ("id", json_member "id" req)]) +:+ nl,
       mkMockNode "" polls)
  | Err _ => ("", s)
  end.

(** The operating system of the test: a socket that leads to the mock. *)
Definition mock_serve X (c : AgentCall X) : MockNode → X * MockNode :=
  match c in AgentCall X return MockNode → X * MockNode with
  | EnvVar _ => λ s, (None, s)
  | NewUuid => λ s, (0%N, s)
  | Connect _ => λ s, (Ok tt, mkMockNode "" (mk_polls s))
  | WriteAll text => λ s, (Ok tt, mkMockNode (mk_line s +:+ text) (mk_polls s))
  | Flush => λ s, (Ok tt, s)
  | ReadLine => λ s, let '(line, s) := mock_answer s in (Ok line, s)
  | Sleep _ => λ s, (tt, s)
  | Canonicalize p => λ s, (Ok p, s)
  | IsDir _ => λ s, (false, s)
  | ReadDir _ => λ s, (Err "no such directory", s)
  | ReadToString _ => λ s, (Err "no such file", s)
  | FileMode _ => λ s, (None, s)
  | RunCurl _ => λ s, (Err "no such program", s)
  | Stdout _ | Stderr _ => λ s, (tt, s)
  end.

Definition submit_and_wait_roundtrip_against_mock_node : bool :=
  let args := mkRunArgs "." "/tmp/eo-it/ipc.sock" None None 1 true false in
  let plan := mkPlan [] ["true"] "/root/project" in
  match (exec mock_serve (submit_and_wait args (mkWorkspaceInfo "." []) plan) (mkMockNode "" 0)).1 with
  | Returned res =>
      assert_eq (as_str (json_member "status" res)) (Some "completed") &&
      match as_str (json_member "stdout" res) with
      | Some out => assert_eq (decode out) ("project-hello" +:+ nl)
      | None => false
      end
  | _ => false
  end.
End mock.

Import (hints) DemoNode.

Example roundtrip_test_passes : submit_and_wait_roundtrip_against_mock_node = true.
Proof. vm_compute. done. Qed.
